(* ===== verification/_CoqProject ===== *)
-Q . S2P
Prelude.v
ThresholdSig.v
Sha256Fips.v
PyRepr.v
MainConfig.v
CoinEngine.v
Shamir.v
CoinSpec.v
Threshold.v
Scheduler.v
SchedTermination.v
Liveness.v
Runner.v
RunCommonCoin.v
MainProgram.v
Network.v
Examples.v
ExamplesRun.v
