(* ===== verification/Prelude.v ===== *)
(** * A verification development for HoneyBadgerMPC's common coin

    The program is [src/honeybadgermpc/protocols/commoncoin.py]. It is an
    asynchronous threshold-signature common coin. [shared_coin] checks its
    configuration (lines 31-32) and allocates two [defaultdict]s:
    [received] (round -> dict party -> signature share) and [output_queue]
    (round -> asyncio.Queue(1)). It starts the receive task [_recv] and
    returns the closure [get_coin].
    - [_recv] (lines 36-80) consumes [(i, (tag, r, sig_bytes))] messages.
      For each one it deserialises the share and asserts [i in range(n)]
      and [r >= 0]. A share whose sender already has one for [r] is
      dropped. Otherwise the share is verified against
      [pk.hash_message(str((sid, r)))] and recorded. When round [r] holds
      exactly [f+1] shares, their combination is computed and checked.
      The coin bit [sha256(serialize(sig))[0] % 2] is then put into
      [output_queue[r]].
    - [get_coin(round)] (lines 84-97) broadcasts [('COIN', round,
      serialize(sk.sign(h)))] and then awaits [output_queue[round].get()].
    The two interact only through the shared [output_queue] store: the
    receive task is its only writer, and callers of [get_coin] consume it.

    ** Files (dependency order) and what they model
    - [Prelude] (this file) holds the development's scope [py_scope]:
      - Python's exceptions as the values of [PyExc], among them
        [CommonCoinFailureException] (lines 9-11), which the code
        declares and never raises;
      - the state-and-exception monad [PyM], whose store survives a
        raised exception, as a Python heap does;
      - insertion-ordered Python dicts as association lists ([dict_mem],
        [dict_set]);
      - the reflexive-transitive closure [star] of a step relation;
      - the hint databases [py] and [py_rw], the tactic [py_unfold], and
        the shared lemmas on dicts and [take].
    - [ThresholdSig]: the threshold-signature scheme and [hashlib.sha256]
      that the source calls ([boldyreva.py] is not under src/). They are
      typeclasses [TBLS] and [Sha256]. The law of the scheme the coin
      relies on ([TBLSLaws]) says any [k] verified shares from distinct
      holders combine to the one signature [tsig pk h], which verifies.
      [ToyTBLS] is a computable instance satisfying the laws, used by the
      witnesses.
    - [Shamir]: a real instance of the threshold laws. [boldyreva]'s
      scheme in the exponent: the master key is [f(0)] for a polynomial
      [f] of degree below [k] modulo a prime, party [i] holds [f(i+1)],
      and [combine_shares] is Lagrange interpolation at [0]. The
      interpolation theorem (module [Lagrange]) makes it an instance of
      [TBLSLaws] and [TBLSKeys]. Any [k] verified shares give the same
      signature.
    - [Sha256Fips]: [hash(x)] (lines 14-15), [hashlib.sha256], as an
      executable SHA-256 following FIPS 180-4 on 32-bit words kept in
      [Z] with their wrap-around. It is an instance of [Sha256] and
      matches the FIPS test vectors. Theorems: the padding's bounds, the
      round trip of the big-endian codec, and the rotation of words.
    - [PyRepr]: [str((sid, r))], the context string that is hashed. It
      models CPython's [repr] of a string and of an int. A parser
      [parse_context] reads the string back, and the round-trip theorem
      shows the context string determines the session and the round.
    - [MainConfig]: the [__main__] block (lines 123-181), in a sum monad
      [PyRes] over [PyExc]. The environment settings ([from_env]), the
      [sys.argv] overrides stopped by [IndexError] ([argv_override]),
      the four [ConfigurationError] checks with their messages
      ([check_settings]), the configuration reads, [int()] and
      [str.split] as CPython defines them ([py_int], [py_split]), and the
      [network_info] comprehension ([build_info]), composed as
      [main_args]. [load_config] and the key unpickling are section
      parameters. Theorems: the overrides are per-setting, the
      [ConfigurationError] is the first unset setting's, [int(str(z))]
      and split/join round trips, and the shape of every [NodeDetails].
    - [CoinEngine]: the store of [shared_coin] ([CoinState]: [received],
      [output_queue], the printed log, the broadcast outbox), the parts of
      [asyncio.Queue(1)] the code uses, and the code's operations:
      - [recv_iter] is one iteration of [_recv]. A received payload
        ([WireMsg]) may fail to unpack at line 40 ([TypeError] if it is
        not iterable, [ValueError] if it is not a 3-tuple) or carry a
        round that is not a number ([TypeError] at line 46). [recv_step]
        is the same iteration as an inductive relation with one rule per
        branch of the code, errors included, used for the proofs by rule
        induction. [recv_loop] runs [_recv] on the messages [receive()]
        returned.
      - [get_coin_call] and [queue_get_now] are [get_coin] up to and from
        its [await].
      - [shared_coin_init] is the configuration asserts.
      - [sys_step] and [reachable] cover every interleaving of these atomic
        steps, which is what asyncio's cooperative scheduling allows.
      Its theorems:
      - the invariant [coin_inv], proved by induction on the rules and
        holding in every reachable store;
      - freedom from [QueueFull] and exactly-once publication;
      - duplicate immunity, forged-share tolerance and round independence;
      - two divergences from the spec: an out-of-range sender kills the
        receive task, and a second [get_coin(r)] never returns.
    - [CoinSpec]: the abstract specification. The coin of round [r] is
      [abstract_coin cfg r], a function of the session, the round and the
      public key only.
      - The refinement theorem: in every reachable store, a completed
        [get_coin(r)] returns [abstract_coin cfg r].
      - Agreement between two parties, and the bit bound.
      - [shared_coin]'s configuration check.
      - An abstract state machine [abs_step] whose state maps published
        rounds to their bits ([AbsCoin]), and a simulation theorem: every
        reachable store's log, read by [abs_of_log], is reached by the
        abstract machine from the empty map.
    - [Threshold]: what a run of messages publishes.
      - Necessity: fewer than [f+1] distinct valid senders publish nothing.
      - No crash: [_recv] raises only on malformed input, given the
        scheme's laws.
      - Sufficiency: [f+1] distinct valid senders in a well-formed run
        publish the abstract coin and leave it in [output_queue[r]].
    - [Scheduler]: the tasks. [Sched] adds to the store the state of
      [recv_task] (running, crashed, cancelled), the messages delivered
      to [receive()], each round's [_getters] deque of [asyncio.Queue],
      and the state of each caller of [get_coin] (waiting, woken,
      returned, cancelled). [sched_exec] runs one action: a delivery, a
      receive iteration ([sched_recv], whose [put_nowait] wakes the first
      getter, [wakeup_next]), a call ([sched_call]), the resumption of a
      woken caller ([sched_resume]), or a cancellation. Every action
      refines a sequence of [sys_step]s. Theorems: at most one caller of
      [get_coin(r)] ever returns, and it returns the abstract coin.
    - [SchedTermination]: between two inputs (a delivery, a new call) the
      tasks run only internal actions. The measure [sched_measure] (two
      per undelivered message, two per woken and one per waiting caller,
      one for a running [recv_task]) falls at every internal action from
      a state satisfying [getters_ok]. So every run of internal actions
      from a reachable state is finite ([Acc]), and no longer than the
      measure.
    - [Liveness]: what callers can expect. Once [recv_task] has stopped
      before round [r] was put, a caller suspended in [get_coin(r)]
      stays suspended in every continuation that does not cancel it: it
      neither returns nor receives an exception ([pending]). From any
      reachable state where [recv_task] runs and nobody waits for an
      unput round [r], a new caller of [get_coin(r)] is woken by the put
      and returns the abstract coin, once [f+1] distinct valid shares for
      [r] have been processed.
    - [Runner]: the loop of [run_common_coin] (lines 115-117), awaiting
      [coin(i)] round after round and then cancelling [recv_task], as a
      schedule of [Scheduler]'s actions ([coin_loop]). When each round's
      messages are well-formed, of that round, and carry [f+1] distinct
      valid shares, every [coin(i)] returns the abstract coin of round [i]
      and the receive task ends cancelled. The proof is an induction on
      the rounds with the invariant [loop_inv], each round discharged by
      [Liveness].
    - [RunCommonCoin]: [run_common_coin] (lines 102-120) and the event
      loop of the [__main__] block (lines 175-181, [main_loop]) as
      interaction trees (ITree) over the events [RunE]: the process
      runner's calls, [shared_coin], [await coin(i)], [logging.info],
      the cancellation, the closes and the event loop's calls. The loop
      is [ITree.iter]; an exception is a result [Raise e] passed on by
      [pbind], and [finally: loop.close()] runs on either result. The
      handler [h_run] makes the calls to the process runner, the [send]s
      of the closure [broadcast] (lines 110-112), the logger and the
      loop visible events [Emit], and keeps [Scheduler]'s tasks
      in a state [RunSt]; an [await coin(i)] runs [Runner]'s round
      schedule and answers the value [get_coin] returned, or never
      answers ([ITree.spin]). [n], [f] and the global [t] are the
      Python values the caller passes ([MainConfig.MainBlock.JVal]):
      [shared_coin_check] evaluates the asserts of lines 31-32 on them,
      [f + 1] raising [TypeError] on a value that is not an integer, and
      agrees with [CoinEngine.shared_coin_init] on integers. Theorems, up
      to [eutt]: a failing check ([TypeError] or [AssertionError])
      escapes after the loop is closed but leaves the sender and listener
      open; outside [__main__] the function raises [NameError] first;
      [t = -1] with a key of threshold [k = 0] passes the asserts, after
      which [coin(0)] broadcasts and the script never ends.
    - [MainProgram]: the whole script, [main_program]: the [__main__]
      block's [main_args] and, when it returns, [main_loop] running
      [run_common_coin] with the loaded [N] and [t] as they are.
      Theorems: when every check passes and the ten rounds are served,
      the environment sees the event loop, the runner's calls, the
      sends of the party's shares and the log lines of the abstract
      coins, round after round, and the closes; a configuration without
      the unused key [k] stops the program with [KeyError('k')] before
      anything is emitted.
    - [Network]: all the parties. [run_common_coin] hands [shared_coin]
      the closure [broadcast] (lines 110-112), which sends to every party
      over a transport that is not under src/. The transport is modelled
      from the spec: fire-and-forget [send], and a [receive()] that keeps
      each sender's order, so there is one FIFO channel per pair of
      parties. [Net] holds every honest party's [Sched] and the channels.
      Faulty parties send anything on their own channels. Theorems:
      - Agreement: in every reachable state, two honest parties whose
        [get_coin(r)] returned got the same bit, whatever the faulty
        parties sent.
      - Liveness: when at least [f+1] parties are honest with the keys
        the dealer gave them and the faulty ones stay silent, the run in
        which every honest party calls [get_coin(r)] and receives the
        honest shares returns the coin at every honest party.
      - A faulty party that sends one share for a negative round stops an
        honest party's coin for every round not yet put; so does an
        honest party's own [get_coin] with a negative round, for every
        other honest party that receives its share.
      The keys' laws are the class [TBLSKeys] of [ThresholdSig].
    - [Examples]: two concrete parties with the toy scheme, schedules of
      party A's tasks, and the witnesses of every theorem with
      hypotheses.
    - [ExamplesRun]: party A's runs of the whole program and of
      [run_common_coin] under the event loop: a command line and a
      configuration file with ten rounds of shares, the same file without
      [k], a string [t], a key of threshold [0], and an import as a
      module, with the witnesses of their theorems.

    ** Bounds and fuel
    [_recv] is an infinite loop: [recv_loop] runs it on the finite prefix
    of messages [receive()] has returned. It is structural on that list,
    so no fuel is needed, and every run is total. A crash of the task
    (an uncaught exception) is an explicit result ([Raise]), after which
    [recv_loop] processes nothing more, as the dead task does. Party ids
    and rounds are Python ints, modelled as [Z] (the code asserts their
    ranges, and the model keeps the failing case). [n] and [f] are [nat]
    in the coin's configuration; they reach [shared_coin] as Python
    values, and the configuration is built once its asserts pass. With
    [f = -1] (a key with [k = 0]) the asserts pass but no round can
    resolve, and the program waits forever at [await coin(0)].
    The bit is [Z.of_N byte mod 2], proved to be [0] or [1].
    The termination of the tasks between inputs is by the measure of
    [SchedTermination], a [nat], with no fuel. [py_int] and [py_split]
    are structural on the string.
    In [RunCommonCoin] the loop [for i in range(10)] is [ITree.iter],
    and its run is proved by induction on [10 - i]. An [await coin(i)]
    that never completes is the divergent tree [ITree.spin], not a
    bound on fuel.

    ** Not modelled
    - What [ProcessProgramRunner], [sender.connect], [get_send_and_recv]
      and the closes of [run_common_coin] do inside [honeybadgermpc.ipc]
      (not under src/): [RunCommonCoin] makes these calls visible
      events and does not model the sockets behind them.
    - In the [__main__] block: [load_config], [base64.b64decode] and
      [pickle.loads], which are not under src/. They are parameters of
      [main_args] and [main_program], one loader per key, each returning
      the object at the type the code uses it at. A loaded configuration
      value is an integer, a string, a list or a dictionary; booleans,
      floats and [None] are not modelled. The imports of lines 124-131
      are assumed to succeed. [int()] is modelled on the code points
      0-255, where the Unicode digits other than [0-9] do not occur.
    - Liveness in the network is shown for one explicit schedule in
      which every share is delivered. Fairness of delivery in general is
      not modelled.
    - The pairing arithmetic inside [boldyreva], abstracted by [TBLS] and
      its laws. The engine's theorems hold for every [Sha256] instance;
      the witnesses use a checksum, and [Examples] evaluates one coin
      with [Sha256Fips].
    - [logging.debug] calls without effect. The [print]s of lines 48 and
      58 and the debug line 78 are modelled as log events of the store;
      they are not visible events of [RunCommonCoin]'s interaction tree,
      whose trace holds the calls to the process runner, its channel,
      [logging.info] and the event loop.
    - In [sys_step], the receive task may still step after it crashed.
      This over-approximation keeps the safety theorems sound, and
      [Scheduler], where a crashed task stops, refines it.
    - Fairness of asyncio's event loop: the liveness theorem is stated
      for an explicit schedule ([run_actions]), not for every fair one.

    ** Plan for later sittings
    1. Liveness of the network under a fair scheduler, beyond the
       explicit schedules of [Liveness], [Runner] and [Network].
*)

From stdpp Require Export base list gmap strings.
From Stdlib Require Export ZArith Strings.Byte.
From Stdlib Require Import Lia.

Declare Scope py_scope.
Delimit Scope py_scope with py.
Open Scope Z_scope.

(** ** Python exceptions that the modelled code can raise *)
Inductive PyExc :=
| AssertionError     (** a failed [assert] *)
| ValueError         (** a message that does not unpack as [(i, (_, r, b))]; [int()] of a malformed [str] *)
| DeserializeError   (** [deserialize1] on bytes that are not a group element *)
| IndexError         (** indexing past the end of a [bytes] or a [list] *)
| QueueFull          (** [Queue.put_nowait] on a full queue *)
| KeyError (key : string)             (** [d[key]] on a missing key *)
| AttributeError                      (** a method the value's type does not have *)
| ConfigurationError (msg : string)   (** [honeybadgermpc.exceptions.ConfigurationError] *)
| CommonCoinFailureException          (** lines 9-11 *)
| TypeError                           (** an operator on a value of the wrong type: [f + 1] on a [str], unpacking a
                                          value that is not iterable, [r >= 0] on a round that is not a number *)
| NameError (name : string).          (** a global that is not assigned *)

#[export] Instance PyExc_eq_dec : EqDecision PyExc.
Proof. solve_decision. Defined.

(** ** The result of a computation: a value or a raised exception *)
Inductive Outcome (A : Type) :=
| Ok (a : A)
| Raise (e : PyExc).
Arguments Ok {A} a.
Arguments Raise {A} e.

(** ** Python's heap-threading with exceptions: the store survives a raise *)
Definition PyM (S A : Type) : Type := S -> Outcome A * S.

Section Monad.
Context {S : Type}.

Definition py_ret {A} (a : A) : PyM S A := fun s => (Ok a, s).

Definition py_bind {A B} (c : PyM S A) (k : A -> PyM S B) : PyM S B :=
  fun s => match c s with
           | (Ok a, s') => k a s'
           | (Raise e, s') => (Raise e, s')
           end.

Definition py_raise {A} (e : PyExc) : PyM S A := fun s => (Raise e, s).
Definition py_get : PyM S S := fun s => (Ok s, s).
Definition py_put (s : S) : PyM S unit := fun _ => (Ok tt, s).
Definition py_modify (f : S -> S) : PyM S unit := fun s => (Ok tt, f s).

(** [assert b]: raises [AssertionError] when [b] is false *)
Definition py_assert (b : bool) : PyM S unit :=
  if b then py_ret tt else py_raise AssertionError.

(** a call that raises [e] where the model's function is undefined *)
Definition py_lift {A} (e : PyExc) (o : option A) : PyM S A :=
  match o with Some a => py_ret a | None => py_raise e end.

End Monad.

Notation "x <- c ;; k" := (py_bind c (fun x => k))
  (at level 100, c at next level, right associativity) : py_scope.
Notation "c ;; k" := (py_bind c (fun _ => k))
  (at level 100, right associativity) : py_scope.

(** ** Python dicts: insertion-ordered association lists *)
Section Dict.
Context {K V : Type} `{EqDecision K}.

Definition dict_keys (d : list (K * V)) : list K := map fst d.

(** [k in d] *)
Definition dict_mem (k : K) (d : list (K * V)) : bool :=
  bool_decide (k ∈ dict_keys d).

(** [d[k] = v]: a present key keeps its position, a new one goes last *)
Fixpoint dict_set (k : K) (v : V) (d : list (K * V)) : list (K * V) :=
  match d with
  | [] => [(k, v)]
  | (k', v') :: d' => if decide (k = k') then (k, v) :: d' else (k', v') :: dict_set k v d'
  end.

Lemma dict_set_fresh k v d : dict_mem k d = false -> dict_set k v d = d ++ [(k, v)].
Proof.
  unfold dict_mem, dict_keys. rewrite bool_decide_eq_false.
  induction d as [|[k' v'] d IH]; intros Hn; simpl; [done|].
  rewrite decide_False by set_solver. rewrite IH; set_solver.
Qed.

Lemma dict_keys_app d d' : dict_keys (d ++ d') = dict_keys d ++ dict_keys d'.
Proof. apply map_app. Qed.

Lemma dict_mem_true k d : dict_mem k d = true <-> k ∈ dict_keys d.
Proof. unfold dict_mem. apply bool_decide_eq_true. Qed.

Lemma dict_mem_false k d : dict_mem k d = false <-> k ∉ dict_keys d.
Proof. unfold dict_mem. apply bool_decide_eq_false. Qed.

Lemma dict_set_fresh_nodup k v d :
  dict_mem k d = false -> NoDup (dict_keys d) -> NoDup (dict_keys (dict_set k v d)).
Proof.
  intros Hf Hnd. rewrite dict_set_fresh, dict_keys_app by done.
  apply dict_mem_false in Hf. apply NoDup_app. split_and!; [done| |by constructor; [set_solver|constructor]].
  intros x Hx. set_solver.
Qed.

Lemma dict_set_fresh_length k v d :
  dict_mem k d = false -> length (dict_set k v d) = S (length d).
Proof. intros Hf. rewrite dict_set_fresh, length_app by done. simpl. lia. Qed.

End Dict.

(** ** Automation shared by the components *)
Create HintDb py discriminated.
Create Rewrite HintDb py_rw.
#[export] Hint Resolve dict_set_fresh_nodup : py.
#[export] Hint Rewrite @dict_set_fresh_length @dict_keys_app : py_rw.

(** Unfold the monad operations so that [simpl] runs a modelled handler. *)
Ltac py_unfold :=
  unfold py_assert, py_lift, py_bind, py_ret, py_raise, py_get, py_put, py_modify in *.

(** Case on the boolean guards a handler tests, keeping their equations. *)
Ltac split_guard :=
  match goal with
  | |- context [if ?b then _ else _] =>
      lazymatch b with
      | context [if _ then _ else _] => fail
      | _ => let E := fresh "Eg" in destruct b eqn:E
      end
  end.

(** ** Finite sequences of steps of a transition relation *)
Section Star.
Context {A : Type} (R : A -> A -> Prop).

Inductive star : A -> A -> Prop :=
| star_refl a : star a a
| star_step a b c : R a b -> star b c -> star a c.

(** a property every step keeps holds at the end of every sequence *)
Lemma star_preserves (P : A -> Prop) a b :
  (forall x y, P x -> R x y -> P y) -> star a b -> P a -> P b.
Proof. intros Hstep Hs. induction Hs; eauto. Qed.

Lemma star_snoc a b c : star a b -> R b c -> star a c.
Proof. induction 1; intros; econstructor; eauto using star. Qed.

Lemma star_one a b : R a b -> star a b.
Proof. eauto using star. Qed.

Lemma star_trans a b c : star a b -> star b c -> star a c.
Proof. induction 1; eauto using star. Qed.

End Star.

(** ** Shared lemmas on [take] (Python's slice [l[:k]]) *)
Lemma take_all_length {A} (l : list A) k : length l = k -> take k l = l.
Proof. intros <-. apply firstn_all. Qed.
