(* ===== verification/ThresholdSig.v ===== *)
(** * The threshold-signature scheme and the hash the coin calls

    [commoncoin.py] uses [boldyreva.TBLSPublicKey] ([pk.k], [pk.l],
    [pk.hash_message], [pk.verify_share], [pk.combine_shares],
    [pk.verify_signature]), [TBLSPrivateKey.sign], the group-element codec
    [serialize]/[deserialize1] and [hashlib.sha256]. None of this code is
    under src/. It is stated here, from the spec's section 6, as the
    typeclass [TBLS], with the laws the coin relies on as [TBLSLaws], the
    laws of the dealt private keys as [TBLSKeys], and [Sha256] with its
    digest-length law. Shares and combined signatures
    are the same type [Elem], as in boldyreva, where both are G1 group
    elements.

    [ToyTBLS] is a small computable instance of these classes. It satisfies
    the laws and is the instance the witnesses evaluate on. *)

From S2P Require Import Prelude.
From Stdlib Require Import Lia NArith Ascii.

(** ** The scheme's operations, as the source calls them *)
Class TBLS (PK SK Elem Digest : Type) := {
  pk_k : PK -> nat;                                (** [pk.k]: shares needed *)
  pk_l : PK -> nat;                                (** [pk.l]: shareholders *)
  hash_message : PK -> string -> Digest;           (** [pk.hash_message(s)] *)
  sign : SK -> Digest -> Elem;                     (** [sk.sign(h)] *)
  verify_share : PK -> Elem -> Z -> Digest -> bool;
      (** [pk.verify_share(sig, i, h)]: [false] is its [AssertionError] *)
  combine_shares : PK -> list (Z * Elem) -> Elem;  (** [pk.combine_shares(sigs)] *)
  verify_signature : PK -> Elem -> Digest -> bool; (** [pk.verify_signature(sig, h)] *)
  serialize : Elem -> list byte;                   (** [boldyreva.serialize] *)
  deserialize1 : list byte -> option Elem          (** [boldyreva.deserialize1]; [None] raises *)
}.

(** ** [hashlib.sha256(x).digest()] *)
Class Sha256 := {
  sha256 : list byte -> list byte;
  sha256_length : forall x, length (sha256 x) = 32%nat
}.

(** ** The contract of a threshold scheme

    [tsig pk h] is the signature on [h] that the threshold key determines.
    Any [pk_k pk] shares that verify, from distinct shareholders in range,
    combine to it, and it verifies. This is the property the spec's
    section 8 ("Determinism of bit derivation") relies on. *)
Class TBLSLaws (PK SK Elem Digest : Type) `{TBLS PK SK Elem Digest} := {
  tsig : PK -> Digest -> Elem;
  combine_valid : forall pk h (ss : list (Z * Elem)),
    (0 < pk_k pk)%nat ->
    NoDup (map fst ss) ->
    length ss = pk_k pk ->
    Forall (fun p => 0 <= p.1 < Z.of_nat (pk_l pk) /\ verify_share pk p.2 p.1 h = true) ss ->
    combine_shares pk ss = tsig pk h;
  verify_tsig : forall pk h, verify_signature pk (tsig pk h) h = true
}.

(** ** The keys the dealer hands to the parties

    [key_of pk i sk] says [sk] is party [i]'s private key under [pk], as
    [boldyreva.dealer] produces them. A share signed with it verifies as
    [i]'s share, and its encoding decodes back to it. The network model
    uses these laws for the shares honest parties broadcast. *)
Class TBLSKeys (PK SK Elem Digest : Type) `{TBLS PK SK Elem Digest} := {
  key_of : PK -> Z -> SK -> Prop;
  sign_verifies : forall pk i sk s, key_of pk i sk ->
    verify_share pk (sign sk (hash_message pk s)) i (hash_message pk s) = true;
  sign_decodes : forall pk i sk s, key_of pk i sk ->
    deserialize1 (serialize (sign sk (hash_message pk s))) = Some (sign sk (hash_message pk s))
}.

(** ** A computable instance used by the witnesses

    The key fixes [k] and [l], and the hash is a positional checksum of
    the string modulo 4096. The share of party [i] on [h] is [16 h + i],
    which requires [i < 16], and the signature on [h] is [16 h]. Elements
    are encoded as two little-endian bytes. *)
Module ToyTBLS.

Record ToyPK := { toy_k : nat; toy_l : nat }.

(** the toy private key is the holder's index *)
Definition ToySK := Z.

Fixpoint toy_hash_string (s : string) : N :=
  match s with
  | EmptyString => 0
  | String c s' => (N_of_ascii c + 31 * toy_hash_string s') mod 4096
  end%N.

Definition toy_verify_share (pk : ToyPK) (e : N) (i : Z) (h : N) : bool :=
  (0 <=? i) && (i <? Z.of_nat (toy_l pk)) && (i <? 16) && (e =? 16 * h + Z.to_N i)%N.

Definition toy_combine (pk : ToyPK) (ss : list (Z * N)) : N :=
  match ss with
  | (i, e) :: _ => (e - Z.to_N i)%N
  | [] => 0%N
  end.

Definition toy_serialize (e : N) : list byte :=
  [default x00 (Byte.of_N (e mod 256)); default x00 (Byte.of_N ((e / 256) mod 256))]%N.

Definition toy_deserialize (bs : list byte) : option N :=
  match bs with
  | [b0; b1] => Some (Byte.to_N b0 + 256 * Byte.to_N b1)%N
  | _ => None
  end.

#[export] Instance toy_tbls : TBLS ToyPK ToySK N N := {
  pk_k := toy_k;
  pk_l := toy_l;
  hash_message := fun _ s => toy_hash_string s;
  sign := fun i h => (16 * h + Z.to_N i)%N;
  verify_share := toy_verify_share;
  combine_shares := toy_combine;
  verify_signature := fun _ e h => (e =? 16 * h)%N;
  serialize := toy_serialize;
  deserialize1 := toy_deserialize
}.

Lemma toy_combine_valid pk h (ss : list (Z * N)) :
  (0 < toy_k pk)%nat -> NoDup (map fst ss) -> length ss = toy_k pk ->
  Forall (fun p => 0 <= p.1 < Z.of_nat (toy_l pk) /\ toy_verify_share pk p.2 p.1 h = true) ss ->
  toy_combine pk ss = (16 * h)%N.
Proof.
  intros Hk _ Hlen Hall. destruct ss as [|[i e] ss]; simpl in *; [lia|].
  inversion Hall as [|? ? [_ Hv] _]; subst. simpl in Hv.
  unfold toy_verify_share in Hv. apply andb_prop in Hv as [_ He%N.eqb_eq]. lia.
Qed.

#[export] Instance toy_tbls_laws : TBLSLaws ToyPK ToySK N N := {
  tsig := fun _ h => (16 * h)%N;
  combine_valid := toy_combine_valid;
  verify_tsig := fun _ h => N.eqb_refl _
}.

Lemma toy_hash_bound s : (toy_hash_string s < 4096)%N.
Proof. destruct s; simpl; [lia|apply N.mod_lt; lia]. Qed.

Lemma toy_codec e : (e < 65536)%N -> toy_deserialize (toy_serialize e) = Some e.
Proof.
  intros He. unfold toy_serialize, toy_deserialize.
  assert (H0 : (e mod 256 < 256)%N) by (apply N.mod_lt; lia).
  assert (H1 : (e / 256 < 256)%N) by (apply N.Div0.div_lt_upper_bound; lia).
  rewrite (N.mod_small (e / 256)) by done.
  destruct (Byte.of_N (e mod 256)) as [b0|] eqn:E0; [|apply Byte.of_N_None_iff in E0; lia].
  destruct (Byte.of_N (e / 256)) as [b1|] eqn:E1; [|apply Byte.of_N_None_iff in E1; lia].
  simpl. rewrite (Byte.to_of_N _ E0), (Byte.to_of_N _ E1). f_equal.
  pose proof (N.div_mod e 256 ltac:(lia)). lia.
Qed.

(** party [i]'s key is [i] itself, for the sixteen parties the shares
    can name *)
Definition toy_key_of (pk : ToyPK) (i : Z) (sk : ToySK) : Prop :=
  sk = i /\ 0 <= i < Z.of_nat (toy_l pk) /\ i < 16.

Lemma toy_sign_verifies pk i sk s : toy_key_of pk i sk ->
  toy_verify_share pk (16 * toy_hash_string s + Z.to_N sk)%N i (toy_hash_string s) = true.
Proof.
  intros (-> & Hl & H16). unfold toy_verify_share.
  rewrite (proj2 (Z.leb_le 0 i)), (proj2 (Z.ltb_lt i _)), (proj2 (Z.ltb_lt i 16)) by lia.
  apply N.eqb_refl.
Qed.

Lemma toy_sign_decodes pk i sk s : toy_key_of pk i sk ->
  toy_deserialize (toy_serialize (16 * toy_hash_string s + Z.to_N sk)%N) = Some (16 * toy_hash_string s + Z.to_N sk)%N.
Proof. intros (-> & _ & ?). pose proof (toy_hash_bound s). apply toy_codec. lia. Qed.

#[export] Instance toy_tbls_keys : TBLSKeys ToyPK ToySK N N := {
  key_of := toy_key_of;
  sign_verifies := toy_sign_verifies;
  sign_decodes := toy_sign_decodes
}.

(** A checksum standing in for SHA-256 in witnesses: 32 bytes whose first
    is the byte sum. *)
Definition toy_digest (x : list byte) : list byte :=
  default x00 (Byte.of_N (foldr (fun b acc => (Byte.to_N b + acc) mod 256) 0 x)%N)
    :: replicate 31 x00.

#[export] Instance toy_sha256 : Sha256 := {
  sha256 := toy_digest;
  sha256_length := fun x => eq_refl
}.

End ToyTBLS.
