(* ===== verification/Sha256Fips.v ===== *)
(** * [hash(x)]: SHA-256 as FIPS 180-4 defines it

    [commoncoin.py]'s [hash(x)] (lines 14-15) is
    [hashlib.sha256(x).digest()], and line 77 takes byte [0] of it. This
    file is an executable SHA-256 on [list byte]:
    - words are 32-bit values in [Z], each addition wrapped with [w32];
    - the constants [K] and the initial hash value are computed as FIPS
      defines them, from the cube and square roots of the first primes;
    - the rotations and shifts use [Z.shiftr], [Z.shiftl], [Z.lor],
      [Z.land] and [Z.lxor];
    - the message is padded ([sha_pad]), split into 64-byte blocks, each
      block's schedule is extended to 64 words ([schedule]), and the 64
      rounds ([sha_round]) run over the eight registers.
    It is an instance of [ThresholdSig.Sha256] ([Fips.fips_sha256]), and
    it agrees with the FIPS 180-4 test vectors for [""] and ["abc"].

    Its theorems: the digest has 32 bytes, so [hash(...)[0]] never raises;
    the padding extends the message to a multiple of 64 bytes with between
    9 and 72 bytes; the big-endian codec round-trips; [rotr] rotates
    32-bit words. *)

From S2P Require Import Prelude ThresholdSig.
From Stdlib Require Import Lia.

Module Fips.

(** ** 32-bit words *)

(** addition modulo [2^32] *)
Definition w32 (x : Z) : Z := x mod 2 ^ 32.

Definition rotr (n x : Z) : Z := Z.lor (Z.shiftr x n) (w32 (Z.shiftl x (32 - n))).

Definition not32 (x : Z) : Z := Z.lxor x (Z.ones 32).

Definition ch (x y z : Z) : Z := Z.lxor (Z.land x y) (Z.land (not32 x) z).
Definition maj (x y z : Z) : Z := Z.lxor (Z.lxor (Z.land x y) (Z.land x z)) (Z.land y z).
Definition bsig0 (x : Z) : Z := Z.lxor (Z.lxor (rotr 2 x) (rotr 13 x)) (rotr 22 x).
Definition bsig1 (x : Z) : Z := Z.lxor (Z.lxor (rotr 6 x) (rotr 11 x)) (rotr 25 x).
Definition ssig0 (x : Z) : Z := Z.lxor (Z.lxor (rotr 7 x) (rotr 18 x)) (Z.shiftr x 3).
Definition ssig1 (x : Z) : Z := Z.lxor (Z.lxor (rotr 17 x) (rotr 19 x)) (Z.shiftr x 10).

(** ** The constants (FIPS 180-4, 4.2.2 and 5.3.3) *)

(** the largest [y] in [[lo, hi)] with [y^3 <= x], by bisection *)
Fixpoint cbrt_search (k : nat) (lo hi x : Z) : Z :=
  match k with
  | O => lo
  | S k' =>
      let mid := (lo + hi) / 2 in
      if mid ^ 3 <=? x then cbrt_search k' mid hi x else cbrt_search k' lo mid x
  end.

(** the integer cube root, for [x < 2^120] *)
Definition zcbrt (x : Z) : Z := cbrt_search 64 0 (2 ^ 40) x.

Definition is_prime (n : Z) : bool :=
  (2 <=? n) && forallb (fun d => negb (n mod d =? 0)) (map Z.of_nat (seq 2 (Z.to_nat n - 2))).

(** the first [k] primes, [k <= 78] *)
Definition first_primes (k : nat) : list Z := take k (filter is_prime (map Z.of_nat (seq 2 400))).

(** [K]: the first 32 bits of the fractional parts of the cube roots of
    the first 64 primes *)
Definition K256 : list Z := map (fun p => zcbrt (p * 2 ^ 96) mod 2 ^ 32) (first_primes 64).

(** the initial hash value: the first 32 bits of the fractional parts of
    the square roots of the first 8 primes *)
Definition H0_words : list Z := map (fun p => Z.sqrt (p * 2 ^ 64) mod 2 ^ 32) (first_primes 8).

(** ** Bytes and words *)

Definition byte_of_Z (x : Z) : byte := default x00 (Byte.of_N (Z.to_N (x mod 256))).
Definition Z_of_byte (b : byte) : Z := Z.of_N (Byte.to_N b).

(** the [n] low bytes of [x], big-endian *)
Fixpoint be_bytes (n : nat) (x : Z) : list byte :=
  match n with
  | O => []
  | S n' => be_bytes n' (x / 256) ++ [byte_of_Z x]
  end.

(** big-endian bytes to a number *)
Definition be_value (bs : list byte) : Z := foldl (fun acc b => acc * 256 + Z_of_byte b) 0 bs.

(** a block as its sixteen words *)
Fixpoint block_words (bs : list byte) : list Z :=
  match bs with
  | b0 :: b1 :: b2 :: b3 :: rest => be_value [b0; b1; b2; b3] :: block_words rest
  | _ => []
  end.

(** ** Padding (FIPS 180-4, 5.1.1) *)

(** the message, [0x80], zero bytes up to 56 modulo 64, and the length in
    bits as 8 big-endian bytes *)
Definition sha_pad (m : list byte) : list byte :=
  m ++ [x80] ++ replicate ((119 - length m mod 64) mod 64) x00 ++ be_bytes 8 (8 * Z.of_nat (length m)).

(** ** The message schedule (6.2.2, step 1) *)

(** [W_t = ssig1 W_(t-2) + W_(t-7) + ssig0 W_(t-15) + W_(t-16)], for [k] more words *)
Fixpoint extend (k : nat) (w : list Z) : list Z :=
  match k with
  | O => w
  | S k' =>
      let t := length w in
      extend k' (w ++ [w32 (ssig1 (nth (t - 2) w 0) + nth (t - 7) w 0 + ssig0 (nth (t - 15) w 0) + nth (t - 16) w 0)])
  end.

Definition schedule (block : list byte) : list Z := extend 48 (block_words block).

(** ** The compression function (6.2.2, steps 2-4) *)

Record Regs := mkRegs { ra : Z; rb : Z; rc : Z; rd : Z; re : Z; rf : Z; rg : Z; rh : Z }.

Definition H0 : Regs :=
  let w i := nth i H0_words 0 in mkRegs (w 0%nat) (w 1%nat) (w 2%nat) (w 3%nat) (w 4%nat) (w 5%nat) (w 6%nat) (w 7%nat).

Definition sha_round (s : Regs) (kt wt : Z) : Regs :=
  let t1 := w32 (rh s + bsig1 (re s) + ch (re s) (rf s) (rg s) + kt + wt) in
  let t2 := w32 (bsig0 (ra s) + maj (ra s) (rb s) (rc s)) in
  mkRegs (w32 (t1 + t2)) (ra s) (rb s) (rc s) (w32 (rd s + t1)) (re s) (rf s) (rg s).

Definition add_regs (x y : Regs) : Regs :=
  mkRegs (w32 (ra x + ra y)) (w32 (rb x + rb y)) (w32 (rc x + rc y)) (w32 (rd x + rd y))
         (w32 (re x + re y)) (w32 (rf x + rf y)) (w32 (rg x + rg y)) (w32 (rh x + rh y)).

Definition compress (hv : Regs) (block : list byte) : Regs :=
  add_regs hv (foldl (fun s kw => sha_round s kw.1 kw.2) hv (zip K256 (schedule block))).

(** the blocks of a padded message, one per step *)
Fixpoint hash_blocks (k : nat) (hv : Regs) (m : list byte) : Regs :=
  match k with
  | O => hv
  | S k' => hash_blocks k' (compress hv (take 64 m)) (drop 64 m)
  end.

Definition regs_bytes (s : Regs) : list byte :=
  be_bytes 4 (ra s) ++ be_bytes 4 (rb s) ++ be_bytes 4 (rc s) ++ be_bytes 4 (rd s) ++
  be_bytes 4 (re s) ++ be_bytes 4 (rf s) ++ be_bytes 4 (rg s) ++ be_bytes 4 (rh s).

(** [hashlib.sha256(m).digest()] *)
Definition sha256_digest (m : list byte) : list byte :=
  let p := sha_pad m in regs_bytes (hash_blocks (length p / 64) H0 p).

(** ** The digest has 32 bytes *)

Lemma be_bytes_length n x : length (be_bytes n x) = n.
Proof. revert x. induction n as [|n IH]; intros x; [done|]. simpl. rewrite length_app, IH. simpl. lia. Qed.

Lemma sha256_digest_length m : length (sha256_digest m) = 32%nat.
Proof. unfold sha256_digest, regs_bytes. rewrite !length_app, !be_bytes_length. done. Qed.

#[export] Instance fips_sha256 : Sha256 := {| sha256 := sha256_digest; sha256_length := sha256_digest_length |}.

(** ** Bytes and words *)

Lemma Z_of_byte_of_Z x : Z_of_byte (byte_of_Z x) = x mod 256.
Proof.
  unfold Z_of_byte, byte_of_Z. pose proof (Z.mod_pos_bound x 256 ltac:(lia)) as Hb.
  destruct (Byte.of_N (Z.to_N (x mod 256))) as [b|] eqn:E; simpl.
  - apply Byte.to_of_N in E. rewrite E. lia.
  - apply Byte.of_N_None_iff in E. lia.
Qed.

Lemma Z_of_byte_range b : 0 <= Z_of_byte b < 256.
Proof. unfold Z_of_byte. pose proof (Byte.to_N_bounded b). lia. Qed.

Lemma byte_of_Z_of_byte b : byte_of_Z (Z_of_byte b) = b.
Proof.
  unfold byte_of_Z. rewrite Z.mod_small by apply Z_of_byte_range. unfold Z_of_byte.
  by rewrite N2Z.id, Byte.of_to_N.
Qed.

Lemma be_value_snoc bs b : be_value (bs ++ [b]) = be_value bs * 256 + Z_of_byte b.
Proof. unfold be_value. by rewrite foldl_app. Qed.

Lemma be_bytes_be_value bs : be_bytes (length bs) (be_value bs) = bs.
Proof.
  induction bs as [|b bs IH] using rev_ind; [done|]. rewrite length_app, Nat.add_comm. simpl.
  rewrite be_value_snoc. pose proof (Z_of_byte_range b).
  rewrite Z.div_add_l, Z.div_small, Z.add_0_r, IH by lia. f_equal. f_equal.
  assert (Hm : (be_value bs * 256 + Z_of_byte b) mod 256 = Z_of_byte b mod 256)
    by (rewrite Z.add_comm, Z.mod_add; lia).
  unfold byte_of_Z. rewrite Hm. fold (byte_of_Z (Z_of_byte b)). apply byte_of_Z_of_byte.
Qed.

(** Round trip of the big-endian codec. [n] big-endian bytes read
    back as the number they encode, for every [n]-byte value (the digest
    is written with [n = 4] per word, and the length field with [n = 8]);
    and reading any byte string and writing it back with as many bytes
    gives the string. *)
Theorem be_codec_roundtrip n x bs :
  (0 <= x < 2 ^ (8 * Z.of_nat n) -> be_value (be_bytes n x) = x) /\
  be_bytes (length bs) (be_value bs) = bs.
Proof.
  split; [|apply be_bytes_be_value]. revert x. induction n as [|n IH]; intros x Hx.
  { change (Z.of_nat 0) with 0 in Hx. rewrite Z.mul_0_r, Z.pow_0_r in Hx. change (0 = x). lia. }
  simpl. rewrite be_value_snoc, Z_of_byte_of_Z, IH; [pose proof (Z.div_mod x 256 ltac:(lia)); lia|].
  split; [apply Z.div_pos; lia|]. apply Z.div_lt_upper_bound; [lia|].
  replace (8 * Z.of_nat (S n)) with (8 * Z.of_nat n + 8) in Hx by lia. rewrite Z.pow_add_r in Hx by lia. lia.
Qed.

(** the zero bytes bring [l + 1] to 56 modulo 64 *)
Lemma pad_zeros_mod l : ((l + 1 + (119 - l mod 64) mod 64 + 8) mod 64 = 0)%nat.
Proof.
  pose proof (Nat.div_mod l 64 ltac:(lia)) as Hl. pose proof (Nat.mod_upper_bound l 64 ltac:(lia)) as Hr.
  set (q := (l / 64)%nat) in *. set (r := (l mod 64)%nat) in *.
  destruct (decide (r <= 55)%nat).
  - rewrite <- (Nat.mod_unique (119 - r) 64 1 (55 - r)) by lia. symmetry. apply (Nat.mod_unique _ _ (q + 1)); lia.
  - rewrite (Nat.mod_small (119 - r)) by lia. symmetry. apply (Nat.mod_unique _ _ (q + 2)); lia.
Qed.

(** Bounds of the padding. The padded message is whole 64-byte
    blocks, adds between 9 and 72 bytes, and starts with the message. *)
Theorem sha_pad_bounds m :
  (length (sha_pad m) mod 64 = 0)%nat /\
  (length m + 9 <= length (sha_pad m) <= length m + 72)%nat /\
  take (length m) (sha_pad m) = m.
Proof.
  unfold sha_pad. rewrite !length_app, length_replicate, be_bytes_length. change (length [x80]) with 1%nat.
  rewrite take_app_length. pose proof (pad_zeros_mod (length m)).
  pose proof (Nat.mod_upper_bound (119 - length m mod 64) 64 ltac:(lia)).
  split_and!; [|lia|lia|done]. by replace (length m + (1 + ((119 - length m mod 64) mod 64 + 8)))%nat
    with (length m + 1 + (119 - length m mod 64) mod 64 + 8)%nat by lia.
Qed.

(** ** Rotation of 32-bit words *)

Lemma w32_testbit x i : 0 <= i -> Z.testbit (w32 x) i = (i <? 32) && Z.testbit x i.
Proof.
  intros Hi. unfold w32. destruct (Z.ltb_spec i 32).
  - by rewrite Z.mod_pow2_bits_low.
  - by rewrite Z.mod_pow2_bits_high by lia.
Qed.

Lemma word_testbit_high x i : 0 <= x < 2 ^ 32 -> 32 <= i -> Z.testbit x i = false.
Proof. intros Hx Hi. rewrite <- (Z.mod_small x (2 ^ 32)) by done. apply Z.mod_pow2_bits_high. lia. Qed.

(** a number whose bits from 32 up are clear is a 32-bit word *)
Lemma word_of_bits y : (forall i, 32 <= i -> Z.testbit y i = false) -> 0 <= y < 2 ^ 32.
Proof.
  intros Hy. assert (Hw : y = w32 y).
  { apply Z.bits_inj'. intros i Hi. rewrite w32_testbit by done.
    destruct (Z.ltb_spec i 32); [done|]. by rewrite Hy by lia. }
  rewrite Hw. apply Z.mod_pos_bound. lia.
Qed.

Lemma rotr_spec n x i :
  0 < n < 32 -> 0 <= x < 2 ^ 32 -> 0 <= i ->
  Z.testbit (rotr n x) i = if decide (i < 32) then Z.testbit x ((i + n) mod 32) else false.
Proof.
  intros Hn Hx Hi. unfold rotr. rewrite Z.lor_spec, Z.shiftr_spec, w32_testbit, Z.shiftl_spec by lia.
  case_decide.
  - rewrite (proj2 (Z.ltb_lt i 32)) by done. simpl. destruct (decide (i + n < 32)).
    + rewrite Z.mod_small, (Z.testbit_neg_r x (i - (32 - n))) by lia. apply orb_false_r.
    + rewrite word_testbit_high by lia. simpl. f_equal. rewrite <- (Z.mod_unique (i + n) 32 1 (i + n - 32)); lia.
  - rewrite word_testbit_high by lia. rewrite (proj2 (Z.ltb_ge i 32)) by lia. done.
Qed.

(** [rotr n] is the rotation of a 32-bit word by [n] places: the
    result is a 32-bit word, and its bit [i] is bit [(i + n) mod 32] of
    the input, for [0 < n < 32] (FIPS 180-4, 3.2: [ROTR^n]) *)
Theorem rotr_rotates n x :
  0 < n < 32 -> 0 <= x < 2 ^ 32 ->
  0 <= rotr n x < 2 ^ 32 /\ forall i, 0 <= i < 32 -> Z.testbit (rotr n x) i = Z.testbit x ((i + n) mod 32).
Proof.
  intros Hn Hx. split.
  - apply word_of_bits. intros i Hi. rewrite rotr_spec by lia. by rewrite decide_False by lia.
  - intros i Hi. rewrite rotr_spec by lia. by rewrite decide_True by lia.
Qed.

(** ** The FIPS 180-4 test vectors *)

Example sha256_empty :
  sha256_digest [] =
    [xe3; xb0; xc4; x42; x98; xfc; x1c; x14; x9a; xfb; xf4; xc8; x99; x6f; xb9; x24;
     x27; xae; x41; xe4; x64; x9b; x93; x4c; xa4; x95; x99; x1b; x78; x52; xb8; x55].
Proof. vm_compute. reflexivity. Qed.

Example sha256_abc :
  sha256_digest [x61; x62; x63] =
    [xba; x78; x16; xbf; x8f; x01; xcf; xea; x41; x41; x40; xde; x5d; xae; x22; x23;
     xb0; x03; x61; xa3; x96; x17; x7a; x9c; xb4; x10; xff; x61; xf2; x00; x15; xad].
Proof. vm_compute. reflexivity. Qed.

End Fips.
