(* ===== verification/PyRepr.v ===== *)
(** * The context string [str((sid, r))]

    [_recv] (line 51) and [get_coin] (line 92) both hash
    [str((sid, r))]. Python's [str] of a tuple is ["("], the [repr] of each
    element separated by [", "], then [")"]. [repr] of an int is its
    decimal text, and [repr] of a string follows CPython's
    [unicode_repr]. The string is quoted with [']. It is quoted with ["]
    instead when it contains ['] and no ["]. The chosen quote and the
    backslash are escaped, as are tab, newline and carriage return. Other
    control characters, and the Latin-1 characters that are not
    printable, are written [\xhh] in lowercase hex. Strings are
    [String.string], whose characters are the code points 0-255.

    [parse_context] reads such a string back. The round-trip theorem
    [context_string_roundtrip] shows the context string determines the
    session and the round, so shares for different rounds are checked
    against different hashed strings. *)

From S2P Require Import Prelude.
From Stdlib Require Import Lia Ascii String DecimalString DecimalZ.

Definition dquote : ascii := ascii_of_nat 34.
Definition squote : ascii := ascii_of_nat 39.
Definition bslash : ascii := ascii_of_nat 92.

Definition hex_digit (n : nat) : ascii :=
  if (n <? 10)%nat then ascii_of_nat (48 + n) else ascii_of_nat (87 + n).

(** [\xhh] *)
Definition hex_escape (n : nat) : string :=
  String bslash (String "x" (String (hex_digit (n / 16)) (String (hex_digit (n mod 16)) EmptyString))).

(** [Py_UNICODE_ISPRINTABLE] on the code points 0x80-0xFF *)
Definition latin1_printable (n : nat) : bool :=
  (161 <=? n)%nat && negb (n =? 173)%nat.

(** the quote [unicode_repr] chooses *)
Definition repr_quote (s : string) : ascii :=
  if bool_decide (squote ∈ list_ascii_of_string s) && negb (bool_decide (dquote ∈ list_ascii_of_string s))
  then dquote else squote.

Definition repr_char (q c : ascii) : string :=
  let n := nat_of_ascii c in
  if bool_decide (c = q) || bool_decide (c = bslash) then String bslash (String c EmptyString)
  else if (n =? 9)%nat then String bslash (String "t" EmptyString)
  else if (n =? 10)%nat then String bslash (String "n" EmptyString)
  else if (n =? 13)%nat then String bslash (String "r" EmptyString)
  else if (n <? 32)%nat || (n =? 127)%nat then hex_escape n
  else if (n <? 127)%nat then String c EmptyString
  else if latin1_printable n then String c EmptyString
  else hex_escape n.

Fixpoint repr_body (q : ascii) (s : string) : string :=
  match s with
  | EmptyString => EmptyString
  | String c s' => (repr_char q c ++ repr_body q s')%string
  end.

(** [repr(s)] for a Python [str] *)
Definition py_repr_str (s : string) : string :=
  let q := repr_quote s in String q (repr_body q s ++ String q EmptyString)%string.

(** [str(r)] and [repr(r)] for a Python [int] *)
Definition py_str_int (r : Z) : string := NilZero.string_of_int (Z.to_int r).

(** [str((sid, r))] *)
Definition context_string (sid : string) (r : Z) : string :=
  ("(" ++ py_repr_str sid ++ ", " ++ py_str_int r ++ ")")%string.

(** ** Reading the round back *)

(** [int(s)] on the strings [str] of an int produces *)
Definition py_int_of_string (s : string) : option Z :=
  option_map Z.of_int (NilZero.int_of_string s).

Lemma int_of_string_of_int d :
  option_map Z.of_int (NilZero.int_of_string (NilZero.string_of_int d)) = Some (Z.of_int d).
Proof.
  destruct d as [u|u]; destruct u;
    first [rewrite NilZero.isi_posnil|rewrite NilZero.isi_negnil|rewrite NilZero.isi by discriminate];
    reflexivity.
Qed.

(** [int(str(r)) == r] *)
Theorem py_int_of_str r : py_int_of_string (py_str_int r) = Some r.
Proof. unfold py_int_of_string, py_str_int. by rewrite int_of_string_of_int, DecimalZ.of_to. Qed.

Lemma str_app_assoc (a b c : string) : ((a ++ b) ++ c = a ++ (b ++ c))%string.
Proof.
  induction a as [|x a IH]; [done|].
  change (String x ((a ++ b) ++ c) = String x (a ++ b ++ c))%string. by rewrite IH.
Qed.

(** ** Reading [repr(s)] back *)

(** the value of a lowercase hex digit *)
Definition hex_val (c : ascii) : nat :=
  let m := nat_of_ascii c in if (m <? 58)%nat then m - 48 else m - 87.

Definition ucons (c : ascii) (o : option (string * string)) : option (string * string) :=
  match o with Some (s, rest) => Some (String c s, rest) | None => None end.

(** the body of a [repr] quoted with [q], up to its closing quote: the
    decoded string and what follows the quote *)
Fixpoint unrepr_body (q : ascii) (s : string) : option (string * string) :=
  match s with
  | EmptyString => None
  | String c s' =>
      if bool_decide (c = q) then Some (EmptyString, s')
      else if bool_decide (c = bslash) then
        match s' with
        | String "t" s'' => ucons (ascii_of_nat 9) (unrepr_body q s'')
        | String "n" s'' => ucons (ascii_of_nat 10) (unrepr_body q s'')
        | String "r" s'' => ucons (ascii_of_nat 13) (unrepr_body q s'')
        | String "x" (String h1 (String h2 s'')) =>
            ucons (ascii_of_nat (hex_val h1 * 16 + hex_val h2)) (unrepr_body q s'')
        | String c2 s'' => ucons c2 (unrepr_body q s'')
        | EmptyString => None
        end
      else ucons c (unrepr_body q s')
  end.

(** each escaped character decodes back, for either quote [repr] uses *)
Lemma unrepr_repr_char q c t :
  q = squote \/ q = dquote ->
  unrepr_body q (repr_char q c ++ t) = ucons c (unrepr_body q t).
Proof.
  intros [-> | ->]; destruct c as [[] [] [] [] [] [] [] []]; reflexivity.
Qed.

Lemma unrepr_repr_body q s rest :
  q = squote \/ q = dquote ->
  unrepr_body q (repr_body q s ++ String q rest) = Some (s, rest).
Proof.
  intros Hq. induction s as [|c s IH].
  - change (unrepr_body q (String q rest) = Some (EmptyString, rest)). simpl. by rewrite bool_decide_true.
  - change (unrepr_body q ((repr_char q c ++ repr_body q s) ++ String q rest) = Some (String c s, rest)).
    by rewrite str_app_assoc, unrepr_repr_char, IH.
Qed.

(** the text before a final [")"] *)
Fixpoint drop_last_paren (s : string) : option string :=
  match s with
  | String ")" EmptyString => Some EmptyString
  | String c s' => option_map (String c) (drop_last_paren s')
  | EmptyString => None
  end.

Lemma drop_last_paren_cons2 c c' t :
  drop_last_paren (String c (String c' t)) = option_map (String c) (drop_last_paren (String c' t)).
Proof. destruct c as [[] [] [] [] [] [] [] []]; reflexivity. Qed.

Lemma drop_last_paren_app a : drop_last_paren (a ++ ")") = Some a.
Proof.
  induction a as [|c a IH]; [done|].
  change (drop_last_paren (String c (a ++ ")")) = Some (String c a)).
  destruct (a ++ ")")%string as [|c' t] eqn:E; [by destruct a|].
  by rewrite drop_last_paren_cons2, IH.
Qed.

(** reading [str((sid, r))] back *)
Definition parse_context (s : string) : option (string * Z) :=
  match s with
  | String "(" (String q rest) =>
      match unrepr_body q rest with
      | Some (sid, String "," (String " " rest')) =>
          match drop_last_paren rest' with
          | Some digits => option_map (fun r => (sid, r)) (py_int_of_string digits)
          | None => None
          end
      | _ => None
      end
  | _ => None
  end.

Lemma repr_quote_cases s : repr_quote s = squote \/ repr_quote s = dquote.
Proof. unfold repr_quote. destruct (_ && _); auto. Qed.

(** C15: round trip: [str((sid, r))] reads back as [(sid, r)]. So the
    context string determines both the session and the round, and shares
    for distinct rounds or sessions are verified against distinct hashed
    strings. *)
Theorem context_string_roundtrip sid r : parse_context (context_string sid r) = Some (sid, r).
Proof.
  unfold context_string, py_repr_str. set (q := repr_quote sid).
  change (parse_context (String "(" (String q ((repr_body q sid ++ String q EmptyString)
            ++ ", " ++ py_str_int r ++ ")"))) = Some (sid, r))%string.
  rewrite str_app_assoc.
  change (parse_context (String "(" (String q (repr_body q sid ++ String q
            (String "," (String " " (py_str_int r ++ ")")))))) = Some (sid, r))%string.
  unfold parse_context. rewrite unrepr_repr_body by apply repr_quote_cases.
  by rewrite drop_last_paren_app, py_int_of_str.
Qed.
