(* ===== verification/MainConfig.v ===== *)
(** * The [__main__] block: settings, configuration and peers

    Lines 123-181 of [commoncoin.py] start one party. They read four
    settings from the environment ([os.environ.get], lines 133-136). The
    command-line arguments [sys.argv[1..4]] override them in order, in a
    [try] whose [except IndexError: pass] keeps the overrides made
    before the first missing argument (lines 139-145). Four checks raise
    [ConfigurationError] on a setting that is unset or empty (lines
    147-161). Then the block:
    - loads the configuration file;
    - reads [N], [t] and [k] from it;
    - unpickles the two keys;
    - converts the node id with [int()];
    - builds [network_info] from the [peers] dictionary, with
      [str.split(':')] and [int()] (lines 163-173);
    - runs [run_common_coin] on these values (line 179).

    The model:
    - [from_env], [argv_override] and [check_settings] are the settings;
    - [py_int] is CPython's [int(str)] on the code points [0-255]: it
      strips whitespace, takes an optional sign, and reads decimal digits
      with single underscores between them;
    - [py_split] is [str.split(sep)];
    - [node_details] and [build_info] are the dictionary comprehension;
    - [main_args] composes the whole block. It returns the arguments
      [run_common_coin] receives, or the exception the block raises.
    [load_config], [base64.b64decode] and [pickle.loads] are not under
    src/. They are the section's parameters [load_config], [load_pk]
    and [load_sk], so the theorems hold whatever they do. A loaded value
    is an integer, a string, a list or a dictionary ([JVal]); booleans,
    floats and [None] are not modelled. The dictionary comprehension
    evaluates the key before the value, as Python 3.8 and later do. The
    exceptions are those of [Prelude.PyExc], raised in the sum monad
    [PyRes]. The event loop of lines 175-181, which runs
    [run_common_coin], is [RunCommonCoin.main_loop]; [MainProgram]
    composes the block with it.

    Theorems:
    - the sequential overrides equal independent per-setting overrides;
    - a [ConfigurationError] is raised exactly when a setting is unset or
      empty, with the message of the first such setting;
    - [int(str(z)) == z], and joining [str.split] restores the string;
    - a host in [network_info] never contains [':'], so an IPv6 address
      cannot be configured. *)

From S2P Require Import Prelude PyRepr.
From Stdlib Require Import Lia Ascii String DecimalString DecimalZ.

Module MainBlock.

(** ** [str] operations *)

(** [str.isspace()] on the code points [0-255] *)
Definition is_py_space (c : ascii) : bool :=
  let n := nat_of_ascii c in
  (((9 <=? n) && (n <=? 13)) || ((28 <=? n) && (n <=? 32)) || (n =? 133) || (n =? 160))%nat.

Definition is_digit (c : ascii) : bool := let n := nat_of_ascii c in ((48 <=? n) && (n <=? 57))%nat.

Fixpoint lstrip (l : list ascii) : list ascii :=
  match l with
  | c :: l' => if is_py_space c then lstrip l' else l
  | [] => []
  end.

(** [s.strip()] *)
Definition py_strip (l : list ascii) : list ascii := rev (lstrip (rev (lstrip l))).

(** the digits of an [int] literal: a digit first, and every ['_']
    followed by a digit *)
Fixpoint underscores_ok (l : list ascii) : bool :=
  match l with
  | [] => true
  | c :: l' =>
      if Ascii.eqb c "_" then match l' with d :: _ => is_digit d && underscores_ok l' | [] => false end
      else underscores_ok l'
  end.

(** the optional sign of an [int] literal *)
Definition py_sign (l : list ascii) : bool * list ascii :=
  match l with
  | c :: b => if Ascii.eqb c "-" then (true, b) else if Ascii.eqb c "+" then (false, b) else (false, l)
  | [] => (false, [])
  end.

(** [int(s)] for a [str] [s]: [None] is the [ValueError] *)
Definition py_int (s : string) : option Z :=
  let '(neg, body) := py_sign (py_strip (list_ascii_of_string s)) in
  match body with
  | c :: _ =>
      if is_digit c && underscores_ok body then
        option_map (fun u => if neg then - Z.of_uint u else Z.of_uint u)
          (NilZero.uint_of_string (string_of_list_ascii (filter (fun d => d <> "_"%char) body)))
      else None
  | [] => None
  end.

Fixpoint split_go (sep : ascii) (s : string) (cur : string) : list string :=
  match s with
  | EmptyString => [cur]
  | String c s' => if Ascii.eqb c sep then cur :: split_go sep s' EmptyString else split_go sep s' (cur ++ String c EmptyString)%string
  end.

(** [s.split(sep)] for a one-character separator: every occurrence
    splits, and empty pieces are kept *)
Definition py_split (sep : ascii) (s : string) : list string := split_go sep s EmptyString.

(** [sep.join(l)] *)
Definition py_join (sep : ascii) (l : list string) : string := String.concat (String sep EmptyString) l.

(** ** Exceptions and the result monad *)

Definition PyRes (A : Type) : Type := PyExc + A.

#[export] Instance res_ret : MRet PyRes := fun A x => inr x.
#[export] Instance res_bind : MBind PyRes := fun A B k m =>
  match m with inl e => inl e | inr x => k x end.

Definition raise {A} (e : PyExc) : PyRes A := inl e.

(** [int(s)], raising [ValueError] *)
Definition py_int_exc (s : string) : PyRes Z :=
  match py_int s with Some z => mret z | None => raise ValueError end.

(** [l[i]] for [i >= 0] *)
Definition py_index {A} (l : list A) (i : nat) : PyRes A :=
  match l !! i with Some x => mret x | None => raise IndexError end.

(** ** Settings: lines 133-161 *)

Record Settings := {
  configfile : option string;
  nodeid : option string;
  pvk_string : option string;
  pbk_string : option string }.

(** lines 133-136: [os.environ.get], [None] when unset *)
Definition from_env (env : gmap string string) : Settings := {|
  configfile := env !! "HBMPC_CONFIG";
  nodeid := env !! "HBMPC_NODE_ID";
  pvk_string := env !! "HBMPC_PV_KEY";
  pbk_string := env !! "HBMPC_PB_KEY" |}.

(** lines 139-145: the assignments from [sys.argv[1..4]] in order; the
    first missing index raises [IndexError], which [except] swallows,
    keeping the assignments already made *)
Definition argv_override (argv : list string) (s : Settings) : Settings :=
  match argv !! 1%nat with
  | None => s
  | Some a1 =>
      let s := {| configfile := configfile s; nodeid := Some a1; pvk_string := pvk_string s; pbk_string := pbk_string s |} in
      match argv !! 2%nat with
      | None => s
      | Some a2 =>
          let s := {| configfile := Some a2; nodeid := nodeid s; pvk_string := pvk_string s; pbk_string := pbk_string s |} in
          match argv !! 3%nat with
          | None => s
          | Some a3 =>
              let s := {| configfile := configfile s; nodeid := nodeid s; pvk_string := pvk_string s; pbk_string := Some a3 |} in
              match argv !! 4%nat with
              | None => s
              | Some a4 => {| configfile := configfile s; nodeid := nodeid s; pvk_string := Some a4; pbk_string := pbk_string s |}
              end
          end
      end
  end.

(** [not x] for [x] a [str] or [None] *)
Definition py_not (o : option string) : bool :=
  match o with None | Some EmptyString => true | Some _ => false end.

Definition msg_node_id : string :=
  "Environment variable `HBMPC_NODE_ID` must be set or a node id must be given as first argument.".
Definition msg_config : string :=
  "Environment variable `HBMPC_CONFIG` must be set or a config file must be given as first argument.".
Definition msg_pv_key : string :=
  "Environment variable `HBMPC_PV_KEY` must be set or a config file must be given as first argument.".
Definition msg_pb_key : string :=
  "Environment variable `HBMPC_PB_KEY` must be set or a config file must be given as first argument.".

(** the value of an optional setting once [not x] has failed *)
Definition setting (o : option string) : string := default EmptyString o.

(** lines 147-161: the four checks in order; they return the settings
    [(nodeid, configfile, pvk_string, pbk_string)] *)
Definition check_settings (s : Settings) : PyRes (string * string * string * string) :=
  if py_not (nodeid s) then raise (ConfigurationError msg_node_id)
  else if py_not (configfile s) then raise (ConfigurationError msg_config)
  else if py_not (pvk_string s) then raise (ConfigurationError msg_pv_key)
  else if py_not (pbk_string s) then raise (ConfigurationError msg_pb_key)
  else mret (setting (nodeid s), setting (configfile s), setting (pvk_string s), setting (pbk_string s)).

(** ** The configuration and [network_info]: lines 163-173 *)

(** the values a loaded configuration holds; a dictionary is its list of
    items in insertion order *)
Inductive JVal :=
  | JInt (z : Z)
  | JStr (s : string)
  | JList (l : list JVal)
  | JDict (items : list (string * JVal)).

Definition Dict := list (string * JVal).

(** [d[key]] *)
Definition dict_get (d : Dict) (key : string) : PyRes JVal :=
  match list_find (fun kv => kv.1 = key) d with
  | Some (_, (_, v)) => mret v
  | None => raise (KeyError key)
  end.

(** [v.items()]: only a dictionary has it *)
Definition dict_items (v : JVal) : PyRes Dict :=
  match v with JDict items => mret items | _ => raise AttributeError end.

(** [honeybadgermpc.ipc.NodeDetails], a named pair *)
Record NodeDetails := { ip : string; port : Z }.

(** line 171, the value: [NodeDetails(addrinfo.split(':')[0],
    int(addrinfo.split(':')[1]))], its arguments left to right; a value
    that is not a [str] has no [split] *)
Definition node_details (addrinfo : JVal) : PyRes NodeDetails :=
  match addrinfo with
  | JStr a =>
      host ← py_index (py_split ":" a) 0;
      p ← py_index (py_split ":" a) 1;
      pt ← py_int_exc p;
      mret {| ip := host; port := pt |}
  | _ => raise AttributeError
  end.

(** lines 170-173: the comprehension over [peers.items()] in order, the
    key [int(peerid)] before the value; a later item with the same key
    replaces the earlier one *)
Fixpoint build_info (acc : gmap Z NodeDetails) (items : Dict) : PyRes (gmap Z NodeDetails) :=
  match items with
  | [] => mret acc
  | (peerid, addrinfo) :: rest =>
      z ← py_int_exc peerid;
      nd ← node_details addrinfo;
      build_info (<[z := nd]> acc) rest
  end.

Definition network_info (items : Dict) : PyRes (gmap Z NodeDetails) := build_info ∅ items.

(** the arguments of [run_common_coin(network_info, pbk, pvk, n, t, nodeid)] *)
Record MainArgs {PKey SKey : Type} := {
  ma_config : gmap Z NodeDetails;
  ma_pbk : PKey;
  ma_pvk : SKey;
  ma_n : JVal;
  ma_t : JVal;
  ma_nodeid : Z }.
Arguments MainArgs : clear implicits.

Section Main.
(** [load_config] ([honeybadgermpc.config]) and
    [pickle.loads(base64.b64decode(_))] are not under src/: the block is
    modelled for every behaviour they may have. The unpickled objects of
    lines 167 and 168 are taken at the types the code uses them at: the
    public key and the private key. *)
Context {PKey SKey : Type} (load_config : string -> PyRes Dict)
  (load_pk : string -> PyRes PKey) (load_sk : string -> PyRes SKey).

(** lines 163-173, after the checks *)
Definition main_rest (nid cf pvk_s pbk_s : string) : PyRes (MainArgs PKey SKey) :=
  config_dict ← load_config cf;
  n ← dict_get config_dict "N";
  t ← dict_get config_dict "t";
  _ ← dict_get config_dict "k";
  pbk ← load_pk pbk_s;
  pvk ← load_sk pvk_s;
  nodeid_int ← py_int_exc nid;
  peers ← dict_get config_dict "peers";
  items ← dict_items peers;
  info ← network_info items;
  mret {| ma_config := info; ma_pbk := pbk; ma_pvk := pvk; ma_n := n; ma_t := t; ma_nodeid := nodeid_int |}.

(** lines 133-179: the block up to the call of [run_common_coin] *)
Definition main_args (env : gmap string string) (argv : list string) : PyRes (MainArgs PKey SKey) :=
  '(nid, cf, pvk_s, pbk_s) ← check_settings (argv_override argv (from_env env));
  main_rest nid cf pvk_s pbk_s.

End Main.

(** ** Reference definitions *)

(** one setting read on its own: the argument if it is given, otherwise
    the environment *)
Definition override (arg env : option string) : option string :=
  match arg with Some a => Some a | None => env end.

(** the message of the first setting [not x] holds of, in the order of
    the checks *)
Fixpoint first_falsy (l : list (option string * string)) : option string :=
  match l with
  | [] => None
  | (o, m) :: l' => if py_not o then Some m else first_falsy l'
  end.

Definition first_unset (s : Settings) : option string :=
  first_falsy [(nodeid s, msg_node_id); (configfile s, msg_config);
               (pvk_string s, msg_pv_key); (pbk_string s, msg_pb_key)].

(** [c not in s] *)
Definition no_char (c : ascii) (s : string) : Prop := ~ In c (list_ascii_of_string s).

(** ** [str] lemmas *)

Lemma list_ascii_of_string_app (a b : string) :
  list_ascii_of_string (a ++ b) = list_ascii_of_string a ++ list_ascii_of_string b.
Proof.
  induction a as [|c a IH]; [done|].
  change (c :: list_ascii_of_string (a ++ b) = c :: list_ascii_of_string a ++ list_ascii_of_string b). by rewrite IH.
Qed.

Lemma str_app_nil_r (a : string) : (a ++ EmptyString)%string = a.
Proof. induction a as [|c a IH]; [done|]. change (String c (a ++ EmptyString) = String c a)%string. by rewrite IH. Qed.

Lemma digits_of_uint_empty u : Forall (fun c => is_digit c = true) (list_ascii_of_string (NilEmpty.string_of_uint u)).
Proof. induction u; simpl; [constructor|constructor; [reflexivity|assumption]..]. Qed.

Lemma digits_of_uint u : Forall (fun c => is_digit c = true) (list_ascii_of_string (NilZero.string_of_uint u)).
Proof. destruct u; [repeat constructor|apply digits_of_uint_empty..]. Qed.

Lemma digit_not_space c : is_digit c = true -> is_py_space c = false.
Proof.
  unfold is_digit, is_py_space. intros [H1 H2]%andb_prop. apply Nat.leb_le in H1, H2.
  repeat (apply orb_false_intro || apply andb_false_intro2 || apply andb_false_intro1);
    first [apply Nat.leb_gt | apply Nat.eqb_neq]; lia.
Qed.

Lemma lstrip_id l : Forall (fun c => is_py_space c = false) l -> lstrip l = l.
Proof. intros H. destruct H as [|c l Hc _]; [done|]. simpl. by rewrite Hc. Qed.

Lemma py_strip_id l : Forall (fun c => is_py_space c = false) l -> py_strip l = l.
Proof.
  intros H. unfold py_strip. rewrite (lstrip_id l H), lstrip_id; [apply rev_involutive|].
  by apply Forall_rev.
Qed.

Lemma digit_ne c d : is_digit c = true -> is_digit d = false -> Ascii.eqb c d = false.
Proof. intros Hc Hd. apply Ascii.eqb_neq. intros ->. congruence. Qed.

Lemma underscores_ok_digits l : Forall (fun c => is_digit c = true) l -> underscores_ok l = true.
Proof. induction 1 as [|c l Hc _ IH]; [done|]. simpl. by rewrite (digit_ne c "_" Hc eq_refl). Qed.

Lemma filter_underscore_digits l :
  Forall (fun c => is_digit c = true) l -> filter (fun d => d <> "_"%char) l = l.
Proof.
  induction 1 as [|c l Hc _ IH]; [done|].
  rewrite filter_cons_True; [by rewrite IH|]. intros ->. discriminate.
Qed.

(** [int()] reads the digits [str] writes, after an optional ['-'] *)
Lemma py_int_uint (s : string) (neg : bool) u :
  u <> Decimal.Nil ->
  list_ascii_of_string s = (if neg then ["-"%char] else []) ++ list_ascii_of_string (NilZero.string_of_uint u) ->
  py_int s = Some (if neg then - Z.of_uint u else Z.of_uint u).
Proof.
  intros Hu Hs. pose proof (digits_of_uint u) as Hd.
  destruct (list_ascii_of_string (NilZero.string_of_uint u)) as [|c l] eqn:El;
    [by destruct u|].
  pose proof (Forall_inv Hd) as Hc.
  assert (Hsg : py_sign (py_strip (list_ascii_of_string s)) = (neg, c :: l)).
  { assert (Forall (fun c => is_py_space c = false) (c :: l)) by (eapply Forall_impl; [exact Hd|apply digit_not_space]).
    rewrite Hs, py_strip_id; [|destruct neg; simpl; [constructor|]; done].
    destruct neg; [done|]. simpl. by rewrite (digit_ne c "-" Hc eq_refl), (digit_ne c "+" Hc eq_refl). }
  unfold py_int. rewrite Hsg. cbn iota beta.
  rewrite Hc, underscores_ok_digits, filter_underscore_digits by done.
  rewrite <- El, string_of_list_ascii_of_string, NilZero.usu by done. by destruct neg.
Qed.

Lemma split_go_join sep s cur :
  no_char sep cur ->
  py_join sep (split_go sep s cur) = (cur ++ s)%string /\
  Forall (no_char sep) (split_go sep s cur) /\ split_go sep s cur <> [].
Proof.
  unfold py_join. revert cur. induction s as [|c s IH]; intros cur Hcur; simpl.
  - rewrite str_app_nil_r. auto.
  - destruct (Ascii.eqb_spec c sep) as [->|Hne].
    + destruct (IH EmptyString (fun H => H)) as (Hj & Hf & Hn).
      destruct (split_go sep s EmptyString) as [|x xs] eqn:E; [done|].
      split_and!; [|by constructor|done].
      change (cur ++ String sep (String.concat (String sep EmptyString) (x :: xs)) = cur ++ String sep s)%string.
      by rewrite Hj.
    + destruct (IH (cur ++ String c EmptyString)%string) as (Hj & Hf & Hn).
      { unfold no_char. rewrite list_ascii_of_string_app. simpl. rewrite in_app_iff. simpl. intuition. }
      split_and!; [|done|done]. by rewrite Hj, str_app_assoc.
Qed.

Lemma py_int_exc_ok s z : py_int_exc s = inr z <-> py_int s = Some z.
Proof. unfold py_int_exc, mret, res_ret, raise. destruct (py_int s); split; congruence. Qed.

Lemma to_int_not_nil z : Z.to_int z <> Decimal.Pos Decimal.Nil /\ Z.to_int z <> Decimal.Neg Decimal.Nil.
Proof.
  split; intros E; pose proof (DecimalZ.of_to z) as Hz; rewrite E in Hz; simpl in Hz; subst z; discriminate.
Qed.

Lemma py_join_cons2 sep h p ps :
  py_join sep (h :: p :: ps) = (h ++ String sep (py_join sep (p :: ps)))%string.
Proof. reflexivity. Qed.

(** a joined list of pieces starts with its first piece, followed by
    nothing or by the separator *)
Lemma py_join_head sep p ps :
  exists tail, py_join sep (p :: ps) = (p ++ tail)%string /\ (tail = EmptyString \/ exists t, tail = String sep t).
Proof.
  destruct ps as [|q ps].
  - exists EmptyString. split; [symmetry; apply str_app_nil_r|by left].
  - eexists. split; [apply py_join_cons2|right; eauto].
Qed.

Lemma check_settings_first_unset s :
  match first_unset s with
  | Some m => check_settings s = inl (ConfigurationError m)
  | None => exists nid cf pv pb,
      nodeid s = Some nid /\ configfile s = Some cf /\ pvk_string s = Some pv /\ pbk_string s = Some pb /\
      nid <> EmptyString /\ cf <> EmptyString /\ pv <> EmptyString /\ pb <> EmptyString /\
      check_settings s = inr (nid, cf, pv, pb)
  end.
Proof.
  destruct s as [[[|??]|] [[|??]|] [[|??]|] [[|??]|]]; try reflexivity.
  eexists _, _, _, _. split_and!; (reflexivity || discriminate).
Qed.

Lemma build_info_lookup acc items info z nd :
  build_info acc items = inr info -> info !! z = Some nd ->
  acc !! z = Some nd \/ exists peerid a, (peerid, a) ∈ items /\ py_int peerid = Some z /\ node_details a = inr nd.
Proof.
  revert acc. induction items as [|[pid a] items IH]; intros acc; simpl.
  - intros [= <-]. auto.
  - destruct (py_int_exc pid) as [|z'] eqn:Ez; [done|]. destruct (node_details a) as [|nd'] eqn:En; [done|].
    intros H Hl. destruct (IH _ H Hl) as [Ha|(p & a' & Hin & Hp & Hn)].
    + destruct (decide (z = z')) as [->|Hne].
      * rewrite lookup_insert_eq in Ha. injection Ha as <-. right. exists pid, a.
        split_and!; [left|by apply py_int_exc_ok|done].
      * rewrite lookup_insert_ne in Ha by congruence. auto.
    + right. exists p, a'. split_and!; [by right|done|done].
Qed.

Lemma node_details_ok a nd :
  node_details a = inr nd ->
  exists s h p ps, a = JStr s /\ py_split ":" s = h :: p :: ps /\ ip nd = h /\ py_int p = Some (port nd).
Proof.
  destruct a as [|s| |]; try discriminate. unfold node_details, py_index.
  destruct (py_split ":" s) as [|h [|p ps]] eqn:E; try discriminate. simpl.
  destruct (py_int_exc p) as [|pt] eqn:Ep; [discriminate|]. intros [= <-].
  exists s, h, p, ps. split_and!; [done|done|done|by apply py_int_exc_ok].
Qed.

(** C29: the sequential overrides of lines 139-145, stopped by the first
    missing argument, give each setting independently: [sys.argv[1]] for
    the node id, [sys.argv[2]] for the configuration file, [sys.argv[3]]
    for the public key and [sys.argv[4]] for the private key when given,
    otherwise the environment variable. *)
Theorem argv_override_independent argv env :
  argv_override argv (from_env env) =
  {| configfile := override (argv !! 2%nat) (env !! "HBMPC_CONFIG");
     nodeid := override (argv !! 1%nat) (env !! "HBMPC_NODE_ID");
     pvk_string := override (argv !! 4%nat) (env !! "HBMPC_PV_KEY");
     pbk_string := override (argv !! 3%nat) (env !! "HBMPC_PB_KEY") |}.
Proof. destruct argv as [|? [|? [|? [|? [|? ?]]]]]; reflexivity. Qed.

(** [int(str(z)) == z] for the [int] of lines 169 and 171, which
    strips whitespace and accepts signs and underscores. *)
Theorem py_int_str z : py_int (py_str_int z) = Some z.
Proof.
  unfold py_str_int. destruct (to_int_not_nil z) as [Hp Hn].
  rewrite <- (DecimalZ.of_to z) at 2. destruct (Z.to_int z) as [u|u].
  - apply (py_int_uint _ false u); [congruence|reflexivity].
  - apply (py_int_uint _ true u); [congruence|reflexivity].
Qed.

(** [str.split] loses nothing: joining the pieces with the
    separator gives the string back, and no piece contains the
    separator. *)
Theorem py_split_join sep s :
  py_join sep (py_split sep s) = s /\ Forall (no_char sep) (py_split sep s).
Proof. destruct (split_go_join sep s EmptyString (fun H => H)) as (? & ? & _). done. Qed.

(** C31: every entry of [network_info] (lines 170-173) comes from a peer
    whose id reads as the key and whose address is [host:port] or
    [host:port:...]: the host is the [NodeDetails] ip and has no [':'],
    and the port is the [int] of the piece after the first [':']. *)
Theorem network_info_nodes items info z nd :
  network_info items = inr info -> info !! z = Some nd ->
  exists peerid a p tail, (peerid, JStr a) ∈ items /\ py_int peerid = Some z /\
    a = (ip nd ++ String ":" (p ++ tail))%string /\ no_char ":" (ip nd) /\ no_char ":" p /\
    py_int p = Some (port nd) /\ (tail = EmptyString \/ exists t, tail = String ":" t).
Proof.
  intros Hb Hl. destruct (build_info_lookup _ _ _ _ _ Hb Hl) as [Ha|(peerid & a & Hin & Hz & Hn)];
    [by rewrite lookup_empty in Ha|].
  destruct (node_details_ok _ _ Hn) as (s & h & p & ps & -> & Hs & Hip & Hport).
  destruct (split_go_join ":" s EmptyString (fun H => H)) as (Hj & Hf & _). fold (py_split ":" s) in Hj, Hf. change (EmptyString ++ s)%string with s in Hj.
  rewrite Hs in Hj, Hf.
  destruct (py_join_head ":" p ps) as (tail & Ht & Htl).
  exists peerid, s, p, tail. rewrite Hip. apply Forall_cons in Hf as [Hh [Hp _]%Forall_cons].
  split_and!; try done. by rewrite <- Hj, py_join_cons2, Ht.
Qed.

Section MainProps.
Context {PKey SKey : Type} (load_config : string -> PyRes Dict)
  (load_pk : string -> PyRes PKey) (load_sk : string -> PyRes SKey).

(** C32: the block raises [ConfigurationError] with the message of the
    first setting, in the order node id, configuration file, private
    key, public key, that is unset or empty; when all four are set and
    non-empty it goes on to load the configuration with exactly these
    settings. *)
Theorem main_args_first_unset env argv :
  let s := argv_override argv (from_env env) in
  match first_unset s with
  | Some m => main_args load_config load_pk load_sk env argv = inl (ConfigurationError m)
  | None => exists nid cf pv pb,
      nodeid s = Some nid /\ configfile s = Some cf /\ pvk_string s = Some pv /\ pbk_string s = Some pb /\
      nid <> EmptyString /\ cf <> EmptyString /\ pv <> EmptyString /\ pb <> EmptyString /\
      main_args load_config load_pk load_sk env argv = main_rest load_config load_pk load_sk nid cf pv pb
  end.
Proof.
  intros s. pose proof (check_settings_first_unset s) as Hc. unfold main_args. fold s.
  destruct (first_unset s) as [m|].
  - by rewrite Hc.
  - destruct Hc as (nid & cf & pv & pb & ? & ? & ? & ? & ? & ? & ? & ? & ->).
    exists nid, cf, pv, pb. split_and!; done.
Qed.

End MainProps.

End MainBlock.
