(* ===== verification/CoinEngine.v ===== *)
(** * The coin engine: [shared_coin], [_recv] and [get_coin]

    [CoinState] is the mutable store [shared_coin] allocates:
    - [received] is the [defaultdict(dict)] of line 33. Per round it
      holds an insertion-ordered dict from sender to share.
    - [output_queue] is the [defaultdict(lambda: asyncio.Queue(1))] of
      line 34.
    - [log] holds what the code prints: the [print]s of lines 48 and 58
      and the debug line 78 that precedes each put.
    - [outbox] holds the messages [get_coin] hands to [broadcast].
    [recv_iter] is one iteration of the [while True] loop of [_recv]
    (lines 38-80). [recv_loop] runs it on the messages [receive()]
    returned and stops at the first uncaught exception, which ends the
    task. [get_coin_call] is [get_coin] up to its [await], and
    [queue_get_now] is the [Queue.get] that completes when an item is
    there. [shared_coin_init] is lines 31-34. *)

From S2P Require Import Prelude ThresholdSig PyRepr.
From Stdlib Require Import Lia.
Open Scope py_scope.

Section Engine.
Context {PK SK Elem Digest : Type} `{!TBLS PK SK Elem Digest} `{!Sha256}.

(** ** Data *)

(** the parameters of [shared_coin(sid, pid, n, f, pk, sk, ...)] *)
Record Config := mkConfig {
  sid : string;
  pid : Z;
  n : nat;
  f : nat;
  pk : PK;
  sk : SK
}.

(** a message as [receive()] delivers it: [(i, ('COIN', r, sig_bytes))].
    The sender [i] comes from the transport; the payload from the
    sender. Unpacking it (line 40) raises [ValueError] on an iterable
    that does not have three items ([BadShape]) and [TypeError] on a
    value that is not iterable ([NotIterable]). A round [r] that is not
    a number ([BadRound]) makes [r >= 0] (line 46) raise [TypeError]; an
    [int] round, [bool] included, is its value in [Z]. Float rounds are
    not modelled. *)
Inductive WireMsg :=
| CoinMsg (tag : string) (r : Z) (sig_bytes : list byte)
| BadRound (tag : string) (sig_bytes : list byte)
| BadShape
| NotIterable.

Definition Incoming : Type := Z * WireMsg.

(** [asyncio.Queue(maxsize)] *)
Record Queue := mkQueue { q_maxsize : nat; q_items : list Z }.

Definition new_queue : Queue := mkQueue 1 [].

(** [Queue.full()]: [0 < maxsize <= qsize()] *)
Definition queue_full (q : Queue) : bool :=
  (0 <? q_maxsize q)%nat && (q_maxsize q <=? length (q_items q))%nat.

(** [Queue.put_nowait(x)]: [None] is [QueueFull] *)
Definition queue_put_nowait (x : Z) (q : Queue) : option Queue :=
  if queue_full q then None else Some (mkQueue (q_maxsize q) (q_items q ++ [x])).

(** [Queue.get_nowait()]: [None] is an empty queue, on which [get()] waits *)
Definition queue_get_nowait (q : Queue) : option (Z * Queue) :=
  match q_items q with
  | [] => None
  | x :: xs => Some (x, mkQueue (q_maxsize q) xs)
  end.

(** what [_recv] prints or logs *)
Inductive LogEvent :=
| Redundant (i r : Z)      (** line 48 *)
| ShareFailed (i r : Z)    (** line 58 *)
| PutBit (r bit : Z).      (** lines 78-79 *)

Record CoinState := mkState {
  received : gmap Z (list (Z * Elem));
  output_queue : gmap Z Queue;
  log : list LogEvent;
  outbox : list WireMsg
}.

Definition init_state : CoinState := mkState ∅ ∅ [] [].

(** ** The two [defaultdict]s *)

(** [received[r]] *)
Definition received_at (st : CoinState) (r : Z) : list (Z * Elem) :=
  default [] (received st !! r).

(** [output_queue[r]] *)
Definition queue_at (st : CoinState) (r : Z) : Queue :=
  default new_queue (output_queue st !! r).

Definition set_received (r : Z) (d : list (Z * Elem)) (st : CoinState) : CoinState :=
  mkState (<[r := d]> (received st)) (output_queue st) (log st) (outbox st).

Definition set_queue (r : Z) (q : Queue) (st : CoinState) : CoinState :=
  mkState (received st) (<[r := q]> (output_queue st)) (log st) (outbox st).

(** reading [received[r]] inserts [r -> {}] when it is missing *)
Definition touch_received (r : Z) (st : CoinState) : CoinState :=
  set_received r (received_at st r) st.

(** reading [output_queue[r]] inserts [r -> Queue(1)] when it is missing *)
Definition touch_queue (r : Z) (st : CoinState) : CoinState :=
  set_queue r (queue_at st r) st.

Definition add_log (e : LogEvent) (st : CoinState) : CoinState :=
  mkState (received st) (output_queue st) (log st ++ [e]) (outbox st).

Definition log_event (e : LogEvent) : PyM CoinState unit := py_modify (add_log e).

(** ** Operations *)

(** [h = pk.hash_message(str((sid, r)))] *)
Definition round_digest (cfg : Config) (r : Z) : Digest :=
  hash_message (pk cfg) (context_string (sid cfg) r).

(** the bit [hash(serialize(sig))[0] % 2] computes, given that the digest
    has a first byte *)
Definition digest_bit (sig : Elem) : Z :=
  Z.of_N (Byte.to_N (hd x00 (sha256 (serialize sig)))) mod 2.

(** [hash(serialize(sig))[0] % 2] *)
Definition coin_bit (sig : Elem) : PyM CoinState Z :=
  b <- py_lift IndexError (head (sha256 (serialize sig))) ;;
  py_ret (Z.of_N (Byte.to_N b) mod 2).

(** [output_queue[r].put_nowait(bit)] *)
Definition queue_put (r bit : Z) : PyM CoinState unit :=
  py_modify (touch_queue r) ;;
  st <- py_get ;;
  match queue_put_nowait bit (queue_at st r) with
  | None => py_raise QueueFull
  | Some q => py_modify (set_queue r q)
  end.

(** lines 69-80: the threshold test and what it triggers *)
Definition on_threshold (cfg : Config) (r : Z) (h : Digest) : PyM CoinState unit :=
  st <- py_get ;;
  if (length (received_at st r) =? f cfg + 1)%nat then
    let sigs := take (f cfg + 1) (received_at st r) in
    let sig := combine_shares (pk cfg) sigs in
    py_assert (verify_signature (pk cfg) sig h) ;;
    bit <- coin_bit sig ;;
    log_event (PutBit r bit) ;;
    queue_put r bit
  else py_ret tt.

(** one iteration of the receive loop, lines 40-80 *)
Definition recv_iter (cfg : Config) (m : Incoming) : PyM CoinState unit :=
  let '(i, w) := m in
  match w with
  | NotIterable => py_raise TypeError
  | BadShape => py_raise ValueError
  | BadRound _ sig_bytes =>
      _ <- py_lift DeserializeError (deserialize1 sig_bytes) ;;
      py_assert (bool_decide (0 <= i < Z.of_nat (n cfg))) ;;
      py_raise TypeError
  | CoinMsg _ r sig_bytes =>
      sig <- py_lift DeserializeError (deserialize1 sig_bytes) ;;
      py_assert (bool_decide (0 <= i < Z.of_nat (n cfg))) ;;
      py_assert (bool_decide (0 <= r)) ;;
      py_modify (touch_received r) ;;
      st <- py_get ;;
      if dict_mem i (received_at st r) then log_event (Redundant i r)
      else
        let h := round_digest cfg r in
        if negb (verify_share (pk cfg) sig i h) then log_event (ShareFailed i r)
        else
          py_modify (set_received r (dict_set i sig (received_at st r))) ;;
          on_threshold cfg r h
  end.

(** [_recv] on the messages [receive()] returned, in order *)
Fixpoint recv_loop (cfg : Config) (ms : list Incoming) : PyM CoinState unit :=
  match ms with
  | [] => py_ret tt
  | m :: ms' => recv_iter cfg m ;; recv_loop cfg ms'
  end.

(** [get_coin(round)] up to its [await]: broadcast the own share and
    create [output_queue[round]] *)
Definition get_coin_call (cfg : Config) (round : Z) : PyM CoinState unit :=
  let h := round_digest cfg round in
  py_modify (fun st => mkState (received st) (output_queue st) (log st)
                               (outbox st ++ [CoinMsg "COIN" round (serialize (sign (sk cfg) h))])) ;;
  py_modify (touch_queue round).

(** [await output_queue[round].get()] when it does not wait: [None] means
    the caller is still suspended *)
Definition queue_get_now (round : Z) : PyM CoinState (option Z) :=
  py_modify (touch_queue round) ;;
  st <- py_get ;;
  match queue_get_nowait (queue_at st round) with
  | None => py_ret None
  | Some (x, q) => py_modify (set_queue round q) ;; py_ret (Some x)
  end.

(** lines 31-34: [assert pk.k == f+1], [assert pk.l == n], empty dicts *)
Definition shared_coin_init (cfg : Config) : Outcome CoinState :=
  if (pk_k (pk cfg) =? f cfg + 1)%nat then
    if (pk_l (pk cfg) =? n cfg)%nat then Ok init_state else Raise AssertionError
  else Raise AssertionError.

(** ** The store's accessors *)

Lemma received_at_set_received st r r' d :
  received_at (set_received r d st) r' = if decide (r = r') then d else received_at st r'.
Proof.
  unfold received_at, set_received; simpl. case_decide; subst.
  - by rewrite lookup_insert_eq.
  - by rewrite lookup_insert_ne.
Qed.

Lemma received_at_touch st r r' : received_at (touch_received r st) r' = received_at st r'.
Proof. unfold touch_received. rewrite received_at_set_received. by case_decide; subst. Qed.

Lemma queue_at_set_queue st r r' q :
  queue_at (set_queue r q st) r' = if decide (r = r') then q else queue_at st r'.
Proof.
  unfold queue_at, set_queue; simpl. case_decide; subst.
  - by rewrite lookup_insert_eq.
  - by rewrite lookup_insert_ne.
Qed.

Lemma queue_at_touch st r r' : queue_at (touch_queue r st) r' = queue_at st r'.
Proof. unfold touch_queue. rewrite queue_at_set_queue. by case_decide; subst. Qed.

Lemma set_received_touch st r d : set_received r d (touch_received r st) = set_received r d st.
Proof. unfold set_received, touch_received. simpl. by rewrite insert_insert_eq. Qed.

(** [digest_bit] is what [coin_bit] returns: SHA-256 digests are never empty *)
Lemma coin_bit_ok sig st : coin_bit sig st = (Ok (digest_bit sig), st).
Proof.
  unfold coin_bit, digest_bit. py_unfold.
  pose proof (sha256_length (serialize sig)) as Hl.
  destruct (sha256 (serialize sig)); [discriminate|reflexivity].
Qed.

Lemma digest_bit_range sig : 0 <= digest_bit sig <= 1.
Proof. unfold digest_bit. pose proof (Z.mod_pos_bound (Z.of_N (Byte.to_N (hd x00 (sha256 (serialize sig))))) 2). lia. Qed.

Lemma received_at_set_queue st r r' q : received_at (set_queue r q st) r' = received_at st r'.
Proof. reflexivity. Qed.
Lemma received_at_touch_queue st r r' : received_at (touch_queue r st) r' = received_at st r'.
Proof. reflexivity. Qed.
Lemma received_at_add_log st e r : received_at (add_log e st) r = received_at st r.
Proof. reflexivity. Qed.
Lemma queue_at_set_received st r r' d : queue_at (set_received r d st) r' = queue_at st r'.
Proof. reflexivity. Qed.
Lemma queue_at_touch_received st r r' : queue_at (touch_received r st) r' = queue_at st r'.
Proof. reflexivity. Qed.
Lemma queue_at_add_log st e r : queue_at (add_log e st) r = queue_at st r.
Proof. reflexivity. Qed.

Lemma set_queue_touch st r q : set_queue r q (touch_queue r st) = set_queue r q st.
Proof. unfold set_queue, touch_queue. simpl. by rewrite insert_insert_eq. Qed.

(** ** [recv_iter], branch by branch *)
Section Branches.
Context (cfg : Config).

(** run the monadic code of a handler on a concrete branch *)
Local Ltac run :=
  unfold recv_iter, on_threshold, queue_put, log_event in *; py_unfold; simpl in *.

Lemma recv_iter_bad_shape i st : recv_iter cfg (i, BadShape) st = (Raise ValueError, st).
Proof. reflexivity. Qed.

Lemma recv_iter_not_iterable i st : recv_iter cfg (i, NotIterable) st = (Raise TypeError, st).
Proof. reflexivity. Qed.

(** a round that is not a number raises after the decoding and the
    sender check, and changes nothing *)
Lemma recv_iter_bad_round_type i t b st :
  recv_iter cfg (i, BadRound t b) st =
    (Raise (match deserialize1 b with
            | None => DeserializeError
            | Some _ => if bool_decide (0 <= i < Z.of_nat (n cfg)) then TypeError else AssertionError
            end), st).
Proof. run. destruct (deserialize1 b); [|done]. simpl. by case_bool_decide. Qed.

Lemma recv_iter_undecodable i t r b st :
  deserialize1 b = None ->
  recv_iter cfg (i, CoinMsg t r b) st = (Raise DeserializeError, st).
Proof. intros Hd. run. by rewrite Hd. Qed.

Lemma recv_iter_bad_sender i t r b s st :
  deserialize1 b = Some s -> ~ (0 <= i < Z.of_nat (n cfg)) ->
  recv_iter cfg (i, CoinMsg t r b) st = (Raise AssertionError, st).
Proof. intros Hd Hi. run. rewrite Hd, bool_decide_false by done. reflexivity. Qed.

Lemma recv_iter_bad_round i t r b s st :
  deserialize1 b = Some s -> 0 <= i < Z.of_nat (n cfg) -> r < 0 ->
  recv_iter cfg (i, CoinMsg t r b) st = (Raise AssertionError, st).
Proof.
  intros Hd Hi Hr. run. rewrite Hd, bool_decide_true, (bool_decide_false (0 <= r)) by lia.
  reflexivity.
Qed.

(** the guards every admissible message passes *)
Lemma recv_iter_admissible i t r b s st :
  deserialize1 b = Some s -> 0 <= i < Z.of_nat (n cfg) -> 0 <= r ->
  recv_iter cfg (i, CoinMsg t r b) st =
    (if dict_mem i (received_at st r) then log_event (Redundant i r)
     else if negb (verify_share (pk cfg) s i (round_digest cfg r))
          then log_event (ShareFailed i r)
          else py_modify (set_received r (dict_set i s (received_at st r))) ;;
               on_threshold cfg r (round_digest cfg r))%py (touch_received r st).
Proof.
  intros Hd Hi Hr. unfold recv_iter. py_unfold. simpl.
  rewrite Hd, !bool_decide_true by lia. simpl. by rewrite received_at_touch.
Qed.

Lemma on_threshold_below r h st :
  length (received_at st r) <> (f cfg + 1)%nat -> on_threshold cfg r h st = (Ok tt, st).
Proof. intros Hl. run. by rewrite (proj2 (Nat.eqb_neq _ _) Hl). Qed.

Lemma on_threshold_cross r h st :
  length (received_at st r) = (f cfg + 1)%nat ->
  verify_signature (pk cfg) (combine_shares (pk cfg) (received_at st r)) h = true ->
  queue_full (queue_at st r) = false ->
  let bit := digest_bit (combine_shares (pk cfg) (received_at st r)) in
  on_threshold cfg r h st =
    (Ok tt, set_queue r (mkQueue (q_maxsize (queue_at st r)) (q_items (queue_at st r) ++ [bit]))
                      (add_log (PutBit r bit) st)).
Proof.
  intros Hl Hv Hq bit. run. rewrite Hl, Nat.eqb_refl, take_all_length, Hv by done.
  rewrite coin_bit_ok. simpl. unfold queue_put_nowait.
  rewrite queue_at_touch, queue_at_add_log, Hq. simpl. by rewrite set_queue_touch.
Qed.

Lemma on_threshold_bad_sig r h st :
  length (received_at st r) = (f cfg + 1)%nat ->
  verify_signature (pk cfg) (combine_shares (pk cfg) (received_at st r)) h = false ->
  on_threshold cfg r h st = (Raise AssertionError, st).
Proof. intros Hl Hv. run. by rewrite Hl, Nat.eqb_refl, take_all_length, Hv. Qed.

(** a new share from a sender in range, for a round [>= 0], that verifies *)
Lemma recv_iter_accepted i t r b s st :
  deserialize1 b = Some s -> 0 <= i < Z.of_nat (n cfg) -> 0 <= r ->
  dict_mem i (received_at st r) = false ->
  verify_share (pk cfg) s i (round_digest cfg r) = true ->
  recv_iter cfg (i, CoinMsg t r b) st =
    on_threshold cfg r (round_digest cfg r) (set_received r (received_at st r ++ [(i, s)]) st).
Proof.
  intros Hd Hi Hr Hm Hv. rewrite (recv_iter_admissible i t r b s), Hm, Hv by done. simpl.
  py_unfold. by rewrite set_received_touch, dict_set_fresh.
Qed.

End Branches.

(** ** The engine's invariant *)

(** a recorded share: its sender is a party and it verifies for its round *)
Definition share_ok (cfg : Config) (r : Z) (p : Z * Elem) : Prop :=
  0 <= p.1 < Z.of_nat (n cfg) /\ verify_share (pk cfg) p.2 p.1 (round_digest cfg r) = true.

(** every ledger entry is for a round [>= 0], holds one share per sender,
    and holds only shares that verified *)
Definition ledger_ok (cfg : Config) (st : CoinState) : Prop :=
  forall r d, received st !! r = Some d ->
    0 <= r /\ NoDup (dict_keys d) /\ Forall (share_ok cfg r) d.

(** how many [PutBit r _] lines the log holds *)
Fixpoint count_puts (r : Z) (l : list LogEvent) : nat :=
  match l with
  | [] => 0
  | PutBit r' _ :: l' => (if decide (r = r') then 1 else 0) + count_puts r l'
  | _ :: l' => count_puts r l'
  end.

(** a round has been put at most once, and only once it holds [f+1] shares *)
Definition puts_bounded (cfg : Config) (st : CoinState) : Prop :=
  forall r, (count_puts r (log st) <= if decide (f cfg + 1 <= length (received_at st r)) then 1 else 0)%nat.

(** every queue is a [Queue(1)] holding no more items than were put *)
Definition queue_ok (st : CoinState) : Prop :=
  forall r, q_maxsize (queue_at st r) = 1%nat /\ (length (q_items (queue_at st r)) <= count_puts r (log st))%nat.

Definition coin_inv (cfg : Config) (st : CoinState) : Prop :=
  ledger_ok cfg st /\ puts_bounded cfg st /\ queue_ok st.

(** after a crash-free run: a round is put exactly when it reached [f+1] *)
Definition published_ok (cfg : Config) (st : CoinState) : Prop :=
  forall r, count_puts r (log st) = if decide (f cfg + 1 <= length (received_at st r))%nat then 1%nat else 0%nat.

Lemma count_puts_app r l1 l2 : count_puts r (l1 ++ l2) = (count_puts r l1 + count_puts r l2)%nat.
Proof. induction l1 as [|[] l1 IH]; simpl; rewrite ?IH; lia. Qed.

Lemma count_puts_other r l e : (forall b, e <> PutBit r b) -> count_puts r (l ++ [e]) = count_puts r l.
Proof. intros He. rewrite count_puts_app. destruct e; simpl; try lia. case_decide; subst; [by edestruct He|lia]. Qed.

Lemma count_puts_put r r' l b :
  count_puts r (l ++ [PutBit r' b]) = (count_puts r l + if decide (r = r') then 1 else 0)%nat.
Proof. rewrite count_puts_app. simpl. lia. Qed.

Lemma count_puts_in r b l : PutBit r b ∈ l -> (1 <= count_puts r l)%nat.
Proof.
  induction l as [|e l IH]; [by rewrite elem_of_nil|]. rewrite elem_of_cons. intros [<-|Hin].
  - simpl. rewrite decide_True by done. lia.
  - specialize (IH Hin). destruct e as [| |r' b']; simpl; try case_decide; lia.
Qed.

Lemma count_puts_pos r l : (1 <= count_puts r l)%nat -> exists b, PutBit r b ∈ l.
Proof.
  induction l as [|e l IH]; simpl; [lia|]. intros Hc.
  destruct e as [| |r' b]; try (destruct (IH Hc) as [b Hb]; exists b; by right).
  case_decide; subst; [exists b; by left|]. destruct (IH ltac:(lia)) as [b' Hb']. exists b'. by right.
Qed.

Lemma ledger_ok_at cfg st r :
  ledger_ok cfg st -> NoDup (dict_keys (received_at st r)) /\ Forall (share_ok cfg r) (received_at st r).
Proof.
  unfold received_at. intros Hl. destruct (received st !! r) as [d|] eqn:E; simpl.
  - by destruct (Hl r d E) as (_ & ? & ?).
  - split; constructor.
Qed.

Lemma ledger_ok_set cfg st r d :
  ledger_ok cfg st -> 0 <= r -> NoDup (dict_keys d) -> Forall (share_ok cfg r) d ->
  ledger_ok cfg (set_received r d st).
Proof.
  intros Hl Hr Hnd Hf r' d'. unfold set_received; simpl.
  destruct (decide (r = r')) as [<-|Hne].
  - rewrite lookup_insert_eq. by intros [= <-].
  - rewrite lookup_insert_ne by done. apply Hl.
Qed.

(** each way [recv_iter] changes the store keeps the invariant *)
Lemma coin_inv_touch cfg st r : coin_inv cfg st -> 0 <= r -> coin_inv cfg (touch_received r st).
Proof.
  intros (Hl & Hp & Hq) Hr. destruct (ledger_ok_at cfg st r Hl).
  split_and!; [by apply ledger_ok_set| |]; intros r'.
  - rewrite received_at_touch. apply Hp.
  - rewrite queue_at_touch_received. apply Hq.
Qed.

Lemma coin_inv_log cfg st e : coin_inv cfg st -> (forall r b, e <> PutBit r b) -> coin_inv cfg (add_log e st).
Proof.
  intros (Hl & Hp & Hq) He. split_and!; [done| |]; intros r; simpl;
    rewrite count_puts_other by auto; [apply Hp|apply Hq].
Qed.

Lemma coin_inv_accept cfg st r i s :
  coin_inv cfg st -> 0 <= r -> dict_mem i (received_at st r) = false -> share_ok cfg r (i, s) ->
  coin_inv cfg (set_received r (received_at st r ++ [(i, s)]) st).
Proof.
  intros (Hl & Hp & Hq) Hr Hm Hs. destruct (ledger_ok_at cfg st r Hl) as [Hnd Hf].
  split_and!.
  - apply ledger_ok_set; [done|done| |by apply Forall_app; split; [|constructor]].
    rewrite <- dict_set_fresh by done. by apply dict_set_fresh_nodup.
  - intros r'. rewrite received_at_set_received. simpl. specialize (Hp r').
    destruct (decide (r = r')) as [<-|]; [|done].
    rewrite length_app in *. simpl in *. repeat case_decide; lia.
  - apply Hq.
Qed.

(** at the crossing the round's queue is still empty *)
Lemma crossing_queue_empty cfg st r :
  coin_inv cfg st -> length (received_at st r) = f cfg -> q_items (queue_at st r) = [].
Proof.
  intros (_ & Hp & Hq) Hlen. specialize (Hp r). specialize (Hq r).
  rewrite decide_False in Hp by lia. destruct (q_items (queue_at st r)); simpl in *; [done|lia].
Qed.

Lemma coin_inv_put cfg st r bit :
  coin_inv cfg st -> length (received_at st r) = (f cfg + 1)%nat -> count_puts r (log st) = 0%nat ->
  coin_inv cfg (set_queue r (mkQueue (q_maxsize (queue_at st r)) (q_items (queue_at st r) ++ [bit]))
                          (add_log (PutBit r bit) st)).
Proof.
  intros (Hl & Hp & Hq) Hlen H0. split_and!; [done| |]; intros r'; simpl;
    rewrite ?queue_at_set_queue, count_puts_put; specialize (Hp r'); specialize (Hq r').
  - rewrite received_at_set_queue, received_at_add_log.
    destruct (decide (r' = r)) as [->|]; [|lia]. rewrite decide_True in * by lia. lia.
  - rewrite queue_at_add_log. destruct (decide (r = r')) as [<-|]; simpl.
    + rewrite decide_True, length_app, H0 in * by done. simpl. lia.
    + rewrite decide_False by done. lia.
Qed.

Lemma count_puts_below cfg st r :
  coin_inv cfg st -> (length (received_at st r) <= f cfg)%nat -> count_puts r (log st) = 0%nat.
Proof. intros (_ & Hp & _) Hl. specialize (Hp r). rewrite decide_False in Hp by lia. lia. Qed.

Lemma queue_not_full cfg st r :
  coin_inv cfg st -> count_puts r (log st) = 0%nat -> queue_full (queue_at st r) = false.
Proof.
  intros (_ & _ & Hq) H0. destruct (Hq r) as [Hm Hl]. rewrite H0 in Hl.
  unfold queue_full. rewrite Hm. destruct (q_items (queue_at st r)); simpl in *; [done|lia].
Qed.

(** the store after a logged line that is not a put *)
Lemma log_event_run e st : log_event e st = (Ok tt, add_log e st).
Proof. reflexivity. Qed.

(** ** [_recv]'s iteration as a step relation, one rule per branch *)
Section Step.
Context (cfg : Config).

(** the store once share [s] of [i] is recorded for round [r] *)
Definition accept_share (st : CoinState) (r i : Z) (s : Elem) : CoinState :=
  set_received r (received_at st r ++ [(i, s)]) st.

(** the store once [bit] is logged and put into [output_queue[r]] *)
Definition publish (st : CoinState) (r bit : Z) : CoinState :=
  set_queue r (mkQueue (q_maxsize (queue_at st r)) (q_items (queue_at st r) ++ [bit]))
            (add_log (PutBit r bit) st).

Inductive recv_step (st : CoinState) : Incoming -> Outcome unit -> CoinState -> Prop :=
| RS_not_iterable i :
    recv_step st (i, NotIterable) (Raise TypeError) st
| RS_bad_shape i :
    recv_step st (i, BadShape) (Raise ValueError) st
| RS_round_undecodable i t b :
    deserialize1 b = None ->
    recv_step st (i, BadRound t b) (Raise DeserializeError) st
| RS_round_bad_sender i t b s :
    deserialize1 b = Some s -> ~ (0 <= i < Z.of_nat (n cfg)) ->
    recv_step st (i, BadRound t b) (Raise AssertionError) st
| RS_round_type i t b s :
    deserialize1 b = Some s -> 0 <= i < Z.of_nat (n cfg) ->
    recv_step st (i, BadRound t b) (Raise TypeError) st
| RS_undecodable i t r b :
    deserialize1 b = None ->
    recv_step st (i, CoinMsg t r b) (Raise DeserializeError) st
| RS_bad_sender i t r b s :
    deserialize1 b = Some s -> ~ (0 <= i < Z.of_nat (n cfg)) ->
    recv_step st (i, CoinMsg t r b) (Raise AssertionError) st
| RS_bad_round i t r b s :
    deserialize1 b = Some s -> 0 <= i < Z.of_nat (n cfg) -> r < 0 ->
    recv_step st (i, CoinMsg t r b) (Raise AssertionError) st
| RS_redundant i t r b s :
    deserialize1 b = Some s -> 0 <= i < Z.of_nat (n cfg) -> 0 <= r ->
    dict_mem i (received_at st r) = true ->
    recv_step st (i, CoinMsg t r b) (Ok tt) (add_log (Redundant i r) (touch_received r st))
| RS_forged i t r b s :
    deserialize1 b = Some s -> 0 <= i < Z.of_nat (n cfg) -> 0 <= r ->
    dict_mem i (received_at st r) = false ->
    verify_share (pk cfg) s i (round_digest cfg r) = false ->
    recv_step st (i, CoinMsg t r b) (Ok tt) (add_log (ShareFailed i r) (touch_received r st))
| RS_accepted i t r b s :
    deserialize1 b = Some s -> 0 <= i < Z.of_nat (n cfg) -> 0 <= r ->
    dict_mem i (received_at st r) = false ->
    verify_share (pk cfg) s i (round_digest cfg r) = true ->
    length (received_at st r) <> f cfg ->
    recv_step st (i, CoinMsg t r b) (Ok tt) (accept_share st r i s)
| RS_published i t r b s :
    deserialize1 b = Some s -> 0 <= i < Z.of_nat (n cfg) -> 0 <= r ->
    dict_mem i (received_at st r) = false ->
    verify_share (pk cfg) s i (round_digest cfg r) = true ->
    length (received_at st r) = f cfg ->
    let sig := combine_shares (pk cfg) (received_at st r ++ [(i, s)]) in
    verify_signature (pk cfg) sig (round_digest cfg r) = true ->
    queue_full (queue_at st r) = false ->
    recv_step st (i, CoinMsg t r b) (Ok tt) (publish (accept_share st r i s) r (digest_bit sig))
| RS_combine_failed i t r b s :
    deserialize1 b = Some s -> 0 <= i < Z.of_nat (n cfg) -> 0 <= r ->
    dict_mem i (received_at st r) = false ->
    verify_share (pk cfg) s i (round_digest cfg r) = true ->
    length (received_at st r) = f cfg ->
    verify_signature (pk cfg) (combine_shares (pk cfg) (received_at st r ++ [(i, s)]))
                     (round_digest cfg r) = false ->
    recv_step st (i, CoinMsg t r b) (Raise AssertionError) (accept_share st r i s)
| RS_queue_full i t r b s :
    deserialize1 b = Some s -> 0 <= i < Z.of_nat (n cfg) -> 0 <= r ->
    dict_mem i (received_at st r) = false ->
    verify_share (pk cfg) s i (round_digest cfg r) = true ->
    length (received_at st r) = f cfg ->
    let sig := combine_shares (pk cfg) (received_at st r ++ [(i, s)]) in
    verify_signature (pk cfg) sig (round_digest cfg r) = true ->
    queue_full (queue_at st r) = true ->
    recv_step st (i, CoinMsg t r b) (Raise QueueFull)
              (touch_queue r (add_log (PutBit r (digest_bit sig)) (accept_share st r i s))).

Lemma on_threshold_full r h st :
  length (received_at st r) = (f cfg + 1)%nat ->
  verify_signature (pk cfg) (combine_shares (pk cfg) (received_at st r)) h = true ->
  queue_full (queue_at st r) = true ->
  on_threshold cfg r h st =
    (Raise QueueFull, touch_queue r (add_log (PutBit r (digest_bit (combine_shares (pk cfg) (received_at st r)))) st)).
Proof.
  intros Hl Hv Hq. unfold on_threshold, queue_put, log_event. py_unfold. simpl.
  rewrite Hl, Nat.eqb_refl, take_all_length, Hv by done. rewrite coin_bit_ok. simpl.
  unfold queue_put_nowait. by rewrite queue_at_touch, queue_at_add_log, Hq.
Qed.

(** every run of [recv_iter] is one of the rules *)
Lemma recv_iter_step m st : recv_step st m (recv_iter cfg m st).1 (recv_iter cfg m st).2.
Proof.
  destruct m as [i [t r b|t b| |]]; [|rewrite recv_iter_bad_round_type; destruct (deserialize1 b) as [s|] eqn:Hd;
    [case_bool_decide; [eapply RS_round_type|eapply RS_round_bad_sender]; eauto|by apply RS_round_undecodable]
    |apply RS_bad_shape|apply RS_not_iterable].
  destruct (deserialize1 b) as [s|] eqn:Hd;
    [|rewrite recv_iter_undecodable by done; by apply RS_undecodable].
  destruct (decide (0 <= i < Z.of_nat (n cfg))) as [Hi|Hi];
    [|erewrite recv_iter_bad_sender by done; by eapply RS_bad_sender].
  destruct (decide (0 <= r)) as [Hr|Hr];
    [|erewrite recv_iter_bad_round by (done || lia); eapply RS_bad_round; eauto; lia].
  destruct (dict_mem i (received_at st r)) eqn:Hm.
  { rewrite (recv_iter_admissible cfg i t r b s), Hm by done. by eapply RS_redundant. }
  destruct (verify_share (pk cfg) s i (round_digest cfg r)) eqn:Hv;
    [|rewrite (recv_iter_admissible cfg i t r b s), Hm, Hv by done; by eapply RS_forged].
  rewrite (recv_iter_accepted cfg i t r b s) by done.
  assert (Hacc : received_at (accept_share st r i s) r = received_at st r ++ [(i, s)]).
  { unfold accept_share. by rewrite received_at_set_received, decide_True. }
  assert (Hlen : length (received_at (accept_share st r i s) r) = S (length (received_at st r))).
  { rewrite Hacc, length_app. simpl. lia. }
  fold (accept_share st r i s).
  destruct (decide (length (received_at st r) = f cfg)) as [Hf|Hf];
    [|rewrite on_threshold_below by lia; by eapply RS_accepted].
  destruct (verify_signature (pk cfg) (combine_shares (pk cfg) (received_at st r ++ [(i, s)]))
                             (round_digest cfg r)) eqn:Hs;
    [|rewrite on_threshold_bad_sig by (rewrite ?Hlen, ?Hacc; done || lia); by eapply RS_combine_failed].
  destruct (queue_full (queue_at st r)) eqn:Hq.
  - rewrite on_threshold_full, Hacc by (rewrite ?Hlen, ?Hacc; done || lia). by eapply RS_queue_full.
  - rewrite on_threshold_cross, Hacc by (rewrite ?Hlen, ?Hacc; done || lia). by eapply RS_published.
Qed.

(** every rule is what [recv_iter] computes *)
Lemma step_recv_iter m st o st' : recv_step st m o st' -> recv_iter cfg m st = (o, st').
Proof.
  assert (Hacc : forall st r i s, received_at (accept_share st r i s) r = received_at st r ++ [(i, s)]).
  { intros. unfold accept_share. by rewrite received_at_set_received, decide_True. }
  assert (Hlen : forall st r i s, length (received_at (accept_share st r i s) r) = S (length (received_at st r))).
  { intros. rewrite Hacc, length_app. simpl. lia. }
  destruct 1 as [i|i|i t b Hd|i t b s Hd Hi|i t b s Hd Hi|i t r b Hd|i t r b s Hd Hi|i t r b s Hd Hi Hr|i t r b s Hd Hi Hr Hm
                |i t r b s Hd Hi Hr Hm Hv|i t r b s Hd Hi Hr Hm Hv Hf|i t r b s Hd Hi Hr Hm Hv Hf sig Hs Hq
                |i t r b s Hd Hi Hr Hm Hv Hf Hs|i t r b s Hd Hi Hr Hm Hv Hf sig Hs Hq]; try done.
  - by rewrite recv_iter_bad_round_type, Hd.
  - rewrite recv_iter_bad_round_type, Hd. by case_bool_decide.
  - rewrite recv_iter_bad_round_type, Hd. by case_bool_decide.
  - by apply recv_iter_undecodable.
  - by eapply recv_iter_bad_sender.
  - by eapply recv_iter_bad_round.
  - by rewrite (recv_iter_admissible cfg i t r b s), Hm.
  - by rewrite (recv_iter_admissible cfg i t r b s), Hm, Hv.
  - rewrite (recv_iter_accepted cfg i t r b s) by done. fold (accept_share st r i s).
    by rewrite on_threshold_below by (rewrite Hlen; lia).
  - rewrite (recv_iter_accepted cfg i t r b s) by done. fold (accept_share st r i s).
    rewrite on_threshold_cross by (rewrite ?Hlen, ?Hacc; done || lia). by rewrite Hacc.
  - rewrite (recv_iter_accepted cfg i t r b s) by done. fold (accept_share st r i s).
    by rewrite on_threshold_bad_sig by (rewrite ?Hlen, ?Hacc; done || lia).
  - rewrite (recv_iter_accepted cfg i t r b s) by done. fold (accept_share st r i s).
    rewrite on_threshold_full by (rewrite ?Hlen, ?Hacc; done || lia). by rewrite Hacc.
Qed.

Lemma received_at_accept st r i s :
  received_at (accept_share st r i s) r = received_at st r ++ [(i, s)].
Proof. unfold accept_share. by rewrite received_at_set_received, decide_True. Qed.

Lemma received_at_accept_other st r r' i s :
  r <> r' -> received_at (accept_share st r i s) r' = received_at st r'.
Proof. intros Hne. unfold accept_share. by rewrite received_at_set_received, decide_False. Qed.

End Step.

#[local] Hint Resolve coin_inv_touch coin_inv_log coin_inv_accept : core.

(** ** The step relation and the executable handler agree *)

(** [recv_iter] computes exactly what the rules of [recv_step] allow:
    every branch of lines 40-80, errors included. *)
Theorem recv_iter_iff_step cfg m st o st' :
  recv_iter cfg m st = (o, st') <-> recv_step cfg st m o st'.
Proof.
  split; [|apply step_recv_iter].
  intros E. pose proof (recv_iter_step cfg m st) as Hs. by rewrite E in Hs.
Qed.

(** ** The invariant, by induction on the rules *)

Theorem recv_step_preserves_inv cfg st m o st' :
  coin_inv cfg st -> recv_step cfg st m o st' -> coin_inv cfg st'.
Proof.
  intros Hinv Hs. destruct Hs as [| | | | | | | |i t r b s Hd Hi Hr Hm|i t r b s Hd Hi Hr Hm Hv
    |i t r b s Hd Hi Hr Hm Hv Hf|i t r b s Hd Hi Hr Hm Hv Hf sig Hs Hq
    |i t r b s Hd Hi Hr Hm Hv Hf Hs|i t r b s Hd Hi Hr Hm Hv Hf sig Hs Hq]; try done.
  - apply coin_inv_log; [by apply coin_inv_touch|congruence].
  - apply coin_inv_log; [by apply coin_inv_touch|congruence].
  - by apply coin_inv_accept.
  - apply coin_inv_put; [by apply coin_inv_accept|by rewrite received_at_accept, length_app, Hf|].
    simpl. by apply (count_puts_below cfg st r); [|lia].
  - by apply coin_inv_accept.
  - exfalso. rewrite (queue_not_full cfg st r) in Hq; [done|done|].
    by apply (count_puts_below cfg st r); [|lia].
Qed.

(** one iteration of [_recv] keeps the invariant, also when it raises *)
Corollary recv_iter_preserves_inv cfg m st :
  coin_inv cfg st -> coin_inv cfg (recv_iter cfg m st).2.
Proof. intros Hinv. eapply recv_step_preserves_inv; [done|apply recv_iter_step]. Qed.

(** C6: [output_queue[r].put_nowait(bit)] never raises [QueueFull] *)
Theorem recv_iter_no_queue_full cfg m st :
  coin_inv cfg st -> (recv_iter cfg m st).1 <> Raise QueueFull.
Proof.
  intros Hinv E. pose proof (recv_iter_step cfg m st) as Hs. rewrite E in Hs.
  inversion Hs as [| | | | | | | | | | | |
    |i t r b s Hd Hi Hr Hm Hv Hf sig Hsg Hq]; subst.
  rewrite (queue_not_full cfg st r) in Hq; [done|done|]. by apply (count_puts_below cfg st r); [|lia].
Qed.

(** C34: the exceptions that escape an iteration of [_recv] are
    [TypeError] and [ValueError] from unpacking the payload (line 40),
    a deserialisation error (line 41), [AssertionError] (lines 45, 46
    and 74), [TypeError] from comparing a round that is not a number
    (line 46) and [QueueFull] (line 80). [CommonCoinFailureException],
    declared at lines 9-11, is never raised. *)
Theorem recv_iter_raises cfg m st e :
  (recv_iter cfg m st).1 = Raise e ->
  e = TypeError \/ e = ValueError \/ e = DeserializeError \/ e = AssertionError \/ e = QueueFull.
Proof.
  intros E. pose proof (recv_iter_step cfg m st) as Hs. rewrite E in Hs.
  inversion Hs; subst; tauto.
Qed.

(** ** Exactly-once publication on crash-free steps *)

Lemma published_log cfg st e :
  published_ok cfg st -> (forall r b, e <> PutBit r b) -> published_ok cfg (add_log e st).
Proof. intros Hp He r. simpl. rewrite count_puts_other by auto. apply Hp. Qed.

Lemma published_touch cfg st r : published_ok cfg st -> published_ok cfg (touch_received r st).
Proof. intros Hp r'. rewrite received_at_touch. apply Hp. Qed.

Lemma published_accept cfg st r i s :
  published_ok cfg st -> length (received_at st r) <> f cfg -> published_ok cfg (accept_share st r i s).
Proof.
  intros Hp Hf r'. simpl. destruct (decide (r = r')) as [<-|Hne].
  - rewrite received_at_accept, length_app, Hp. simpl. repeat case_decide; lia.
  - rewrite received_at_accept_other by done. apply Hp.
Qed.

Lemma published_publish cfg st r i s bit :
  published_ok cfg st -> length (received_at st r) = f cfg ->
  published_ok cfg (publish (accept_share st r i s) r bit).
Proof.
  intros Hp Hf r'. unfold publish. simpl. rewrite count_puts_put, received_at_set_queue, received_at_add_log.
  destruct (decide (r' = r)) as [->|Hne].
  - rewrite received_at_accept, length_app, Hp. simpl. repeat case_decide; lia.
  - rewrite received_at_accept_other, Hp by done. lia.
Qed.

(** after a crash-free iteration, each round has been put exactly once
    if it holds [f+1] or more shares, and never otherwise *)
Theorem recv_step_published cfg st m st' :
  published_ok cfg st -> recv_step cfg st m (Ok tt) st' -> published_ok cfg st'.
Proof.
  intros Hp Hs. inversion Hs as [| | | | | | | |i t r b s Hd Hi Hr Hm|i t r b s Hd Hi Hr Hm Hv
    |i t r b s Hd Hi Hr Hm Hv Hf|i t r b s Hd Hi Hr Hm Hv Hf sig Hsg Hq| |]; subst.
  - apply published_log; [by apply published_touch|congruence].
  - apply published_log; [by apply published_touch|congruence].
  - by apply published_accept.
  - by apply published_publish.
Qed.

(** ** The loop *)

Lemma recv_loop_cons cfg m ms st :
  recv_loop cfg (m :: ms) st =
    match recv_iter cfg m st with
    | (Ok _, st') => recv_loop cfg ms st'
    | (Raise e, st') => (Raise e, st')
    end.
Proof. reflexivity. Qed.

(** a property of stores that every iteration keeps, whatever it raises,
    holds after the loop *)
Lemma recv_loop_ind (P : CoinState -> Prop) cfg ms st :
  (forall m st, P st -> P (recv_iter cfg m st).2) -> P st -> P (recv_loop cfg ms st).2.
Proof.
  intros Hstep. revert st. induction ms as [|m ms IH]; intros st Hst; [done|].
  rewrite recv_loop_cons. specialize (Hstep m st Hst).
  destruct (recv_iter cfg m st) as [[] st'] eqn:E; simpl in *; auto.
Qed.

(** the invariant holds after any prefix of the receive loop *)
Theorem recv_loop_preserves_inv cfg ms st :
  coin_inv cfg st -> coin_inv cfg (recv_loop cfg ms st).2.
Proof. apply recv_loop_ind. intros. by apply recv_iter_preserves_inv. Qed.

Lemma recv_loop_published cfg ms st :
  published_ok cfg st -> (recv_loop cfg ms st).1 = Ok tt -> published_ok cfg (recv_loop cfg ms st).2.
Proof.
  revert st. induction ms as [|m ms IH]; intros st Hp; [done|].
  rewrite recv_loop_cons. pose proof (recv_iter_step cfg m st) as Hs.
  destruct (recv_iter cfg m st) as [[[]|e] st'] eqn:E; simpl in *; [|done].
  intros Hok. apply IH; [|done]. by eapply recv_step_published.
Qed.

(** C8: a share whose sender id is outside [range(n)] makes [_recv] raise
    [AssertionError]. The task dies and no later message is ever
    processed, whereas the spec (4.1, 7) says such a message is ignored. *)
Theorem recv_loop_bad_sender_stops cfg i t r b s ms st :
  deserialize1 b = Some s -> ~ (0 <= i < Z.of_nat (n cfg)) ->
  recv_loop cfg ((i, CoinMsg t r b) :: ms) st = (Raise AssertionError, st).
Proof. intros Hd Hi. rewrite recv_loop_cons. by erewrite recv_iter_bad_sender. Qed.

(** ** The callers of [get_coin] *)

Lemma queue_get_now_run r st :
  queue_get_now r st =
    match q_items (queue_at st r) with
    | [] => (Ok None, touch_queue r st)
    | x :: xs => (Ok (Some x), set_queue r (mkQueue (q_maxsize (queue_at st r)) xs) st)
    end.
Proof.
  unfold queue_get_now, queue_get_nowait. py_unfold. simpl. rewrite queue_at_touch.
  by destruct (q_items (queue_at st r)); [|rewrite set_queue_touch].
Qed.

Lemma coin_inv_touch_queue cfg st r : coin_inv cfg st -> coin_inv cfg (touch_queue r st).
Proof. intros (Hl & Hp & Hq). split_and!; [done|done|]. intros r'. rewrite queue_at_touch. apply Hq. Qed.

Lemma coin_inv_get_call cfg st r : coin_inv cfg st -> coin_inv cfg (get_coin_call cfg r st).2.
Proof. intros Hinv. apply (coin_inv_touch_queue cfg _ r). by destruct Hinv as (? & ? & ?). Qed.

Lemma coin_inv_get cfg st r : coin_inv cfg st -> coin_inv cfg (queue_get_now r st).2.
Proof.
  intros Hinv. rewrite queue_get_now_run.
  destruct (q_items (queue_at st r)) as [|x xs] eqn:E; simpl; [by apply coin_inv_touch_queue|].
  destruct Hinv as (Hl & Hp & Hq). split_and!; [done|done|]. intros r'.
  rewrite queue_at_set_queue. destruct (decide (r = r')) as [<-|]; [|apply Hq].
  destruct (Hq r) as [Hm Hc]. rewrite E in Hc. simpl in *. lia.
Qed.

(** one atomic step of one party's tasks. asyncio runs a task without
    preemption between two awaits: an iteration of [_recv] (from one
    [await receive()] to the next), the start of a [get_coin] call (up to
    its [await]), or the completion of its [Queue.get]. *)
Inductive sys_step (cfg : Config) (st : CoinState) : CoinState -> Prop :=
| S_recv m : sys_step cfg st (recv_iter cfg m st).2
| S_get_call r : sys_step cfg st (get_coin_call cfg r st).2
| S_get r : sys_step cfg st (queue_get_now r st).2.

(** the stores reachable from [shared_coin]'s empty store in any
    interleaving *)
Definition reachable (cfg : Config) (st : CoinState) : Prop :=
  star (sys_step cfg) init_state st.

Lemma sys_step_inv cfg st st' : coin_inv cfg st -> sys_step cfg st st' -> coin_inv cfg st'.
Proof.
  intros Hinv []; [by apply recv_iter_preserves_inv|by apply coin_inv_get_call|by apply coin_inv_get].
Qed.

Lemma coin_inv_init cfg : coin_inv cfg init_state.
Proof.
  split_and!; [intros r d; simpl; by rewrite lookup_empty|intros r; simpl; lia|].
  intros r. unfold queue_at. simpl. rewrite lookup_empty. simpl. lia.
Qed.

Lemma published_init cfg : published_ok cfg init_state.
Proof. intros r. unfold received_at. simpl. rewrite lookup_empty. simpl. by rewrite decide_False by lia. Qed.

Lemma reachable_coin_inv_lemma cfg st : reachable cfg st -> coin_inv cfg st.
Proof. intros Hr. eapply star_preserves; [apply sys_step_inv|exact Hr|apply coin_inv_init]. Qed.


Lemma reachable_loop cfg ms st : reachable cfg st -> reachable cfg (recv_loop cfg ms st).2.
Proof.
  revert st. induction ms as [|m ms IH]; intros st Hr; [done|]. rewrite recv_loop_cons.
  assert (Hr' : reachable cfg (recv_iter cfg m st).2) by (eapply star_snoc; [exact Hr|constructor]).
  destruct (recv_iter cfg m st) as [[] st'] eqn:E; simpl in *; auto.
Qed.

(** ** Queues of a run with no [get_coin] caller *)

(** round [r]'s queue holds one item per put *)
Definition queue_exact_at (st : CoinState) (r : Z) : Prop :=
  length (q_items (queue_at st r)) = count_puts r (log st).

Definition queue_exact (st : CoinState) : Prop := forall r, queue_exact_at st r.

Lemma queue_exact_init : queue_exact init_state.
Proof. intros r. unfold queue_exact_at, queue_at. simpl. by rewrite lookup_empty. Qed.

Lemma recv_step_queue_exact cfg st m st' r :
  queue_exact_at st r -> recv_step cfg st m (Ok tt) st' -> queue_exact_at st' r.
Proof.
  unfold queue_exact_at. intros Hq Hs. inversion Hs as [| | | | | | | |i t r' b s Hd Hi Hr Hm|i t r' b s Hd Hi Hr Hm Hv
    |i t r' b s Hd Hi Hr Hm Hv Hf|i t r' b s Hd Hi Hr Hm Hv Hf sig Hsg Hqf| |]; subst; simpl;
    rewrite ?count_puts_other, ?queue_at_add_log, ?queue_at_touch_received by congruence; try apply Hq.
  unfold publish, accept_share. simpl. rewrite count_puts_put, queue_at_set_queue, queue_at_add_log, queue_at_set_received.
  destruct (decide (r' = r)) as [->|Hne]; simpl.
  - rewrite decide_True, length_app, Hq by done. simpl. lia.
  - rewrite queue_at_set_received, decide_False, Hq by congruence. lia.
Qed.

Lemma recv_loop_queue_exact cfg ms st r :
  queue_exact_at st r -> (recv_loop cfg ms st).1 = Ok tt -> queue_exact_at (recv_loop cfg ms st).2 r.
Proof.
  revert st. induction ms as [|m ms IH]; intros st Hq; [done|].
  rewrite recv_loop_cons. pose proof (recv_iter_step cfg m st) as Hs.
  destruct (recv_iter cfg m st) as [[[]|e] st'] eqn:E; simpl in *; [|done].
  intros Hok. apply IH; [|done]. by eapply recv_step_queue_exact.
Qed.

(** C7: exactly-once publication: after a crash-free run of [_recv] from
    [shared_coin]'s empty store, each round has been put once if it holds
    at least [f+1] shares, and never otherwise *)
Theorem published_exactly_once cfg ms r :
  (recv_loop cfg ms init_state).1 = Ok tt ->
  count_puts r (log (recv_loop cfg ms init_state).2) =
    if decide (f cfg + 1 <= length (received_at (recv_loop cfg ms init_state).2 r))%nat then 1%nat else 0%nat.
Proof. intros Hok. by apply recv_loop_published; [apply published_init|]. Qed.

(** ** Duplicates, forgeries and other rounds *)

(** C10: duplicate immunity: a second share from the same party for the same
    round changes neither the ledger nor any output queue *)
Theorem duplicate_share_ignored cfg i t r b s st :
  deserialize1 b = Some s -> 0 <= i < Z.of_nat (n cfg) -> 0 <= r ->
  dict_mem i (received_at st r) = true ->
  (recv_iter cfg (i, CoinMsg t r b) st).1 = Ok tt /\
  forall r', received_at (recv_iter cfg (i, CoinMsg t r b) st).2 r' = received_at st r' /\
             queue_at (recv_iter cfg (i, CoinMsg t r b) st).2 r' = queue_at st r'.
Proof.
  intros Hd Hi Hr Hm. rewrite (recv_iter_admissible cfg i t r b s), Hm by done. simpl.
  split; [done|]. intros r'. by rewrite received_at_add_log, received_at_touch.
Qed.

(** C11: Byzantine tolerance: a share that fails [pk.verify_share] changes
    neither the ledger nor any output queue, and does not crash [_recv] *)
Theorem forged_share_ignored cfg i t r b s st :
  deserialize1 b = Some s -> 0 <= i < Z.of_nat (n cfg) -> 0 <= r ->
  verify_share (pk cfg) s i (round_digest cfg r) = false ->
  (recv_iter cfg (i, CoinMsg t r b) st).1 = Ok tt /\
  forall r', received_at (recv_iter cfg (i, CoinMsg t r b) st).2 r' = received_at st r' /\
             queue_at (recv_iter cfg (i, CoinMsg t r b) st).2 r' = queue_at st r'.
Proof.
  intros Hd Hi Hr Hv. rewrite (recv_iter_admissible cfg i t r b s) by done.
  destruct (dict_mem i (received_at st r)); rewrite ?Hv; simpl;
    (split; [done|]); intros r'; by rewrite received_at_add_log, received_at_touch.
Qed.

(** C12: round independence: a message for round [r] leaves the ledger entry
    and the output queue of every other round as they were *)
Theorem recv_iter_other_rounds cfg i t r b st r' :
  r <> r' ->
  received_at (recv_iter cfg (i, CoinMsg t r b) st).2 r' = received_at st r' /\
  queue_at (recv_iter cfg (i, CoinMsg t r b) st).2 r' = queue_at st r'.
Proof.
  intros Hne. pose proof (recv_iter_step cfg (i, CoinMsg t r b) st) as Hs.
  destruct (recv_iter cfg (i, CoinMsg t r b) st) as [o st'] eqn:E. simpl in *.
  inversion Hs; subst; unfold publish, accept_share;
    repeat progress rewrite ?received_at_add_log, ?received_at_touch, ?received_at_touch_queue, ?received_at_set_queue,
      ?received_at_set_received, ?queue_at_add_log, ?queue_at_touch_received, ?queue_at_touch,
      ?queue_at_set_queue, ?queue_at_set_received, ?decide_False by done; done.
Qed.

(** ** A round's queue once its one bit has been taken *)

Lemma put_after_put_impossible cfg st r :
  coin_inv cfg st -> count_puts r (log st) = 1%nat -> length (received_at st r) <> f cfg.
Proof. intros Hinv H1 Hf. rewrite (count_puts_below cfg st r Hinv) in H1; lia. Qed.

Lemma drained_step cfg st st' r :
  coin_inv cfg st -> count_puts r (log st) = 1%nat -> q_items (queue_at st r) = [] ->
  sys_step cfg st st' -> count_puts r (log st') = 1%nat /\ q_items (queue_at st' r) = [].
Proof.
  intros Hinv H1 He [m|r'|r'].
  - pose proof (recv_iter_step cfg m st) as Hs.
    destruct Hs as [| | | | | | | |i t r' b s Hd Hi Hr Hm|i t r' b s Hd Hi Hr Hm Hv
      |i t r' b s Hd Hi Hr Hm Hv Hf|i t r' b s Hd Hi Hr Hm Hv Hf sig Hs Hq
      |i t r' b s Hd Hi Hr Hm Hv Hf Hs|i t r' b s Hd Hi Hr Hm Hv Hf sig Hs Hq]; try done;
      simpl; rewrite ?count_puts_other, ?queue_at_touch, ?queue_at_add_log by congruence; try done.
    + unfold publish, accept_share. rewrite count_puts_put, queue_at_set_queue, queue_at_add_log, queue_at_set_received.
      destruct (decide (r' = r)) as [<-|Hne]; [by apply put_after_put_impossible in Hf|].
      rewrite decide_False, H1 by congruence. split; [lia|done].
    + rewrite count_puts_put. destruct (decide (r = r')) as [<-|]; [by apply put_after_put_impossible in Hf|].
      rewrite H1. split; [lia|done].
  - simpl. by rewrite queue_at_touch.
  - rewrite queue_get_now_run. destruct (q_items (queue_at st r')) eqn:E; simpl.
    + by rewrite queue_at_touch.
    + rewrite queue_at_set_queue. destruct (decide (r' = r)) as [->|]; [congruence|done].
Qed.

Lemma drained_star cfg st st' r :
  coin_inv cfg st -> count_puts r (log st) = 1%nat -> q_items (queue_at st r) = [] ->
  star (sys_step cfg) st st' -> count_puts r (log st') = 1%nat /\ q_items (queue_at st' r) = [].
Proof.
  intros Hinv H1 He Hs.
  cut (coin_inv cfg st' /\ count_puts r (log st') = 1%nat /\ q_items (queue_at st' r) = []); [by intros []|].
  eapply (star_preserves _ (fun s => coin_inv cfg s /\ count_puts r (log s) = 1%nat /\ q_items (queue_at s r) = []));
    [|exact Hs|done].
  intros s s' (Hi & Hc1 & Hn) Hss. split; [by eapply sys_step_inv|]. by eapply drained_step.
Qed.

(** C9: [get_coin] is not idempotent. Once a caller has taken round [r]'s
    bit from [output_queue[r]], the one-slot queue is never refilled, so
    a later [get_coin(r)] in any continuation finds it empty and waits
    forever. The spec (4.3, 8 "Idempotence") says every call returns the
    same bit. *)
Theorem second_get_coin_blocks cfg st st' st'' r x :
  coin_inv cfg st ->
  queue_get_now r st = (Ok (Some x), st') ->
  star (sys_step cfg) st' st'' ->
  queue_get_now r st'' = (Ok None, touch_queue r st'').
Proof.
  intros Hinv Hget Hstar. rewrite queue_get_now_run in Hget.
  destruct (q_items (queue_at st r)) as [|y ys] eqn:E; [done|]. injection Hget as <- <-.
  pose proof Hinv as (Hl & Hp & Hq). destruct (Hq r) as [Hm Hc]. specialize (Hp r).
  rewrite E in Hc. simpl in Hc. destruct ys; simpl in Hc; [|repeat case_decide; lia].
  assert (H1 : count_puts r (log st) = 1%nat) by (repeat case_decide; lia).
  pose proof (coin_inv_get cfg st r Hinv) as Hg. rewrite queue_get_now_run, E in Hg.
  edestruct (drained_star cfg _ st'' r Hg) as [_ Hnil]; [done| |done|].
  - simpl. by rewrite queue_at_set_queue, decide_True.
  - by rewrite queue_get_now_run, Hnil.
Qed.

End Engine.

#[export] Hint Rewrite @received_at_set_queue @received_at_touch_queue @received_at_add_log
  @queue_at_set_received @queue_at_touch_received @queue_at_add_log @set_queue_touch : py_rw.
#[export] Hint Rewrite @received_at_set_received @received_at_touch @queue_at_set_queue
  @queue_at_touch @set_received_touch @coin_bit_ok : py_rw.
