(* ===== verification/Shamir.v ===== *)
(** * A threshold scheme by Shamir sharing, satisfying the laws

    [boldyreva] splits the master key with a polynomial [f] of degree
    below [k] over the field of the group order [p]. Party [i] holds
    [f(i+1)]. [combine_shares] raises the shares to the Lagrange
    coefficients at [0] of the signers' points [i+1] and multiplies
    them. In the exponent, this is interpolation at [0]: the sum of
    [h f(x) l_x] over the signers' points [x], where [l_x] is the Lagrange
    coefficient. It equals [h f(0)], the signature of the master key.

    [Lagrange] proves that identity for any [k] distinct points of the
    field and any [f] of degree below [k]. The field is [Z] modulo a prime
    [p]. Its equality is the congruence [cong p], declared an
    [Equivalence] with [Proper] instances for [+], [-], [*] and negation,
    so that proofs rewrite modulo [p]. The proof goes through these
    lemmas:
    - removing a root [x0]: interpolating [(t - x0) g(t)] over [xs] is
      [-x0] times interpolating [g] over [xs] without [x0];
    - the Lagrange coefficients sum to [1];
    - an induction on the degree, by synthetic division.
    [ShamirTBLS] is the scheme in the exponent (group element [g^e]
    written as [e]). It is an instance of [TBLS], [TBLSLaws] and
    [TBLSKeys] of [ThresholdSig]. Its combination reads every one of the
    [k] shares, unlike [ToyTBLS]'s. So the laws the coin's theorems
    assume hold of a real threshold scheme. Pairings, and the hardness
    they rest on, are not modelled. *)

From S2P Require Import Prelude ThresholdSig PyRepr CoinEngine.
From Stdlib Require Import Lia Znumtheory Zdiv.

Module Lagrange.

Definition zsum (l : list Z) : Z := foldr Z.add 0 l.
Definition zprod (l : list Z) : Z := foldr Z.mul 1 l.

(** a polynomial as its coefficients, constant first, evaluated by Horner *)
Definition eval (c : list Z) (t : Z) : Z := foldr (fun a acc => a + t * acc) 0 c.

(** synthetic division by [t - a] *)
Fixpoint divide (c : list Z) (a : Z) : list Z :=
  match c with
  | [] => []
  | c0 :: rest => match rest with [] => [] | _ => eval rest a :: divide rest a end
  end.

(** congruence modulo [p], the field's equality *)
Definition cong (p a b : Z) : Prop := (p | a - b).

#[export] Instance cong_equiv p : Equivalence (cong p).
Proof.
  split.
  - intros a. unfold cong. rewrite Z.sub_diag. apply Z.divide_0_r.
  - intros a b H. unfold cong. replace (b - a) with (-1 * (a - b)) by lia. by apply Z.divide_mul_r.
  - intros a b c H1 H2. unfold cong. replace (a - c) with ((a - b) + (b - c)) by lia. by apply Z.divide_add_r.
Qed.

#[export] Instance cong_add p : Proper (cong p ==> cong p ==> cong p) Z.add.
Proof.
  intros a b H1 c d H2. unfold cong. replace (a + c - (b + d)) with ((a - b) + (c - d)) by lia. by apply Z.divide_add_r.
Qed.

#[export] Instance cong_opp p : Proper (cong p ==> cong p) Z.opp.
Proof. intros a b H. unfold cong. replace (- a - - b) with (-1 * (a - b)) by lia. by apply Z.divide_mul_r. Qed.

#[export] Instance cong_sub p : Proper (cong p ==> cong p ==> cong p) Z.sub.
Proof.
  intros a b H1 c d H2. unfold cong. replace (a - c - (b - d)) with ((a - b) - (c - d)) by lia.
  by apply Z.divide_sub_r.
Qed.

#[export] Instance cong_mul p : Proper (cong p ==> cong p ==> cong p) Z.mul.
Proof.
  intros a b H1 c d H2. unfold cong. replace (a * c - b * d) with (a * (c - d) + (a - b) * d) by lia.
  apply Z.divide_add_r; [by apply Z.divide_mul_r|by apply Z.divide_mul_l].
Qed.

Section Field.
Context (p : Z) (Hp : prime p).

Local Notation "a ≡ b" := (cong p a b) (at level 70).

Lemma cong_mod a : a mod p ≡ a.
Proof.
  unfold cong. exists (- (a / p)). rewrite Z.mod_eq; [ring|]. destruct Hp; lia.
Qed.

Lemma cong_mod_eq a b : a ≡ b -> a mod p = b mod p.
Proof.
  intros [q Hq]. replace a with (b + q * p) by lia. apply Z.mod_add. destruct Hp; lia.
Qed.

(** the inverse modulo [p], by search *)
Definition inv (a : Z) : Z :=
  default 0 (snd <$> list_find (fun x => (a * x) mod p = 1) (seqZ 1 (p - 1))).

(** the Lagrange coefficient at [0] of the point [x] among [xs] *)
Definition lagrange (xs : list Z) (x : Z) : Z :=
  zprod (map (fun x' => x' * inv (x' - x)) (filter (fun x' => x' <> x) xs)).

(** interpolation of [f] at [0] from its values at [xs] *)
Definition interp0 (xs : list Z) (f : Z -> Z) : Z :=
  zsum (map (fun x => f x * lagrange xs x) xs).

(** ** Polynomials *)

Lemma eval_divide c a t : eval c t = eval c a + (t - a) * eval (divide c a) t.
Proof.
  induction c as [|c0 [|c1 rest] IH]; simpl in *; [lia|lia|].
  rewrite IH. simpl. lia.
Qed.

Lemma length_divide c a : length (divide c a) = (length c - 1)%nat.
Proof. induction c as [|c0 [|c1 rest] IH]; simpl in *; [done|done|]. rewrite IH. lia. Qed.

(** ** The field *)

Lemma prime_gt_1 : 1 < p.
Proof. by destruct Hp. Qed.

Lemma not_divide_small d : 0 < Z.abs d < p -> ~ (p | d).
Proof. intros Hd [q ->]. destruct (Z.eq_dec q 0) as [->|Hq]; [lia|]. pose proof prime_gt_1. nia. Qed.

Lemma inv_spec a : ~ (p | a) -> a * inv a ≡ 1.
Proof.
  intros Ha. pose proof prime_gt_1.
  destruct (rel_prime_bezout a p) as [u v Huv].
  { apply rel_prime_sym, prime_rel_prime; done. }
  assert (Hx : (a * (u mod p)) mod p = 1).
  { rewrite Z.mul_mod_idemp_r by lia. replace (a * u) with (1 + (- v) * p) by lia.
    rewrite Z.mod_add by lia. apply Z.mod_1_l. lia. }
  assert (Hin : u mod p ∈ seqZ 1 (p - 1)).
  { apply elem_of_seqZ. pose proof (Z.mod_pos_bound u p ltac:(lia)).
    destruct (Z.eq_dec (u mod p) 0) as [E|]; [rewrite E, Z.mul_0_r, Z.mod_0_l in Hx by lia; lia|lia]. }
  unfold inv. destruct (list_find _ _) as [[i x]|] eqn:E.
  - apply list_find_Some in E as (_ & Hax & _). simpl. rewrite <- (cong_mod (a * x)), Hax. reflexivity.
  - eapply list_find_None, List.Forall_forall in E; [|apply list_elem_of_In, Hin]. done.
Qed.

(** [u] cancels when it is not a multiple of [p] *)
Lemma cong_cancel u a b : ~ (p | u) -> u * a ≡ u * b -> a ≡ b.
Proof.
  intros Hu Hab. pose proof (inv_spec u Hu) as Hi.
  transitivity (inv u * u * a); [rewrite (Z.mul_comm (inv u)), Hi; by rewrite Z.mul_1_l|].
  transitivity (inv u * u * b); [rewrite <- !Z.mul_assoc, Hab; reflexivity|].
  rewrite (Z.mul_comm (inv u)), Hi. by rewrite Z.mul_1_l.
Qed.

Lemma distinct_not_divide x y : 0 <= x < p -> 0 <= y < p -> x <> y -> ~ (p | x - y).
Proof. intros. apply not_divide_small. lia. Qed.

(** ** Sums and products *)

Lemma zsum_perm l1 l2 : l1 ≡ₚ l2 -> zsum l1 = zsum l2.
Proof. induction 1; simpl; lia. Qed.

Lemma zprod_perm l1 l2 : l1 ≡ₚ l2 -> zprod l1 = zprod l2.
Proof. induction 1; simpl; lia. Qed.

Lemma zsum_eqm {A} (F G : A -> Z) l : (forall x, x ∈ l -> F x ≡ G x) -> zsum (map F l) ≡ zsum (map G l).
Proof.
  induction l as [|x l IH]; intros HFG; simpl; [reflexivity|].
  rewrite (HFG x ltac:(set_solver)), IH; [reflexivity|set_solver].
Qed.

Lemma zsum_linear {A} (F G : A -> Z) a b l :
  zsum (map (fun x => a * F x + b * G x) l) = a * zsum (map F l) + b * zsum (map G l).
Proof. induction l; simpl; lia. Qed.

Lemma zsum_ext {A} (F G : A -> Z) l : (forall x, x ∈ l -> F x = G x) -> zsum (map F l) = zsum (map G l).
Proof. intros H. f_equal. apply map_ext_in. intros x Hx. apply H, list_elem_of_In, Hx. Qed.

Lemma filter_all (P : Z -> Prop) `{!forall x, Decision (P x)} (l : list Z) : (forall x, x ∈ l -> P x) -> filter P l = l.
Proof.
  induction l as [|x l IH]; intros HP; [done|]. rewrite filter_cons_True by (apply HP; set_solver).
  f_equal. apply IH. set_solver.
Qed.

(** a list without duplicates is [x0] followed by the rest *)
Lemma perm_pick (xs : list Z) x0 : NoDup xs -> x0 ∈ xs -> xs ≡ₚ x0 :: filter (fun x => x <> x0) xs.
Proof.
  induction xs as [|x xs IH]; intros Hnd Hx; [set_solver|]. apply NoDup_cons in Hnd as [Hn Hnd].
  rewrite filter_cons. destruct (decide (x = x0)) as [->|Hne].
  - rewrite decide_False by tauto. constructor. rewrite filter_all; [done|]. intros y Hy ->. done.
  - rewrite decide_True by done. rewrite (IH Hnd) at 1 by set_solver. apply perm_swap.
Qed.

Lemma zsum_scale {A} (F : A -> Z) a l : a * zsum (map F l) = zsum (map (fun x => a * F x) l).
Proof. induction l; simpl; lia. Qed.

Lemma filter_swap (xs : list Z) x x0 :
  filter (fun y => y <> x0) (filter (fun y => y <> x) xs) = filter (fun y => y <> x) (filter (fun y => y <> x0) xs).
Proof. rewrite !list_filter_filter. apply list_filter_iff. tauto. Qed.

Lemma length_pick (xs : list Z) x0 : NoDup xs -> x0 ∈ xs -> length xs = S (length (filter (fun x => x <> x0) xs)).
Proof. intros. by rewrite (Permutation_length (perm_pick xs x0 ltac:(done) ltac:(done))) at 1. Qed.

(** ** Interpolation *)

Lemma interp0_ext xs f g : (forall x, x ∈ xs -> f x = g x) -> interp0 xs f = interp0 xs g.
Proof. intros H. unfold interp0. apply zsum_ext. intros x Hx. by rewrite H. Qed.

Lemma interp0_linear xs f g a b :
  interp0 xs (fun t => a * f t + b * g t) = a * interp0 xs f + b * interp0 xs g.
Proof.
  unfold interp0. rewrite <- zsum_linear. apply zsum_ext. intros x _. ring.
Qed.

Lemma interp0_zero xs : interp0 xs (fun _ => 0) = 0.
Proof. unfold interp0. transitivity (0 * zsum (map (lagrange xs) xs)); [by rewrite zsum_scale|lia]. Qed.

(** the coefficient of [x] among [xs] has the factor of [x0] *)
Lemma lagrange_pick xs x0 x : NoDup xs -> x0 ∈ xs -> x <> x0 ->
  lagrange xs x = x0 * inv (x0 - x) * lagrange (filter (fun y => y <> x0) xs) x.
Proof.
  intros Hnd Hx0 Hne. unfold lagrange. rewrite filter_swap.
  rewrite (zprod_perm _ _ (Permutation_map _ (perm_pick (filter (fun y => y <> x) xs) x0
             (NoDup_filter _ _ Hnd) ltac:(apply list_elem_of_filter; done)))).
  done.
Qed.

Section Points.
Context (xs : list Z) (Hnd : NoDup xs) (Hrange : forall x, x ∈ xs -> 0 <= x < p).

(** removing a root: [(t - x0) g(t)] interpolates as [-x0] times [g]
    over the other points *)
Lemma interp0_root x0 g : x0 ∈ xs ->
  interp0 xs (fun t => (t - x0) * g t) ≡ - x0 * interp0 (filter (fun x => x <> x0) xs) g.
Proof.
  intros Hx0. unfold interp0 at 1.
  rewrite (zsum_perm _ _ (Permutation_map _ (perm_pick xs x0 Hnd Hx0))). cbn [map zsum foldr].
  rewrite Z.sub_diag, !Z.mul_0_l, Z.add_0_l. unfold interp0. rewrite zsum_scale. apply zsum_eqm.
  intros x [Hne Hx]%list_elem_of_filter. rewrite (lagrange_pick xs x0 x Hnd Hx0 Hne).
  pose proof (inv_spec (x0 - x) (distinct_not_divide x0 x (Hrange x0 Hx0) (Hrange x Hx) (not_eq_sym Hne))) as Hi.
  set (L := lagrange (filter (fun y => y <> x0) xs) x).
  replace ((x - x0) * g x * (x0 * inv (x0 - x) * L)) with (- ((x0 - x) * inv (x0 - x)) * (x0 * g x * L)) by ring.
  rewrite Hi. replace (- x0 * (g x * L)) with (- (1) * (x0 * g x * L)) by ring. reflexivity.
Qed.

End Points.

(** the Lagrange coefficients of distinct points sum to [1] *)
Lemma interp0_one n xs : length xs = S n -> NoDup xs -> (forall x, x ∈ xs -> 0 <= x < p) ->
  interp0 xs (fun _ => 1) ≡ 1.
Proof.
  revert xs. induction n as [|n IH]; intros xs Hlen Hnd Hr.
  - destruct xs as [|x [|]]; try done. unfold interp0, lagrange. cbn [map filter list_filter].
    rewrite decide_False by tauto. reflexivity.
  - destruct xs as [|x1 [|x2 rest]]; try done. set (xs := x1 :: x2 :: rest) in *.
    assert (Hx1 : x1 ∈ xs) by set_solver. assert (Hx2 : x2 ∈ xs) by set_solver.
    assert (H12 : x2 <> x1) by (intros ->; apply NoDup_cons in Hnd as [Hn _]; set_solver).
    assert (Hsub : forall x0, x0 ∈ xs -> interp0 xs (fun t => (t - x0) * 1) ≡ - x0).
    { intros x0 Hx0. rewrite (interp0_root xs Hnd Hr x0 (fun _ => 1) Hx0).
      rewrite (IH (filter (fun x => x <> x0) xs)).
      + by rewrite Z.mul_1_r.
      + pose proof (length_pick xs x0 Hnd Hx0). simpl in *. lia.
      + by apply NoDup_filter.
      + intros x [_ Hx]%list_elem_of_filter. by apply Hr. }
    apply (cong_cancel (x2 - x1)); [apply distinct_not_divide; auto|].
    rewrite <- (Z.add_0_r ((x2 - x1) * interp0 xs (fun _ => 1))), <- (Z.mul_0_l (interp0 xs (fun _ => 0))).
    rewrite <- interp0_linear.
    rewrite (interp0_ext xs _ (fun t => 1 * ((t - x1) * 1) + (-1) * ((t - x2) * 1))) by (intros; lia).
    rewrite interp0_linear, (Hsub x1 Hx1), (Hsub x2 Hx2). replace (1 * - x1 + -1 * - x2) with ((x2 - x1) * 1) by ring.
    reflexivity.
Qed.

(** C31's core: interpolation at [0] from [k] distinct points recovers
    [f(0)] for every [f] of degree below [k] *)
Lemma interp0_poly n c xs : (length c <= n)%nat -> NoDup xs -> (forall x, x ∈ xs -> 0 <= x < p) ->
  (length c <= length xs)%nat -> interp0 xs (eval c) ≡ eval c 0.
Proof.
  revert c xs. induction n as [|n IH]; intros c xs Hn Hnd Hr Hc.
  - destruct c; [|simpl in Hn; lia]. cbn [eval foldr]. rewrite <- (interp0_zero xs). reflexivity.
  - destruct c as [|c0 c'] eqn:Ec; [cbn [eval foldr]; rewrite <- (interp0_zero xs); reflexivity|]. rewrite <- Ec in *.
    destruct xs as [|x0 xs'] eqn:Exs; [subst; simpl in Hc; lia|]. rewrite <- Exs in *.
    assert (Hx0 : x0 ∈ xs) by (subst; set_solver).
    set (q := divide c x0).
    rewrite (interp0_ext xs _ (fun t => eval c x0 * 1 + 1 * ((t - x0) * eval q t))) by (intros; unfold q; rewrite (eval_divide c x0); ring).
    rewrite interp0_linear, (interp0_one (length xs') xs) by (subst; done).
    rewrite (interp0_root xs Hnd Hr x0 (eval q) Hx0).
    rewrite (IH q (filter (fun x => x <> x0) xs)).
    + rewrite (eval_divide c x0 0). replace (0 - x0) with (- x0) by ring. rewrite Z.mul_1_l, Z.mul_1_r. reflexivity.
    + unfold q. rewrite length_divide. subst. simpl in *. lia.
    + by apply NoDup_filter.
    + intros x [_ Hx]%list_elem_of_filter. by apply Hr.
    + unfold q. rewrite length_divide. pose proof (length_pick xs x0 Hnd Hx0). lia.
Qed.

End Field.

(** a primality check by trial [gcd]s *)
Definition prime_check (p : Z) : bool := (1 <? p) && forallb (fun n => Z.gcd n p =? 1) (seqZ 1 (p - 1)).

Lemma prime_check_sound p : prime_check p = true -> prime p.
Proof.
  intros [H1 Hall]%andb_prop. apply Z.ltb_lt in H1. apply prime_intro; [done|].
  intros n Hn. apply Zgcd_1_rel_prime, Z.eqb_eq. rewrite forallb_forall in Hall.
  apply Hall, list_elem_of_In, elem_of_seqZ. lia.
Qed.

End Lagrange.

Module ShamirTBLS.
Import Lagrange.

(** ** Group elements as bytes

    An element of the group of order [p <= 2^256] is 32 bytes; in the
    exponent, [e] is written little-endian. *)
Fixpoint le_bytes (n : nat) (e : Z) : list byte :=
  match n with
  | O => []
  | S n' => default x00 (Byte.of_N (Z.to_N (e mod 256))) :: le_bytes n' (e / 256)
  end.

Definition le_value (bs : list byte) : Z := foldr (fun b acc => Z.of_N (Byte.to_N b) + 256 * acc) 0 bs.

Lemma length_le_bytes n e : length (le_bytes n e) = n.
Proof. revert e. induction n; intros; simpl; auto. Qed.

Lemma le_codec n e : 0 <= e < 2 ^ (8 * Z.of_nat n) -> le_value (le_bytes n e) = e.
Proof.
  revert e. induction n as [|n IH]; intros e He; simpl.
  - simpl in He. lia.
  - assert (Hm : 0 <= e mod 256 < 256) by (apply Z.mod_pos_bound; lia).
    destruct (Byte.of_N (Z.to_N (e mod 256))) as [b|] eqn:Eb; [|apply Byte.of_N_None_iff in Eb; lia].
    simpl. rewrite (Byte.to_of_N _ Eb), Z2N.id by lia. rewrite IH.
    + pose proof (Z.div_mod e 256 ltac:(lia)). lia.
    + split; [apply Z.div_pos; lia|]. apply Z.div_lt_upper_bound; [lia|].
      replace (8 * Z.of_nat (S n)) with (8 + 8 * Z.of_nat n) in He by lia. rewrite Z.pow_add_r in He by lia. lia.
Qed.

(** ** The keys *)

(** [TBLSPublicKey(l, k, VK, VKs)] in the exponent: [VK = f(0)] and
    [VKs[i] = f(i+1)] for a polynomial [f] of degree below [k] over the
    field of the group order [p] *)
Record ShamirPK := {
  sh_p : Z;
  sh_k : nat;
  sh_l : nat;
  sh_vk : Z;
  sh_vks : list Z;
  sh_prime : prime sh_p;
  sh_bound : sh_p <= 2 ^ 256;
  sh_parties : Z.of_nat sh_l < sh_p;
  sh_dealt : exists c, (length c <= sh_k)%nat /\ sh_vk = eval c 0 mod sh_p /\
    forall i, 0 <= i < Z.of_nat sh_l -> sh_vks !! Z.to_nat i = Some (eval c (i + 1) mod sh_p)
}.

(** [TBLSPrivateKey]: party [i]'s share [f(i+1)] *)
Record ShamirSK := { sk_p : Z; sk_share : Z }.

Definition vk_of (pk : ShamirPK) (i : Z) : Z := default 0 (sh_vks pk !! Z.to_nat i).

(** [boldyreva.dealer]: the key of party [i] *)
Definition deal (pk : ShamirPK) (i : Z) : ShamirSK := {| sk_p := sh_p pk; sk_share := vk_of pk i |}.

(** ** The operations, in the exponent *)

(** [hash_message]: a digest in [Z_p] *)
Definition sh_hash (pk : ShamirPK) (s : string) : Z := Z.of_N (ToyTBLS.toy_hash_string s) mod sh_p pk.

(** [combine_shares]: the product of [sig_j ^ lagrange(S, j)] *)
Definition sh_combine (pk : ShamirPK) (ss : list (Z * Z)) : Z :=
  let xs := map (fun s => s.1 + 1) ss in
  zsum (map (fun s => s.2 * lagrange (sh_p pk) xs (s.1 + 1)) ss) mod sh_p pk.

#[export] Instance shamir_tbls : TBLS ShamirPK ShamirSK Z Z := {
  pk_k := sh_k;
  pk_l := sh_l;
  hash_message := sh_hash;
  sign := fun sk h => (h * sk_share sk) mod sk_p sk;
  verify_share := fun pk e i h => bool_decide (0 <= i < Z.of_nat (sh_l pk)) && (e =? (h * vk_of pk i) mod sh_p pk);
  combine_shares := sh_combine;
  verify_signature := fun pk e h => e =? (h * sh_vk pk) mod sh_p pk;
  serialize := le_bytes 32;
  deserialize1 := fun bs => if (length bs =? 32)%nat then Some (le_value bs) else None
}.

(** ** The laws *)

(** the signature of the master key on [h] *)
Definition sh_tsig (pk : ShamirPK) (h : Z) : Z := (h * sh_vk pk) mod sh_p pk.

Lemma sh_p_pos pk : 1 < sh_p pk.
Proof. apply prime_gt_1, sh_prime. Qed.

Lemma sh_combine_valid pk h (ss : list (Z * Z)) :
  NoDup (map fst ss) -> length ss = sh_k pk ->
  Forall (fun s => 0 <= s.1 < Z.of_nat (sh_l pk) /\ verify_share pk s.2 s.1 h = true) ss ->
  sh_combine pk ss = sh_tsig pk h.
Proof.
  intros Hnd Hlen Hall. destruct (sh_dealt pk) as (c & Hc & Hvk & Hvks).
  pose proof (sh_prime pk) as Hp. pose proof (sh_parties pk) as Hl. pose proof (sh_p_pos pk).
  unfold sh_combine, sh_tsig. rewrite Hvk. apply (cong_mod_eq _ Hp).
  remember (map (fun s => s.1 + 1) ss) as xs eqn:Exs.
  transitivity (h * zsum (map (fun x => eval c x * lagrange (sh_p pk) xs x) (map (fun s => s.1 + 1) ss))).
  - rewrite zsum_scale, map_map. apply (zsum_eqm _ Hp). intros s Hs.
    rewrite List.Forall_forall in Hall. destruct (Hall s (proj1 (list_elem_of_In _ _) Hs)) as [Hi Hv].
    cbn [verify_share shamir_tbls] in Hv. apply andb_prop in Hv as [_ Hv%Z.eqb_eq].
    rewrite Hv. unfold vk_of. rewrite Hvks by done. simpl. rewrite !(cong_mod _ Hp). rewrite Z.mul_assoc. reflexivity.
  - rewrite <- Exs. fold (interp0 (sh_p pk) xs (eval c)).
    rewrite (interp0_poly _ Hp (length c) c xs); [by rewrite (cong_mod _ Hp)|done| | |].
    + subst xs. replace (map (fun s => s.1 + 1) ss) with ((fun i => i + 1) <$> (map fst ss)) by (by rewrite <- list_fmap_compose).
      apply NoDup_fmap_2; [intros ? ? ?; lia|done].
    + intros x Hx. subst xs. apply list_elem_of_In, in_map_iff in Hx as (s & <- & Hs).
      rewrite List.Forall_forall in Hall. destruct (Hall s Hs) as [Hi _]. lia.
    + subst xs. rewrite length_map. lia.
Qed.

Lemma sh_verify_tsig pk h : verify_signature pk (sh_tsig pk h) h = true.
Proof. apply Z.eqb_refl. Qed.

#[export] Instance shamir_tbls_laws : TBLSLaws ShamirPK ShamirSK Z Z := {
  tsig := sh_tsig;
  combine_valid := fun pk h ss _ => sh_combine_valid pk h ss;
  verify_tsig := sh_verify_tsig
}.

(** the dealer's keys: party [i] holds [VKs[i]] *)
Definition sh_key_of (pk : ShamirPK) (i : Z) (sk : ShamirSK) : Prop :=
  sk = deal pk i /\ 0 <= i < Z.of_nat (sh_l pk).

Lemma sh_sign_verifies pk i sk s : sh_key_of pk i sk ->
  verify_share pk (sign sk (hash_message pk s)) i (hash_message pk s) = true.
Proof.
  intros [-> Hi]. cbn [verify_share sign shamir_tbls deal sk_share sk_p].
  rewrite bool_decide_eq_true_2 by done. apply Z.eqb_refl.
Qed.

Lemma sh_sign_decodes pk i sk s : sh_key_of pk i sk ->
  deserialize1 (serialize (sign sk (hash_message pk s))) = Some (sign sk (hash_message pk s)).
Proof.
  intros [-> _]. cbn [deserialize1 serialize sign shamir_tbls deal sk_share sk_p].
  pose proof (sh_p_pos pk). pose proof (sh_bound pk).
  pose proof (Z.mod_pos_bound (sh_hash pk s * vk_of pk i) (sh_p pk) ltac:(lia)).
  rewrite length_le_bytes, le_codec by (simpl; lia). done.
Qed.

#[export] Instance shamir_tbls_keys : TBLSKeys ShamirPK ShamirSK Z Z := {
  key_of := sh_key_of;
  sign_verifies := sh_sign_verifies;
  sign_decodes := sh_sign_decodes
}.

Lemma deal_key_of pk i : 0 <= i < Z.of_nat (sh_l pk) -> key_of pk i (deal pk i).
Proof. by split. Qed.

(** C28: with the Shamir scheme, which [k] shares combine does not
    matter. Any two lists of [k] verified shares from distinct holders in
    [range(l)] combine to the same signature, which verifies, and the bit
    [hash(serialize(sig))[0] % 2] of line 77 is the bit of the master
    key's signature. So whichever [f+1] valid shares reach [_recv] first,
    the signature combined at line 73 and the coin are the same. *)
Theorem shamir_any_k_shares `{!Sha256} pk h (ss1 ss2 : list (Z * Z)) :
  NoDup (map fst ss1) -> NoDup (map fst ss2) -> length ss1 = sh_k pk -> length ss2 = sh_k pk ->
  Forall (fun s => 0 <= s.1 < Z.of_nat (sh_l pk) /\ verify_share pk s.2 s.1 h = true) ss1 ->
  Forall (fun s => 0 <= s.1 < Z.of_nat (sh_l pk) /\ verify_share pk s.2 s.1 h = true) ss2 ->
  sh_combine pk ss1 = sh_combine pk ss2 /\ verify_signature pk (sh_combine pk ss1) h = true /\
  digest_bit (sh_combine pk ss1) = digest_bit (sh_tsig pk h).
Proof.
  intros Hn1 Hn2 Hl1 Hl2 H1 H2.
  rewrite (sh_combine_valid pk h ss1), (sh_combine_valid pk h ss2) by done.
  split_and!; [done|apply sh_verify_tsig|done].
Qed.

End ShamirTBLS.
