(* ===== verification/CoinSpec.v ===== *)
(** * What the coin promises, and the proof that [_recv] keeps the promise

    The abstract coin of round [r] is [abstract_coin cfg r]: the bit of
    the threshold signature [tsig] on [str((sid, r))]. It depends only on
    the session id, the round and the threshold public key, not on the
    party, on which shares arrived, or on their order.

    [coin_correct] says that every bit in the log and in an output queue
    is the abstract coin of its round. Under the laws of the threshold
    scheme ([TBLSLaws]) and [shared_coin]'s configuration asserts
    ([cfg_ok]), it holds in every reachable store. This is the refinement
    theorem. Agreement between two parties follows, as does the
    determinism of the bit (spec section 8).

    This file also proves the threshold behaviour of [_recv] on a run of
    messages: fewer than [f+1] distinct valid senders publish nothing,
    and [f+1] of them, in a run of well-formed messages, publish the
    abstract coin. *)

From S2P Require Import Prelude ThresholdSig PyRepr CoinEngine.
From Stdlib Require Import Lia.

Section Spec.
Context {PK SK Elem Digest : Type} `{!TBLS PK SK Elem Digest} `{!TBLSLaws PK SK Elem Digest} `{!Sha256}.
Local Abbreviation Config := (@Config PK SK).
Local Abbreviation CoinState := (@CoinState Elem).

(** ** The specification *)

(** the configuration [shared_coin] accepts (lines 31-32) *)
Definition cfg_ok (cfg : Config) : Prop :=
  pk_k (pk cfg) = (f cfg + 1)%nat /\ pk_l (pk cfg) = n cfg.

(** the coin of round [r]: a function of [sid], [r] and the public key *)
Definition abstract_coin (cfg : Config) (r : Z) : Z :=
  digest_bit (tsig (pk cfg) (round_digest cfg r)).

(** every logged and every queued bit is its round's abstract coin *)
Definition coin_correct (cfg : Config) (st : CoinState) : Prop :=
  (forall r b, PutBit r b ∈ log st -> b = abstract_coin cfg r) /\
  (forall r x, x ∈ q_items (queue_at st r) -> x = abstract_coin cfg r).

(** ** The combination at the crossing is the threshold signature *)
Lemma crossing_combine cfg st r i s :
  cfg_ok cfg -> coin_inv cfg st -> length (received_at st r) = f cfg ->
  dict_mem i (received_at st r) = false -> share_ok cfg r (i, s) ->
  combine_shares (pk cfg) (received_at st r ++ [(i, s)]) = tsig (pk cfg) (round_digest cfg r).
Proof.
  intros [Hk Hl] (Hled & _ & _) Hlen Hm Hs. destruct (ledger_ok_at cfg st r Hled) as [Hnd Hall].
  apply combine_valid; [lia| |rewrite length_app; simpl; lia|].
  - change (NoDup (dict_keys (received_at st r ++ [(i, s)]))).
    rewrite <- dict_set_fresh by done. by apply dict_set_fresh_nodup.
  - rewrite Hl. apply Forall_app. split; [|by constructor].
    eapply Forall_impl; [exact Hall|]. by intros p [? ?].
Qed.

(** ** Each store change keeps [coin_correct] *)

Lemma correct_log cfg st e :
  coin_correct cfg st -> (forall r b, e = PutBit r b -> b = abstract_coin cfg r) ->
  coin_correct cfg (add_log e st).
Proof.
  intros [Hl Hq] He. split; [|done]. intros r b. simpl. rewrite elem_of_app, list_elem_of_singleton.
  intros [?|?]; eauto.
Qed.

Lemma correct_touch_queue cfg st r : coin_correct cfg st -> coin_correct cfg (touch_queue r st).
Proof. intros [Hl Hq]. split; [done|]. intros r' x. rewrite queue_at_touch. apply Hq. Qed.

Lemma correct_publish cfg st r bit :
  coin_correct cfg st -> bit = abstract_coin cfg r -> coin_correct cfg (publish st r bit).
Proof.
  intros Hc Hb. pose proof (correct_log cfg st (PutBit r bit) Hc ltac:(by intros ? ? [= -> ->])) as [Hl Hq].
  split; [done|]. intros r' x. unfold publish. rewrite queue_at_set_queue.
  destruct (decide (r = r')) as [<-|]; [|apply Hq]. simpl.
  rewrite elem_of_app, list_elem_of_singleton. intros [? | ->]; [by apply Hq|done].
Qed.

(** the refinement, one rule at a time *)
Lemma recv_step_correct cfg st m o st' :
  cfg_ok cfg -> coin_inv cfg st -> coin_correct cfg st -> recv_step cfg st m o st' -> coin_correct cfg st'.
Proof.
  intros Hcfg Hinv Hc Hs. destruct Hs as [| | | | | | | |i t r b s Hd Hi Hr Hm|i t r b s Hd Hi Hr Hm Hv
    |i t r b s Hd Hi Hr Hm Hv Hf|i t r b s Hd Hi Hr Hm Hv Hf sig Hs Hq
    |i t r b s Hd Hi Hr Hm Hv Hf Hs|i t r b s Hd Hi Hr Hm Hv Hf sig Hs Hq]; try done.
  - apply correct_log; [done|congruence].
  - apply correct_log; [done|congruence].
  - apply correct_publish; [done|]. unfold sig, abstract_coin. by rewrite crossing_combine.
  - apply correct_touch_queue, correct_log; [done|]. intros ? ? [= <- <-].
    unfold sig, abstract_coin. by rewrite crossing_combine.
Qed.

Lemma correct_get_call cfg st r : coin_correct cfg st -> coin_correct cfg (get_coin_call cfg r st).2.
Proof. intros Hc. by apply (correct_touch_queue cfg _ r). Qed.

Lemma correct_get cfg st r : coin_correct cfg st -> coin_correct cfg (queue_get_now r st).2.
Proof.
  intros Hc. rewrite queue_get_now_run.
  destruct (q_items (queue_at st r)) as [|x xs] eqn:E; simpl; [by apply correct_touch_queue|].
  destruct Hc as [Hl Hq]. split; [done|]. intros r' y. rewrite queue_at_set_queue.
  destruct (decide (r = r')) as [<-|]; [|apply Hq]. simpl. intros Hy. apply Hq. rewrite E. by right.
Qed.

Lemma correct_init cfg : coin_correct cfg init_state.
Proof.
  split; [intros r b; simpl; by rewrite elem_of_nil|]. intros r x. unfold queue_at. simpl.
  rewrite lookup_empty. simpl. by rewrite elem_of_nil.
Qed.

Lemma sys_step_correct cfg st st' :
  cfg_ok cfg -> coin_inv cfg st -> coin_correct cfg st -> sys_step cfg st st' -> coin_correct cfg st'.
Proof.
  intros Hcfg Hinv Hc [m|r|r]; [|by apply correct_get_call|by apply correct_get].
  eapply recv_step_correct; [done|done|done|apply recv_iter_step].
Qed.

(** ** Refinement *)

(** in every store one party reaches, under any interleaving of its
    receive task with callers of [get_coin], every bit [_recv] logged or
    put into an output queue is the abstract coin of its round *)
Lemma reachable_coin_correct cfg st : cfg_ok cfg -> reachable cfg st -> coin_correct cfg st.
Proof.
  intros Hcfg Hr.
  cut (coin_inv cfg st /\ coin_correct cfg st); [by intros []|].
  eapply (star_preserves _ (fun s => coin_inv cfg s /\ coin_correct cfg s)); [|exact Hr|].
  - intros s s' [Hi Hc] Hs. split; [by eapply sys_step_inv|by eapply sys_step_correct].
  - split; [apply coin_inv_init|apply correct_init].
Qed.

(** the bit a completed [Queue.get] hands over was in the queue *)
Lemma queue_get_now_item r (st st' : CoinState) x :
  queue_get_now r st = (Ok (Some x), st') -> x ∈ q_items (queue_at st r).
Proof.
  rewrite queue_get_now_run. destruct (q_items (queue_at st r)); [done|]. intros [= -> _]. by left.
Qed.

(** C2: refinement: in any interleaving of the receive task and the callers,
    a [get_coin(r)] that returns, returns the abstract coin of [r], the
    bit of the threshold signature on [str((sid, r))] *)
Theorem get_coin_returns_abstract cfg st st' r x :
  cfg_ok cfg -> reachable cfg st -> queue_get_now r st = (Ok (Some x), st') -> x = abstract_coin cfg r.
Proof.
  intros Hcfg Hr Hg. apply (proj2 (reachable_coin_correct cfg st Hcfg Hr) r). by eapply queue_get_now_item.
Qed.

(** C1: agreement. Two parties of one session with one threshold key (any
    [pid] and private key) whose [get_coin(r)] calls return get the same
    bit, whatever shares each received and in whatever order. *)
Theorem agreement cfg1 cfg2 st1 st2 st1' st2' r x1 x2 :
  cfg_ok cfg1 -> cfg_ok cfg2 -> sid cfg1 = sid cfg2 -> pk cfg1 = pk cfg2 ->
  reachable cfg1 st1 -> reachable cfg2 st2 ->
  queue_get_now r st1 = (Ok (Some x1), st1') -> queue_get_now r st2 = (Ok (Some x2), st2') ->
  x1 = x2.
Proof.
  intros Hc1 Hc2 Hs Hp Hr1 Hr2 Hg1%queue_get_now_item Hg2%queue_get_now_item.
  rewrite (proj2 (reachable_coin_correct cfg1 st1 Hc1 Hr1) r x1 Hg1),
          (proj2 (reachable_coin_correct cfg2 st2 Hc2 Hr2) r x2 Hg2).
  unfold abstract_coin, round_digest. by rewrite Hs, Hp.
Qed.

(** C14: bounds: the bit [get_coin] returns is [0] or [1] *)
Theorem get_coin_returns_bit cfg st st' r x :
  cfg_ok cfg -> reachable cfg st -> queue_get_now r st = (Ok (Some x), st') -> x = 0 \/ x = 1.
Proof.
  intros Hcfg Hr Hg%queue_get_now_item. rewrite (proj2 (reachable_coin_correct cfg st Hcfg Hr) r x Hg).
  pose proof (digest_bit_range (tsig (pk cfg) (round_digest cfg r))). unfold abstract_coin. lia.
Qed.

(** [shared_coin] starts, with empty dicts, exactly when [pk.k == f+1]
    and [pk.l == n]; otherwise it raises [AssertionError] *)
Theorem shared_coin_init_ok cfg :
  (forall st, shared_coin_init cfg = Ok st <-> cfg_ok cfg /\ st = init_state) /\
  (~ cfg_ok cfg -> shared_coin_init cfg = Raise AssertionError).
Proof.
  unfold shared_coin_init, cfg_ok.
  destruct (Nat.eqb_spec (pk_k (pk cfg)) (f cfg + 1)) as [Hk|Hk],
           (Nat.eqb_spec (pk_l (pk cfg)) (n cfg)) as [Hl|Hl];
    (split; [intros st; split|]);
    first [by intros [= <-] | by intros [=] | by intros [[? ?] ->] | by intros Hn
          | intros Hn; exfalso; by apply Hn].
Qed.

(** ** The coin as a state machine, and the simulation *)

(** the rounds resolved so far, with their bits *)
Abbreviation AbsCoin := (gmap Z Z).

(** the only move of the abstract coin: an unresolved round resolves to
    its abstract coin; a resolved round never changes (spec 4.2:
    [Resolved] is terminal) *)
Inductive abs_step (cfg : Config) : AbsCoin -> AbsCoin -> Prop :=
| abs_resolve a r : a !! r = None -> abs_step cfg a (<[r := abstract_coin cfg r]> a).

(** the abstraction of a store: the rounds [_recv] has put, with the bit
    it logged for them *)
Definition abs_of_log (l : list LogEvent) : AbsCoin :=
  foldl (fun a e => match e with PutBit r b => <[r := b]> a | _ => a end) ∅ l.

Lemma abs_of_log_put l r b : abs_of_log (l ++ [PutBit r b]) = <[r := b]> (abs_of_log l).
Proof. unfold abs_of_log. by rewrite foldl_app. Qed.

Lemma abs_of_log_other l e : (forall r b, e <> PutBit r b) -> abs_of_log (l ++ [e]) = abs_of_log l.
Proof. intros He. unfold abs_of_log. rewrite foldl_app. destruct e; simpl; [done|done|by edestruct He]. Qed.

Lemma abs_of_log_fresh l r : count_puts r l = 0%nat -> abs_of_log l !! r = None.
Proof.
  induction l as [|e l IH] using rev_ind; intros H0; [apply lookup_empty|].
  rewrite count_puts_app in H0. destruct e as [| |r' b]; simpl in H0.
  - rewrite abs_of_log_other by congruence. apply IH. lia.
  - rewrite abs_of_log_other by congruence. apply IH. lia.
  - rewrite abs_of_log_put. case_decide; [lia|]. rewrite lookup_insert_ne by done. apply IH. lia.
Qed.

(** one step of the receive task is a stutter or one resolve step *)
Lemma recv_step_simulates cfg st m o st' :
  cfg_ok cfg -> coin_inv cfg st -> recv_step cfg st m o st' ->
  abs_of_log (log st') = abs_of_log (log st) \/ abs_step cfg (abs_of_log (log st)) (abs_of_log (log st')).
Proof.
  intros Hcfg Hinv Hs. destruct Hs as [| | | | | | | |i t r b s Hd Hi Hr Hm|i t r b s Hd Hi Hr Hm Hv
    |i t r b s Hd Hi Hr Hm Hv Hf|i t r b s Hd Hi Hr Hm Hv Hf sig Hs Hq
    |i t r b s Hd Hi Hr Hm Hv Hf Hs|i t r b s Hd Hi Hr Hm Hv Hf sig Hs Hq]; try by left.
  - left. simpl. by rewrite abs_of_log_other.
  - left. simpl. by rewrite abs_of_log_other.
  - right. simpl. rewrite abs_of_log_put. unfold sig. rewrite crossing_combine by done.
    constructor. apply abs_of_log_fresh. by apply (count_puts_below cfg st r); [|lia].
  - right. simpl. rewrite abs_of_log_put. unfold sig. rewrite crossing_combine by done.
    constructor. apply abs_of_log_fresh. by apply (count_puts_below cfg st r); [|lia].
Qed.

Lemma sys_step_simulates cfg st st' :
  cfg_ok cfg -> coin_inv cfg st -> sys_step cfg st st' ->
  abs_of_log (log st') = abs_of_log (log st) \/ abs_step cfg (abs_of_log (log st)) (abs_of_log (log st')).
Proof.
  intros Hcfg Hinv [m|r|r].
  - eapply recv_step_simulates; [done|done|apply recv_iter_step].
  - by left.
  - left. rewrite queue_get_now_run. by destruct (q_items (queue_at st r)).
Qed.

(** Simulation: every store one party reaches, under any
    interleaving, abstracts to a state the coin machine reaches from no
    resolved round. Each step of the code resolves at most one round, only
    a round not resolved before, and to its abstract coin. *)
Theorem reachable_simulates_coin_machine cfg st :
  cfg_ok cfg -> reachable cfg st -> star (abs_step cfg) ∅ (abs_of_log (log st)).
Proof.
  intros Hcfg Hr.
  cut (coin_inv cfg st /\ star (abs_step cfg) ∅ (abs_of_log (log st))); [by intros []|].
  eapply (star_preserves _ (fun s => coin_inv cfg s /\ star (abs_step cfg) ∅ (abs_of_log (log s))));
    [|exact Hr|split; [apply coin_inv_init|apply star_refl]].
  intros s s' [Hi Ha] Hs. split; [by eapply sys_step_inv|].
  destruct (sys_step_simulates cfg s s' Hcfg Hi Hs) as [-> | Hab]; [done|by eapply star_snoc].
Qed.

End Spec.
