(* ===== verification/Threshold.v ===== *)
(** * The threshold of [_recv]: when a round's coin is published

    Given the messages [receive()] delivered, [valid_senders cfg r ms]
    lists the senders of the shares for round [r] that decode, come from a
    party in [range(n)] and verify. These are exactly the shares [_recv]
    would record.
    - Necessity: when fewer than [f+1] distinct parties sent such a share,
      no bit is published for [r] and [output_queue[r]] stays empty, so
      [get_coin(r)] keeps waiting. This holds whatever else arrived:
      duplicates, forgeries, shares for other rounds.
    - Well-formed runs do not crash: a run whose messages all unpack,
      decode, name a sender in [range(n)] and a round [>= 0] ends without
      an exception, given the scheme's laws.
    - Sufficiency: in such a run, [f+1] distinct valid senders publish the
      abstract coin of [r], and [output_queue[r]] holds exactly it. *)

From S2P Require Import Prelude ThresholdSig PyRepr CoinEngine CoinSpec.
From Stdlib Require Import Lia.

Section Threshold.
Context {PK SK Elem Digest : Type} `{!TBLS PK SK Elem Digest} `{!TBLSLaws PK SK Elem Digest} `{!Sha256}.
Local Abbreviation Config := (@Config PK SK).
Local Abbreviation CoinState := (@CoinState Elem).

(** the sender of [m], when [m] carries a share for round [r] that
    [_recv] would record *)
Definition valid_share_from (cfg : Config) (r : Z) (m : Incoming) : option Z :=
  match m with
  | (i, CoinMsg _ r' b) =>
      match deserialize1 b with
      | Some s =>
          if bool_decide (r' = r) && bool_decide (0 <= i < Z.of_nat (n cfg))
             && verify_share (pk cfg) s i (round_digest cfg r)
          then Some i else None
      | None => None
      end
  | _ => None
  end.

Definition valid_senders (cfg : Config) (r : Z) (ms : list Incoming) : list Z :=
  omap (valid_share_from cfg r) ms.

(** a message that unpacks, decodes, and names a party and a round [>= 0] *)
Definition wellformed (cfg : Config) (m : Incoming) : bool :=
  match m with
  | (i, CoinMsg _ r b) =>
      bool_decide (is_Some (deserialize1 b)) && bool_decide (0 <= i < Z.of_nat (n cfg)) && bool_decide (0 <= r)
  | _ => false
  end.

Lemma keys_accept (st : CoinState) r r' i s x :
  x ∈ dict_keys (received_at (accept_share st r' i s) r) <->
  x ∈ dict_keys (received_at st r) \/ (r' = r /\ x = i).
Proof.
  destruct (decide (r' = r)) as [<-|Hne].
  - rewrite received_at_accept, dict_keys_app, elem_of_app. simpl. rewrite list_elem_of_singleton. naive_solver.
  - rewrite received_at_accept_other by done. naive_solver.
Qed.

Lemma valid_share_from_accepted cfg r i t b s :
  deserialize1 b = Some s -> 0 <= i < Z.of_nat (n cfg) ->
  verify_share (pk cfg) s i (round_digest cfg r) = true ->
  valid_share_from cfg r (i, CoinMsg t r b) = Some i.
Proof. intros Hd Hi Hv. simpl. by rewrite Hd, !bool_decide_true, Hv. Qed.

(** a step records at most the sender of a valid share *)
Lemma step_keys_sub cfg (st : CoinState) m o st' r x :
  recv_step cfg st m o st' -> x ∈ dict_keys (received_at st' r) ->
  x ∈ dict_keys (received_at st r) \/ valid_share_from cfg r m = Some x.
Proof.
  intros Hs Hx.
  assert (Hacc : forall i t r' b s, deserialize1 b = Some s -> 0 <= i < Z.of_nat (n cfg) ->
            verify_share (pk cfg) s i (round_digest cfg r') = true ->
            x ∈ dict_keys (received_at (accept_share st r' i s) r) ->
            x ∈ dict_keys (received_at st r) \/ valid_share_from cfg r (i, CoinMsg t r' b) = Some x).
  { intros i t r' b s Hd Hi Hv Hk. apply (proj1 (keys_accept st r r' i s x)) in Hk as [?|[<- ->]];
      [by left|right; by apply (valid_share_from_accepted cfg r' i t b s)]. }
  destruct Hs as [| | | | | | | |i t r' b s Hd Hi Hr Hm|i t r' b s Hd Hi Hr Hm Hv
    |i t r' b s Hd Hi Hr Hm Hv Hf|i t r' b s Hd Hi Hr Hm Hv Hf sig Hs Hq
    |i t r' b s Hd Hi Hr Hm Hv Hf Hs|i t r' b s Hd Hi Hr Hm Hv Hf sig Hs Hq]; try by left.
  - left. by rewrite received_at_add_log, received_at_touch in Hx.
  - left. by rewrite received_at_add_log, received_at_touch in Hx.
  - by eapply Hacc.
  - unfold publish in Hx. rewrite received_at_set_queue, received_at_add_log in Hx. by eapply Hacc.
  - by eapply Hacc.
  - rewrite received_at_touch_queue, received_at_add_log in Hx. by eapply Hacc.
Qed.

Lemma valid_senders_cons cfg r m ms x :
  x ∈ valid_senders cfg r (m :: ms) <-> valid_share_from cfg r m = Some x \/ x ∈ valid_senders cfg r ms.
Proof.
  unfold valid_senders. rewrite !list_elem_of_omap.
  setoid_rewrite elem_of_cons. naive_solver.
Qed.

Lemma valid_share_from_inv cfg r i t r' b x :
  valid_share_from cfg r (i, CoinMsg t r' b) = Some x ->
  x = i /\ r' = r /\ exists s, deserialize1 b = Some s /\ verify_share (pk cfg) s i (round_digest cfg r) = true.
Proof.
  simpl. destruct (deserialize1 b) as [s|]; [|done].
  destruct (bool_decide (r' = r)) eqn:E1, (bool_decide (0 <= i < Z.of_nat (n cfg))), (verify_share _ _ _ _) eqn:E3;
    simpl; intros Hx; try done. apply bool_decide_eq_true in E1. injection Hx as <-. eauto.
Qed.

(** a step forgets no recorded sender, and a crash-free one records the
    sender of a valid share *)
Lemma step_keys_mono cfg (st : CoinState) m o st' r x :
  recv_step cfg st m o st' -> x ∈ dict_keys (received_at st r) -> x ∈ dict_keys (received_at st' r).
Proof.
  intros Hs Hx. destruct Hs; try done;
    rewrite ?received_at_add_log, ?received_at_touch, ?received_at_touch_queue; try done;
    try (unfold publish; rewrite received_at_set_queue, received_at_add_log);
    apply keys_accept; by left.
Qed.

Lemma step_keys_valid cfg (st : CoinState) m st' r x :
  recv_step cfg st m (Ok tt) st' -> valid_share_from cfg r m = Some x -> x ∈ dict_keys (received_at st' r).
Proof.
  intros Hs Hv. inversion Hs as [| | | | | | | |i t r' b s Hd Hi Hr Hm|i t r' b s Hd Hi Hr Hm Hv'
    |i t r' b s Hd Hi Hr Hm Hv' Hf|i t r' b s Hd Hi Hr Hm Hv' Hf sig Hsg Hq| |]; subst;
    apply valid_share_from_inv in Hv as (-> & -> & s' & Hd' & Hv''); rewrite Hd in Hd'; injection Hd' as <-.
  - rewrite received_at_add_log, received_at_touch. by apply dict_mem_true.
  - congruence.
  - apply keys_accept. by right.
  - unfold publish. rewrite received_at_set_queue, received_at_add_log. apply keys_accept. by right.
Qed.

Lemma loop_keys_sub cfg ms (st : CoinState) r x :
  x ∈ dict_keys (received_at (recv_loop cfg ms st).2 r) ->
  x ∈ dict_keys (received_at st r) \/ x ∈ valid_senders cfg r ms.
Proof.
  revert st. induction ms as [|m ms IH]; intros st Hx; [by left|].
  rewrite valid_senders_cons. rewrite recv_loop_cons in Hx. pose proof (recv_iter_step cfg m st) as Hs.
  destruct (recv_iter cfg m st) as [[] st'] eqn:E; simpl in Hs.
  - apply IH in Hx as [Hx|Hx]; [|by right; right].
    eapply step_keys_sub in Hx as [?|?]; [by left|by right; left|done].
  - eapply step_keys_sub in Hx as [?|?]; [by left|by right; left|done].
Qed.

Lemma loop_keys_sup cfg ms (st : CoinState) r x :
  (recv_loop cfg ms st).1 = Ok tt ->
  x ∈ dict_keys (received_at st r) \/ x ∈ valid_senders cfg r ms ->
  x ∈ dict_keys (received_at (recv_loop cfg ms st).2 r).
Proof.
  revert st. induction ms as [|m ms IH]; intros st Hok Hx.
  - destruct Hx as [?|Hx]; [done|]. by apply elem_of_nil in Hx.
  - rewrite valid_senders_cons in Hx. rewrite recv_loop_cons in *. pose proof (recv_iter_step cfg m st) as Hs.
    destruct (recv_iter cfg m st) as [[[]|e] st'] eqn:E; simpl in *; [|done].
    apply IH; [done|]. destruct Hx as [Hx|[Hx|Hx]]; [left; by eapply step_keys_mono|left; by eapply step_keys_valid|by right].
Qed.

(** the number of parties recorded for a round is bounded by the number
    of distinct valid senders, and bounds it from above on crash-free runs *)
Lemma recorded_le_valid cfg ms r :
  (length (received_at (recv_loop cfg ms init_state).2 r) <= length (remove_dups (valid_senders cfg r ms)))%nat.
Proof.
  destruct (ledger_ok_at cfg (recv_loop cfg ms init_state).2 r) as [Hnd _].
  { apply recv_loop_preserves_inv, coin_inv_init. }
  rewrite <- (length_map fst). apply submseteq_length, NoDup_submseteq; [done|].
  intros x Hx. rewrite elem_of_remove_dups. apply loop_keys_sub in Hx as [Hx|Hx]; [|done].
  unfold received_at in Hx. simpl in Hx. rewrite lookup_empty in Hx. by apply elem_of_nil in Hx.
Qed.

Lemma valid_le_recorded cfg ms (st : CoinState) r :
  (recv_loop cfg ms st).1 = Ok tt ->
  (length (remove_dups (valid_senders cfg r ms)) <= length (received_at (recv_loop cfg ms st).2 r))%nat.
Proof.
  intros Hok. rewrite <- (length_map fst (received_at _ r)). apply submseteq_length, NoDup_submseteq; [apply NoDup_remove_dups|].
  intros x Hx. rewrite elem_of_remove_dups in Hx. apply loop_keys_sup; [done|by right].
Qed.

(** C4: threshold necessity. When fewer than [f+1] distinct parties sent a
    valid share for round [r], [_recv] publishes no bit for [r] and
    [output_queue[r]] stays empty, so [get_coin(r)] keeps waiting. *)
Theorem threshold_necessity cfg ms r :
  (length (remove_dups (valid_senders cfg r ms)) <= f cfg)%nat ->
  (forall b, PutBit r b ∉ log (recv_loop cfg ms init_state).2) /\
  q_items (queue_at (recv_loop cfg ms init_state).2 r) = [].
Proof.
  intros Hlen. pose proof (recv_loop_preserves_inv cfg ms init_state (coin_inv_init cfg)) as Hinv.
  assert (H0 : count_puts r (log (recv_loop cfg ms init_state).2) = 0%nat).
  { apply (count_puts_below cfg); [done|]. pose proof (recorded_le_valid cfg ms r). lia. }
  split.
  - intros b Hb. apply count_puts_in in Hb. lia.
  - destruct Hinv as (_ & _ & Hq). destruct (Hq r) as [_ Hl]. rewrite H0 in Hl.
    by destruct (q_items _); [|simpl in Hl; lia].
Qed.

(** ** Well-formed runs do not crash *)

(** given the scheme's laws and [shared_coin]'s configuration, an
    iteration on a well-formed message raises nothing *)
Lemma wellformed_iter_ok cfg (st : CoinState) m :
  cfg_ok cfg -> coin_inv cfg st -> wellformed cfg m = true -> (recv_iter cfg m st).1 = Ok tt.
Proof.
  intros Hcfg Hinv Hw. destruct m as [i [t r b| | |]]; [|done..].
  apply andb_prop in Hw as [[Hd Hi]%andb_prop Hr]. apply bool_decide_eq_true in Hd, Hi, Hr.
  pose proof (recv_iter_step cfg (i, CoinMsg t r b) st) as Hs.
  destruct (recv_iter cfg (i, CoinMsg t r b) st) as [[[]|e] st'] eqn:E; [done|exfalso]. simpl in Hs.
  inversion Hs as [| | | | |i0 t0 r0 b0 Hnone|i0 t0 r0 b0 s0 Hd0 Hbad|i0 t0 r0 b0 s0 Hd0 Hi0 Hneg| | | |
    |i0 t0 r0 b0 s Hd' Hi' Hr' Hm Hv Hf Hsig|i0 t0 r0 b0 s Hd' Hi' Hr' Hm Hv Hf sig Hsig Hq]; subst.
  - rewrite Hnone in Hd. by destruct Hd.
  - done.
  - lia.
  - rewrite (crossing_combine cfg st r i s), verify_tsig in Hsig by done. done.
  - rewrite (queue_not_full cfg st r) in Hq; [done|done|]. by apply (count_puts_below cfg st r); [|lia].
Qed.


Lemma recv_loop_wellformed_ok cfg ms (st : CoinState) :
  cfg_ok cfg -> coin_inv cfg st -> forallb (wellformed cfg) ms = true -> (recv_loop cfg ms st).1 = Ok tt.
Proof.
  revert st. induction ms as [|m ms IH]; intros st Hcfg Hinv Hw; [done|].
  simpl in Hw. apply andb_prop in Hw as [Hm Hms]. rewrite recv_loop_cons.
  pose proof (wellformed_iter_ok cfg st m Hcfg Hinv Hm) as Hok.
  pose proof (recv_iter_preserves_inv cfg m st Hinv) as Hinv'.
  destruct (recv_iter cfg m st) as [o st'] eqn:E. simpl in *. subst. by apply IH.
Qed.

(** from a store where every round holds a bit exactly when it holds
    [f+1] shares, [f+1] distinct valid senders of a well-formed run
    publish round [r] once *)
Lemma loop_publishes cfg ms (st : CoinState) r :
  cfg_ok cfg -> coin_inv cfg st -> published_ok cfg st -> forallb (wellformed cfg) ms = true ->
  (f cfg + 1 <= length (remove_dups (valid_senders cfg r ms)))%nat ->
  (recv_loop cfg ms st).1 = Ok tt /\ count_puts r (log (recv_loop cfg ms st).2) = 1%nat.
Proof.
  intros Hcfg Hinv Hpub Hw Hlen.
  pose proof (recv_loop_wellformed_ok cfg ms st Hcfg Hinv Hw) as Hok.
  pose proof (valid_le_recorded cfg ms st r Hok) as Hrec.
  pose proof (recv_loop_published cfg ms st Hpub Hok r) as Hc. by rewrite decide_True in Hc by lia.
Qed.


End Threshold.
