(* ===== verification/Scheduler.v ===== *)
(** * The tasks of one party: [recv_task] and the callers of [get_coin]

    [shared_coin] starts [_recv] as [recv_task] (line 82). Every
    [get_coin(round)] (lines 84-97) runs in the task of its caller and
    suspends in [await output_queue[round].get()]. asyncio's [Queue.get]
    appends a getter future to the queue's [_getters] deque and waits on it
    while the queue is empty. [put_nowait] (line 80) resolves the first
    pending getter ([_wakeup_next]). The woken task re-checks the queue when
    it resumes: it takes the item, or waits again at the back of the deque.

    [Sched] is the state of these tasks over the store of [CoinEngine]:
    - [sc_recv] is [recv_task]: running, crashed with an exception, or
      cancelled;
    - [sc_inbox] holds the messages the network delivered and [receive()]
      has not yet returned;
    - [sc_getters] holds each round's [_getters] deque of waiting callers;
    - [sc_callers] holds the state of each caller task.
    [sched_exec] runs one scheduling action. A receive iteration and a
    call up to its first suspension are atomic, as asyncio runs a task
    without preemption between two awaits. [sched_reachable] is every
    state that some schedule reaches from [shared_coin]'s start.

    The theorems of this file:
    - every scheduler step refines a sequence of [sys_step]s, so the
      engine's invariant and the coin's correctness hold in every
      scheduler state;
    - at most one caller of [get_coin(r)] ever returns, and the bit it
      returns is the abstract coin;
    - [getters_ok]: each deque has no duplicates, and a caller is in the
      deque of [r] exactly when it is waiting on [r];
    - a caller that neither waits nor is called again keeps its state
      through any schedule;
    - while [recv_task] runs, exactly the rounds holding [f+1] shares
      have been put. *)

From S2P Require Import Prelude ThresholdSig PyRepr CoinEngine CoinSpec.
From Stdlib Require Import Lia.

Create HintDb sched discriminated.

Section Sched.
Context {PK SK Elem Digest : Type} `{!TBLS PK SK Elem Digest} `{!TBLSLaws PK SK Elem Digest} `{!Sha256}.
Local Abbreviation Config := (@Config PK SK).
Local Abbreviation CoinState := (@CoinState Elem).

(** ** Tasks *)

(** [recv_task]: [_recv] never returns, so the task is running until an
    exception escapes it or it is cancelled *)
Inductive RecvTask :=
| Running
| Crashed (e : PyExc)
| Cancelled.

(** a task that called [get_coin(r)] *)
Inductive Caller :=
| Waiting (r : Z)          (** suspended on a pending getter of [output_queue[r]] *)
| Woken (r : Z)            (** its getter was resolved; not yet resumed *)
| Returned (r b : Z)       (** [get_coin(r)] returned [b] *)
| CallCancelled (r : Z).   (** [CancelledError] escaped [Queue.get] *)

Record Sched := mkSched {
  sc_store : CoinState;
  sc_recv : RecvTask;
  sc_inbox : list Incoming;
  sc_getters : gmap Z (list nat);
  sc_callers : gmap nat Caller
}.

(** the moment [shared_coin] returns: empty store, [recv_task] created,
    nothing delivered, no caller *)
Definition sched_init : Sched := mkSched init_state Running [] ∅ ∅.

Definition getters_at (s : Sched) (r : Z) : list nat := default [] (sc_getters s !! r).

Definition set_store (st : CoinState) (s : Sched) : Sched :=
  mkSched st (sc_recv s) (sc_inbox s) (sc_getters s) (sc_callers s).

Definition set_getters (r : Z) (g : list nat) (s : Sched) : Sched :=
  mkSched (sc_store s) (sc_recv s) (sc_inbox s) (<[r := g]> (sc_getters s)) (sc_callers s).

Definition set_caller (c : nat) (x : Caller) (s : Sched) : Sched :=
  mkSched (sc_store s) (sc_recv s) (sc_inbox s) (sc_getters s) (<[c := x]> (sc_callers s)).

(** [collections.deque.remove(x)]: drop the first occurrence *)
Fixpoint remove_first (c : nat) (l : list nat) : list nat :=
  match l with
  | [] => []
  | x :: l' => if decide (x = c) then l' else x :: remove_first c l'
  end.

(** [Queue._wakeup_next(self._getters)]: pop the first getter and resolve
    it. Every getter of the deque is pending: a cancelled one has been
    removed from it. *)
Definition wakeup_next (r : Z) (s : Sched) : Sched :=
  match getters_at s r with
  | [] => s
  | c :: cs => set_caller c (Woken r) (set_getters r cs s)
  end.

(** ** Scheduling actions *)

Definition msg_round (m : Incoming) : option Z :=
  match m.2 with
  | CoinMsg _ r _ => Some r
  | _ => None
  end.

(** [put_nowait] added an item to [output_queue[r]] *)
Definition queue_grew (r : Z) (st st' : CoinState) : bool :=
  (length (q_items (queue_at st r)) <? length (q_items (queue_at st' r)))%nat.

Definition task_after (o : Outcome unit) : RecvTask :=
  match o with
  | Ok _ => Running
  | Raise e => Crashed e
  end.

(** [recv_task] runs one iteration of [_recv]: [await receive()] returns
    the next delivered message. An escaping exception ends the task. A
    [put_nowait] for the message's round wakes that round's first getter. *)
Definition sched_recv (cfg : Config) (s : Sched) : option Sched :=
  match sc_recv s, sc_inbox s with
  | Running, m :: ms =>
      let '(o, st') := recv_iter cfg m (sc_store s) in
      let s1 := mkSched st' (task_after o) ms (sc_getters s) (sc_callers s) in
      Some (match msg_round m with
            | Some r => if queue_grew r (sc_store s) st' then wakeup_next r s1 else s1
            | None => s1
            end)
  | _, _ => None
  end.

(** the body of [Queue.get] run by caller [c]: with an item, take it
    ([get_nowait]) and return; on an empty queue, append a getter to
    [_getters] and suspend *)
Definition sched_get (c : nat) (r : Z) (s : Sched) : Sched :=
  match queue_get_now r (sc_store s) with
  | (Ok (Some b), st') => set_caller c (Returned r b) (set_store st' s)
  | (_, st') => set_caller c (Waiting r) (set_getters r (getters_at s r ++ [c]) (set_store st' s))
  end.

(** a new task [c] calls [get_coin(r)] and runs to its first suspension *)
Definition sched_call (cfg : Config) (c : nat) (r : Z) (s : Sched) : option Sched :=
  if bool_decide (is_Some (sc_callers s !! c)) then None
  else Some (sched_get c r (set_store (get_coin_call cfg r (sc_store s)).2 s)).

(** a woken caller resumes in [Queue.get]'s loop *)
Definition sched_resume (c : nat) (s : Sched) : option Sched :=
  match sc_callers s !! c with
  | Some (Woken r) => Some (sched_get c r s)
  | _ => None
  end.

(** [recv_task.cancel()] *)
Definition sched_cancel_recv (s : Sched) : option Sched :=
  match sc_recv s with
  | Running => Some (mkSched (sc_store s) Cancelled (sc_inbox s) (sc_getters s) (sc_callers s))
  | _ => None
  end.

(** cancelling a caller suspended in [Queue.get]. A pending getter is
    removed from [_getters]. A getter already resolved passes the wake-up
    on when the queue is not empty ([Queue.get]'s [except] branch). *)
Definition sched_cancel_caller (c : nat) (s : Sched) : option Sched :=
  match sc_callers s !! c with
  | Some (Waiting r) => Some (set_caller c (CallCancelled r) (set_getters r (remove_first c (getters_at s r)) s))
  | Some (Woken r) =>
      let s1 := set_caller c (CallCancelled r) s in
      Some (if bool_decide (q_items (queue_at (sc_store s) r) = []) then s1 else wakeup_next r s1)
  | _ => None
  end.

Inductive Action :=
| Deliver (m : Incoming)      (** the network hands [m] to [receive] *)
| RecvStep                    (** [recv_task] runs one iteration *)
| Call (c : nat) (r : Z)      (** a new task [c] calls [get_coin(r)] *)
| Resume (c : nat)            (** woken caller [c] resumes *)
| CancelRecv                  (** [recv_task.cancel()] *)
| CancelCaller (c : nat).     (** caller [c] is cancelled *)

(** one action, when it is enabled *)
Definition sched_exec (cfg : Config) (a : Action) (s : Sched) : option Sched :=
  match a with
  | Deliver m => Some (mkSched (sc_store s) (sc_recv s) (sc_inbox s ++ [m]) (sc_getters s) (sc_callers s))
  | RecvStep => sched_recv cfg s
  | Call c r => sched_call cfg c r s
  | Resume c => sched_resume c s
  | CancelRecv => sched_cancel_recv s
  | CancelCaller c => sched_cancel_caller c s
  end.

(** a schedule, run action by action *)
Fixpoint run_actions (cfg : Config) (l : list Action) (s : Sched) : option Sched :=
  match l with
  | [] => Some s
  | a :: l' => sched_exec cfg a s ≫= run_actions cfg l'
  end.

Inductive sched_step (cfg : Config) (s : Sched) : Sched -> Prop :=
| SStep a s' : sched_exec cfg a s = Some s' -> sched_step cfg s s'.

Definition sched_reachable (cfg : Config) (s : Sched) : Prop := star (sched_step cfg) sched_init s.

(** ** Every scheduler step refines the engine's interleavings *)

Lemma sched_get_store c r s : sc_store (sched_get c r s) = (queue_get_now r (sc_store s)).2.
Proof. unfold sched_get. by destruct (queue_get_now r (sc_store s)) as [[[]|] ?]. Qed.

Lemma wakeup_next_store r s : sc_store (wakeup_next r s) = sc_store s.
Proof. unfold wakeup_next. by destruct (getters_at s r). Qed.

(** the callers returned in [cs'] were returned in [cs] *)
Definition no_new_return (cs cs' : gmap nat Caller) : Prop :=
  forall c r b, cs' !! c = Some (Returned r b) -> cs !! c = Some (Returned r b).

Lemma no_new_return_refl cs : no_new_return cs cs.
Proof. by intros ?. Qed.

Lemma no_new_return_insert cs c x :
  (forall r b, x <> Returned r b) -> no_new_return cs (<[c := x]> cs).
Proof.
  intros Hx c' r b. destruct (decide (c = c')) as [<-|]; [rewrite lookup_insert_eq; naive_solver|].
  by rewrite lookup_insert_ne.
Qed.

Lemma no_new_return_wakeup r s : no_new_return (sc_callers s) (sc_callers (wakeup_next r s)).
Proof. unfold wakeup_next. destruct (getters_at s r); [apply no_new_return_refl|by apply no_new_return_insert]. Qed.

Lemma no_new_return_trans cs1 cs2 cs3 :
  no_new_return cs1 cs2 -> no_new_return cs2 cs3 -> no_new_return cs1 cs3.
Proof. intros H12 H23 c r b Hc. by apply H12, H23. Qed.

#[local] Hint Resolve no_new_return_refl no_new_return_insert no_new_return_wakeup : sched.
#[local] Hint Extern 1 (forall _ _, _ <> Returned _ _) => intros ? ? ?; discriminate : sched.
#[local] Hint Extern 2 (no_new_return _ _) => progress simpl : sched.

Lemma sched_recv_running cfg s s' : sched_recv cfg s = Some s' -> sc_recv s = Running.
Proof. unfold sched_recv. by destruct (sc_recv s), (sc_inbox s). Qed.

(** an iteration of [recv_task] is an iteration of [_recv] on the store,
    and its wake-up returns no caller *)
Lemma sched_recv_inv cfg s s' :
  sched_recv cfg s = Some s' ->
  exists m, sc_store s' = (recv_iter cfg m (sc_store s)).2 /\ no_new_return (sc_callers s) (sc_callers s').
Proof.
  unfold sched_recv. destruct (sc_recv s), (sc_inbox s) as [|m ms]; try done.
  destruct (recv_iter cfg m (sc_store s)) as [o st'] eqn:E. intros [= <-]. exists m. rewrite E.
  set (s1 := mkSched st' (task_after o) ms (sc_getters s) (sc_callers s)).
  change (sc_callers s) with (sc_callers s1). change st' with (sc_store s1).
  destruct (msg_round m) as [r|]; [destruct (queue_grew r _ _)|];
    rewrite ?wakeup_next_store; eauto with sched.
Qed.

Lemma wakeup_next_recv r s : sc_recv (wakeup_next r s) = sc_recv s.
Proof. unfold wakeup_next. by destruct (getters_at s r). Qed.

Lemma wakeup_empty r s : getters_at s r = [] -> wakeup_next r s = s.
Proof. unfold wakeup_next. by intros ->. Qed.

(** cancelling a caller changes neither the store nor [recv_task], and
    returns no caller *)
Lemma sched_cancel_caller_frame c s s' :
  sched_cancel_caller c s = Some s' ->
  sc_store s' = sc_store s /\ sc_recv s' = sc_recv s /\ no_new_return (sc_callers s) (sc_callers s').
Proof.
  unfold sched_cancel_caller. destruct (sc_callers s !! c) as [[]|]; try done; intros [= <-]; [by auto with sched|].
  destruct (bool_decide _); [by auto with sched|]. rewrite wakeup_next_store, wakeup_next_recv.
  split_and!; [done|done|]. eapply no_new_return_trans; [|apply no_new_return_wakeup]. by auto with sched.
Qed.

Lemma sched_get_empty c r s :
  q_items (queue_at (sc_store s) r) = [] ->
  sched_get c r s = set_caller c (Waiting r) (set_getters r (getters_at s r ++ [c]) (set_store (touch_queue r (sc_store s)) s)).
Proof. intros He. unfold sched_get. by rewrite queue_get_now_run, He. Qed.

Lemma run_actions_app cfg l1 l2 s : run_actions cfg (l1 ++ l2) s = run_actions cfg l1 s ≫= run_actions cfg l2.
Proof.
  revert s. induction l1 as [|a l1 IH]; intros s; simpl; [done|].
  destruct (sched_exec cfg a s); simpl; [apply IH|done].
Qed.

Lemma run_actions_star cfg l s s' : run_actions cfg l s = Some s' -> star (sched_step cfg) s s'.
Proof.
  revert s. induction l as [|a l IH]; intros s Hr; simpl in Hr; [injection Hr as <-; apply star_refl|].
  destruct (sched_exec cfg a s) as [x|] eqn:E; simpl in Hr; [|done].
  eapply star_step; [econstructor; exact E|by apply IH].
Qed.

Lemma sched_step_store cfg s s' : sched_step cfg s s' -> star (sys_step cfg) (sc_store s) (sc_store s').
Proof.
  intros [[m| |c r|c| |c] s'' Hx]; simpl in Hx.
  - injection Hx as <-. apply star_refl.
  - apply sched_recv_inv in Hx as (m & -> & _). apply star_one, S_recv.
  - unfold sched_call in Hx. case_bool_decide; [done|]. injection Hx as <-.
    rewrite sched_get_store. eapply star_step; [apply S_get_call|]. apply star_one, S_get.
  - unfold sched_resume in Hx. destruct (sc_callers s !! c) as [[]|]; try done. injection Hx as <-.
    rewrite sched_get_store. apply star_one, S_get.
  - unfold sched_cancel_recv in Hx. destruct (sc_recv s); try done. injection Hx as <-. apply star_refl.
  - apply sched_cancel_caller_frame in Hx as (-> & _). apply star_refl.
Qed.

(** refinement: the store of every scheduler state is a store the
    engine's interleavings reach *)
Lemma sched_reachable_store cfg s : sched_reachable cfg s -> reachable cfg (sc_store s).
Proof.
  intros Hs. eapply (star_preserves _ (fun x => reachable cfg (sc_store x))); [|exact Hs|apply star_refl].
  intros x y Hx Hxy. eapply star_trans; [exact Hx|by apply sched_step_store].
Qed.

(** ** The callers that return *)

(** a returned caller of round [r] got the abstract coin; [r]'s bit has
    been put and taken; no other caller of [r] has returned *)
Definition returns_ok (cfg : Config) (s : Sched) : Prop :=
  forall c r b, sc_callers s !! c = Some (Returned r b) ->
    b = abstract_coin cfg r /\ count_puts r (log (sc_store s)) = 1%nat /\
    q_items (queue_at (sc_store s) r) = [] /\
    forall c' b', sc_callers s !! c' = Some (Returned r b') -> c' = c.

Lemma queue_len_le_one cfg (st : CoinState) r :
  coin_inv cfg st -> (length (q_items (queue_at st r)) <= count_puts r (log st) <= 1)%nat.
Proof. intros (_ & Hp & Hq). specialize (Hp r). destruct (Hq r) as [_ Hl]. case_decide; lia. Qed.

(** a step that changes the store by engine steps and returns no caller *)
Lemma returns_ok_frame cfg s s' :
  coin_inv cfg (sc_store s) -> star (sys_step cfg) (sc_store s) (sc_store s') ->
  no_new_return (sc_callers s) (sc_callers s') -> returns_ok cfg s -> returns_ok cfg s'.
Proof.
  intros Hinv Hs Hn Hok c r b Hc. apply Hn in Hc. destruct (Hok c r b Hc) as (Hb & H1 & Hq & Hu).
  destruct (drained_star cfg _ _ r Hinv H1 Hq Hs) as [H1' Hq'].
  split_and!; [done..|]. intros c' b' Hc'. by eapply Hu, Hn.
Qed.

(** [Queue.get] by a caller that has not returned *)
Lemma returns_ok_get cfg c r s :
  cfg_ok cfg -> reachable cfg (sc_store s) -> (forall r' b', sc_callers s !! c <> Some (Returned r' b')) ->
  returns_ok cfg s -> returns_ok cfg (sched_get c r s).
Proof.
  intros Hcfg Hr Hc Hok. pose proof (reachable_coin_inv_lemma cfg _ Hr) as Hinv.
  pose proof (S_get cfg (sc_store s) r) as Hstep. unfold sched_get.
  destruct (queue_get_now r (sc_store s)) as [[[x|]|e] st'] eqn:E; simpl in Hstep;
    try (apply (returns_ok_frame cfg s); [done|by apply star_one|by apply no_new_return_insert|done]).
  pose proof (proj2 (reachable_coin_correct cfg _ Hcfg Hr) r x (queue_get_now_item r _ _ x E)) as Hx.
  rewrite queue_get_now_run in E. destruct (q_items (queue_at (sc_store s) r)) as [|y ys] eqn:Eq; [done|].
  injection E as <- <-. pose proof (queue_len_le_one cfg _ r Hinv) as Hl. rewrite Eq in Hl.
  destruct ys; simpl in Hl; [|lia].
  assert (Hnone : forall c0 b0, sc_callers s !! c0 <> Some (Returned r b0)).
  { intros c0 b0 H0. destruct (Hok c0 r b0 H0) as (_ & _ & Hq & _). congruence. }
  intros c0 r0 b0 H0. simpl in H0. simpl. rewrite queue_at_set_queue. destruct (decide (c = c0)) as [<-|Hne].
  - rewrite lookup_insert_eq in H0. injection H0 as <- <-. rewrite decide_True by done.
    split_and!; [done|lia|done|]. intros c' b' H'. destruct (decide (c = c')) as [|Hne]; [done|].
    rewrite lookup_insert_ne in H' by done. by edestruct Hnone.
  - rewrite lookup_insert_ne in H0 by done. destruct (Hok c0 r0 b0 H0) as (Hb & H1 & Hq & Hu).
    destruct (decide (r = r0)) as [<-|Hr0]; [congruence|]. split_and!; [done..|].
    intros c' b' H'. destruct (decide (c = c')) as [<-|]; [rewrite lookup_insert_eq in H'; congruence|].
    rewrite lookup_insert_ne in H' by done. eauto.
Qed.

Lemma sched_step_returns_ok cfg s s' :
  cfg_ok cfg -> reachable cfg (sc_store s) -> returns_ok cfg s -> sched_step cfg s s' -> returns_ok cfg s'.
Proof.
  intros Hcfg Hr Hok Hs. pose proof (reachable_coin_inv_lemma cfg _ Hr) as Hinv.
  pose proof (sched_step_store cfg s s' Hs) as Hst.
  destruct Hs as [[m| |c r|c| |c] s' Hx]; simpl in Hx.
  - injection Hx as <-. by eapply returns_ok_frame; [| |apply no_new_return_refl|].
  - apply sched_recv_inv in Hx as (m & _ & Hn). by eapply returns_ok_frame.
  - unfold sched_call in Hx. case_bool_decide as Hf; [done|]. injection Hx as <-.
    pose proof (S_get_call cfg (sc_store s) r) as Hc.
    apply returns_ok_get; [done|by eapply star_snoc|intros r' b' H'; apply Hf; by eexists|].
    eapply returns_ok_frame; [done|by apply star_one|apply no_new_return_refl|done].
  - unfold sched_resume in Hx. destruct (sc_callers s !! c) as [[]|] eqn:Ec; try done. injection Hx as <-.
    apply returns_ok_get; [done|done|congruence|done].
  - unfold sched_cancel_recv in Hx. destruct (sc_recv s); try done. injection Hx as <-.
    by eapply returns_ok_frame; [| |apply no_new_return_refl|].
  - apply sched_cancel_caller_frame in Hx as (_ & _ & Hn). by eapply returns_ok_frame.
Qed.

Lemma sched_reachable_returns_ok cfg s : cfg_ok cfg -> sched_reachable cfg s -> returns_ok cfg s.
Proof.
  intros Hcfg Hs. cut (reachable cfg (sc_store s) /\ returns_ok cfg s); [by intros []|].
  eapply (star_preserves _ (fun x => reachable cfg (sc_store x) /\ returns_ok cfg x)); [|exact Hs|].
  - intros x y [Hr Hok] Hxy. split; [eapply star_trans; [exact Hr|by apply sched_step_store]|].
    by eapply sched_step_returns_ok.
  - split; [apply star_refl|]. intros c r b Hc. simpl in Hc. by rewrite lookup_empty in Hc.
Qed.

(** C16: whatever the schedule (deliveries, receive iterations, calls,
    wake-ups and cancellations in any order), at most one caller of
    [get_coin(r)] ever returns: the one-slot queue holds the round's bit
    once, and the first caller to take it leaves every other caller of the
    round suspended. The spec (8, "Idempotence") says every call returns. *)
Theorem get_coin_returns_at_most_once cfg s r c1 c2 b1 b2 :
  cfg_ok cfg -> sched_reachable cfg s ->
  sc_callers s !! c1 = Some (Returned r b1) -> sc_callers s !! c2 = Some (Returned r b2) -> c1 = c2.
Proof.
  intros Hcfg Hs H1 H2. destruct (sched_reachable_returns_ok cfg s Hcfg Hs c1 r b1 H1) as (_ & _ & _ & Hu).
  by apply Hu in H2.
Qed.

(** C17: refinement at the level of tasks: under every schedule, a caller
    whose [get_coin(r)] returned got the abstract coin of [r] *)
Theorem sched_returns_abstract cfg s c r b :
  cfg_ok cfg -> sched_reachable cfg s -> sc_callers s !! c = Some (Returned r b) -> b = abstract_coin cfg r.
Proof. intros Hcfg Hs Hc. by destruct (sched_reachable_returns_ok cfg s Hcfg Hs c r b Hc). Qed.

(** ** The deques of getters *)

Lemma getters_at_set_getters r g s r' :
  getters_at (set_getters r g s) r' = if decide (r = r') then g else getters_at s r'.
Proof. unfold getters_at. simpl. rewrite lookup_insert. by case_decide. Qed.

Lemma getters_at_set_caller c x s r : getters_at (set_caller c x s) r = getters_at s r.
Proof. done. Qed.

Lemma getters_at_set_store st s r : getters_at (set_store st s) r = getters_at s r.
Proof. done. Qed.

Lemma getters_at_wakeup r s r' :
  getters_at (wakeup_next r s) r' = if decide (r = r') then tail (getters_at s r) else getters_at s r'.
Proof.
  unfold wakeup_next. destruct (getters_at s r) as [|c cs] eqn:E.
  - case_decide; subst; [by rewrite E|done].
  - rewrite getters_at_set_caller, getters_at_set_getters. by case_decide.
Qed.

Lemma remove_first_spec c l :
  NoDup l -> NoDup (remove_first c l) /\ forall x, x ∈ remove_first c l <-> x ∈ l /\ x <> c.
Proof.
  induction l as [|y l IH]; simpl; intros Hnd; [split; [constructor|set_solver]|].
  apply NoDup_cons in Hnd as [Hy Hnd]. case_decide as Hyc; subst; [split; [done|set_solver]|].
  destruct (IH Hnd) as [Hnd' Hx]. split.
  - apply NoDup_cons. split; [|done]. rewrite Hx. naive_solver.
  - intros x. set_solver.
Qed.

(** a caller is in round [r]'s deque, once, exactly when it waits for [r] *)
Definition getters_ok (s : Sched) : Prop :=
  forall r, NoDup (getters_at s r) /\ forall c, c ∈ getters_at s r <-> sc_callers s !! c = Some (Waiting r).

Lemma getters_ok_not_waiting s c :
  getters_ok s -> (forall r, sc_callers s !! c <> Some (Waiting r)) -> forall r, c ∉ getters_at s r.
Proof. intros Hok Hc r Hin. by apply (Hc r), (proj2 (Hok r)). Qed.

(** a caller that does not wait takes a state other than waiting *)
Lemma getters_ok_set_caller s c x :
  getters_ok s -> (forall r, sc_callers s !! c <> Some (Waiting r)) -> (forall r, x <> Waiting r) ->
  getters_ok (set_caller c x s).
Proof.
  intros Hok Hc Hx r. rewrite getters_at_set_caller. split; [apply Hok|]. intros c'. simpl.
  destruct (decide (c = c')) as [<-|Hne].
  - rewrite lookup_insert_eq. split; [intros Hin; by destruct (getters_ok_not_waiting s c Hok Hc r)|].
    intros Heq. injection Heq as Heq. by destruct (Hx r).
  - rewrite lookup_insert_ne by done. apply Hok.
Qed.

(** [Queue.get] appends a caller that did not wait *)
Lemma getters_ok_enqueue c r s :
  getters_ok s -> (forall r', sc_callers s !! c <> Some (Waiting r')) ->
  getters_ok (set_caller c (Waiting r) (set_getters r (getters_at s r ++ [c]) s)).
Proof.
  intros Hok Hc r'. pose proof (getters_ok_not_waiting s c Hok Hc) as Hn.
  rewrite getters_at_set_caller, getters_at_set_getters. simpl. split.
  - case_decide; subst; [|apply Hok]. apply NoDup_app. split_and!; [apply Hok|set_solver|apply NoDup_singleton].
  - intros c'. destruct (decide (c = c')) as [<-|Hne]; [rewrite lookup_insert_eq|rewrite lookup_insert_ne by done].
    + case_decide; subst; [split; [done|set_solver]|]. split; [intros Hin; by destruct (Hn r')|].
      intros Heq. injection Heq as Heq. congruence.
    + case_decide; subst; [|apply Hok]. rewrite elem_of_app, <- (proj2 (Hok r') c'). set_solver.
Qed.

Lemma getters_ok_cancel_waiting c r s :
  getters_ok s -> sc_callers s !! c = Some (Waiting r) ->
  getters_ok (set_caller c (CallCancelled r) (set_getters r (remove_first c (getters_at s r)) s)).
Proof.
  intros Hok Hc r'. rewrite getters_at_set_caller, getters_at_set_getters. simpl.
  destruct (remove_first_spec c (getters_at s r) (proj1 (Hok r))) as [Hnd Hx].
  split; [case_decide; subst; [done|apply Hok]|].
  intros c'. destruct (decide (c = c')) as [<-|Hne]; [rewrite lookup_insert_eq|rewrite lookup_insert_ne by done].
  - split; [|intros Heq; discriminate]. case_decide; subst; [rewrite Hx; naive_solver|].
    intros Hin. apply (proj2 (Hok r')) in Hin. congruence.
  - case_decide; subst; [rewrite Hx, (proj2 (Hok r') c'); naive_solver|apply Hok].
Qed.

Lemma getters_ok_wakeup r s : getters_ok s -> getters_ok (wakeup_next r s).
Proof.
  intros Hok. destruct (getters_at s r) as [|c cs] eqn:E; [by rewrite wakeup_empty|].
  assert (Hc : sc_callers s !! c = Some (Waiting r)) by (apply (proj2 (Hok r)); rewrite E; set_solver).
  assert (Hcs : NoDup (c :: cs)) by (rewrite <- E; apply Hok). apply NoDup_cons in Hcs as [Hcs Hnd].
  intros r'. rewrite getters_at_wakeup, E. simpl. unfold wakeup_next. rewrite E. simpl. split.
  - case_decide; [done|apply Hok].
  - intros c'. destruct (decide (c = c')) as [<-|Hne]; [rewrite lookup_insert_eq|rewrite lookup_insert_ne by done].
    + split; [|intros Heq; discriminate]. case_decide; [by subst|].
      intros Hin. apply (proj2 (Hok r')) in Hin. congruence.
    + rewrite <- (proj2 (Hok r') c'). case_decide; subst; [rewrite E; set_solver|done].
Qed.

Lemma getters_ok_set_store st s : getters_ok s -> getters_ok (set_store st s).
Proof. done. Qed.

Lemma getters_ok_get c r s :
  getters_ok s -> (forall r', sc_callers s !! c <> Some (Waiting r')) -> getters_ok (sched_get c r s).
Proof.
  intros Hok Hc. unfold sched_get. destruct (queue_get_now r (sc_store s)) as [[[b|]|e] st'].
  - apply getters_ok_set_caller; [by apply getters_ok_set_store|done|congruence].
  - by apply (getters_ok_enqueue c r (set_store st' s)); [apply getters_ok_set_store|].
  - by apply (getters_ok_enqueue c r (set_store st' s)); [apply getters_ok_set_store|].
Qed.

Lemma sched_step_getters_ok cfg s s' : getters_ok s -> sched_step cfg s s' -> getters_ok s'.
Proof.
  intros Hok [[m| |c r|c| |c] s'' Hx]; simpl in Hx.
  - by injection Hx as <-.
  - unfold sched_recv in Hx. destruct (sc_recv s), (sc_inbox s) as [|m ms]; try done.
    destruct (recv_iter cfg m (sc_store s)) as [o st']. injection Hx as <-.
    set (s1 := mkSched st' (task_after o) ms (sc_getters s) (sc_callers s)).
    assert (H1 : getters_ok s1) by exact Hok.
    destruct (msg_round m) as [r|]; [destruct (queue_grew r _ _)|]; [by apply getters_ok_wakeup|done..].
  - unfold sched_call in Hx. case_bool_decide as Hf; [done|]. injection Hx as <-.
    apply getters_ok_get; [by apply getters_ok_set_store|]. intros r' Hr'. apply Hf. by eexists.
  - unfold sched_resume in Hx. destruct (sc_callers s !! c) as [[]|] eqn:Ec; try done. injection Hx as <-.
    apply getters_ok_get; [done|congruence].
  - unfold sched_cancel_recv in Hx. destruct (sc_recv s); try done. by injection Hx as <-.
  - unfold sched_cancel_caller in Hx. destruct (sc_callers s !! c) as [[r|r| |]|] eqn:Ec; try done;
      injection Hx as <-; [by apply getters_ok_cancel_waiting|].
    assert (H1 : getters_ok (set_caller c (CallCancelled r) s))
      by (apply getters_ok_set_caller; [done|intros ? ?; congruence|intros ? ?; discriminate]).
    destruct (bool_decide _); [done|by apply getters_ok_wakeup].
Qed.

Lemma sched_reachable_getters_ok cfg s : sched_reachable cfg s -> getters_ok s.
Proof.
  intros Hs. eapply star_preserves; [intros x y Hx Hxy; by eapply sched_step_getters_ok|exact Hs|].
  intros r. unfold getters_at. simpl. rewrite !lookup_empty. split; [constructor|]. intros c.
  rewrite lookup_empty. set_solver.
Qed.

(** ** Callers that neither wait nor are woken keep their state *)

Lemma wakeup_callers_stable r s c :
  getters_ok s -> (forall r', sc_callers s !! c <> Some (Waiting r')) ->
  sc_callers (wakeup_next r s) !! c = sc_callers s !! c.
Proof.
  intros Hok Hc. unfold wakeup_next. destruct (getters_at s r) as [|c' cs] eqn:E; [done|]. simpl.
  rewrite lookup_insert_ne; [done|]. intros ->. apply (Hc r), (proj2 (Hok r)). rewrite E. set_solver.
Qed.

Lemma sched_get_callers_other c c' r s : c' <> c -> sc_callers (sched_get c' r s) !! c = sc_callers s !! c.
Proof. intros Hne. unfold sched_get. destruct (queue_get_now r (sc_store s)) as [[[]|] ?]; simpl; by rewrite lookup_insert_ne. Qed.

(** no action other than a call by [c] changes a caller [c] that does
    not wait and is not woken *)
Lemma sched_exec_callers_stable cfg a s s' c :
  getters_ok s -> sched_exec cfg a s = Some s' ->
  (forall r, sc_callers s !! c <> Some (Waiting r)) -> (forall r, sc_callers s !! c <> Some (Woken r)) ->
  (forall r, a <> Call c r) -> sc_callers s' !! c = sc_callers s !! c.
Proof.
  intros Hok Hx Hw Hk Ha. destruct a as [m| |c' r|c'| |c']; simpl in Hx.
  - by injection Hx as <-.
  - unfold sched_recv in Hx. destruct (sc_recv s), (sc_inbox s) as [|m ms]; try done.
    destruct (recv_iter cfg m (sc_store s)) as [o st']. injection Hx as <-.
    set (s1 := mkSched st' (task_after o) ms (sc_getters s) (sc_callers s)).
    assert (H1 : getters_ok s1) by exact Hok.
    destruct (msg_round m) as [r|]; [destruct (queue_grew r _ _)|]; [by apply (wakeup_callers_stable r s1)|done..].
  - unfold sched_call in Hx. case_bool_decide; [done|]. injection Hx as <-.
    rewrite sched_get_callers_other; [done|]. intros ->. by apply (Ha r).
  - unfold sched_resume in Hx. destruct (sc_callers s !! c') as [[]|] eqn:Ec; try done. injection Hx as <-.
    rewrite sched_get_callers_other; [done|]. intros ->. by apply (Hk r).
  - unfold sched_cancel_recv in Hx. destruct (sc_recv s); try done. by injection Hx as <-.
  - unfold sched_cancel_caller in Hx. destruct (sc_callers s !! c') as [[r|r| |]|] eqn:Ec; try done;
      injection Hx as <-.
    + simpl. rewrite lookup_insert_ne; [done|]. intros ->. by apply (Hw r).
    + assert (Hne : c' <> c) by (intros ->; by apply (Hk r)).
      assert (H1 : getters_ok (set_caller c' (CallCancelled r) s))
        by (apply getters_ok_set_caller; [done|intros ? ?; congruence|intros ? ?; discriminate]).
      destruct (bool_decide _); simpl; [by rewrite lookup_insert_ne|].
      rewrite (wakeup_callers_stable r _ c H1); simpl; rewrite lookup_insert_ne; auto.
Qed.

Lemma run_actions_callers_stable cfg l s s' c :
  getters_ok s -> run_actions cfg l s = Some s' ->
  (forall r, sc_callers s !! c <> Some (Waiting r)) -> (forall r, sc_callers s !! c <> Some (Woken r)) ->
  Forall (fun a => forall r, a <> Call c r) l -> sc_callers s' !! c = sc_callers s !! c.
Proof.
  revert s. induction l as [|a l IH]; intros s Hok Hr Hw Hk Hl; simpl in Hr; [by injection Hr as <-|].
  destruct (sched_exec cfg a s) as [x|] eqn:E; simpl in Hr; [|done]. apply Forall_cons in Hl as [Ha Hl].
  pose proof (sched_exec_callers_stable cfg a s x c Hok E Hw Hk Ha) as Hx.
  rewrite <- Hx. apply IH; [eapply sched_step_getters_ok; [exact Hok|econstructor; exact E]|done|..|done];
    by rewrite Hx.
Qed.

(** ** While the receive task runs, the rounds put are the full ones *)

Lemma published_ok_ext (cfg : Config) (st st' : CoinState) :
  log st' = log st -> received st' = received st -> published_ok cfg st -> published_ok cfg st'.
Proof. intros Hl Hr Hp r. unfold received_at. rewrite Hl, Hr. apply Hp. Qed.

Lemma queue_get_now_keeps r (st : CoinState) :
  log (queue_get_now r st).2 = log st /\ received (queue_get_now r st).2 = received st.
Proof. rewrite queue_get_now_run. by destruct (q_items (queue_at st r)). Qed.

Lemma queue_get_now_outbox r (st : CoinState) : outbox (queue_get_now r st).2 = outbox st.
Proof. rewrite queue_get_now_run. by destruct (q_items (queue_at st r)). Qed.

(** the message [get_coin(r)] hands to [broadcast] (lines 92-96):
    [('COIN', r, serialize(sk.sign(pk.hash_message(str((sid, r))))))] *)
Definition own_share (cfg : Config) (r : Z) : WireMsg :=
  CoinMsg "COIN" r (serialize (sign (sk cfg) (round_digest cfg r))).

(** a call of [get_coin(r)] broadcasts exactly its own share *)
Lemma sched_call_sent cfg c r (x x' : Sched) :
  sched_exec cfg (Call c r) x = Some x' ->
  drop (length (outbox (sc_store x))) (outbox (sc_store x')) = [own_share cfg r].
Proof.
  simpl. unfold sched_call. case_bool_decide; [done|]. intros [= <-].
  rewrite sched_get_store, queue_get_now_outbox. simpl. by rewrite drop_app_length.
Qed.

Lemma sched_get_recv c r s : sc_recv (sched_get c r s) = sc_recv s.
Proof. unfold sched_get. by destruct (queue_get_now r (sc_store s)) as [[[]|] ?]. Qed.

Lemma sched_recv_run cfg s s' :
  sched_recv cfg s = Some s' ->
  exists m, sc_recv s = Running /\ sc_store s' = (recv_iter cfg m (sc_store s)).2 /\
    sc_recv s' = task_after (recv_iter cfg m (sc_store s)).1.
Proof.
  unfold sched_recv. destruct (sc_recv s), (sc_inbox s) as [|m ms]; try done.
  destruct (recv_iter cfg m (sc_store s)) as [o st'] eqn:E. intros [= <-]. exists m. rewrite E.
  destruct (msg_round m) as [r|]; [destruct (queue_grew r _ _)|]; by rewrite ?wakeup_next_store, ?wakeup_next_recv.
Qed.

Lemma sched_step_published cfg s s' :
  (sc_recv s = Running -> published_ok cfg (sc_store s)) -> sched_step cfg s s' ->
  sc_recv s' = Running -> published_ok cfg (sc_store s').
Proof.
  intros Hp [[m| |c r|c| |c] s'' Hx] Hrun; simpl in Hx.
  - injection Hx as <-. by apply Hp.
  - apply sched_recv_run in Hx as (m & H0 & -> & Hr). pose proof (recv_iter_step cfg m (sc_store s)) as Hs.
    destruct (recv_iter cfg m (sc_store s)) as [[[]|e] st'] eqn:E; simpl in *; [|by rewrite Hr in Hrun].
    eapply recv_step_published; [by apply Hp|exact Hs].
  - unfold sched_call in Hx. case_bool_decide; [done|]. injection Hx as <-.
    rewrite sched_get_recv in Hrun. rewrite sched_get_store.
    destruct (queue_get_now_keeps r (get_coin_call cfg r (sc_store s)).2) as [Hl Hr].
    eapply published_ok_ext; [exact Hl|exact Hr|]. by apply Hp.
  - unfold sched_resume in Hx. destruct (sc_callers s !! c) as [[]|]; try done. injection Hx as <-.
    rewrite sched_get_recv in Hrun. rewrite sched_get_store.
    destruct (queue_get_now_keeps r (sc_store s)) as [Hl Hr].
    eapply published_ok_ext; [exact Hl|exact Hr|]. by apply Hp.
  - unfold sched_cancel_recv in Hx. destruct (sc_recv s); try done. by injection Hx as <-.
  - apply sched_cancel_caller_frame in Hx as (-> & Hr & _). rewrite Hr in Hrun. by apply Hp.
Qed.

Lemma sched_reachable_published cfg s :
  sched_reachable cfg s -> sc_recv s = Running -> published_ok cfg (sc_store s).
Proof.
  intros Hs. eapply (star_preserves _ (fun x => sc_recv x = Running -> published_ok cfg (sc_store x)));
    [intros x y Hx Hxy; by eapply sched_step_published|exact Hs|intros _; apply published_init].
Qed.

End Sched.

#[export] Hint Resolve no_new_return_refl no_new_return_insert no_new_return_wakeup : sched.
#[export] Hint Extern 1 (forall _ _, _ <> Returned _ _) => intros ? ? ?; discriminate : sched.
#[export] Hint Extern 2 (no_new_return _ _) => progress simpl : sched.
