(* ===== verification/SchedTermination.v ===== *)
(** * Termination of one party's tasks between two inputs

    A party's tasks change state on two kinds of action:
    - an input from outside: a message the network delivers
      ([Deliver]), or a new task calling [get_coin] ([Call]);
    - an internal action: an iteration of [recv_task], a woken caller
      resuming in [Queue.get], or a cancellation.
    Between two inputs, asyncio's event loop runs only internal actions.
    This file shows that these runs are finite: no schedule of internal
    actions goes on forever from a reachable state.

    The measure [sched_measure] counts:
    - two for each delivered message not yet received;
    - two for each woken caller, one for each waiting caller;
    - one for a running [recv_task].
    A receive iteration consumes a message and wakes at most one waiting
    caller. A woken caller that resumes returns or waits again. Cancelling
    a woken caller may wake the next waiting caller. So every internal
    action lowers the measure by at least one. [getters_ok] is the
    invariant that makes [wakeup_next] wake a caller that was waiting. *)

From S2P Require Import Prelude ThresholdSig PyRepr CoinEngine CoinSpec Scheduler.
From Stdlib Require Import Lia.

Section Termination.
Context {PK SK Elem Digest : Type} `{!TBLS PK SK Elem Digest} `{!TBLSLaws PK SK Elem Digest} `{!Sha256}.
Local Abbreviation Config := (@Config PK SK).
Local Abbreviation Sched := (@Sched Elem).

(** the actions that do not come from outside the party *)
Definition internal (a : Action) : bool :=
  match a with Deliver _ | Call _ _ => false | _ => true end.

Definition internal_step (cfg : Config) (s s' : Sched) : Prop :=
  exists a, internal a = true /\ sched_exec cfg a s = Some s'.

Definition caller_weight (x : Caller) : nat :=
  match x with Woken _ => 2 | Waiting _ => 1 | _ => 0 end.

Definition callers_weight (m : gmap nat Caller) : nat := map_fold (fun _ x acc => caller_weight x + acc)%nat 0%nat m.

Definition recv_weight (t : RecvTask) : nat := match t with Running => 1 | _ => 0 end.

Definition sched_measure (s : Sched) : nat :=
  2 * length (sc_inbox s) + callers_weight (sc_callers s) + recv_weight (sc_recv s).

Lemma callers_weight_insert m c y :
  (callers_weight (<[c:=y]> m) + default 0 (caller_weight <$> m !! c) = callers_weight m + caller_weight y)%nat.
Proof.
  unfold callers_weight. rewrite <- insert_delete_eq, map_fold_insert_L by (apply lookup_delete_eq || (intros; lia)).
  destruct (m !! c) as [x|] eqn:Ec; simpl.
  - rewrite (map_fold_delete_L _ _ c x m) by (done || intros; lia). lia.
  - rewrite delete_id by done. lia.
Qed.

(** [wakeup_next] turns at most one waiting caller into a woken one *)
Lemma callers_weight_wakeup r (s : Sched) :
  getters_ok s -> (callers_weight (sc_callers (wakeup_next r s)) <= callers_weight (sc_callers s) + 1)%nat.
Proof.
  intros Hok. unfold wakeup_next. destruct (getters_at s r) as [|c cs] eqn:E; [lia|].
  assert (Hc : sc_callers s !! c = Some (Waiting r)) by (apply (proj2 (Hok r)); rewrite E; set_solver).
  pose proof (callers_weight_insert (sc_callers s) c (Woken r)) as Hw. rewrite Hc in Hw. simpl in *. lia.
Qed.

(** [Queue.get] leaves its caller returned or waiting *)
Lemma callers_weight_get c r (s : Sched) :
  (callers_weight (sc_callers (sched_get c r s)) + default 0 (caller_weight <$> sc_callers s !! c)
   <= callers_weight (sc_callers s) + 1)%nat.
Proof.
  unfold sched_get. destruct (queue_get_now r (sc_store s)) as [[[b|]|e] st']; simpl;
    match goal with |- context [<[c:=?y]> _] => pose proof (callers_weight_insert (sc_callers s) c y) end;
    simpl in *; lia.
Qed.

Lemma sched_get_frame c r (s : Sched) : sc_inbox (sched_get c r s) = sc_inbox s /\ sc_recv (sched_get c r s) = sc_recv s.
Proof. unfold sched_get. by destruct (queue_get_now r (sc_store s)) as [[[b|]|e] st']. Qed.

Lemma measure_wakeup r (s : Sched) : getters_ok s -> (sched_measure (wakeup_next r s) <= sched_measure s + 1)%nat.
Proof.
  intros Hok. pose proof (callers_weight_wakeup r s Hok). unfold sched_measure.
  assert (Hi : sc_inbox (wakeup_next r s) = sc_inbox s) by (unfold wakeup_next; by destruct (getters_at s r)).
  rewrite wakeup_next_recv, Hi. lia.
Qed.

Lemma measure_recv cfg (s s' : Sched) : getters_ok s -> sched_recv cfg s = Some s' -> (sched_measure s' < sched_measure s)%nat.
Proof.
  intros Hok Hx. unfold sched_recv in Hx. destruct (sc_recv s) eqn:Er, (sc_inbox s) as [|m ms] eqn:Ei; try done.
  destruct (recv_iter cfg m (sc_store s)) as [o st']. injection Hx as <-.
  set (s1 := mkSched st' (task_after o) ms (sc_getters s) (sc_callers s)).
  assert (H1 : (sched_measure s1 + 1 < sched_measure s)%nat).
  { unfold sched_measure. rewrite Ei, Er. simpl. destruct o; simpl; lia. }
  assert (Hok1 : getters_ok s1) by exact Hok.
  destruct (msg_round m) as [r|]; [destruct (queue_grew r _ _)|]; try lia.
  pose proof (measure_wakeup r s1 Hok1). lia.
Qed.

Lemma measure_internal cfg a (s s' : Sched) :
  getters_ok s -> internal a = true -> sched_exec cfg a s = Some s' -> (sched_measure s' < sched_measure s)%nat.
Proof.
  intros Hok Ha Hx. destruct a as [m| |c r|c| |c]; try discriminate; simpl in Hx.
  - by apply (measure_recv cfg s s').
  - unfold sched_resume in Hx. destruct (sc_callers s !! c) as [[]|] eqn:Ec; try done. injection Hx as <-.
    pose proof (callers_weight_get c r s) as Hw. rewrite Ec in Hw. simpl in Hw.
    unfold sched_measure. destruct (sched_get_frame c r s) as [-> ->]. lia.
  - unfold sched_cancel_recv in Hx. destruct (sc_recv s) eqn:Er; try done. injection Hx as <-.
    unfold sched_measure. rewrite Er. simpl. lia.
  - unfold sched_cancel_caller in Hx. destruct (sc_callers s !! c) as [[r|r| |]|] eqn:Ec; try done; injection Hx as <-;
      pose proof (callers_weight_insert (sc_callers s) c (CallCancelled r)) as Hw; rewrite Ec in Hw; simpl in Hw.
    + unfold sched_measure. simpl. lia.
    + assert (H1 : getters_ok (set_caller c (CallCancelled r) s))
        by (apply getters_ok_set_caller; [done|intros ? ?; congruence|intros ? ?; discriminate]).
      pose proof (measure_wakeup r _ H1) as Hm. unfold sched_measure in *. simpl in *.
      case_bool_decide; simpl; lia.
Qed.

Lemma internal_step_getters_ok cfg (s s' : Sched) : getters_ok s -> internal_step cfg s s' -> getters_ok s'.
Proof. intros Hok (a & _ & Hx). exact (sched_step_getters_ok cfg s s' Hok (SStep cfg s a s' Hx)). Qed.

Lemma internal_acc_measure cfg n (s : Sched) :
  (sched_measure s < n)%nat -> getters_ok s -> Acc (fun y x => internal_step cfg x y) s.
Proof.
  revert s. induction n as [|n IH]; intros s Hn Hok; [lia|].
  constructor. intros y Hy. apply IH; [|exact (internal_step_getters_ok cfg s y Hok Hy)].
  destruct Hy as (a & Ha & Hx). pose proof (measure_internal cfg a s y Hok Ha Hx). lia.
Qed.

(** Between two inputs, a party's tasks stop: from every reachable
    state, every run of internal actions (receive iterations,
    resumptions of woken callers, cancellations) is finite. *)
Theorem internal_steps_terminate cfg (s : Sched) :
  sched_reachable cfg s -> Acc (fun y x => internal_step cfg x y) s.
Proof.
  intros Hs. apply (internal_acc_measure cfg (S (sched_measure s))); [lia|].
  exact (sched_reachable_getters_ok cfg s Hs).
Qed.

(** C33: the number of internal actions a party runs between two inputs
    is bounded by the measure: two per undelivered message, two per
    woken and one per waiting caller, and one for a running
    [recv_task]. *)
Theorem internal_run_bound cfg l (s s' : Sched) :
  sched_reachable cfg s -> forallb internal l = true -> run_actions cfg l s = Some s' ->
  (length l <= sched_measure s)%nat.
Proof.
  intros Hs. pose proof (sched_reachable_getters_ok cfg s Hs) as Hok. clear Hs.
  revert s Hok. induction l as [|a l IH]; intros s Hok Hl Hr; simpl in *; [lia|].
  apply andb_prop in Hl as [Ha Hl]. destruct (sched_exec cfg a s) as [y|] eqn:Hx; [|done]. simpl in Hr.
  pose proof (measure_internal cfg a s y Hok Ha Hx).
  pose proof (IH y (sched_step_getters_ok cfg s y Hok (SStep cfg s a y Hx)) Hl Hr). lia.
Qed.

End Termination.
