(* ===== verification/Liveness.v ===== *)
(** * Progress of the callers of [get_coin], and its absence

    Over the task model of [Scheduler]:
    - once [recv_task] has stopped (an exception escaped [_recv], or the
      task was cancelled) before round [r]'s bit was put, no caller of
      [get_coin(r)] ever returns, whatever the schedule does next: nothing
      else puts into [output_queue[r]];
    - from any reachable state where [recv_task] runs and no caller
      waits for an unput round [r], a new caller of [get_coin(r)] is
      woken by the [put_nowait] of [r]'s bit and returns the abstract
      coin, once the receive task has processed a well-formed run
      carrying [f+1] distinct valid shares for [r]. *)

From S2P Require Import Prelude ThresholdSig PyRepr CoinEngine CoinSpec Threshold Scheduler.
From Stdlib Require Import Lia.

Section Liveness.
Context {PK SK Elem Digest : Type} `{!TBLS PK SK Elem Digest} `{!TBLSLaws PK SK Elem Digest} `{!Sha256}.
Local Abbreviation Config := (@Config PK SK).
Local Abbreviation CoinState := (@CoinState Elem).
Local Abbreviation Sched := (@Sched Elem).

Lemma queue_at_get_coin_call cfg (st : CoinState) r r' : queue_at (get_coin_call cfg r st).2 r' = queue_at st r'.
Proof. unfold get_coin_call. py_unfold. simpl. by rewrite queue_at_touch. Qed.

(** ** After [recv_task] stops *)

(** the receive task has stopped, the log is [L], [output_queue[r]] is
    empty and no caller of [r] has returned *)
Definition stopped_at (r : Z) (L : list LogEvent) (x : Sched) : Prop :=
  sc_recv x <> Running /\ log (sc_store x) = L /\ q_items (queue_at (sc_store x) r) = [] /\
  forall c b, sc_callers x !! c <> Some (Returned r b).

Lemma stopped_frame r L (x y : Sched) :
  sc_recv y = sc_recv x -> sc_store y = sc_store x -> no_new_return (sc_callers x) (sc_callers y) ->
  stopped_at r L x -> stopped_at r L y.
Proof.
  intros Hr Hs Hn (Hx1 & Hx2 & Hx3 & Hx4). unfold stopped_at. rewrite Hr, Hs. split_and!; [done..|].
  intros c b Hc. by eapply Hx4, Hn.
Qed.

Lemma stopped_get r L c r' (x : Sched) : stopped_at r L x -> stopped_at r L (sched_get c r' x).
Proof.
  intros Hx. pose proof Hx as (Hs & Hl & Hq & Hc). unfold stopped_at. destruct (decide (r' = r)) as [<-|Hne].
  - rewrite sched_get_empty by done. cbn [sc_store sc_recv sc_callers set_caller set_store set_getters].
    split_and!; [done|done|by rewrite queue_at_touch|].
    intros c' b. destruct (decide (c = c')) as [<-|]; [by rewrite lookup_insert_eq|].
    rewrite lookup_insert_ne by done. apply Hc.
  - unfold sched_get. rewrite queue_get_now_run.
    destruct (q_items (queue_at (sc_store x) r')) eqn:E; cbn [fst snd sc_store sc_recv sc_callers set_caller set_store set_getters];
      (split_and!; [done|done|rewrite ?queue_at_touch, ?queue_at_set_queue, ?decide_False by done; done|]);
      intros c' b; (destruct (decide (c = c')) as [<-|]; [rewrite lookup_insert_eq; congruence|]);
      rewrite lookup_insert_ne by done; apply Hc.
Qed.

Lemma stopped_step cfg r L (x y : Sched) : stopped_at r L x -> sched_step cfg x y -> stopped_at r L y.
Proof.
  intros Hx [[m| |c r'|c| |c] y' Hy]; simpl in Hy.
  - injection Hy as <-. by eapply stopped_frame; [| |apply no_new_return_refl|].
  - apply sched_recv_running in Hy. by destruct Hx.
  - unfold sched_call in Hy. case_bool_decide; [done|]. injection Hy as <-. apply stopped_get.
    destruct Hx as (Hs & Hl & Hq & Hc). unfold stopped_at. cbn [sc_store sc_recv sc_callers set_store].
    split_and!; [done|done|by rewrite queue_at_touch|done].
  - unfold sched_resume in Hy. destruct (sc_callers x !! c) as [[]|]; try done. injection Hy as <-.
    by apply stopped_get.
  - unfold sched_cancel_recv in Hy. destruct Hx as [Hs _]. by destruct (sc_recv x).
  - apply sched_cancel_caller_frame in Hy as (Hs & Hr & Hn). by eapply stopped_frame.
Qed.

(** a reachable state whose receive task has stopped before round [r]
    was put is stopped at [r] *)
Lemma stopped_of_reachable cfg (s : Sched) r :
  cfg_ok cfg -> sched_reachable cfg s -> sc_recv s <> Running -> count_puts r (log (sc_store s)) = 0%nat ->
  stopped_at r (log (sc_store s)) s.
Proof.
  intros Hcfg Hs Hstop H0. split_and!; [done|done| |].
  - pose proof (queue_len_le_one cfg _ r (reachable_coin_inv_lemma cfg _ (sched_reachable_store cfg s Hs))).
    destruct (q_items _); simpl in *; [done|lia].
  - intros c' b' Hc'. destruct (sched_reachable_returns_ok cfg s Hcfg Hs c' r b' Hc') as (_ & H1 & _). lia.
Qed.

Lemma stopped_star cfg r L (s s' : Sched) : stopped_at r L s -> star (sched_step cfg) s s' -> stopped_at r L s'.
Proof. intros Hs Hss. eapply (star_preserves _ (stopped_at r L)); [intros; by eapply stopped_step|exact Hss|exact Hs]. Qed.

(** caller [c] is suspended in [get_coin(r)]: waiting on its getter,
    or woken and not yet resumed. It has neither returned nor received
    an exception. *)
Definition pending (c : nat) (r : Z) (x : Sched) : Prop :=
  sc_callers x !! c = Some (Waiting r) \/ sc_callers x !! c = Some (Woken r).

Lemma sched_get_other c c' r' (x : Sched) : c' <> c -> sc_callers (sched_get c' r' x) !! c = sc_callers x !! c.
Proof. intros Hne. unfold sched_get. destruct (queue_get_now r' (sc_store x)) as [[[b|]|e] st']; simpl; by rewrite lookup_insert_ne. Qed.

(** a put wakes only a caller that was waiting for its round *)
Lemma pending_wakeup c r r' (x : Sched) : getters_ok x -> pending c r x -> pending c r (wakeup_next r' x).
Proof.
  intros Hok Hp. unfold wakeup_next. destruct (getters_at x r') as [|c'' cs] eqn:E; [done|]. unfold pending. simpl.
  destruct (decide (c'' = c)) as [->|Hne]; [|by rewrite lookup_insert_ne].
  assert (Hw : sc_callers x !! c = Some (Waiting r')) by (apply (proj2 (Hok r')); rewrite E; set_solver).
  rewrite lookup_insert_eq. destruct Hp as [Hc|Hc]; rewrite Hc in Hw; [injection Hw as ->; by right|discriminate].
Qed.

(** once the receive task has stopped before round [r] was put, every
    action but the caller's own cancellation leaves it suspended *)
Lemma pending_step cfg r L c a (x y : Sched) :
  stopped_at r L x -> getters_ok x -> pending c r x -> a <> CancelCaller c -> sched_exec cfg a x = Some y -> pending c r y.
Proof.
  intros (Hs & _ & Hq & _) Hok Hp Ha Hx. unfold pending in *.
  destruct a as [m| |c' r'|c'| |c']; simpl in Hx.
  - by injection Hx as <-.
  - by apply sched_recv_running in Hx.
  - unfold sched_call in Hx. case_bool_decide as Hc; [done|]. injection Hx as <-.
    rewrite sched_get_other; [done|]. intros ->. apply Hc. destruct Hp as [Hc'|Hc']; rewrite Hc'; eauto.
  - unfold sched_resume in Hx. destruct (sc_callers x !! c') as [[r''|r''| |]|] eqn:Ec; try done. injection Hx as <-.
    destruct (decide (c' = c)) as [->|Hne]; [|by rewrite sched_get_other].
    destruct Hp as [Hc'|Hc']; rewrite Hc' in Ec; [discriminate|injection Ec as <-].
    left. rewrite sched_get_empty by done. simpl. apply lookup_insert_eq.
  - unfold sched_cancel_recv in Hx. by destruct (sc_recv x).
  - assert (Hne : c' <> c) by congruence.
    unfold sched_cancel_caller in Hx. destruct (sc_callers x !! c') as [[r''|r''| |]|] eqn:Ec; try done; injection Hx as <-.
    + simpl. by rewrite lookup_insert_ne.
    + case_bool_decide; [simpl; by rewrite lookup_insert_ne|].
      apply pending_wakeup; [apply getters_ok_set_caller; [done|intros ? ?; congruence|intros ? ?; discriminate]|].
      unfold pending, set_caller. cbn [sc_callers]. by rewrite lookup_insert_ne.
Qed.

(** C18: callers hang once the receive task has stopped. When [recv_task]
    has crashed or been cancelled before round [r]'s bit was put, then in
    every continuation of the schedule that does not cancel caller [c]
    itself, a caller [c] suspended in [get_coin(r)] stays suspended: it
    neither returns nor receives an exception, and no caller of
    [get_coin(r)] returns. The spec (5, "Cancellation", and 7) says
    pending calls on unresolved rounds fail with a cancellation error
    instead. *)
Theorem callers_hang_after_recv_stops cfg (s s' : Sched) r c l :
  cfg_ok cfg -> sched_reachable cfg s -> sc_recv s <> Running -> count_puts r (log (sc_store s)) = 0%nat ->
  pending c r s -> CancelCaller c ∉ l -> run_actions cfg l s = Some s' ->
  pending c r s' /\ forall c' b, sc_callers s' !! c' <> Some (Returned r b).
Proof.
  intros Hcfg Hs Hstop H0 Hp Hl Hr.
  pose proof (stopped_of_reachable cfg s r Hcfg Hs Hstop H0) as Hst.
  pose proof (sched_reachable_getters_ok cfg s Hs) as Hok. clear Hs Hstop H0.
  set (L := log (sc_store s)) in Hst. clearbody L.
  revert s Hst Hok Hp Hr. induction l as [|a l IH]; intros x Hst Hok Hp Hr; simpl in Hr.
  - injection Hr as <-. split; [done|apply Hst].
  - destruct (sched_exec cfg a x) as [y|] eqn:Hx; [|done]. simpl in Hr.
    apply not_elem_of_cons in Hl as [Ha Hl].
    apply (IH Hl y); [exact (stopped_step cfg r _ x y Hst (SStep cfg x a y Hx))
                     |exact (sched_step_getters_ok cfg x y Hok (SStep cfg x a y Hx))
                     |exact (pending_step cfg r _ c a x y Hst Hok Hp (not_eq_sym Ha) Hx)|exact Hr].
Qed.

(** ** A caller woken by the put *)

(** an iteration for another round, or for no round, leaves
    [output_queue[r]] as it was *)
Lemma recv_iter_queue_frame cfg m (st : CoinState) r :
  msg_round m <> Some r -> queue_at (recv_iter cfg m st).2 r = queue_at st r.
Proof.
  intros Hr. destruct m as [i [t r' b|t b| |]]; [|by rewrite recv_iter_bad_round_type|by rewrite recv_iter_bad_shape|by rewrite recv_iter_not_iterable].
  assert (Hne : r' <> r) by (intros ->; by apply Hr). clear Hr.
  pose proof (recv_iter_step cfg (i, CoinMsg t r' b) st) as Hs.
  destruct (recv_iter cfg _ st) as [o st'] eqn:E. simpl in *.
  inversion Hs; subst; unfold publish, accept_share;
    repeat progress rewrite ?queue_at_add_log, ?queue_at_touch_received, ?queue_at_touch,
      ?queue_at_set_queue, ?queue_at_set_received; repeat case_decide; congruence.
Qed.

(** caller [c] waits for round [r] as the only getter of
    [output_queue[r]], which is empty; or the put has woken it. In
    neither case is it a getter of another round. *)
Definition waiting_or_woken (c : nat) (r : Z) (x : Sched) : Prop :=
  (sc_callers x !! c = Some (Waiting r) /\ getters_at x r = [c] /\ q_items (queue_at (sc_store x) r) = [] /\
     forall r', r' <> r -> c ∉ getters_at x r') \/
  (sc_callers x !! c = Some (Woken r) /\ forall r', c ∉ getters_at x r').

Lemma not_elem_of_tail (c : nat) l : c ∉ l -> c ∉ tail l.
Proof. destruct l; simpl; set_solver. Qed.

(** waking a round [c] is not a getter of changes neither [c] nor any
    deque into one holding [c] *)
Lemma wakeup_absent c r' (x : Sched) :
  c ∉ getters_at x r' ->
  sc_callers (wakeup_next r' x) !! c = sc_callers x !! c /\
  forall r'', c ∉ getters_at x r'' -> c ∉ getters_at (wakeup_next r' x) r''.
Proof.
  intros Hc. split.
  - unfold wakeup_next. destruct (getters_at x r') as [|c' cs] eqn:E; [done|]. simpl.
    rewrite lookup_insert_ne; [done|]. intros ->. apply Hc. set_solver.
  - intros r'' Hr. rewrite getters_at_wakeup. case_decide; subst; [by apply not_elem_of_tail|done].
Qed.

(** the put of round [r] wakes its only getter *)
Lemma wakeup_waiting c r (x : Sched) :
  sc_callers x !! c = Some (Waiting r) -> getters_at x r = [c] -> (forall r', r' <> r -> c ∉ getters_at x r') ->
  sc_callers (wakeup_next r x) !! c = Some (Woken r) /\ forall r', c ∉ getters_at (wakeup_next r x) r'.
Proof.
  intros Hc Hg Ho. split.
  - unfold wakeup_next. rewrite Hg. simpl. apply lookup_insert_eq.
  - intros r'. rewrite getters_at_wakeup. case_decide; subst; [rewrite Hg; set_solver|auto].
Qed.

Lemma wakeup_preserves c r r' (x : Sched) : waiting_or_woken c r x -> waiting_or_woken c r (wakeup_next r' x).
Proof.
  intros [(Hc & Hg & He & Ho)|(Hc & Ho)].
  - destruct (decide (r' = r)) as [->|Hne]; [right; by apply wakeup_waiting|].
    destruct (wakeup_absent c r' x (Ho r' Hne)) as [Hc' Ho']. left.
    rewrite Hc', wakeup_next_store, getters_at_wakeup, decide_False by done. split_and!; auto.
  - destruct (wakeup_absent c r' x (Ho r')) as [Hc' Ho']. right. rewrite Hc'. auto.
Qed.

Lemma wakeup_next_inbox r (x : Sched) : sc_inbox (wakeup_next r x) = sc_inbox x.
Proof. unfold wakeup_next. by destruct (getters_at x r). Qed.

(** one iteration of [recv_task] that raises nothing keeps the caller
    waiting, or wakes it when it puts round [r]'s bit *)
Lemma recv_step_wakes cfg c r (x : Sched) m ms st' :
  sc_recv x = Running -> sc_inbox x = m :: ms -> recv_iter cfg m (sc_store x) = (Ok tt, st') ->
  waiting_or_woken c r x ->
  exists y, sched_recv cfg x = Some y /\ sc_store y = st' /\ sc_recv y = Running /\ sc_inbox y = ms /\
    waiting_or_woken c r y.
Proof.
  intros Hrun Hin E Hw. unfold sched_recv. rewrite Hrun, Hin, E. eexists. split; [reflexivity|].
  set (s1 := mkSched st' (task_after (Ok tt)) ms (sc_getters x) (sc_callers x)).
  assert (Hy : forall y, y = s1 \/ (exists r', y = wakeup_next r' s1) ->
               sc_store y = st' /\ sc_recv y = Running /\ sc_inbox y = ms).
  { intros y [->|[r' ->]]; [done|]. by rewrite wakeup_next_store, wakeup_next_recv, wakeup_next_inbox. }
  cut (waiting_or_woken c r (match msg_round m with
                             | Some r' => if queue_grew r' (sc_store x) st' then wakeup_next r' s1 else s1
                             | None => s1 end)).
  { intros Hw'. destruct (msg_round m) as [r'|]; [destruct (queue_grew r' _ _)|];
      (split_and!; [apply Hy; eauto..|done]). }
  destruct Hw as [(Hc & Hg & He & Ho)|(Hc & Ho)].
  - assert (Hq : msg_round m <> Some r -> q_items (queue_at st' r) = []).
    { intros Hr. replace st' with (recv_iter cfg m (sc_store x)).2 by (by rewrite E).
      by rewrite recv_iter_queue_frame. }
    assert (Hw1 : q_items (queue_at st' r) = [] -> waiting_or_woken c r s1) by (intros; left; by split_and!).
    destruct (msg_round m) as [r'|] eqn:Hm; [destruct (queue_grew r' (sc_store x) st') eqn:G|].
    + destruct (decide (r' = r)) as [->|Hne]; [right; by apply (wakeup_waiting c r s1)|].
      apply wakeup_preserves, Hw1, Hq. congruence.
    + apply Hw1. destruct (decide (r' = r)) as [->|Hne]; [|apply Hq; congruence].
      unfold queue_grew in G. apply Nat.ltb_ge in G. rewrite He in G.
      destruct (q_items (queue_at st' r)); [done|simpl in G; lia].
    + apply Hw1, Hq. congruence.
  - assert (Hw1 : waiting_or_woken c r s1) by (right; by split).
    destruct (msg_round m) as [r'|]; [destruct (queue_grew r' _ _)|]; [by apply wakeup_preserves|done..].
Qed.

Lemma drain_wakes cfg c r ms (x : Sched) :
  sc_recv x = Running -> sc_inbox x = ms -> (recv_loop cfg ms (sc_store x)).1 = Ok tt -> waiting_or_woken c r x ->
  exists y, run_actions cfg (repeat RecvStep (length ms)) x = Some y /\
    sc_store y = (recv_loop cfg ms (sc_store x)).2 /\ sc_recv y = Running /\ sc_inbox y = [] /\
    waiting_or_woken c r y.
Proof.
  revert x. induction ms as [|m ms IH]; intros x Hrun Hin Hok Hw; [by exists x|].
  rewrite recv_loop_cons in *. destruct (recv_iter cfg m (sc_store x)) as [[[]|e] st'] eqn:E; [|done].
  destruct (recv_step_wakes cfg c r x m ms st' Hrun Hin E Hw) as (y & Hy & Hst & Hr & Hi & Hw').
  destruct (IH y) as (z & Hz & Hzs & Hzr & Hzi & Hzw); [done|done|by rewrite Hst|done|].
  exists z. split_and!; [|by rewrite Hzs, Hst|done..].
  change (sched_recv cfg x ≫= run_actions cfg (repeat RecvStep (length ms)) = Some z). by rewrite Hy.
Qed.

Lemma recv_iter_count_frame cfg m (st : CoinState) r :
  msg_round m <> Some r -> count_puts r (log (recv_iter cfg m st).2) = count_puts r (log st).
Proof.
  intros Hr. destruct m as [i [t r' b|t b| |]]; [|by rewrite recv_iter_bad_round_type|by rewrite recv_iter_bad_shape|by rewrite recv_iter_not_iterable].
  assert (Hne : r' <> r) by (intros ->; by apply Hr). clear Hr.
  pose proof (recv_iter_step cfg (i, CoinMsg t r' b) st) as Hs.
  destruct (recv_iter cfg _ st) as [o st'] eqn:E. simpl in *.
  inversion Hs; subst; simpl; rewrite ?count_puts_app; simpl; repeat case_decide; subst; try congruence; lia.
Qed.

Lemma recv_loop_count_frame cfg ms (st : CoinState) r :
  Forall (fun m => msg_round m <> Some r) ms -> count_puts r (log (recv_loop cfg ms st).2) = count_puts r (log st).
Proof.
  revert st. induction ms as [|m ms IH]; intros st Hf; [done|]. apply Forall_cons in Hf as [Hm Hf].
  rewrite recv_loop_cons, <- (recv_iter_count_frame cfg m st r Hm).
  destruct (recv_iter cfg m st) as [[] st'] eqn:E; simpl; [by apply IH|done].
Qed.

Lemma run_deliver cfg ms (x : Sched) :
  run_actions cfg (map Deliver ms) x =
    Some (mkSched (sc_store x) (sc_recv x) (sc_inbox x ++ ms) (sc_getters x) (sc_callers x)).
Proof.
  revert x. induction ms as [|m ms IH]; intros x; simpl; [by rewrite app_nil_r; destruct x|].
  rewrite IH. simpl. by rewrite <- app_assoc.
Qed.

Lemma sched_get_nonempty c r (x : Sched) b bs :
  q_items (queue_at (sc_store x) r) = b :: bs -> sc_callers (sched_get c r x) !! c = Some (Returned r b).
Proof. intros Hq. unfold sched_get. rewrite queue_get_now_run, Hq. simpl. apply lookup_insert_eq. Qed.

Lemma sched_get_inbox c r (x : Sched) : sc_inbox (sched_get c r x) = sc_inbox x.
Proof. unfold sched_get. by destruct (queue_get_now r (sc_store x)) as [[[]|] ?]. Qed.

(** the round's schedule, and the state it leaves for the next one *)
Lemma liveness_run cfg (x : Sched) ms r c :
  cfg_ok cfg -> sched_reachable cfg x -> sc_recv x = Running -> sc_inbox x = [] ->
  sc_callers x !! c = None -> getters_at x r = [] -> count_puts r (log (sc_store x)) = 0%nat ->
  forallb (wellformed cfg) ms = true ->
  (f cfg + 1 <= length (remove_dups (valid_senders cfg r ms)))%nat ->
  exists s', run_actions cfg (Call c r :: map Deliver ms ++ repeat RecvStep (length ms) ++ [Resume c]) x = Some s' /\
    sc_callers s' !! c = Some (Returned r (abstract_coin cfg r)) /\
    sc_recv s' = Running /\ sc_inbox s' = [] /\
    forall r', Forall (fun m => msg_round m <> Some r') ms ->
      count_puts r' (log (sc_store s')) = count_puts r' (log (sc_store x)).
Proof.
  intros Hcfg Hx Hrun Hin Hc Hg H0 Hw Hlen.
  pose proof (reachable_coin_inv_lemma cfg _ (sched_reachable_store cfg x Hx)) as Hinv.
  assert (He : q_items (queue_at (sc_store x) r) = []).
  { pose proof (queue_len_le_one cfg _ r Hinv). destruct (q_items _); simpl in *; [done|lia]. }
  set (st0 := touch_queue r (get_coin_call cfg r (sc_store x)).2).
  set (s1 := set_caller c (Waiting r) (set_getters r [c] (set_store st0 (set_store (get_coin_call cfg r (sc_store x)).2 x)))).
  assert (E1 : sched_exec cfg (Call c r) x = Some s1).
  { simpl. unfold sched_call. rewrite Hc, bool_decide_false by (intros [? ?]; discriminate).
    rewrite sched_get_empty; [by rewrite getters_at_set_store, Hg|]. cbn [sc_store set_store].
    by rewrite queue_at_get_coin_call. }
  assert (R1 : sched_reachable cfg s1) by (eapply star_snoc; [exact Hx|econstructor; exact E1]).
  assert (He0 : q_items (queue_at st0 r) = []) by (unfold st0; by rewrite queue_at_touch, queue_at_get_coin_call).
  assert (Hpub : published_ok cfg st0)
    by (eapply published_ok_ext; [reflexivity|reflexivity|by apply sched_reachable_published]).
  pose proof (reachable_coin_inv_lemma cfg _ (sched_reachable_store cfg s1 R1)) as Hinv0.
  destruct (loop_publishes cfg ms st0 r Hcfg Hinv0 Hpub Hw Hlen) as [Hok H1].
  set (s2 := mkSched st0 Running ms (sc_getters s1) (sc_callers s1)).
  assert (E2 : run_actions cfg (map Deliver ms) s1 = Some s2).
  { rewrite run_deliver. unfold s2, s1. cbn [sc_store sc_recv sc_inbox set_caller set_getters set_store].
    by rewrite Hrun, Hin. }
  destruct (drain_wakes cfg c r ms s2) as (y & Ey & Hys & Hyr & Hyi & Hyw); [done|done|done| |].
  { left. change (getters_at s2) with (getters_at s1). unfold s1.
    rewrite getters_at_set_caller, getters_at_set_getters, decide_True by done. split_and!; [|done|done|].
    - apply lookup_insert_eq.
    - intros r' Hne Hr'. rewrite getters_at_set_caller, getters_at_set_getters, decide_False, !getters_at_set_store in Hr' by done.
      apply (proj2 (sched_reachable_getters_ok cfg x Hx r') c) in Hr'. congruence. }
  assert (Ry : sched_reachable cfg y).
  { eapply star_trans; [exact R1|]. eapply star_trans; [apply (run_actions_star cfg _ _ _ E2)|].
    exact (run_actions_star cfg _ _ _ Ey). }
  pose proof (recv_loop_queue_exact cfg ms st0 r ltac:(unfold queue_exact_at; by rewrite He0) Hok) as Hq.
  change (sc_store s2) with st0 in Hys. unfold queue_exact_at in Hq. rewrite H1, <- Hys in Hq.
  destruct (q_items (queue_at (sc_store y) r)) as [|b [|]] eqn:Eq; simpl in Hq; try lia.
  pose proof (proj2 (reachable_coin_correct cfg _ Hcfg (sched_reachable_store cfg y Ry)) r b) as Hb.
  rewrite Eq in Hb. specialize (Hb (proj2 (list_elem_of_singleton _ _) eq_refl)). subst b.
  destruct Hyw as [(_ & _ & Hnil & _)|(Hcw & _)]; [congruence|].
  exists (sched_get c r y). split_and!; [|by apply (sched_get_nonempty c r y _ [])
    |by rewrite sched_get_recv|by rewrite sched_get_inbox|].
  2: { intros r' Hf. rewrite sched_get_store, (proj1 (queue_get_now_keeps r _)), Hys.
       by rewrite recv_loop_count_frame. }
  change (sched_exec cfg (Call c r) x ≫= run_actions cfg (map Deliver ms ++ repeat RecvStep (length ms) ++ [Resume c])
    = Some (sched_get c r y)).
  rewrite E1. simpl. rewrite run_actions_app, E2. simpl. rewrite run_actions_app, Ey. simpl.
  unfold sched_resume. by rewrite Hcw.
Qed.


End Liveness.
