(* ===== verification/Runner.v ===== *)
(** * The loop of [run_common_coin]: coins round after round

    [run_common_coin] (lines 102-120) starts the coin with [shared_coin]
    and then, in one task, awaits [coin(i)] for [i] in [range(10)] and
    logs each value (lines 115-116), before it cancels the receive task
    (line 117). [coin_loop] is this loop as a schedule of the task model
    of [Scheduler]: for round [i], the call of [coin(i)] (caller [i]), the
    delivery of the messages [ms] of that round, the receive iterations
    on them, and the resumption of the woken caller; after the last
    round, [recv_task.cancel()].

    The theorem: when every round's messages are well-formed, belong to
    that round and carry [f+1] distinct valid shares, each [coin(i)]
    returns the abstract coin of round [i], in order, and the receive
    task ends cancelled. The whole function, with its start-up and
    shut-down calls, is [RunCommonCoin.run_common_coin], whose loop runs
    these schedules. *)

From S2P Require Import Prelude ThresholdSig PyRepr CoinEngine CoinSpec Threshold Scheduler Liveness.
From Stdlib Require Import Lia.

Section Runner.
Context {PK SK Elem Digest : Type} `{!TBLS PK SK Elem Digest} `{!TBLSLaws PK SK Elem Digest} `{!Sha256}.
Local Abbreviation Config := (@Config PK SK).
Local Abbreviation Sched := (@Sched Elem).

(** round [i] of the loop: [await coin(i)] while [ms] arrives *)
Definition round_schedule (i : nat) (ms : list Incoming) : list Action :=
  Call i (Z.of_nat i) :: map Deliver ms ++ repeat RecvStep (length ms) ++ [Resume i].

(** lines 115-117: the rounds from [i] on, then [crecv_task.cancel()] *)
Fixpoint coin_loop (i : nat) (rounds : list (list Incoming)) : list Action :=
  match rounds with
  | [] => [CancelRecv]
  | ms :: rest => round_schedule i ms ++ coin_loop (S i) rest
  end.

(** round [i]'s messages are well-formed, all of round [i], and carry
    [f+1] distinct valid shares *)
Definition round_okb (cfg : Config) (i : nat) (ms : list Incoming) : bool :=
  forallb (wellformed cfg) ms && (f cfg + 1 <=? length (remove_dups (valid_senders cfg (Z.of_nat i) ms)))%nat &&
  forallb (fun m => bool_decide (msg_round m = Some (Z.of_nat i))) ms.

Fixpoint rounds_ok (cfg : Config) (i : nat) (rounds : list (list Incoming)) : bool :=
  match rounds with
  | [] => true
  | ms :: rest => round_okb cfg i ms && rounds_ok cfg (S i) rest
  end.

(** before round [i]: callers [0 .. i-1] have their coins, no later caller
    exists, and no later round has been put *)
Definition loop_inv (cfg : Config) (i : nat) (x : Sched) : Prop :=
  sched_reachable cfg x /\ sc_recv x = Running /\ sc_inbox x = [] /\
  (forall c, (c < i)%nat -> sc_callers x !! c = Some (Returned (Z.of_nat c) (abstract_coin cfg (Z.of_nat c)))) /\
  (forall c, (i <= c)%nat -> sc_callers x !! c = None) /\
  (forall r, Z.of_nat i <= r -> count_puts r (log (sc_store x)) = 0%nat).

Lemma Forall_repeat_action (P : Action -> Prop) a n : P a -> Forall P (repeat a n).
Proof. intros Ha. induction n; simpl; constructor; auto. Qed.

Lemma round_schedule_other_calls i ms c : c <> i -> Forall (fun a => forall r, a <> Call c r) (round_schedule i ms).
Proof.
  intros Hne. unfold round_schedule. constructor; [congruence|].
  apply Forall_app. split; [apply Forall_forall; intros a Ha; apply list_elem_of_fmap in Ha as (m & -> & _); discriminate|].
  apply Forall_app. split; [apply Forall_repeat_action; discriminate|]. constructor; [discriminate|constructor].
Qed.

Lemma loop_round cfg i ms (x : Sched) :
  cfg_ok cfg -> loop_inv cfg i x -> round_okb cfg i ms = true ->
  exists y, run_actions cfg (round_schedule i ms) x = Some y /\ loop_inv cfg (S i) y.
Proof.
  intros Hcfg (Hx & Hrun & Hin & Hdone & Hfresh & Hput) Hok.
  apply andb_prop in Hok as [[Hw Hlen]%andb_prop Hround]. apply Nat.leb_le in Hlen.
  assert (Hg : getters_at x (Z.of_nat i) = []).
  { destruct (getters_at x (Z.of_nat i)) as [|c cs] eqn:E; [done|exfalso].
    assert (Hc : sc_callers x !! c = Some (Waiting (Z.of_nat i)))
      by (apply (proj2 (sched_reachable_getters_ok cfg x Hx (Z.of_nat i)) c); rewrite E; set_solver).
    destruct (decide (c < i)%nat); [rewrite Hdone in Hc by done|rewrite Hfresh in Hc by lia]; discriminate. }
  destruct (liveness_run cfg x ms (Z.of_nat i) i Hcfg Hx Hrun Hin (Hfresh i ltac:(lia)) Hg
              (Hput (Z.of_nat i) ltac:(lia)) Hw Hlen) as (y & Hy & Hyc & Hyr & Hyi & Hyl).
  exists y. split; [exact Hy|]. split_and!.
  - eapply star_trans; [exact Hx|exact (run_actions_star cfg _ _ _ Hy)].
  - done.
  - done.
  - intros c Hc. destruct (decide (c = i)) as [->|Hne]; [done|].
    rewrite (run_actions_callers_stable cfg _ x y c (sched_reachable_getters_ok cfg x Hx) Hy);
      [apply Hdone; lia|rewrite Hdone by lia; congruence..|by apply round_schedule_other_calls].
  - intros c Hc. rewrite (run_actions_callers_stable cfg _ x y c (sched_reachable_getters_ok cfg x Hx) Hy);
      [apply Hfresh; lia|rewrite Hfresh by lia; congruence..|apply round_schedule_other_calls; lia].
  - intros r Hr. rewrite Hyl; [apply Hput; lia|]. apply List.Forall_forall. intros m Hm.
    rewrite forallb_forall in Hround. apply Hround, bool_decide_eq_true in Hm. rewrite Hm. intros [= ?]. lia.
Qed.

Lemma coin_loop_run cfg rounds i (x : Sched) :
  cfg_ok cfg -> loop_inv cfg i x -> rounds_ok cfg i rounds = true ->
  exists s', run_actions cfg (coin_loop i rounds) x = Some s' /\ sc_recv s' = Cancelled /\
    forall c, (c < i + length rounds)%nat ->
      sc_callers s' !! c = Some (Returned (Z.of_nat c) (abstract_coin cfg (Z.of_nat c))).
Proof.
  revert i x. induction rounds as [|ms rest IH]; intros i x Hcfg Hinv Hok; simpl in Hok.
  - destruct Hinv as (_ & Hrun & _ & Hdone & _). simpl. unfold sched_cancel_recv. rewrite Hrun. simpl.
    eexists. split_and!; [reflexivity|done|]. intros c Hc. apply Hdone. lia.
  - apply andb_prop in Hok as [Hr Hrest]. destruct (loop_round cfg i ms x Hcfg Hinv Hr) as (y & Hy & Hinv').
    destruct (IH (S i) y Hcfg Hinv' Hrest) as (s' & Hs' & Hc & Hret).
    exists s'. split_and!; [|done|intros c Hc'; apply Hret; simpl in *; lia].
    cbn [coin_loop]. rewrite run_actions_app, Hy. exact Hs'.
Qed.

Lemma loop_inv_init cfg : loop_inv cfg 0 sched_init.
Proof.
  split_and!; [apply star_refl|done|done|lia| |done].
  intros c _. apply lookup_empty.
Qed.


End Runner.
