(* ===== verification/RunCommonCoin.v ===== *)
(** * [run_common_coin] and the event loop as interactive programs

    [run_common_coin] (lines 102-120) is the program one party runs. It
    talks to its environment at every step:
    - it creates a [ProcessProgramRunner] with the global [t] (line 103),
      connects the sender (line 106) and asks for the ["coin"] channel
      (line 108);
    - it starts the coin with [shared_coin] (line 114);
    - it awaits [coin(i)] for [i] in [range(10)], logging each value
      with [logging.info("%d COIN VALUE: %s", i, ...)] (lines 115-116);
      each [coin(i)] broadcasts the party's share of round [i] through
      the closure [broadcast] (lines 110-112), one [send(j, o)] per
      party [j];
    - it cancels the receive task (line 117) and closes the sender and
      the listener (lines 119-120).
    The [__main__] block runs it in a new event loop in debug mode, and
    closes the loop in a [finally] clause (lines 175-181).

    Both are interaction trees over the events [RunE], one per call that
    leaves the function. The loop is [ITree.iter]. A Python exception is
    a result [Raise e] of [Prelude.Outcome], which the code passes on
    ([pbind]); [try: ... finally: loop.close()] runs the close on either
    result ([main_loop]).

    The handler [h_run] gives the events their meaning:
    - the calls to the process runner and its channel's [send], the
      logging and the event loop are visible events [Emit] of the
      environment, in the order they happen;
    - [shared_coin] evaluates its asserts (lines 31-32) on the values
      [n] and [f] it is passed, which are Python values
      ([MainBlock.JVal]: the [__main__] block passes what the
      configuration holds), and starts [Scheduler]'s tasks, held in the
      state [RunSt];
    - [await coin(i)] is round [i] of [Runner]: the call of [get_coin],
      the delivery and processing of that round's messages, and the
      resumption of the caller. It answers the value [get_coin] returned
      and never answers ([ITree.spin]) when the call does not return;
    - [crecv_task.cancel()] is [sched_cancel_recv].

    Theorems, up to [eutt]:
    - the whole run, when every round's messages carry [f+1] distinct
      valid shares, emits the process runner's calls, the sends of the
      party's shares and the ten log lines of the abstract coins, round
      after round, and the closes, in the code's order
      ([main_loop_logs_coins], used by [MainProgram]);
    - when [shared_coin]'s check fails ([TypeError] for [f + 1] on a
      value that is not an integer, [AssertionError] for a mismatch
      with the key), the exception escapes after the event loop is
      closed, but the sender and the listener stay open;
    - outside the [__main__] block the program raises [NameError] before
      it does anything. *)

From S2P Require Import Prelude ThresholdSig PyRepr MainConfig CoinEngine CoinSpec Threshold Scheduler Liveness Runner.
From ITree Require Import ITree ITreeFacts Events.State Events.StateFacts.
From Paco Require Import paco.
From Stdlib Require Import Lia.

(** ** The program *)

Section Events.
Context {PK SK : Type}.

(** the calls of [run_common_coin] and of the event loop that leave
    the function *)
Variant RunE : Type -> Type :=
| NewRunner (config : gmap Z MainBlock.NodeDetails) (n t : MainBlock.JVal) (nodeid : Z) : RunE unit
                                                 (** [ProcessProgramRunner(config, n, t, nodeid)] *)
| Connect : RunE unit                            (** [await sender.connect()] *)
| GetSendRecv (tag : string) : RunE unit         (** [program_runner.get_send_and_recv(tag)] *)
| SharedCoin (sid : string) (pid : Z) (n f : MainBlock.JVal) (pk : PK) (sk : SK) : RunE (Outcome unit)
                                                 (** [await shared_coin(sid, nodeid, n, f, pbk, pvk, ...)] *)
| AwaitCoin (i : Z) : RunE Z                     (** [await coin(i)] *)
| LogInfo (msg : string) : RunE unit             (** [logging.info(...)] *)
| CancelRecv : RunE unit                         (** [crecv_task.cancel()] *)
| CloseSender : RunE unit                        (** [await sender.close()] *)
| CloseListener : RunE unit                      (** [await listener.close()] *)
| NewEventLoop : RunE unit                       (** [asyncio.set_event_loop(asyncio.new_event_loop())] *)
| SetDebug : RunE unit                           (** [loop.set_debug(True)] *)
| CloseLoop : RunE unit.                         (** [loop.close()] *)
End Events.
Arguments RunE : clear implicits.

(** [x = t] followed by [k x], passing a raised exception on *)
Definition pbind {E A B} (t : itree E (Outcome A)) (k : A -> itree E (Outcome B)) : itree E (Outcome B) :=
  ITree.bind t (fun o => match o with Ok a => k a | Raise e => Ret (Raise e) end).

(** the message [logging.info("%d COIN VALUE: %s", i, v)] emits *)
Definition coin_log (i : nat) (v : Z) : string :=
  (py_str_int (Z.of_nat i) ++ " COIN VALUE: " ++ py_str_int v)%string.

(** one iteration of [for i in range(10)] (lines 115-116) *)
Definition coin_loop_body {PK SK} (i : nat) : itree (RunE PK SK) (nat + unit) :=
  if (i <? 10)%nat then
    ITree.bind (ITree.trigger (AwaitCoin (Z.of_nat i))) (fun v =>
    ITree.bind (ITree.trigger (LogInfo (coin_log i v))) (fun _ =>
    Ret (inl (S i))))
  else Ret (inr tt).

(** the module globals line 103 reads: [ProcessProgramRunner], imported
    only by the [__main__] block (line 129), and [t], assigned only by it
    (line 165) *)
Record Globals := { runner_imported : bool; glob_t : option MainBlock.JVal }.

(** the globals once the [__main__] block has run to line 179 *)
Definition main_globals (t : MainBlock.JVal) : Globals := {| runner_imported := true; glob_t := Some t |}.

(** a natural number as a Python [int] *)
Abbreviation py_nat n := (MainBlock.JInt (Z.of_nat n)).

(** lines 102-120. Line 103 looks up [ProcessProgramRunner] before it
    evaluates the arguments [config, n, t, nodeid]. [n] and [f] are the
    values the caller passes, whatever their type. *)
Definition run_common_coin {PK SK} (g : Globals) (config : gmap Z MainBlock.NodeDetails) (pbk : PK) (pvk : SK)
    (n f : MainBlock.JVal) (nodeid : Z) : itree (RunE PK SK) (Outcome unit) :=
  pbind (if runner_imported g then
           match glob_t g with
           | Some t => Ret (Ok t)
           | None => Ret (Raise (NameError "t"))
           end
         else Ret (Raise (NameError "ProcessProgramRunner"))) (fun t =>
  ITree.bind (ITree.trigger (NewRunner config n t nodeid)) (fun _ =>
  ITree.bind (ITree.trigger Connect) (fun _ =>
  ITree.bind (ITree.trigger (GetSendRecv "coin")) (fun _ =>
  pbind (ITree.trigger (SharedCoin "sidA" nodeid n f pbk pvk)) (fun _ =>
  ITree.bind (ITree.iter coin_loop_body 0%nat) (fun _ =>
  ITree.bind (ITree.trigger CancelRecv) (fun _ =>
  ITree.bind (ITree.trigger CloseSender) (fun _ =>
  ITree.bind (ITree.trigger CloseListener) (fun _ =>
  Ret (Ok tt)))))))))).

(** lines 175-181: a new event loop in debug mode runs [body]; [finally:
    loop.close()] runs whether [body] returns or raises, and a raised
    exception goes on *)
Definition main_loop {PK SK} (body : itree (RunE PK SK) (Outcome unit)) : itree (RunE PK SK) (Outcome unit) :=
  ITree.bind (ITree.trigger NewEventLoop) (fun _ =>
  ITree.bind (ITree.trigger SetDebug) (fun _ =>
  ITree.bind body (fun o =>
  ITree.bind (ITree.trigger CloseLoop) (fun _ =>
  Ret o)))).

(** ** What the environment sees *)

(** the calls the process runner, its channel, the logger and the event
    loop receive *)
Inductive IOEvent :=
| IONewRunner (config : gmap Z MainBlock.NodeDetails) (n t : MainBlock.JVal) (nodeid : Z)
| IOConnect
| IOSendRecv (tag : string)
| IOSend (i : Z) (o : WireMsg)       (** [send(i, o)] of the ["coin"] channel *)
| IOLog (msg : string)
| IOCloseSender
| IOCloseListener
| IONewLoop
| IOSetDebug
| IOCloseLoop.

Variant ioE : Type -> Type :=
| Emit (ev : IOEvent) : ioE unit.

(** the events [l], in order *)
Fixpoint emits (l : list IOEvent) : itree ioE unit :=
  match l with
  | [] => Ret tt
  | ev :: l' => ITree.bind (ITree.trigger (Emit ev)) (fun _ => emits l')
  end.

(** lines 110-112, the closure [broadcast(o)]: [for i in range(n): send(i, o)] *)
Definition broadcast_events (n : nat) (o : WireMsg) : list IOEvent :=
  List.map (fun i => IOSend (Z.of_nat i) o) (seq 0 n).

Section Run.
Context {PK SK Elem Digest : Type} `{!TBLS PK SK Elem Digest} `{!TBLSLaws PK SK Elem Digest} `{!Sha256}.
Local Abbreviation Config := (@Config PK SK).
Local Abbreviation Sched := (@Sched Elem).

(** the party as [run_common_coin] drives it: the coin's configuration
    once [shared_coin] ran, the tasks, the messages the network will
    deliver during each later [await coin(i)], the next caller, and
    whether a round can resolve ([f >= 0]) *)
Record RunSt := mkRunSt {
  rs_cfg : option Config;
  rs_sched : Sched;
  rs_rounds : list (list Incoming);
  rs_next : nat;
  rs_live : bool }.

(** [await coin(i)] by a new call [c]: the call, the delivery and
    processing of the messages [ms], and the resumption of the caller *)
Definition await_schedule (c : nat) (i : Z) (ms : list Incoming) : list Action :=
  Scheduler.Call c i :: List.map Deliver ms ++ repeat RecvStep (length ms) ++ [Resume c].

(** [await coin(i)]: [get_coin(i)] hands its share to [broadcast], which
    sends it to every party of [range(n)]; then the round's messages
    arrive and are processed, and the caller resumes. The coin answers
    the value [get_coin] returned, and never answers when the call does
    not return or no round can resolve. The [n] of [broadcast] is the
    configuration's: [shared_coin] asserted [pk.l == n]. *)
Definition await_coin (i : Z) (st : RunSt) : itree ioE (RunSt * Z) :=
  match rs_cfg st with
  | None => ITree.spin
  | Some cfg =>
      let c := rs_next st in
      match sched_exec cfg (Scheduler.Call c i) (rs_sched st) with
      | None => ITree.spin
      | Some s1 =>
          let sent := drop (length (outbox (sc_store (rs_sched st)))) (outbox (sc_store s1)) in
          ITree.bind (emits (List.flat_map (broadcast_events (n cfg)) sent)) (fun _ =>
          if rs_live st then
            let ms := default [] (head (rs_rounds st)) in
            match run_actions cfg (tail (await_schedule c i ms)) s1 with
            | Some s' =>
                match sc_callers s' !! c with
                | Some (Returned _ b) => Ret (mkRunSt (Some cfg) s' (tail (rs_rounds st)) (S c) true, b)
                | _ => ITree.spin
                end
            | None => ITree.spin
            end
          else ITree.spin)
      end
  end.

Definition emit_ret {T} (ev : IOEvent) (st : RunSt) (v : T) : itree ioE (RunSt * T) :=
  ITree.bind (ITree.trigger (Emit ev)) (fun _ => Ret (st, v)).

(** [f + 1] (line 31): [TypeError] unless [f] is an integer *)
Definition py_succ (v : MainBlock.JVal) : Outcome Z :=
  match v with MainBlock.JInt z => Ok (z + 1) | _ => Raise TypeError end.

(** [x == v] for the integer [x]: [False] unless [v] is the integer [x] *)
Definition py_eq_int (x : Z) (v : MainBlock.JVal) : bool :=
  match v with MainBlock.JInt z => Z.eqb x z | _ => false end.

(** lines 31-32 on the values [n] and [f] the caller passed, [pk.k]
    evaluated before [f + 1]: the integers [n] and [f] when both asserts
    pass *)
Definition shared_coin_check (pk : PK) (n f : MainBlock.JVal) : Outcome (Z * Z) :=
  match py_succ f with
  | Raise e => Raise e
  | Ok f1 =>
      if Z.eqb (Z.of_nat (pk_k pk)) f1 then
        if py_eq_int (Z.of_nat (pk_l pk)) n then Ok (Z.of_nat (pk_l pk), f1 - 1) else Raise AssertionError
      else Raise AssertionError
  end.

(** the meaning of each event. [shared_coin] checks its arguments (lines
    31-32), allocates the store (lines 33-34) and starts [recv_task]
    (line 82). Once the asserts pass, [n >= 0] and [f >= -1]; [f = -1]
    (a key with [k = 0]) makes [len(received[r]) == f + 1] false once a
    share is stored, so no round resolves ([rs_live] is false, and the
    configuration's [f], unused then, is [0]). *)
Definition h_run : RunE PK SK ~> Monads.stateT RunSt (itree ioE) :=
  fun _ e st =>
    match e in RunE _ _ T return itree ioE (RunSt * T) with
    | NewRunner config n t nodeid => emit_ret (IONewRunner config n t nodeid) st tt
    | Connect => emit_ret IOConnect st tt
    | GetSendRecv tag => emit_ret (IOSendRecv tag) st tt
    | SharedCoin sid pid n f pk sk =>
        match shared_coin_check pk n f with
        | Ok (zn, zf) =>
            Ret (mkRunSt (Some (mkConfig sid pid (Z.to_nat zn) (Z.to_nat zf) pk sk)) sched_init (rs_rounds st) 0
                   (Z.leb 0 zf), Ok tt)
        | Raise e => Ret (st, Raise e)
        end
    | AwaitCoin i => await_coin i st
    | LogInfo msg => emit_ret (IOLog msg) st tt
    | CancelRecv =>
        Ret (match sched_cancel_recv (rs_sched st) with
             | Some s' => mkRunSt (rs_cfg st) s' (rs_rounds st) (rs_next st) (rs_live st)
             | None => st
             end, tt)
    | CloseSender => emit_ret IOCloseSender st tt
    | CloseListener => emit_ret IOCloseListener st tt
    | NewEventLoop => emit_ret IONewLoop st tt
    | SetDebug => emit_ret IOSetDebug st tt
    | CloseLoop => emit_ret IOCloseLoop st tt
    end.

(** ** Running the program one event at a time *)

Lemma emits_app {R} l1 l2 (k : unit -> itree ioE R) :
  eutt eq (ITree.bind (emits (l1 ++ l2)) k) (ITree.bind (emits l1) (fun _ => ITree.bind (emits l2) k)).
Proof.
  induction l1 as [|ev l1 IH]; simpl.
  - rewrite bind_ret_l. reflexivity.
  - rewrite !bind_bind. apply eutt_eq_bind. intros []. apply IH.
Qed.

(** an event the handler answers silently *)
Lemma interp_silent {T R} (e : RunE PK SK T) (k : T -> itree (RunE PK SK) R) st st' v :
  h_run _ e st = Ret (st', v) ->
  eutt eq (interp_state h_run (ITree.bind (ITree.trigger e) k) st) (interp_state h_run (k v) st').
Proof. intros He. rewrite interp_state_bind, interp_state_trigger, He, bind_ret_l. reflexivity. Qed.

(** an event the environment sees *)
Lemma interp_emit {T R} (e : RunE PK SK T) (k : T -> itree (RunE PK SK) R) st st' v ev :
  h_run _ e st = emit_ret ev st' v ->
  eutt eq (interp_state h_run (ITree.bind (ITree.trigger e) k) st)
    (ITree.bind (ITree.trigger (Emit ev)) (fun _ => interp_state h_run (k v) st')).
Proof.
  intros He. rewrite interp_state_bind, interp_state_trigger, He. unfold emit_ret. rewrite bind_bind.
  apply eutt_eq_bind. intros []. rewrite bind_ret_l. reflexivity.
Qed.

(** the event [ev] then the rest: the first of the events [ev :: l] *)
Lemma emit_step {R} (t : itree ioE R) ev l (k : unit -> itree ioE R) :
  eutt eq t (ITree.bind (emits l) k) ->
  eutt eq (ITree.bind (ITree.trigger (Emit ev)) (fun _ => t)) (ITree.bind (emits (ev :: l)) k).
Proof. intros Ht. simpl. rewrite bind_bind. apply eutt_eq_bind. intros []. exact Ht. Qed.

Ltac run_emit :=
  erewrite interp_emit by reflexivity; apply emit_step.

(** an event whose answer comes after the events [l] *)
Lemma interp_emits {T R} (e : RunE PK SK T) (k : T -> itree (RunE PK SK) R) st st' v l :
  h_run _ e st = ITree.bind (emits l) (fun _ => Ret (st', v)) ->
  eutt eq (interp_state h_run (ITree.bind (ITree.trigger e) k) st)
    (ITree.bind (emits l) (fun _ => interp_state h_run (k v) st')).
Proof.
  intros He. rewrite interp_state_bind, interp_state_trigger, He, bind_bind.
  apply eutt_eq_bind. intros []. rewrite bind_ret_l. reflexivity.
Qed.

(** a tree that never returns stays so whatever follows *)
Lemma bind_spin {E R S} (k : R -> itree E S) : eq_itree eq (ITree.bind ITree.spin k) ITree.spin.
Proof. pcofix CIH. pstep. red. cbn. constructor. right. exact CIH. Qed.

(** an event that is never answered, after the events [l] *)
Lemma interp_hang {T R} (e : RunE PK SK T) (k : T -> itree (RunE PK SK) R) st l :
  h_run _ e st = ITree.bind (emits l) (fun _ => ITree.spin) ->
  eutt eq (interp_state h_run (ITree.bind (ITree.trigger e) k) st) (ITree.bind (emits l) (fun _ => ITree.spin)).
Proof.
  intros He. rewrite interp_state_bind, interp_state_trigger, He, bind_bind.
  apply eutt_eq_bind. intros []. by rewrite bind_spin.
Qed.

Lemma flat_map_single {A B} (g : A -> list B) x : List.flat_map g [x] = g x.
Proof. simpl. apply app_nil_r. Qed.

(** [await coin(i)] in a round whose messages carry [f+1] valid shares
    sends the own share to every party and answers the abstract coin *)
Lemma h_await_round cfg i ms rest st :
  cfg_ok cfg -> rs_cfg st = Some cfg -> rs_next st = i -> rs_rounds st = ms :: rest -> rs_live st = true ->
  loop_inv cfg i (rs_sched st) -> round_okb cfg i ms = true ->
  exists y, loop_inv cfg (S i) y /\
    h_run _ (AwaitCoin (Z.of_nat i)) st =
      ITree.bind (emits (broadcast_events (n cfg) (own_share cfg (Z.of_nat i))))
        (fun _ => Ret (mkRunSt (Some cfg) y rest (S i) true, abstract_coin cfg (Z.of_nat i))).
Proof.
  intros Hcfg Hc Hn Hr Hl Hinv Hok.
  destruct (loop_round cfg i ms (rs_sched st) Hcfg Hinv Hok) as (y & Hy & Hinv').
  exists y. split; [exact Hinv'|]. destruct Hinv' as (_ & _ & _ & Hdone & _).
  unfold round_schedule in Hy. cbn [run_actions] in Hy.
  destruct (sched_exec cfg (Scheduler.Call i (Z.of_nat i)) (rs_sched st)) as [s1|] eqn:E1; [|discriminate]. cbn in Hy.
  change (h_run _ (AwaitCoin (Z.of_nat i)) st) with (await_coin (Z.of_nat i) st).
  unfold await_coin. rewrite Hc, Hn. cbv zeta. rewrite E1, (sched_call_sent cfg i (Z.of_nat i) _ _ E1), flat_map_single.
  rewrite Hl, Hr. cbn [default head tail from_option id]. unfold await_schedule. cbn [tail].
  rewrite Hy, (Hdone i ltac:(lia)). reflexivity.
Qed.

(** what round [j] of the loop shows: [coin(j)] sends the own share of
    round [j] to every party, then the value is logged *)
Definition round_events (cfg : Config) (j : nat) : list IOEvent :=
  broadcast_events (n cfg) (own_share cfg (Z.of_nat j)) ++ [IOLog (coin_log j (abstract_coin cfg (Z.of_nat j)))].

(** rounds [i] to [9] *)
Definition coin_rounds (cfg : Config) (i : nat) : list IOEvent :=
  List.flat_map (round_events cfg) (seq i (10 - i)).

Lemma coin_rounds_cons cfg i : (i < 10)%nat ->
  coin_rounds cfg i = round_events cfg i ++ coin_rounds cfg (S i).
Proof. intros Hi. unfold coin_rounds. by replace (10 - i)%nat with (S (10 - S i)) by lia. Qed.

(** the loop of lines 115-116 from iteration [i] on *)
Lemma iter_coin_loop_run cfg i st :
  cfg_ok cfg -> rs_cfg st = Some cfg -> rs_next st = i -> rs_live st = true -> loop_inv cfg i (rs_sched st) ->
  rounds_ok cfg i (rs_rounds st) = true -> (10 <= i + length (rs_rounds st))%nat -> (i <= 10)%nat ->
  exists st', rs_cfg st' = Some cfg /\ loop_inv cfg 10 (rs_sched st') /\
    eutt eq (interp_state h_run (ITree.iter coin_loop_body i) st) (ITree.bind (emits (coin_rounds cfg i)) (fun _ => Ret (st', tt))).
Proof.
  remember (10 - i)%nat as k eqn:Hk. revert i st Hk.
  induction k as [|k IH]; intros i st Hk Hcfg Hc Hn Hl Hinv Hok Hlen Hi.
  - assert (i = 10)%nat as -> by lia. exists st. split_and!; [done|done|].
    rewrite unfold_iter. unfold coin_loop_body. rewrite (proj2 (Nat.ltb_ge 10 10)) by lia.
    change (coin_rounds cfg 10) with (@nil IOEvent). cbn [emits].
    rewrite !bind_ret_l. cbn iota beta. rewrite interp_state_ret. reflexivity.
  - destruct (rs_rounds st) as [|ms rest] eqn:Hr; [simpl in Hlen; lia|].
    simpl in Hok. apply andb_prop in Hok as [Hms Hrest].
    destruct (h_await_round cfg i ms rest st Hcfg Hc Hn Hr Hl Hinv Hms) as (y & Hinv' & Ha).
    destruct (IH (S i) (mkRunSt (Some cfg) y rest (S i) true) ltac:(lia) Hcfg eq_refl eq_refl eq_refl Hinv' Hrest
                ltac:(simpl in Hlen; simpl; lia) ltac:(lia)) as (st' & Hc' & Hinv'' & Hrun).
    exists st'. split_and!; [done|done|].
    rewrite unfold_iter. unfold coin_loop_body. rewrite (proj2 (Nat.ltb_lt i 10)) by lia.
    rewrite bind_bind, (interp_emits _ _ _ _ _ _ Ha).
    rewrite coin_rounds_cons by lia. unfold round_events. rewrite <- app_assoc, emits_app.
    apply eutt_eq_bind. intros []. rewrite bind_bind. cbn [app]. run_emit.
    rewrite bind_ret_l. cbn iota beta. rewrite interp_state_tau, tau_eutt. exact Hrun.
Qed.

(** the configuration [shared_coin('sidA', nodeid, n, f, pbk, pvk, ...)]
    gets (line 114) *)
Definition run_cfg (pbk : PK) (pvk : SK) (n f : nat) (nodeid : Z) : Config := mkConfig "sidA" nodeid n f pbk pvk.

(** on integer arguments the check of lines 31-32 on Python values is
    the check [CoinEngine.shared_coin_init] makes on the configuration *)
Lemma shared_coin_check_nat pk sid pid (n f : nat) sk :
  shared_coin_check pk (py_nat n) (py_nat f) =
    match shared_coin_init (mkConfig sid pid n f pk sk) with
    | Ok _ => Ok (Z.of_nat n, Z.of_nat f)
    | Raise e => Raise e
    end.
Proof.
  unfold shared_coin_check, shared_coin_init, py_succ, py_eq_int. cbn.
  destruct (Nat.eqb_spec (pk_k pk) (f + 1)), (Z.eqb_spec (Z.of_nat (pk_k pk)) (Z.of_nat f + 1)); try lia;
    destruct (Nat.eqb_spec (pk_l pk) n), (Z.eqb_spec (Z.of_nat (pk_l pk)) (Z.of_nat n)); try lia;
    repeat f_equal; lia.
Qed.

Lemma h_shared_coin_ok pbk pvk n f nodeid st :
  cfg_ok (run_cfg pbk pvk n f nodeid) ->
  h_run _ (SharedCoin "sidA" nodeid (py_nat n) (py_nat f) pbk pvk) st =
    Ret (mkRunSt (Some (run_cfg pbk pvk n f nodeid)) sched_init (rs_rounds st) 0 true, Ok tt).
Proof.
  intros [Hk Hl]. cbn [h_run]. rewrite (shared_coin_check_nat pbk "sidA" nodeid n f pvk).
  unfold shared_coin_init. cbn in Hk, Hl |- *. rewrite Hk, Hl, !Nat.eqb_refl.
  rewrite (proj2 (Z.leb_le 0 (Z.of_nat f))) by lia. unfold run_cfg. by rewrite !Nat2Z.id.
Qed.

Lemma h_shared_coin_fail pbk pvk n f nodeid e st :
  shared_coin_check pbk n f = Raise e ->
  h_run _ (SharedCoin "sidA" nodeid n f pbk pvk) st = Ret (st, Raise e).
Proof. intros He. cbn [h_run]. by rewrite He. Qed.

Lemma shared_coin_check_not_ok pbk pvk n f nodeid :
  ~ cfg_ok (run_cfg pbk pvk n f nodeid) -> shared_coin_check pbk (py_nat n) (py_nat f) = Raise AssertionError.
Proof.
  intros Hn. rewrite (shared_coin_check_nat pbk "sidA" nodeid n f pvk).
  unfold run_cfg, cfg_ok in *. cbn in Hn |- *. unfold shared_coin_init. cbn.
  destruct (Nat.eqb_spec (pk_k pbk) (f + 1)), (Nat.eqb_spec (pk_l pbk) n); tauto || reflexivity.
Qed.

Lemma h_cancel_running st :
  sc_recv (rs_sched st) = Running ->
  h_run _ CancelRecv st =
    Ret (mkRunSt (rs_cfg st) (mkSched (sc_store (rs_sched st)) Cancelled (sc_inbox (rs_sched st))
           (sc_getters (rs_sched st)) (sc_callers (rs_sched st))) (rs_rounds st) (rs_next st) (rs_live st), tt).
Proof. intros Hr. cbn. unfold sched_cancel_recv. by rewrite Hr. Qed.

(** what the environment sees of a complete run of [run_common_coin] *)
Definition run_events (config : gmap Z MainBlock.NodeDetails) (n : nat) (t : MainBlock.JVal) (nodeid : Z) (cfg : Config) : list IOEvent :=
  [IONewRunner config (py_nat n) t nodeid; IOConnect; IOSendRecv "coin"] ++ coin_rounds cfg 0 ++
  [IOCloseSender; IOCloseListener].

(** [run_common_coin] runs to its end when every round is served *)
Lemma run_common_coin_run t config pbk pvk n f nodeid st :
  cfg_ok (run_cfg pbk pvk n f nodeid) -> rounds_ok (run_cfg pbk pvk n f nodeid) 0 (rs_rounds st) = true ->
  (10 <= length (rs_rounds st))%nat ->
  exists st',
    eutt eq (interp_state h_run (run_common_coin (main_globals t) config pbk pvk (py_nat n) (py_nat f) nodeid) st)
      (ITree.bind (emits (run_events config n t nodeid (run_cfg pbk pvk n f nodeid))) (fun _ => Ret (st', Ok tt))) /\
    sc_recv (rs_sched st') = Cancelled /\
    forall j, (j < 10)%nat ->
      sc_callers (rs_sched st') !! j = Some (Returned (Z.of_nat j) (abstract_coin (run_cfg pbk pvk n f nodeid) (Z.of_nat j))).
Proof.
  intros Hcfg Hok Hlen.
  destruct (iter_coin_loop_run _ 0 (mkRunSt (Some (run_cfg pbk pvk n f nodeid)) sched_init (rs_rounds st) 0 true) Hcfg
              eq_refl eq_refl eq_refl (loop_inv_init _) Hok Hlen ltac:(lia)) as (st5 & Hc5 & Hinv5 & Hloop).
  pose proof Hinv5 as (_ & Hrecv5 & _ & Hdone5 & _).
  eexists. split.
  - unfold run_common_coin, run_events. cbn [runner_imported glob_t main_globals app]. unfold pbind at 1.
    rewrite bind_ret_l. cbn iota beta.
    run_emit. run_emit. run_emit.
    unfold pbind. rewrite (interp_silent _ _ _ _ _ (h_shared_coin_ok pbk pvk n f nodeid st Hcfg)). cbn iota beta.
    rewrite interp_state_bind, Hloop, bind_bind.
    etransitivity; [|symmetry; apply emits_app]. apply eutt_eq_bind. intros [].
    rewrite bind_ret_l. cbn [fst snd].
    rewrite (interp_silent _ _ _ _ _ (h_cancel_running st5 Hrecv5)).
    run_emit. run_emit. rewrite interp_state_ret. cbn [emits]. rewrite bind_ret_l. reflexivity.
  - split; [reflexivity|]. intros j Hj. apply Hdone5. lia.
Qed.

(** the event loop (lines 175-181) runs [run_common_coin] to its end
    when [shared_coin]'s check passes and every round is served *)
Lemma main_loop_logs_coins t config pbk pvk n f nodeid st :
  cfg_ok (run_cfg pbk pvk n f nodeid) -> rounds_ok (run_cfg pbk pvk n f nodeid) 0 (rs_rounds st) = true ->
  (10 <= length (rs_rounds st))%nat ->
  exists st',
    eutt eq (interp_state h_run (main_loop (run_common_coin (main_globals t) config pbk pvk (py_nat n) (py_nat f) nodeid)) st)
      (ITree.bind (emits ([IONewLoop; IOSetDebug; IONewRunner config (py_nat n) t nodeid; IOConnect; IOSendRecv "coin"] ++
                          coin_rounds (run_cfg pbk pvk n f nodeid) 0 ++ [IOCloseSender; IOCloseListener; IOCloseLoop]))
         (fun _ => Ret (st', Ok tt))) /\
    sc_recv (rs_sched st') = Cancelled /\
    forall j, (j < 10)%nat ->
      sc_callers (rs_sched st') !! j = Some (Returned (Z.of_nat j) (abstract_coin (run_cfg pbk pvk n f nodeid) (Z.of_nat j))).
Proof.
  intros Hcfg Hok Hlen.
  destruct (run_common_coin_run t config pbk pvk n f nodeid st Hcfg Hok Hlen) as (st' & Hrun & Hrecv & Hret).
  exists st'. split; [|done].
  unfold main_loop. cbn [app]. run_emit. run_emit.
  rewrite interp_state_bind, Hrun, bind_bind.
  replace (IONewRunner config (py_nat n) t nodeid :: IOConnect :: IOSendRecv "coin" ::
           coin_rounds (run_cfg pbk pvk n f nodeid) 0 ++ [IOCloseSender; IOCloseListener; IOCloseLoop])
    with (run_events config n t nodeid (run_cfg pbk pvk n f nodeid) ++ [IOCloseLoop])
    by (unfold run_events; cbn [app]; by rewrite <- !app_assoc).
  etransitivity; [|symmetry; apply emits_app]. apply eutt_eq_bind. intros []. rewrite bind_ret_l. cbn [fst snd].
  run_emit. rewrite interp_state_ret. cbn [emits]. rewrite bind_ret_l. reflexivity.
Qed.

(** [run_common_coin] when [shared_coin]'s check fails *)
Lemma run_common_coin_assert t config pbk pvk n f nodeid e st :
  shared_coin_check pbk n f = Raise e ->
  eutt eq (interp_state h_run (run_common_coin (main_globals t) config pbk pvk n f nodeid) st)
    (ITree.bind (emits [IONewRunner config n t nodeid; IOConnect; IOSendRecv "coin"])
       (fun _ => Ret (st, Raise e))).
Proof.
  intros He. unfold run_common_coin. cbn [runner_imported glob_t main_globals]. unfold pbind at 1.
  rewrite bind_ret_l. cbn iota beta.
  run_emit. run_emit. run_emit.
  unfold pbind. rewrite (interp_silent _ _ _ _ _ (h_shared_coin_fail pbk pvk n f nodeid e st He)). cbn iota beta.
  rewrite interp_state_ret. cbn [emits]. rewrite bind_ret_l. reflexivity.
Qed.

(** C21: when [shared_coin]'s checks of lines 31-32 fail on the values
    [run_common_coin] passes ([TypeError] when [f + 1] is applied to a
    value that is not an integer, [AssertionError] when [pk.k != f+1] or
    [pk.l != n]), the exception escapes [run_common_coin] after the
    process runner, the connection and the channel were set up. The
    [finally] of line 180 closes the event loop and the exception goes
    on, but the sender and the listener are never closed. *)
Theorem main_loop_shared_coin_error t config pbk pvk n f nodeid e st :
  shared_coin_check pbk n f = Raise e ->
  eutt eq (interp_state h_run (main_loop (run_common_coin (main_globals t) config pbk pvk n f nodeid)) st)
    (ITree.bind (emits [IONewLoop; IOSetDebug; IONewRunner config n t nodeid; IOConnect; IOSendRecv "coin"; IOCloseLoop])
       (fun _ => Ret (st, Raise e))).
Proof.
  intros He. unfold main_loop. run_emit. run_emit.
  rewrite interp_state_bind, (run_common_coin_assert t config pbk pvk n f nodeid e st He), bind_bind.
  change [IONewRunner config n t nodeid; IOConnect; IOSendRecv "coin"; IOCloseLoop]
    with ([IONewRunner config n t nodeid; IOConnect; IOSendRecv "coin"] ++ [IOCloseLoop]).
  rewrite emits_app. apply eutt_eq_bind. intros []. rewrite bind_ret_l. cbn [fst snd].
  run_emit. rewrite interp_state_ret. cbn [emits]. rewrite bind_ret_l. reflexivity.
Qed.

(** [f = -1] with a key of threshold [k = 0] passes [shared_coin]'s
    asserts, but no round can resolve: [coin(0)] broadcasts the share of
    round 0 and never returns, so the loop never ends and nothing is
    closed *)
Lemma run_common_coin_unresolvable t config pbk pvk n zn nodeid st :
  shared_coin_check pbk n (MainBlock.JInt (-1)) = Ok (zn, -1) ->
  eutt eq (interp_state h_run (run_common_coin (main_globals t) config pbk pvk n (MainBlock.JInt (-1)) nodeid) st)
    (ITree.bind (emits ([IONewRunner config n t nodeid; IOConnect; IOSendRecv "coin"] ++
                        broadcast_events (Z.to_nat zn) (own_share (mkConfig "sidA" nodeid (Z.to_nat zn) 0 pbk pvk) 0)))
       (fun _ => ITree.spin)).
Proof.
  intros Hc. set (cfg := mkConfig "sidA" nodeid (Z.to_nat zn) 0 pbk pvk).
  set (st1 := mkRunSt (Some cfg) sched_init (rs_rounds st) 0 false).
  assert (H1 : h_run _ (SharedCoin "sidA" nodeid n (MainBlock.JInt (-1)) pbk pvk) st = Ret (st1, Ok tt))
    by (cbn [h_run]; by rewrite Hc).
  destruct (sched_exec cfg (Scheduler.Call 0 0) sched_init) as [s1|] eqn:E1;
    [|simpl in E1; unfold sched_call in E1; rewrite bool_decide_eq_false_2 in E1; [done|]; cbn; rewrite lookup_empty; apply is_Some_None].
  assert (H2 : h_run _ (AwaitCoin 0) st1 = ITree.bind (emits (broadcast_events (Z.to_nat zn) (own_share cfg 0))) (fun _ => ITree.spin)).
  { change (h_run _ (AwaitCoin 0) st1) with (await_coin 0 st1). unfold await_coin. cbn [rs_cfg rs_next rs_sched rs_live st1].
    rewrite E1, (sched_call_sent cfg 0 0 _ _ E1), flat_map_single. reflexivity. }
  unfold run_common_coin. cbn [runner_imported glob_t main_globals app]. unfold pbind at 1.
  rewrite bind_ret_l. cbn iota beta.
  run_emit. run_emit. run_emit.
  unfold pbind. rewrite (interp_silent _ _ _ _ _ H1). cbn iota beta.
  rewrite interp_state_bind, unfold_iter. unfold coin_loop_body at 1. cbn [Nat.ltb Nat.leb]. change (Z.of_nat 0) with 0.
  rewrite !bind_bind, (interp_hang _ _ _ _ H2), !bind_bind.
  apply eutt_eq_bind. intros []. by rewrite !bind_spin.
Qed.


(** C30: outside the [__main__] block [run_common_coin] fails at line
    103 before it creates the process runner or connects. Imported as a
    module, neither [ProcessProgramRunner] (imported at line 129) nor [t]
    (assigned at line 165) is a global: it raises
    [NameError('ProcessProgramRunner')]. With the class imported but [t]
    unset it raises [NameError('t')]. Nothing is emitted. *)
Theorem run_common_coin_name_error g config pbk pvk n f nodeid st :
  glob_t g = None ->
  eutt eq (interp_state h_run (run_common_coin g config pbk pvk n f nodeid) st)
    (Ret (st, Raise (if runner_imported g then NameError "t" else NameError "ProcessProgramRunner"))).
Proof.
  intros Ht. unfold run_common_coin, pbind. rewrite Ht.
  destruct (runner_imported g); rewrite bind_ret_l; cbn iota beta; rewrite interp_state_ret; reflexivity.
Qed.

End Run.
