(* ===== verification/Network.v ===== *)
(** * The parties and the network between them

    [run_common_coin] (lines 102-120) connects every party to the others
    through [ProcessProgramRunner] and gives [shared_coin] the closure
    [broadcast] (lines 110-112), which calls [send(i, o)] for every [i]
    in [range(n)]. The transport ([send] and [recv]) is not under src/.
    It is modelled from the spec (sections 2 and 6): [send] is fire and
    forget, and [receive()] returns [(sender, message)] in the order each
    sender sent. So there is one FIFO channel per ordered pair of parties.

    [Net] is the state of the whole system:
    - [nodes] holds the tasks of each honest party, a [Sched] of
      [Scheduler] run under that party's [Config] ([party_cfg]);
    - [chans] holds the channels.
    Faulty parties have no tasks: they put anything on their own
    channels at any time. [net_exec] runs one action of the system:
    - a call of [get_coin], whose broadcast is sent to every party;
    - the transport handing a party the next message of one channel;
    - a local action of a party's scheduler;
    - a faulty party's send.

    Theorems:
    - Agreement under faults. In every reachable state, whatever the
      faulty parties sent, an honest caller of [get_coin(r)] that
      returned got the bit of the threshold signature on [(sid, r)], so
      any two honest parties agree.
    - Liveness with [f+1] honest parties. Suppose at least [f+1] parties
      are honest and the faulty ones stay silent, and every honest party
      calls [get_coin(r)] once. Then in the schedule in which every
      honest share is received and processed, every honest party's call
      returns.
    - A faulty party halts an honest one. A share for a negative round
      whose bytes decode ends the receiver's [recv_task] (the assertion of
      line 46), after which no caller of an unput round ever returns at
      that party, whatever the network does. An honest party does the
      same to the others when it calls [get_coin] with a negative round,
      which lines 84-97 accept.
    - Every call of [get_coin] broadcasts: two calls of [get_coin(r)] at
      one party put its share twice on every channel. *)

From S2P Require Import Prelude ThresholdSig PyRepr CoinEngine CoinSpec Threshold Scheduler Liveness.
From Stdlib Require Import Lia.

Section Network.
Context {PK SK Elem Digest : Type} `{!TBLS PK SK Elem Digest} `{!TBLSLaws PK SK Elem Digest}
  `{!TBLSKeys PK SK Elem Digest} `{!Sha256}.
Local Abbreviation Config := (@Config PK SK).
Local Abbreviation Sched := (@Sched Elem).
Local Abbreviation CoinState := (@CoinState Elem).

(** the session, the number of parties, the fault bound, the public key,
    and each party's private key, as [__main__] loads them *)
Context (sid0 : string) (nn ff : nat) (pk0 : PK) (keys : Z -> SK).

(** party [j]'s call [shared_coin('sidA', nodeid, n, f, pbk, pvk, ...)]
    (line 114) *)
Definition party_cfg (j : Z) : Config := mkConfig sid0 j nn ff pk0 (keys j).

Local Abbreviation Chans := (gmap (Z * Z) (list WireMsg)).

Record Net := mkNet {
  nodes : gmap Z Sched;
  chans : Chans
}.

(** the messages [j] sent to [i] that [i] has not received *)
Definition chan (ch : Chans) (j i : Z) : list WireMsg := default [] (ch !! (j, i)).

(** the transport's [send(i, o)], called by party [j] *)
Definition send (j i : Z) (o : WireMsg) (ch : Chans) : Chans :=
  <[(j, i) := chan ch j i ++ [o]]> ch.

(** lines 110-112: [for i in range(n): send(i, o)] *)
Definition broadcast (j : Z) (o : WireMsg) (ch : Chans) : Chans :=
  foldl (fun ch i => send j (Z.of_nat i) o ch) ch (seq 0 nn).

(** the actions of one party's scheduler that involve no other party *)
Definition local_action (a : Action) : bool :=
  match a with
  | Deliver _ | Call _ _ => false
  | _ => true
  end.

Inductive NetAction :=
| NCall (j : Z) (c : nat) (r : Z)   (** task [c] of party [j] calls [get_coin(r)] *)
| NRecv (i j : Z)                   (** [i]'s [receive()] returns [j]'s next message *)
| NLocal (i : Z) (a : Action)       (** party [i]'s scheduler runs [a] *)
| NFaulty (j i : Z) (o : WireMsg).  (** faulty party [j] sends [o] to [i] *)

Definition net_exec (a : NetAction) (N : Net) : option Net :=
  match a with
  | NCall j c r =>
      x ← nodes N !! j; x' ← sched_exec (party_cfg j) (Call c r) x;
      let sent := drop (length (outbox (sc_store x))) (outbox (sc_store x')) in
      Some (mkNet (<[j := x']> (nodes N)) (foldl (fun ch o => broadcast j o ch) (chans N) sent))
  | NRecv i j =>
      x ← nodes N !! i;
      match chan (chans N) j i with
      | [] => None
      | o :: rest =>
          x' ← sched_exec (party_cfg i) (Deliver (j, o)) x;
          Some (mkNet (<[i := x']> (nodes N)) (<[(j, i) := rest]> (chans N)))
      end
  | NLocal i a =>
      if local_action a then
        x ← nodes N !! i; x' ← sched_exec (party_cfg i) a x;
        Some (mkNet (<[i := x']> (nodes N)) (chans N))
      else None
  | NFaulty j i o =>
      if bool_decide (0 <= j < Z.of_nat nn) && negb (bool_decide (is_Some (nodes N !! j)))
      then Some (mkNet (nodes N) (send j i o (chans N))) else None
  end.

Fixpoint net_run (l : list NetAction) (N : Net) : option Net :=
  match l with
  | [] => Some N
  | a :: l' => net_exec a N ≫= net_run l'
  end.

Inductive net_step (N : Net) : Net -> Prop :=
| NStep a N' : net_exec a N = Some N' -> net_step N N'.

(** the honest parties [hs] have started [shared_coin]; nothing is sent *)
Definition net_init (hs : list Z) : Net :=
  mkNet (list_to_map ((fun j => (j, sched_init)) <$> hs)) ∅.

Definition net_reachable (hs : list Z) (N : Net) : Prop := star net_step (net_init hs) N.

(** ** Every party runs its own scheduler *)

Lemma node_update_star j x x' (ns : gmap Z Sched) a i y :
  ns !! j = Some x -> sched_exec (party_cfg j) a x = Some x' -> <[j := x']> ns !! i = Some y ->
  exists x0, ns !! i = Some x0 /\ star (sched_step (party_cfg i)) x0 y.
Proof.
  intros Ex Ex' Hy. destruct (decide (j = i)) as [<-|].
  - rewrite lookup_insert_eq in Hy. injection Hy as <-. eauto using star_one, SStep.
  - rewrite lookup_insert_ne in Hy by done. eauto using star_refl.
Qed.

Lemma net_exec_nodes a N N' i y :
  net_exec a N = Some N' -> nodes N' !! i = Some y ->
  exists x, nodes N !! i = Some x /\ star (sched_step (party_cfg i)) x y.
Proof.
  intros Ha Hy. destruct a as [j c r|i' j|i' b|j i' o]; cbv beta iota delta [net_exec] in Ha.
  - apply bind_Some in Ha as (x & Ex & Ha). apply bind_Some in Ha as (x' & Ex' & Ha).
    injection Ha as <-. simpl in Hy. by apply (node_update_star j x x' _ (Call c r)).
  - apply bind_Some in Ha as (x & Ex & Ha). destruct (chan (chans N) j i') as [|o rest]; [done|].
    apply bind_Some in Ha as (x' & Ex' & Ha). injection Ha as <-. simpl in Hy. by apply (node_update_star i' x x' _ (Deliver (j, o))).
  - destruct (local_action b); [|done]. apply bind_Some in Ha as (x & Ex & Ha). apply bind_Some in Ha as (x' & Ex' & Ha).
    injection Ha as <-. simpl in Hy. by apply (node_update_star i' x x' _ b).
  - destruct (_ && _); [|done]. injection Ha as <-. simpl in Hy. eauto using star_refl.
Qed.

Lemma net_init_nodes hs i y : nodes (net_init hs) !! i = Some y -> y = sched_init.
Proof.
  simpl. intros Hy. apply elem_of_list_to_map_2, list_elem_of_fmap in Hy as (j & Hj & _). by injection Hj.
Qed.

Lemma net_star_nodes N N' i y :
  star net_step N N' -> nodes N' !! i = Some y ->
  exists x, nodes N !! i = Some x /\ star (sched_step (party_cfg i)) x y.
Proof.
  intros HN. revert y. induction HN as [N|N1 N2 N3 [a N2' Ha] _ IH]; intros y Hy; [eauto using star_refl|].
  destruct (IH y Hy) as (x2 & Hx2 & Hxy). destruct (net_exec_nodes a N1 N2' i x2 Ha Hx2) as (x1 & Hx1 & Hx12).
  eauto using star_trans.
Qed.

Lemma net_reachable_nodes hs N i y :
  net_reachable hs N -> nodes N !! i = Some y -> sched_reachable (party_cfg i) y.
Proof.
  intros HN Hy. destruct (net_star_nodes _ _ i y HN Hy) as (x & Hx%net_init_nodes & Hxy). by subst.
Qed.

Lemma party_cfg_ok j : pk_k pk0 = (ff + 1)%nat -> pk_l pk0 = nn -> cfg_ok (party_cfg j).
Proof. by split. Qed.

(** the coin of round [r] of the session: the bit of the threshold
    signature on [str((sid, r))] *)
Definition session_coin (r : Z) : Z := digest_bit (tsig pk0 (hash_message pk0 (context_string sid0 r))).

Lemma abstract_coin_party j r : abstract_coin (party_cfg j) r = session_coin r.
Proof. done. Qed.

Lemma honest_returns_coin hs N i x c r b :
  pk_k pk0 = (ff + 1)%nat -> pk_l pk0 = nn -> net_reachable hs N ->
  nodes N !! i = Some x -> sc_callers x !! c = Some (Returned r b) -> b = session_coin r.
Proof.
  intros Hk Hl HN Hx Hc. rewrite <- (abstract_coin_party i).
  by destruct (sched_reachable_returns_ok (party_cfg i) x (party_cfg_ok i Hk Hl) (net_reachable_nodes hs N i x HN Hx) c r b Hc).
Qed.

(** C24: agreement under faults. In every state the system reaches,
    whatever the faulty parties sent, two honest parties whose
    [get_coin(r)] calls returned got the same bit: the bit of the
    threshold signature on [(sid, r)]. *)
Theorem honest_agreement hs N i j x y c c' r b b' :
  pk_k pk0 = (ff + 1)%nat -> pk_l pk0 = nn -> net_reachable hs N ->
  nodes N !! i = Some x -> nodes N !! j = Some y ->
  sc_callers x !! c = Some (Returned r b) -> sc_callers y !! c' = Some (Returned r b') ->
  b = b' /\ b = session_coin r.
Proof.
  intros Hk Hl HN Hx Hy Hc Hc'.
  rewrite (honest_returns_coin hs N i x c r b), (honest_returns_coin hs N j y c' r b'); auto.
Qed.

(** ** What one action does *)

Lemma send_chan j i o ch j' i' :
  chan (send j i o ch) j' i' = if bool_decide (j' = j /\ i' = i) then chan ch j' i' ++ [o] else chan ch j' i'.
Proof.
  unfold send, chan. case_bool_decide as Hji.
  - destruct Hji as [-> ->]. by rewrite lookup_insert_eq.
  - rewrite lookup_insert_ne; [done|]. intros [= -> ->]. tauto.
Qed.

Lemma broadcast_chan j o ch j' i' :
  chan (broadcast j o ch) j' i' =
    if bool_decide (j' = j /\ 0 <= i' < Z.of_nat nn) then chan ch j' i' ++ [o] else chan ch j' i'.
Proof.
  unfold broadcast. cut (forall s k ch, chan (foldl (fun ch i => send j (Z.of_nat i) o ch) ch (seq s k)) j' i' =
    if bool_decide (j' = j /\ Z.of_nat s <= i' < Z.of_nat (s + k)) then chan ch j' i' ++ [o] else chan ch j' i');
    [intros Hc; by rewrite Hc|].
  intros s k. revert s. induction k as [|k IH]; intros s ch0; simpl.
  - rewrite bool_decide_eq_false_2; [done|lia].
  - rewrite IH, send_chan. repeat case_bool_decide; try done; lia.
Qed.

(** the share party [j] broadcasts in [get_coin(r)] (line 96) *)
Definition share_msg (j r : Z) : WireMsg :=
  CoinMsg "COIN" r (serialize (sign (keys j) (round_digest (party_cfg j) r))).

Lemma call_sent j c r (x x' : Sched) :
  sched_exec (party_cfg j) (Call c r) x = Some x' ->
  drop (length (outbox (sc_store x))) (outbox (sc_store x')) = [share_msg j r].
Proof. apply sched_call_sent. Qed.

Lemma net_call_exec N j c r x x' :
  nodes N !! j = Some x -> sched_exec (party_cfg j) (Call c r) x = Some x' ->
  net_exec (NCall j c r) N = Some (mkNet (<[j := x']> (nodes N)) (broadcast j (share_msg j r) (chans N))).
Proof.
  intros Ex Ex'. cbv beta iota delta [net_exec]. rewrite Ex. cbn -[sched_exec broadcast]. rewrite Ex'.
  cbn -[sched_exec broadcast]. by rewrite (call_sent j c r x x' Ex').
Qed.

Lemma net_recv_exec N i j x o rest :
  nodes N !! i = Some x -> chan (chans N) j i = o :: rest ->
  exists x', sched_exec (party_cfg i) (Deliver (j, o)) x = Some x' /\
    net_exec (NRecv i j) N = Some (mkNet (<[i := x']> (nodes N)) (<[(j, i) := rest]> (chans N))).
Proof. intros Ex Ec. eexists. split; [reflexivity|]. cbv beta iota delta [net_exec]. by rewrite Ex, Ec. Qed.

Lemma net_run_app l1 l2 N : net_run (l1 ++ l2) N = net_run l1 N ≫= net_run l2.
Proof.
  revert N. induction l1 as [|a l1 IH]; intros N; simpl; [done|].
  destruct (net_exec a N); simpl; [apply IH|done].
Qed.

Lemma net_run_local N i x x' l :
  nodes N !! i = Some x -> forallb local_action l = true -> run_actions (party_cfg i) l x = Some x' ->
  net_run (map (NLocal i) l) N = Some (mkNet (<[i := x']> (nodes N)) (chans N)).
Proof.
  revert N x. induction l as [|a l IH]; intros N x Ex Hl Hr; simpl in *.
  - injection Hr as <-. rewrite insert_id by done. by destruct N.
  - apply andb_prop in Hl as [Ha Hl]. destruct (sched_exec (party_cfg i) a x) as [y|] eqn:Ey; simpl in Hr; [|done].
    cbv beta iota delta [net_exec]. rewrite Ha, Ex. cbn -[sched_exec net_run]. rewrite Ey. cbn -[net_run].
    rewrite (IH _ y); [|by simpl; rewrite lookup_insert_eq|done|done]. simpl. by rewrite insert_insert_eq.
Qed.

Lemma chan_insert_ne j i l ch j' i' : i' <> i -> chan (<[(j, i) := l]> ch) j' i' = chan ch j' i'.
Proof. intros Hne. unfold chan. rewrite lookup_insert_ne; [done|congruence]. Qed.

Lemma net_run_recvs N i x js (msg : Z -> WireMsg) :
  NoDup js -> nodes N !! i = Some x -> (forall j, j ∈ js -> chan (chans N) j i = [msg j]) ->
  exists x' N', run_actions (party_cfg i) (map (fun j => Deliver (j, msg j)) js) x = Some x' /\
    net_run (map (NRecv i) js) N = Some N' /\ nodes N' = <[i := x']> (nodes N) /\
    forall j i', i' <> i -> chan (chans N') j i' = chan (chans N) j i'.
Proof.
  revert N x. induction js as [|j js IH]; intros N x Hnd Ex Hc; cbn [map run_actions net_run].
  - exists x, N. split_and!; [done|done| |done]. by rewrite insert_id.
  - apply NoDup_cons in Hnd as [Hj Hnd].
    destruct (net_recv_exec N i j x (msg j) [] Ex (Hc j ltac:(set_solver))) as (x1 & Ex1 & En1).
    destruct (IH (mkNet (<[i := x1]> (nodes N)) (<[(j, i) := []]> (chans N))) x1 Hnd) as (x' & N' & Hr & Hn & HN' & Hch).
    { simpl. by rewrite lookup_insert_eq. }
    { intros j' Hj'. simpl. unfold chan. rewrite lookup_insert_ne by set_solver. apply Hc. set_solver. }
    exists x', N'. rewrite Ex1, En1. cbn [mbind option_bind]. split_and!; [done|done| |].
    + rewrite HN'. simpl. by rewrite insert_insert_eq.
    + intros j' i' Hi'. rewrite Hch by done. simpl. by apply chan_insert_ne.
Qed.

Lemma net_run_star l N N' : net_run l N = Some N' -> star net_step N N'.
Proof.
  revert N. induction l as [|a l IH]; intros N Hr; simpl in Hr; [injection Hr as <-; apply star_refl|].
  destruct (net_exec a N) as [N1|] eqn:E; simpl in Hr; [|done].
  eapply star_step; [econstructor; exact E|by apply IH].
Qed.

(** ** When enough parties are honest *)

(** party [j]'s tasks once its task [0] has called [get_coin(r)] *)
Definition called (j r : Z) : Sched :=
  sched_get 0 r (set_store (get_coin_call (party_cfg j) r init_state).2 sched_init).

(** the task [0] of every honest party calls [get_coin(r)] *)
Definition call_all (hs : list Z) (r : Z) : list NetAction := (fun j => NCall j 0 r) <$> hs.

(** party [i] receives the next message from every honest party, runs
    [_recv] on each, and resumes its caller *)
Definition party_round (hs : list Z) (i : Z) : list NetAction :=
  (NRecv i <$> hs) ++ (NLocal i <$> repeat RecvStep (length hs) ++ [Resume 0]).

Definition honest_round (hs : list Z) (r : Z) : list NetAction :=
  call_all hs r ++ concat (party_round hs <$> hs).

Lemma remove_dups_nodup `{EqDecision A} (l : list A) : NoDup l -> remove_dups l = l.
Proof.
  induction l as [|x l IH]; intros Hnd; [done|]. apply NoDup_cons in Hnd as [Hx Hnd]. simpl.
  case_decide; [done|]. by rewrite IH.
Qed.

Lemma call_init j r : sched_exec (party_cfg j) (Call 0 r) sched_init = Some (called j r).
Proof. done. Qed.

Lemma run_actions_cons cfg a l (s : Sched) : run_actions cfg (a :: l) s = sched_exec cfg a s ≫= run_actions cfg l.
Proof. done. Qed.

Lemma forallb_local_round k : forallb local_action (repeat RecvStep k ++ [Resume 0]) = true.
Proof. rewrite forallb_app, andb_true_r. induction k; simpl; auto. Qed.

Lemma net_run_calls js r N :
  NoDup js -> (forall j, j ∈ js -> nodes N !! j = Some sched_init) ->
  exists N', net_run ((fun j => NCall j 0 r) <$> js) N = Some N' /\
    (forall j, nodes N' !! j = if bool_decide (j ∈ js) then Some (called j r) else nodes N !! j) /\
    (forall j i, chan (chans N') j i =
       chan (chans N) j i ++ if bool_decide (j ∈ js /\ 0 <= i < Z.of_nat nn) then [share_msg j r] else []).
Proof.
  revert N. induction js as [|j js IH]; intros N Hnd Hi; cbn [fmap list_fmap net_run].
  - exists N. split_and!; [done|done|]. intros. by rewrite app_nil_r.
  - apply NoDup_cons in Hnd as [Hj Hnd].
    rewrite (net_call_exec N j 0 r sched_init (called j r) (Hi j ltac:(set_solver)) (call_init j r)).
    cbn [mbind option_bind].
    destruct (IH (mkNet (<[j := called j r]> (nodes N)) (broadcast j (share_msg j r) (chans N))) Hnd) as (N' & Hr & Hn & Hc).
    { intros j' Hj'. simpl. rewrite lookup_insert_ne by set_solver. apply Hi. set_solver. }
    exists N'. split_and!; [done| |].
    + intros k. rewrite Hn. simpl. destruct (decide (k = j)) as [->|Hne].
      * rewrite lookup_insert_eq, (bool_decide_eq_true_2 (j ∈ j :: js)) by set_solver. by case_bool_decide.
      * rewrite lookup_insert_ne by done. repeat case_bool_decide; set_solver.
    + intros k i. rewrite Hc. cbn [chans]. rewrite broadcast_chan.
      clear Hr Hn Hc Hi. repeat case_bool_decide; destruct_and?; subst; rewrite ?app_nil_r; try done; exfalso;
      repeat match goal with H : ?P |- _ => match type of P with Prop => revert H end end; set_unfold; naive_solver lia.
Qed.

Section Honest.
Hypothesis (Hk : pk_k pk0 = (ff + 1)%nat) (Hl : pk_l pk0 = nn).
Hypothesis (Hkeys : forall j, 0 <= j < Z.of_nat nn -> key_of pk0 j (keys j)).

(** the shares the parties [js] broadcast for round [r], as [receive()]
    returns them *)
Definition honest_msgs (r : Z) (js : list Z) : list Incoming := (fun j => (j, share_msg j r)) <$> js.

Lemma share_msg_decodes j r : 0 <= j < Z.of_nat nn ->
  deserialize1 (serialize (sign (keys j) (round_digest (party_cfg j) r))) = Some (sign (keys j) (round_digest (party_cfg j) r)).
Proof. intros Hj. apply (sign_decodes pk0 j), Hkeys, Hj. Qed.

Lemma honest_valid_senders i r js : (forall j, j ∈ js -> 0 <= j < Z.of_nat nn) ->
  valid_senders (party_cfg i) r (honest_msgs r js) = js.
Proof.
  induction js as [|j js IH]; intros Hjs; [done|]. unfold valid_senders in *. simpl.
  assert (Hj : 0 <= j < Z.of_nat nn) by (apply Hjs; set_solver).
  change (round_digest (party_cfg ?k) r) with (hash_message pk0 (context_string sid0 r)).
  rewrite (sign_decodes pk0 j (keys j) _ (Hkeys j Hj)), !bool_decide_eq_true_2 by done.
  rewrite (sign_verifies pk0 j (keys j) _ (Hkeys j Hj)). simpl. f_equal. apply IH. set_solver.
Qed.

Lemma honest_wellformed i r js : 0 <= r -> (forall j, j ∈ js -> 0 <= j < Z.of_nat nn) ->
  forallb (wellformed (party_cfg i)) (honest_msgs r js) = true.
Proof.
  intros Hr Hjs. apply forallb_forall. intros m (j & -> & Hj)%list_elem_of_In%list_elem_of_fmap.
  specialize (Hjs j Hj). simpl. rewrite share_msg_decodes by done. by rewrite !bool_decide_eq_true_2.
Qed.

Section Round.
Context (hs : list Z) (r : Z).
Hypothesis (Hnd : NoDup hs) (Hhs : forall j, j ∈ hs -> 0 <= j < Z.of_nat nn).
Hypothesis (Hf : (ff + 1 <= length hs)%nat) (Hr : 0 <= r).

(** one party's round: the shares of every honest party arrive, [_recv]
    processes them, and the caller returns the coin *)
Lemma party_round_run N i : 0 <= i < Z.of_nat nn ->
  nodes N !! i = Some (called i r) -> (forall j, j ∈ hs -> chan (chans N) j i = [share_msg j r]) ->
  exists N' x', net_run (party_round hs i) N = Some N' /\ nodes N' = <[i := x']> (nodes N) /\
    sc_callers x' !! 0%nat = Some (Returned r (session_coin r)) /\
    forall j i', i' <> i -> chan (chans N') j i' = chan (chans N) j i'.
Proof.
  intros Hi Ex Hc.
  destruct (net_run_recvs N i (called i r) hs (fun j => share_msg j r) Hnd Ex Hc) as (x1 & N1 & Hx1 & HN1 & Hn1 & Hc1).
  destruct (liveness_run (party_cfg i) sched_init (honest_msgs r hs) r 0 (party_cfg_ok i Hk Hl)
              (star_refl _ _) eq_refl eq_refl (lookup_empty _) eq_refl eq_refl (honest_wellformed i r _ Hr Hhs))
    as (s' & Hs' & Hc' & _).
  { by rewrite honest_valid_senders, remove_dups_nodup. }
  rewrite run_actions_cons, call_init in Hs'. cbn [mbind option_bind] in Hs'.
  unfold honest_msgs in Hs'. rewrite run_actions_app, <- list_fmap_compose in Hs'. unfold compose in Hs'.
  change ((fun j => Deliver (j, share_msg j r)) <$> hs) with (map (fun j => Deliver (j, share_msg j r)) hs) in Hs'.
  rewrite Hx1 in Hs'. cbn [mbind option_bind] in Hs'. rewrite length_fmap in Hs'.
  pose proof (net_run_local N1 i x1 s' _ ltac:(rewrite Hn1; apply lookup_insert_eq) (forallb_local_round _) Hs') as HN2.
  exists (mkNet (<[i := s']> (nodes N1)) (chans N1)), s'. unfold party_round. rewrite net_run_app.
  change (NRecv i <$> hs) with (map (NRecv i) hs). rewrite HN1. cbn [mbind option_bind].
  change (NLocal i <$> repeat RecvStep (length hs) ++ [Resume 0])
    with (map (NLocal i) (repeat RecvStep (length hs) ++ [Resume 0])).
  rewrite HN2. split_and!; [done| |exact Hc'|exact Hc1]. simpl. by rewrite Hn1, insert_insert_eq.
Qed.

Lemma net_run_rounds N ps : NoDup ps ->
  (forall i, i ∈ ps -> 0 <= i < Z.of_nat nn /\ nodes N !! i = Some (called i r) /\
     forall j, j ∈ hs -> chan (chans N) j i = [share_msg j r]) ->
  exists N', net_run (concat (party_round hs <$> ps)) N = Some N' /\
    (forall i, i ∉ ps -> nodes N' !! i = nodes N !! i) /\
    (forall i, i ∈ ps -> exists x, nodes N' !! i = Some x /\ sc_callers x !! 0%nat = Some (Returned r (session_coin r))).
Proof.
  revert N. induction ps as [|i ps IH]; intros N Hnp His.
  - exists N. split_and!; [done|done|set_solver].
  - apply NoDup_cons in Hnp as [Hi Hnp]. destruct (His i ltac:(set_solver)) as (Hir & Ex & Hc).
    destruct (party_round_run N i Hir Ex Hc) as (N1 & x1 & HN1 & Hn1 & Hx1 & Hc1).
    destruct (IH N1 Hnp) as (N' & HN' & Hout & Hin).
    { intros i' Hi'. destruct (His i' ltac:(set_solver)) as (? & Ex' & Hc'). split; [done|split].
      - rewrite Hn1, lookup_insert_ne by set_solver. done.
      - intros j Hj. rewrite Hc1 by set_solver. by apply Hc'. }
    exists N'. simpl. rewrite net_run_app, HN1. cbn [mbind option_bind]. split_and!; [done| |].
    + intros k Hkp. rewrite Hout by set_solver. rewrite Hn1, lookup_insert_ne by set_solver. done.
    + intros k [->|Hkp]%elem_of_cons; [|by apply Hin].
      exists x1. split; [|done]. rewrite Hout by done. by rewrite Hn1, lookup_insert_eq.
Qed.

End Round.

(** C25: liveness with [f+1] honest parties. Let the honest parties [hs]
    be distinct parties of [range(n)], at least [f+1] of them, each with
    the key the dealer gave it, and let [r >= 0]; the faulty parties send
    nothing. Every honest party's task calls [get_coin(r)] and broadcasts
    its share. Then every honest party receives the honest shares in its
    channels' order, runs [_recv] on them and resumes its caller. This
    whole run succeeds, and every honest party's call returns the
    session's coin of round [r]. *)
Theorem honest_coin_liveness hs r :
  NoDup hs -> (forall j, j ∈ hs -> 0 <= j < Z.of_nat nn) -> (ff + 1 <= length hs)%nat -> 0 <= r ->
  exists N', net_run (honest_round hs r) (net_init hs) = Some N' /\
    forall i, i ∈ hs -> exists x, nodes N' !! i = Some x /\ sc_callers x !! 0%nat = Some (Returned r (session_coin r)).
Proof.
  intros Hnd Hhs Hf Hr.
  destruct (net_run_calls hs r (net_init hs) Hnd) as (N1 & HN1 & Hn1 & Hc1).
  { intros j Hj. simpl. apply elem_of_list_to_map_1; [|by apply list_elem_of_fmap; eauto].
    rewrite <- list_fmap_compose. unfold compose. simpl. by rewrite list_fmap_id. }
  destruct (net_run_rounds hs r Hnd Hhs Hf Hr N1 hs Hnd) as (N' & HN' & _ & Hin).
  { intros i Hi. split; [by apply Hhs|split].
    - rewrite Hn1. by rewrite bool_decide_eq_true_2.
    - intros j Hj. rewrite Hc1, bool_decide_eq_true_2 by (split; [done|by apply Hhs]).
      cbn [chans net_init]. unfold chan. by rewrite lookup_empty. }
  exists N'. unfold honest_round, call_all. rewrite net_run_app, HN1. cbn [mbind option_bind]. by split.
Qed.

End Honest.

(** ** A share for a negative round stops an honest party's coin *)

(** a decodable share for a negative round at the head of the channel
    from [j] crashes [i]'s receive task when it is received and
    processed, and no caller of an unput round at [i] returns after *)
Lemma bad_round_share_halts hs N i j x t r' b e r :
  pk_k pk0 = (ff + 1)%nat -> pk_l pk0 = nn -> net_reachable hs N ->
  nodes N !! i = Some x -> sc_recv x = Running -> sc_inbox x = [] -> count_puts r (log (sc_store x)) = 0%nat ->
  0 <= j < Z.of_nat nn -> chan (chans N) j i = [CoinMsg t r' b] -> deserialize1 b = Some e -> r' < 0 ->
  exists N', net_run [NRecv i j; NLocal i RecvStep] N = Some N' /\
    forall N'' y c b', star net_step N' N'' -> nodes N'' !! i = Some y -> sc_callers y !! c <> Some (Returned r b').
Proof.
  intros Hk Hl HN Ex Hrun Hin H0 Hj Hc Hd Hr'. set (o := CoinMsg t r' b) in Hc.
  destruct (net_recv_exec N i j x o [] Ex Hc) as (x1 & Ex1 & E2).
  set (N2 := mkNet (<[i := x1]> (nodes N)) (<[(j, i) := []]> (chans N))) in E2.
  set (y1 := mkSched (sc_store x) (Crashed AssertionError) [] (sc_getters x) (sc_callers x)).
  assert (Hy1 : sched_exec (party_cfg i) RecvStep x1 = Some y1).
  { simpl in Ex1. injection Ex1 as <-. simpl. unfold sched_recv. cbn [sc_recv sc_inbox sc_store]. rewrite Hrun, Hin. simpl app.
    unfold o. rewrite (recv_iter_bad_round (party_cfg i) j t r' b e (sc_store x) Hd Hj Hr'). simpl.
    unfold queue_grew. rewrite Nat.ltb_irrefl. done. }
  set (N3 := mkNet (<[i := y1]> (nodes N2)) (chans N2)).
  assert (E3 : net_exec (NLocal i RecvStep) N2 = Some N3).
  { cbv beta iota delta [net_exec]. simpl local_action. cbn iota. unfold N2. cbn [nodes]. rewrite lookup_insert_eq.
    cbn [mbind option_bind]. rewrite Hy1. done. }
  exists N3. split.
  { cbn [net_run]. rewrite E2. cbn [mbind option_bind]. by rewrite E3. }
  assert (HN3 : net_reachable hs N3).
  { eapply star_trans; [exact HN|]. eapply star_step; [econstructor; exact E2|]. apply star_one. econstructor. exact E3. }
  assert (Ey1 : nodes N3 !! i = Some y1) by (simpl; by rewrite lookup_insert_eq).
  pose proof (stopped_of_reachable (party_cfg i) y1 r (party_cfg_ok i Hk Hl) (net_reachable_nodes hs N3 i y1 HN3 Ey1)
                ltac:(done) H0) as Hstop.
  intros N'' y c b' HN'' Hy. destruct (net_star_nodes N3 N'' i y HN'' Hy) as (y0 & Ey0 & Hyy).
  rewrite Ey1 in Ey0. injection Ey0 as <-. apply (stopped_star _ r _ y1 y Hstop Hyy).
Qed.

(** C26: one faulty party halts an honest party's coin. A faulty party
    [j] sends honest party [i] a share whose bytes decode but whose round
    is negative. When [i] receives and processes it, the assertion
    [r >= 0] (line 46) raises outside any [try]. This ends [i]'s receive
    task, and then no caller of [get_coin(r)] at [i] ever returns, for any
    round [r] not yet put, whatever happens next in the network. The spec
    (4.1, 7) says such a message is logged and ignored. *)
Theorem faulty_share_halts_party hs N i j x t r' b e r :
  pk_k pk0 = (ff + 1)%nat -> pk_l pk0 = nn -> net_reachable hs N ->
  nodes N !! i = Some x -> sc_recv x = Running -> sc_inbox x = [] -> count_puts r (log (sc_store x)) = 0%nat ->
  0 <= j < Z.of_nat nn -> nodes N !! j = None -> chan (chans N) j i = [] ->
  deserialize1 b = Some e -> r' < 0 ->
  exists N', net_run [NFaulty j i (CoinMsg t r' b); NRecv i j; NLocal i RecvStep] N = Some N' /\
    forall N'' y c b', star net_step N' N'' -> nodes N'' !! i = Some y -> sc_callers y !! c <> Some (Returned r b').
Proof.
  intros Hk Hl HN Ex Hrun Hin H0 Hj Hjf Hc Hd Hr'.
  set (N1 := mkNet (nodes N) (send j i (CoinMsg t r' b) (chans N))).
  assert (E1 : net_exec (NFaulty j i (CoinMsg t r' b)) N = Some N1).
  { cbv beta iota delta [net_exec]. rewrite bool_decide_eq_true_2 by done. by rewrite Hjf. }
  assert (Hc1 : chan (chans N1) j i = [CoinMsg t r' b])
    by (simpl; rewrite send_chan, bool_decide_eq_true_2 by done; by rewrite Hc).
  assert (HN1 : net_reachable hs N1) by (eapply star_snoc; [exact HN|econstructor; exact E1]).
  destruct (bad_round_share_halts hs N1 i j x t r' b e r Hk Hl HN1 Ex Hrun Hin H0 Hj Hc1 Hd Hr') as (N' & HN' & Hh).
  exists N'. split; [|exact Hh]. cbn [net_run]. rewrite E1. exact HN'.
Qed.

(** C35: an honest caller halts the other honest parties. [get_coin]
    (lines 84-97) accepts any round: an honest party [j] that calls
    [get_coin(r')] with [r' < 0] broadcasts a share that decodes, and
    every honest party [i] that receives and processes it fails the
    assertion [r >= 0] (line 46). Its receive task ends, and no caller
    of [get_coin(r)] at [i] returns after, for any round [r] not yet
    put. *)
Theorem honest_negative_round_halts hs N i j x y c r' r :
  pk_k pk0 = (ff + 1)%nat -> pk_l pk0 = nn -> (forall k, 0 <= k < Z.of_nat nn -> key_of pk0 k (keys k)) ->
  net_reachable hs N -> 0 <= j < Z.of_nat nn -> i <> j ->
  nodes N !! j = Some y -> sc_callers y !! c = None -> chan (chans N) j i = [] ->
  nodes N !! i = Some x -> sc_recv x = Running -> sc_inbox x = [] -> count_puts r (log (sc_store x)) = 0%nat ->
  0 <= i < Z.of_nat nn -> r' < 0 ->
  exists N', net_run [NCall j c r'; NRecv i j; NLocal i RecvStep] N = Some N' /\
    forall N'' z c' b', star net_step N' N'' -> nodes N'' !! i = Some z -> sc_callers z !! c' <> Some (Returned r b').
Proof.
  intros Hk Hl Hkeys HN Hj Hij Ey Hc Hch Ex Hrun Hin H0 Hi Hr'.
  set (y1 := sched_get c r' (set_store (get_coin_call (party_cfg j) r' (sc_store y)).2 y)).
  assert (E : sched_exec (party_cfg j) (Call c r') y = Some y1).
  { simpl. unfold sched_call. rewrite bool_decide_eq_false_2; [done|]. rewrite Hc. apply is_Some_None. }
  set (N1 := mkNet (<[j := y1]> (nodes N)) (broadcast j (share_msg j r') (chans N))).
  pose proof (net_call_exec N j c r' y y1 Ey E) as E1. fold N1 in E1.
  assert (HN1 : net_reachable hs N1) by (eapply star_snoc; [exact HN|econstructor; exact E1]).
  assert (Ex1 : nodes N1 !! i = Some x) by (simpl; by rewrite lookup_insert_ne).
  assert (Hc1 : chan (chans N1) j i = [share_msg j r'])
    by (simpl; rewrite broadcast_chan, bool_decide_eq_true_2 by done; by rewrite Hch).
  destruct (bad_round_share_halts hs N1 i j x _ r' _ _ r Hk Hl HN1 Ex1 Hrun Hin H0 Hj Hc1
              (share_msg_decodes Hkeys j r' Hj) Hr') as (N' & HN' & Hh).
  exists N'. split; [|exact Hh]. cbn [net_run]. rewrite E1. exact HN'.
Qed.

(** ** Every call of [get_coin] broadcasts *)

(** C27: [get_coin] re-broadcasts. Two calls of [get_coin(r)] by two
    tasks of an honest party [j] put two copies of [j]'s share on every
    channel from [j], whether or not the first call has returned: line 96
    runs on every call. The spec (4.3) says a process never re-broadcasts
    a share it already broadcast for a round. *)
Theorem get_coin_rebroadcasts N j x c c' r :
  nodes N !! j = Some x -> sc_callers x !! c = None -> sc_callers x !! c' = None -> c <> c' ->
  exists N', net_run [NCall j c r; NCall j c' r] N = Some N' /\
    forall i, 0 <= i < Z.of_nat nn -> chan (chans N') j i = chan (chans N) j i ++ [share_msg j r; share_msg j r].
Proof.
  intros Ex Hc Hc' Hne.
  set (x1 := sched_get c r (set_store (get_coin_call (party_cfg j) r (sc_store x)).2 x)).
  assert (E1 : sched_exec (party_cfg j) (Call c r) x = Some x1).
  { simpl. unfold sched_call. rewrite bool_decide_eq_false_2; [done|]. rewrite Hc. apply is_Some_None. }
  assert (Hc1 : sc_callers x1 !! c' = None).
  { unfold x1, sched_get. destruct (queue_get_now r _) as [[[]|] ?]; simpl; rewrite lookup_insert_ne by congruence; done. }
  set (x2 := sched_get c' r (set_store (get_coin_call (party_cfg j) r (sc_store x1)).2 x1)).
  assert (E2 : sched_exec (party_cfg j) (Call c' r) x1 = Some x2).
  { simpl. unfold sched_call. rewrite bool_decide_eq_false_2; [done|]. rewrite Hc1. apply is_Some_None. }
  set (N1 := mkNet (<[j := x1]> (nodes N)) (broadcast j (share_msg j r) (chans N))).
  assert (Ex1 : nodes N1 !! j = Some x1) by (simpl; apply lookup_insert_eq).
  eexists. split.
  - cbn [net_run]. rewrite (net_call_exec N j c r x x1 Ex E1). cbn [mbind option_bind].
    fold N1. rewrite (net_call_exec N1 j c' r x1 x2 Ex1 E2). reflexivity.
  - intros i Hi. cbn [chans]. rewrite broadcast_chan, bool_decide_eq_true_2 by done. unfold N1. cbn [chans].
    rewrite broadcast_chan, bool_decide_eq_true_2 by done. by rewrite <- app_assoc.
Qed.

End Network.
