(* ===== verification/Examples.v ===== *)
(** * Concrete runs of the coin, and the witnesses of the theorems

    Two parties, [cfgA] ([pid] 0) and [cfgB] ([pid] 1), of session
    ["sidA"] with [n = 4], [f = 1] and the toy threshold key of
    [ThresholdSig.ToyTBLS] ([k = 2], [l = 4]). Party A receives:
    - a share from 1;
    - the same share again;
    - a forged share from 2;
    - a genuine share from 2.
    Party B receives the shares of 3 and 0. A network of four parties
    with one faulty party is [netB]. Every theorem with a
    hypothesis is applied here at these inputs, its hypotheses discharged
    by evaluation. *)

From S2P Require Import Prelude ThresholdSig Shamir Sha256Fips PyRepr MainConfig CoinEngine CoinSpec Threshold Scheduler SchedTermination Liveness Runner Network.
From Stdlib Require Import Lia Znumtheory Ascii.
Import ToyTBLS.

Definition toy_pk : ToyPK := {| toy_k := 2; toy_l := 4 |}.
Definition cfgA : Config := mkConfig "sidA" 0 4 1 toy_pk 0.
Definition cfgB : Config := mkConfig "sidA" 1 4 1 toy_pk 1.

(** the bytes of party [i]'s share for round [r] *)
Definition share_of (i r : Z) : list byte := toy_serialize (16 * round_digest cfgA r + Z.to_N i)%N.
Definition forged : list byte := toy_serialize 17%N.

Definition msgsA : list Incoming :=
  [(1, CoinMsg "COIN" 0 (share_of 1 0)); (1, CoinMsg "COIN" 0 (share_of 1 0));
   (2, CoinMsg "COIN" 0 forged); (2, CoinMsg "COIN" 0 (share_of 2 0))].
Definition msgsB : list Incoming :=
  [(3, CoinMsg "COIN" 0 (share_of 3 0)); (0, CoinMsg "COIN" 0 (share_of 0 0))].

Definition runA : CoinState := (recv_loop cfgA msgsA init_state).2.
Definition runB : CoinState := (recv_loop cfgB msgsB init_state).2.

Lemma cfgA_ok : cfg_ok cfgA.
Proof. split; reflexivity. Qed.
Lemma cfgB_ok : cfg_ok cfgB.
Proof. split; reflexivity. Qed.
Lemma runA_reachable : reachable cfgA runA.
Proof. apply reachable_loop. constructor. Qed.
Lemma runB_reachable : reachable cfgB runB.
Proof. apply reachable_loop. constructor. Qed.

Example runA_log : log runA = [Redundant 1 0; ShareFailed 2 0; PutBit 0 0].
Proof. vm_compute. reflexivity. Qed.

Lemma agreement_witness :
  queue_get_now 0 runA = (Ok (Some 0), (queue_get_now 0 runA).2) /\
  queue_get_now 0 runB = (Ok (Some 0), (queue_get_now 0 runB).2) /\ 0 = 0.
Proof.
  assert (HA : queue_get_now 0 runA = (Ok (Some 0), (queue_get_now 0 runA).2)) by (vm_compute; reflexivity).
  assert (HB : queue_get_now 0 runB = (Ok (Some 0), (queue_get_now 0 runB).2)) by (vm_compute; reflexivity).
  split_and!; [exact HA|exact HB|].
  exact (agreement cfgA cfgB runA runB _ _ 0 0 0 cfgA_ok cfgB_ok eq_refl eq_refl
           runA_reachable runB_reachable HA HB).
Defined.

Lemma get_coin_returns_abstract_witness :
  queue_get_now 0 runA = (Ok (Some 0), (queue_get_now 0 runA).2) /\ 0 = abstract_coin cfgA 0.
Proof.
  assert (HA : queue_get_now 0 runA = (Ok (Some 0), (queue_get_now 0 runA).2)) by (vm_compute; reflexivity).
  split; [exact HA|exact (get_coin_returns_abstract cfgA runA _ 0 0 cfgA_ok runA_reachable HA)].
Defined.


(** the first three messages of A: one genuine share, its duplicate, a forgery *)
Definition msgsN : list Incoming := take 3 msgsA.

Lemma threshold_necessity_witness :
  (length (remove_dups (valid_senders cfgA 0 msgsN)) <= f cfgA)%nat /\
  q_items (queue_at (recv_loop cfgA msgsN init_state).2 0) = [].
Proof.
  assert (H : (length (remove_dups (valid_senders cfgA 0 msgsN)) <= f cfgA)%nat) by (vm_compute; lia).
  split; [exact H|exact (proj2 (threshold_necessity cfgA msgsN 0 H))].
Defined.


Lemma recv_iter_no_queue_full_witness :
  coin_inv cfgA runA /\ (recv_iter cfgA (0, CoinMsg "COIN" 0 (share_of 0 0)) runA).1 <> Raise QueueFull.
Proof.
  pose proof (reachable_coin_inv_lemma cfgA runA runA_reachable) as Hinv.
  split; [exact Hinv|exact (recv_iter_no_queue_full cfgA _ runA Hinv)].
Defined.

Lemma published_exactly_once_witness :
  (recv_loop cfgA msgsA init_state).1 = Ok tt /\ count_puts 0 (log runA) = 1%nat.
Proof.
  assert (Hok : (recv_loop cfgA msgsA init_state).1 = Ok tt) by (vm_compute; reflexivity).
  split; [exact Hok|]. unfold runA. rewrite (published_exactly_once cfgA msgsA 0 Hok). vm_compute. reflexivity.
Defined.

Lemma recv_loop_bad_sender_stops_witness :
  deserialize1 (share_of 1 0) = Some (16 * round_digest cfgA 0 + 1)%N /\
  recv_loop cfgA ((7, CoinMsg "COIN" 0 (share_of 1 0)) :: msgsA) init_state = (Raise AssertionError, init_state).
Proof.
  assert (Hd : deserialize1 (share_of 1 0) = Some (16 * round_digest cfgA 0 + 1)%N) by (vm_compute; reflexivity).
  split; [exact Hd|]. apply (recv_loop_bad_sender_stops cfgA 7 "COIN" 0 _ _ msgsA init_state Hd). simpl. lia.
Defined.

Lemma second_get_coin_blocks_witness :
  queue_get_now 0 runA = (Ok (Some 0), (queue_get_now 0 runA).2) /\
  queue_get_now 0 (queue_get_now 0 runA).2 = (Ok None, touch_queue 0 (queue_get_now 0 runA).2).
Proof.
  assert (HA : queue_get_now 0 runA = (Ok (Some 0), (queue_get_now 0 runA).2)) by (vm_compute; reflexivity).
  split; [exact HA|].
  exact (second_get_coin_blocks cfgA runA _ _ 0 0 (reachable_coin_inv_lemma cfgA runA runA_reachable) HA
           (star_refl _ _)).
Defined.

Lemma duplicate_share_ignored_witness :
  dict_mem 1 (received_at runA 0) = true /\
  received_at (recv_iter cfgA (1, CoinMsg "COIN" 0 (share_of 1 0)) runA).2 0 = received_at runA 0.
Proof.
  assert (Hm : dict_mem 1 (received_at runA 0) = true) by (vm_compute; reflexivity).
  split; [exact Hm|].
  refine (proj1 (proj2 (duplicate_share_ignored cfgA 1 "COIN" 0 _ (16 * round_digest cfgA 0 + 1)%N runA
                          _ _ _ Hm) 0)); [vm_compute; reflexivity|simpl; lia|lia].
Defined.

Lemma forged_share_ignored_witness :
  verify_share (pk cfgA) 17%N 3 (round_digest cfgA 0) = false /\
  received_at (recv_iter cfgA (3, CoinMsg "COIN" 0 forged) runA).2 0 = received_at runA 0.
Proof.
  assert (Hv : verify_share (pk cfgA) 17%N 3 (round_digest cfgA 0) = false) by (vm_compute; reflexivity).
  split; [exact Hv|].
  refine (proj1 (proj2 (forged_share_ignored cfgA 3 "COIN" 0 forged 17%N runA _ _ _ Hv) 0));
    [vm_compute; reflexivity|simpl; lia|lia].
Defined.

Lemma recv_iter_other_rounds_witness :
  (0 : Z) <> 1 /\ queue_at (recv_iter cfgA (2, CoinMsg "COIN" 0 (share_of 2 0)) runA).2 1 = queue_at runA 1.
Proof.
  assert (Hne : (0 : Z) <> 1) by lia.
  split; [exact Hne|exact (proj2 (recv_iter_other_rounds cfgA 2 "COIN" 0 _ runA 1 Hne))].
Defined.


Lemma get_coin_returns_bit_witness :
  queue_get_now 0 runB = (Ok (Some 0), (queue_get_now 0 runB).2) /\ ((0 : Z) = 0 \/ (0 : Z) = 1).
Proof.
  assert (HB : queue_get_now 0 runB = (Ok (Some 0), (queue_get_now 0 runB).2)) by (vm_compute; reflexivity).
  split; [exact HB|exact (get_coin_returns_bit cfgB runB _ 0 0 cfgB_ok runB_reachable HB)].
Defined.

Example context_string_quotes : parse_context (context_string "it's" (-12)) = Some ("it's"%string, -12).
Proof. vm_compute. reflexivity. Qed.

Example runA_abstract : abs_of_log (log runA) = {[0 := abstract_coin cfgA 0]}.
Proof. vm_compute. reflexivity. Qed.

Lemma reachable_simulates_coin_machine_witness :
  cfg_ok cfgA /\ reachable cfgA runA /\ star (abs_step cfgA) ∅ (abs_of_log (log runA)).
Proof.
  split_and!; [exact cfgA_ok|exact runA_reachable|].
  exact (reachable_simulates_coin_machine cfgA runA cfgA_ok runA_reachable).
Defined.

(** a share whose round is the string ['0'] instead of an [int]: the
    bytes decode and the sender is in range, and [r >= 0] raises
    [TypeError] *)
Lemma recv_iter_raises_witness :
  (recv_iter cfgA (1, BadRound "COIN" (share_of 1 0)) init_state).1 = Raise TypeError /\
  (TypeError = TypeError \/ TypeError = ValueError \/ TypeError = DeserializeError \/ TypeError = AssertionError \/
   TypeError = QueueFull).
Proof.
  assert (H : (recv_iter cfgA (1, BadRound "COIN" (share_of 1 0)) init_state).1 = Raise TypeError) by reflexivity.
  split; [exact H|exact (recv_iter_raises cfgA _ _ _ H)].
Defined.

(** ** Schedules of party A's tasks *)

(** caller 0 calls [get_coin(0)] first; A's messages are delivered and
    processed; caller 0 resumes; then caller 1 calls [get_coin(0)] *)
Definition scheduleA : list Action :=
  Call 0 0 :: map Deliver msgsA ++ repeat RecvStep (length msgsA) ++ [Resume 0%nat; Call 1 0].

Definition schedA : Sched := default sched_init (run_actions cfgA scheduleA sched_init).

Lemma schedA_run : run_actions cfgA scheduleA sched_init = Some schedA.
Proof. vm_compute. reflexivity. Qed.

Lemma schedA_reachable : sched_reachable cfgA schedA.
Proof. exact (run_actions_star cfgA _ _ _ schedA_run). Qed.

(** caller 0 waits for round 0 while two shares are delivered but not
    yet received *)
Definition pendA_prefix : list Action :=
  [Call 0 0; Deliver (1, CoinMsg "COIN" 0 (share_of 1 0)); Deliver (2, CoinMsg "COIN" 0 (share_of 2 0))].
Definition pendA : Sched := default sched_init (run_actions cfgA pendA_prefix sched_init).

Lemma pendA_reachable : sched_reachable cfgA pendA.
Proof. apply (run_actions_star cfgA pendA_prefix). vm_compute. reflexivity. Qed.

(** the two receive iterations and the resumption of caller 0 *)
Definition pendA_internal : list Action := [RecvStep; RecvStep; Resume 0%nat].

Example pendA_measure : sched_measure pendA = 6%nat /\ option_map (fun s => sc_callers s !! 0%nat) (run_actions cfgA pendA_internal pendA) = Some (Some (Returned 0 0)).
Proof. split; vm_compute; reflexivity. Qed.

Lemma internal_steps_terminate_witness : sched_reachable cfgA pendA /\ Acc (fun y x => internal_step cfgA x y) pendA.
Proof. split; [exact pendA_reachable|exact (internal_steps_terminate cfgA pendA pendA_reachable)]. Defined.

Lemma internal_run_bound_witness :
  forallb internal pendA_internal = true /\ (length pendA_internal <= sched_measure pendA)%nat.
Proof.
  split; [reflexivity|].
  apply (internal_run_bound cfgA pendA_internal pendA (default pendA (run_actions cfgA pendA_internal pendA)));
    [exact pendA_reachable|reflexivity|vm_compute; reflexivity].
Defined.

Example schedA_callers : sc_callers schedA = <[1%nat := Waiting 0]> {[0%nat := Returned 0 0]}.
Proof. vm_compute. reflexivity. Qed.

Lemma get_coin_returns_at_most_once_witness :
  sc_callers schedA !! 0%nat = Some (Returned 0 0) /\ (0 = 0)%nat.
Proof.
  assert (H0 : sc_callers schedA !! 0%nat = Some (Returned 0 0)) by (vm_compute; reflexivity).
  split; [exact H0|exact (get_coin_returns_at_most_once cfgA schedA 0 0 0 0 0 cfgA_ok schedA_reachable H0 H0)].
Defined.

Lemma sched_returns_abstract_witness :
  sc_callers schedA !! 0%nat = Some (Returned 0 0) /\ 0 = abstract_coin cfgA 0.
Proof.
  assert (H0 : sc_callers schedA !! 0%nat = Some (Returned 0 0)) by (vm_compute; reflexivity).
  split; [exact H0|exact (sched_returns_abstract cfgA schedA 0 0 0 cfgA_ok schedA_reachable H0)].
Defined.

(** a share from sender 7, outside [range(4)], crashes [recv_task] while
    caller 0 waits for round 0 *)
Definition crashA : Sched :=
  default sched_init (run_actions cfgA [Call 0 0; Deliver (7, CoinMsg "COIN" 0 (share_of 1 0)); RecvStep] sched_init).

Lemma crashA_reachable : sched_reachable cfgA crashA.
Proof. apply (run_actions_star cfgA [Call 0 0; Deliver (7, CoinMsg "COIN" 0 (share_of 1 0)); RecvStep]). vm_compute. reflexivity. Qed.

(** then the genuine shares arrive and another caller comes *)
Definition after_crashA : list Action := map Deliver msgsA ++ [Call 1 0].

Lemma callers_hang_after_recv_stops_witness :
  sc_recv crashA <> Running /\ count_puts 0 (log (sc_store crashA)) = 0%nat /\ pending 0 0 crashA /\
  CancelCaller 0 ∉ after_crashA /\
  exists s', run_actions cfgA after_crashA crashA = Some s' /\
    pending 0 0 s' /\ forall c' b, sc_callers s' !! c' <> Some (Returned 0 b).
Proof.
  assert (Hs : sc_recv crashA <> Running) by (vm_compute; discriminate).
  assert (H0 : count_puts 0 (log (sc_store crashA)) = 0%nat) by (vm_compute; reflexivity).
  assert (Hp : pending 0 0 crashA) by (left; vm_compute; reflexivity).
  assert (Hl : CancelCaller 0 ∉ after_crashA) by (unfold after_crashA; cbn; intros Hin; decompose_list_elem_of; discriminate).
  assert (Hr : run_actions cfgA after_crashA crashA = Some (default crashA (run_actions cfgA after_crashA crashA)))
    by (vm_compute; reflexivity).
  split_and!; [exact Hs|exact H0|exact Hp|exact Hl|].
  exists (default crashA (run_actions cfgA after_crashA crashA)). split; [exact Hr|].
  exact (callers_hang_after_recv_stops cfgA crashA _ 0 0 after_crashA cfgA_ok crashA_reachable Hs H0 Hp Hl Hr).
Defined.

(** caller 2 calls [get_coin(1)] once party A's round 0 is settled, and
    the shares of round 1 arrive from parties 1 and 3 *)
Definition msgs1 : list Incoming :=
  [(1, CoinMsg "COIN" 1 (share_of 1 1)); (3, CoinMsg "COIN" 1 (share_of 3 1))].


(** ** The loop of [run_common_coin]

    Party A runs two rounds of the loop: round 0 with the shares of 1
    and 2, round 1 with those of 1 and 3. *)
Definition loop_rounds : list (list Incoming) :=
  [[(1, CoinMsg "COIN" 0 (share_of 1 0)); (2, CoinMsg "COIN" 0 (share_of 2 0))]; msgs1].


(** the values the loop logs: party A's coins of rounds 0 and 1 *)
Example loop_rounds_coins :
  option_map (fun s => (sc_callers s !! 0%nat, sc_callers s !! 1%nat)) (run_actions cfgA (coin_loop 0 loop_rounds) sched_init)
  = Some (Some (Returned 0 (abstract_coin cfgA 0)), Some (Returned 1 (abstract_coin cfgA 1))).
Proof. vm_compute. reflexivity. Qed.

(** ** The network

    Four parties of session ["sidA"] with [f = 1], party [j]'s private key
    being [j]. In [netB], parties 0, 1 and 2 are honest and party 3 is
    faulty: it sends a forged share to 0 and 1 before anyone calls
    [get_coin(0)]. Parties 0 and 1 then receive the forged share and two
    genuine ones, and their calls return; party 2 has received nothing
    and still waits. *)
Definition toy_keys (j : Z) : ToySK := j.

Lemma toy_keys_ok j : 0 <= j < Z.of_nat 4 -> key_of toy_pk j (toy_keys j).
Proof. intros Hj. split; [done|]. simpl. lia. Qed.

Definition netB_schedule : list NetAction :=
  [NFaulty 3 0 (CoinMsg "COIN" 0 forged); NFaulty 3 1 (CoinMsg "COIN" 0 forged);
   NCall 0 0 0; NCall 1 0 0; NCall 2 0 0;
   NRecv 0 3; NRecv 0 0; NRecv 0 1; NLocal 0 RecvStep; NLocal 0 RecvStep; NLocal 0 RecvStep; NLocal 0 (Resume 0);
   NRecv 1 3; NRecv 1 2; NRecv 1 0; NLocal 1 RecvStep; NLocal 1 RecvStep; NLocal 1 RecvStep; NLocal 1 (Resume 0)].

Definition netB : Net :=
  default (net_init [0; 1; 2]) (net_run "sidA" 4 1 toy_pk toy_keys netB_schedule (net_init [0; 1; 2])).

Lemma netB_reachable : net_reachable "sidA" 4 1 toy_pk toy_keys [0; 1; 2] netB.
Proof. apply (net_run_star _ _ _ _ _ netB_schedule). vm_compute. reflexivity. Qed.

Definition nodeB (i : Z) : Sched := default sched_init (nodes netB !! i).

Example netB_party2_waits : sc_callers (nodeB 2) !! 0%nat = Some (Waiting 0).
Proof. vm_compute. reflexivity. Qed.

Lemma honest_agreement_witness :
  pk_k toy_pk = (1 + 1)%nat /\ pk_l toy_pk = 4%nat /\ net_reachable "sidA" 4 1 toy_pk toy_keys [0; 1; 2] netB /\
  nodes netB !! 0 = Some (nodeB 0) /\ nodes netB !! 1 = Some (nodeB 1) /\
  sc_callers (nodeB 0) !! 0%nat = Some (Returned 0 0) /\ sc_callers (nodeB 1) !! 0%nat = Some (Returned 0 0) /\
  0 = 0 /\ 0 = session_coin "sidA" toy_pk 0.
Proof.
  assert (H0 : nodes netB !! 0 = Some (nodeB 0)) by (vm_compute; reflexivity).
  assert (H1 : nodes netB !! 1 = Some (nodeB 1)) by (vm_compute; reflexivity).
  assert (C0 : sc_callers (nodeB 0) !! 0%nat = Some (Returned 0 0)) by (vm_compute; reflexivity).
  assert (C1 : sc_callers (nodeB 1) !! 0%nat = Some (Returned 0 0)) by (vm_compute; reflexivity).
  split; [reflexivity|]. split; [reflexivity|]. split; [exact netB_reachable|].
  split; [exact H0|]. split; [exact H1|]. split; [exact C0|]. split; [exact C1|].
  exact (honest_agreement "sidA" 4 1 toy_pk toy_keys [0; 1; 2] netB 0 1 (nodeB 0) (nodeB 1) 0 0 0 0 0
           eq_refl eq_refl netB_reachable H0 H1 C0 C1).
Defined.

(** parties 0, 1 and 2 are honest, party 3 is silent *)
Lemma honest_coin_liveness_witness :
  pk_k toy_pk = (1 + 1)%nat /\ pk_l toy_pk = 4%nat /\
  (forall j, 0 <= j < Z.of_nat 4 -> key_of toy_pk j (toy_keys j)) /\
  NoDup [0; 1; 2] /\ (forall j, j ∈ [0; 1; 2] -> 0 <= j < Z.of_nat 4) /\ (1 + 1 <= length [0; 1; 2])%nat /\ 0 <= 0 /\
  exists N', net_run "sidA" 4 1 toy_pk toy_keys (honest_round [0; 1; 2] 0) (net_init [0; 1; 2]) = Some N' /\
    forall i, i ∈ [0; 1; 2] ->
      exists x, nodes N' !! i = Some x /\ sc_callers x !! 0%nat = Some (Returned 0 (session_coin "sidA" toy_pk 0)).
Proof.
  assert (Hnd : NoDup [0; 1; 2]) by (repeat constructor; set_solver).
  assert (Hin : forall j, j ∈ [0; 1; 2] -> 0 <= j < Z.of_nat 4) by (intros j Hj; set_unfold; lia).
  split; [reflexivity|]. split; [reflexivity|]. split; [exact toy_keys_ok|]. split; [exact Hnd|]. split; [exact Hin|].
  split; [simpl; lia|]. split; [lia|].
  exact (honest_coin_liveness "sidA" 4 1 toy_pk toy_keys eq_refl eq_refl toy_keys_ok [0; 1; 2] 0 Hnd Hin ltac:(simpl; lia) ltac:(lia)).
Defined.

(** faulty party 3 sends party 0 a decodable share for round [-1] *)
Definition net0 : Net := net_init (Elem := N) [0; 1; 2].

Lemma faulty_share_halts_party_witness :
  pk_k toy_pk = (1 + 1)%nat /\ pk_l toy_pk = 4%nat /\ net_reachable "sidA" 4 1 toy_pk toy_keys [0; 1; 2] net0 /\
  nodes net0 !! 0 = Some (sched_init (Elem := N)) /\ sc_recv (sched_init (Elem := N)) = Running /\ sc_inbox (sched_init (Elem := N)) = [] /\
  count_puts 0 (log (sc_store (sched_init (Elem := N)))) = 0%nat /\ 0 <= 3 < Z.of_nat 4 /\ nodes net0 !! 3 = None /\
  chan (chans net0) 3 0 = [] /\ deserialize1 forged = Some 17%N /\ -1 < 0 /\
  exists N', net_run "sidA" 4 1 toy_pk toy_keys [NFaulty 3 0 (CoinMsg "COIN" (-1) forged); NRecv 0 3; NLocal 0 RecvStep]
               net0 = Some N' /\
    forall N'' y c b', star (net_step "sidA" 4 1 toy_pk toy_keys) N' N'' -> nodes N'' !! 0 = Some y ->
      sc_callers y !! c <> Some (Returned 0 b').
Proof.
  assert (HN : net_reachable "sidA" 4 1 toy_pk toy_keys [0; 1; 2] net0) by apply star_refl.
  assert (E0 : nodes net0 !! 0 = Some (sched_init (Elem := N))) by (vm_compute; reflexivity).
  assert (E3 : nodes net0 !! 3 = None) by (vm_compute; reflexivity).
  assert (Ec : chan (chans net0) 3 0 = []) by (vm_compute; reflexivity).
  assert (Ed : deserialize1 forged = Some 17%N) by (vm_compute; reflexivity).
  split; [reflexivity|]. split; [reflexivity|]. split; [exact HN|]. split; [exact E0|].
  split; [reflexivity|]. split; [reflexivity|]. split; [reflexivity|]. split; [lia|]. split; [exact E3|].
  split; [exact Ec|]. split; [exact Ed|]. split; [lia|].
  exact (faulty_share_halts_party "sidA" 4 1 toy_pk toy_keys [0; 1; 2] net0 0 3 (sched_init (Elem := N)) "COIN" (-1) forged 17%N 0
           eq_refl eq_refl HN E0 eq_refl eq_refl eq_refl ltac:(lia) E3 Ec Ed ltac:(lia)).
Defined.

(** honest party 1 calls [get_coin(-1)]; party 0 receives its share *)
Lemma honest_negative_round_halts_witness :
  nodes net0 !! 1 = Some (sched_init (Elem := N)) /\ sc_callers (sched_init (Elem := N)) !! 0%nat = None /\
  chan (chans net0) 1 0 = [] /\ nodes net0 !! 0 = Some (sched_init (Elem := N)) /\
  exists N', net_run "sidA" 4 1 toy_pk toy_keys [NCall 1 0 (-1); NRecv 0 1; NLocal 0 RecvStep] net0 = Some N' /\
    forall N'' z c b', star (net_step "sidA" 4 1 toy_pk toy_keys) N' N'' -> nodes N'' !! 0 = Some z ->
      sc_callers z !! c <> Some (Returned 0 b').
Proof.
  assert (HN : net_reachable "sidA" 4 1 toy_pk toy_keys [0; 1; 2] net0) by apply star_refl.
  assert (E0 : nodes net0 !! 0 = Some (sched_init (Elem := N))) by (vm_compute; reflexivity).
  assert (E1 : nodes net0 !! 1 = Some (sched_init (Elem := N))) by (vm_compute; reflexivity).
  assert (Ec : chan (chans net0) 1 0 = []) by (vm_compute; reflexivity).
  split; [exact E1|]. split; [reflexivity|]. split; [exact Ec|]. split; [exact E0|].
  exact (honest_negative_round_halts "sidA" 4 1 toy_pk toy_keys [0; 1; 2] net0 0 1 _ _ 0 (-1) 0
           eq_refl eq_refl toy_keys_ok HN ltac:(lia) ltac:(lia) E1 eq_refl Ec E0 eq_refl eq_refl eq_refl ltac:(lia) ltac:(lia)).
Defined.

(** tasks 0 and 1 of party 0 both call [get_coin(0)] *)
Lemma get_coin_rebroadcasts_witness :
  nodes net0 !! 0 = Some (sched_init (Elem := N)) /\ sc_callers (sched_init (Elem := N)) !! 0%nat = None /\
  sc_callers (sched_init (Elem := N)) !! 1%nat = None /\ 0%nat <> 1%nat /\
  exists N', net_run "sidA" 4 1 toy_pk toy_keys [NCall 0 0 0; NCall 0 1 0] net0 = Some N' /\
    forall i, 0 <= i < Z.of_nat 4 ->
      chan (chans N') 0 i = chan (chans net0) 0 i ++ [share_msg "sidA" 4 1 toy_pk toy_keys 0 0; share_msg "sidA" 4 1 toy_pk toy_keys 0 0].
Proof.
  assert (E0 : nodes net0 !! 0 = Some (sched_init (Elem := N))) by (vm_compute; reflexivity).
  split; [exact E0|]. split; [reflexivity|]. split; [reflexivity|]. split; [lia|].
  exact (get_coin_rebroadcasts "sidA" 4 1 toy_pk toy_keys net0 0 sched_init 0 1 0 E0 eq_refl eq_refl ltac:(lia)).
Defined.

(** ** The Shamir scheme

    The key of [f(t) = 42 + 7 t] over the field of order [101], with
    [k = 2] and [l = 4]: [VK = 42] and [VKs = [49; 56; 63; 70]]. *)
Module ShamirExample.
Import ShamirTBLS.

Lemma prime_101 : prime 101.
Proof. apply Lagrange.prime_check_sound. vm_compute. reflexivity. Qed.

Lemma dealt_101 : exists c, (length c <= 2)%nat /\ 42 = Lagrange.eval c 0 mod 101 /\
  forall i, 0 <= i < Z.of_nat 4 -> [49; 56; 63; 70] !! Z.to_nat i = Some (Lagrange.eval c (i + 1) mod 101).
Proof.
  exists [42; 7]. split_and!; [simpl; lia|reflexivity|].
  intros i Hi. assert (i = 0 \/ i = 1 \/ i = 2 \/ i = 3) as [-> | [-> | [-> | ->]]] by lia; reflexivity.
Qed.

Definition pkS : ShamirPK :=
  {| sh_p := 101; sh_k := 2; sh_l := 4; sh_vk := 42; sh_vks := [49; 56; 63; 70];
     sh_prime := prime_101; sh_bound := ltac:(lia); sh_parties := ltac:(simpl; lia); sh_dealt := dealt_101 |}.

(** the shares of parties 0 and 2, and of parties 1 and 3, on the digest [5] *)
Definition sharesS1 : list (Z * Z) := [(0, 5 * 49 mod 101); (2, 5 * 63 mod 101)].
Definition sharesS2 : list (Z * Z) := [(1, 5 * 56 mod 101); (3, 5 * 70 mod 101)].

Lemma shamir_any_k_shares_witness :
  NoDup (map fst sharesS1) /\ NoDup (map fst sharesS2) /\ length sharesS1 = sh_k pkS /\ length sharesS2 = sh_k pkS /\
  Forall (fun s => 0 <= s.1 < Z.of_nat (sh_l pkS) /\ verify_share pkS s.2 s.1 5 = true) sharesS1 /\
  Forall (fun s => 0 <= s.1 < Z.of_nat (sh_l pkS) /\ verify_share pkS s.2 s.1 5 = true) sharesS2 /\
  sh_combine pkS sharesS1 = sh_combine pkS sharesS2 /\ verify_signature pkS (sh_combine pkS sharesS1) 5 = true /\
  digest_bit (sh_combine pkS sharesS1) = digest_bit (sh_tsig pkS 5).
Proof.
  assert (N1 : NoDup (map fst sharesS1)) by (simpl; repeat constructor; set_solver).
  assert (N2 : NoDup (map fst sharesS2)) by (simpl; repeat constructor; set_solver).
  assert (F1 : Forall (fun s => 0 <= s.1 < Z.of_nat (sh_l pkS) /\ verify_share pkS s.2 s.1 5 = true) sharesS1)
    by (repeat constructor; simpl; try lia; vm_compute; reflexivity).
  assert (F2 : Forall (fun s => 0 <= s.1 < Z.of_nat (sh_l pkS) /\ verify_share pkS s.2 s.1 5 = true) sharesS2)
    by (repeat constructor; simpl; try lia; vm_compute; reflexivity).
  split; [exact N1|]. split; [exact N2|]. split; [reflexivity|]. split; [reflexivity|].
  split; [exact F1|]. split; [exact F2|].
  exact (shamir_any_k_shares pkS 5 sharesS1 sharesS2 N1 N2 eq_refl eq_refl F1 F2).
Defined.

(** the combination is [5 * 42 mod 101], computed through the inverses *)
Example sharesS1_combine : sh_combine pkS sharesS1 = 5 * 42 mod 101.
Proof. vm_compute. reflexivity. Qed.

(** three honest parties of four, the Shamir key, and SHA-256 itself:
    everyone's [get_coin(0)] returns [1], the session's coin *)
Definition runS : option Net :=
  @net_run _ _ _ _ _ Fips.fips_sha256 "sidA" 4 1 pkS (deal pkS) (honest_round [0; 1; 2] 0) (net_init [0; 1; 2]).

Example runS_coins :
  option_map (fun N => ((sc_callers <$> nodes N) !! 0, (sc_callers <$> nodes N) !! 1, (sc_callers <$> nodes N) !! 2)) runS
  = Some (Some {[0%nat := Returned 0 1]}, Some {[0%nat := Returned 0 1]}, Some {[0%nat := Returned 0 1]}) /\
  @session_coin _ _ _ _ _ _ Fips.fips_sha256 "sidA" pkS 0 = 1.
Proof. split; vm_compute; reflexivity. Qed.

End ShamirExample.

(** ** SHA-256 *)

Lemma be_codec_roundtrip_witness :
  0 <= 0xdeadbeef < 2 ^ (8 * Z.of_nat 4) /\ Fips.be_value (Fips.be_bytes 4 0xdeadbeef) = 0xdeadbeef.
Proof.
  assert (Hx : 0 <= 0xdeadbeef < 2 ^ (8 * Z.of_nat 4)) by (split; vm_compute; [discriminate|reflexivity]).
  split; [exact Hx|exact (proj1 (Fips.be_codec_roundtrip 4 0xdeadbeef []) Hx)].
Defined.

Lemma rotr_rotates_witness :
  0 < 7 < 32 /\ 0 <= 0x80000001 < 2 ^ 32 /\ 0 <= Fips.rotr 7 0x80000001 < 2 ^ 32.
Proof.
  assert (Hn : 0 < 7 < 32) by lia. assert (Hx : 0 <= 0x80000001 < 2 ^ 32) by (split; vm_compute; [discriminate|reflexivity]).
  split; [exact Hn|split; [exact Hx|exact (proj1 (Fips.rotr_rotates 7 0x80000001 Hn Hx))]].
Defined.

(** party A's round-0 coin when [hash] is SHA-256 itself *)
Example abstract_coin_fips : @abstract_coin _ _ _ _ _ _ Fips.fips_sha256 cfgA 0 = 1.
Proof. vm_compute. reflexivity. Qed.

(** ** The [__main__] block *)

Module MainExample.
Import MainBlock.

Definition peers_ex : Dict := [("0", JStr "localhost:7000"); ("1", JStr "10.0.0.2:7001:x")].
Definition info_ex : gmap Z NodeDetails :=
  {[0 := {| ip := "localhost"; port := 7000 |}; 1 := {| ip := "10.0.0.2"; port := 7001 |}]}.

Lemma network_info_nodes_witness :
  network_info peers_ex = inr info_ex /\ info_ex !! 1 = Some {| ip := "10.0.0.2"; port := 7001 |} /\
  exists peerid a p tail, (peerid, JStr a) ∈ peers_ex /\ py_int peerid = Some 1 /\
    a = ("10.0.0.2" ++ String.String ":" (p ++ tail))%string /\ no_char ":"%char "10.0.0.2" /\ no_char ":"%char p /\
    py_int p = Some 7001 /\ (tail = String.EmptyString \/ exists t, tail = String.String ":" t).
Proof.
  assert (Hb : network_info peers_ex = inr info_ex) by (vm_compute; reflexivity).
  assert (Hl : info_ex !! 1 = Some {| ip := "10.0.0.2"; port := 7001 |}) by (vm_compute; reflexivity).
  split; [exact Hb|split; [exact Hl|exact (network_info_nodes peers_ex info_ex 1 _ Hb Hl)]].
Defined.

(** two peer ids that [int()] reads alike: the later entry is kept *)
Example network_info_same_id :
  network_info [("1", JStr "a:1"); (" 01", JStr "b:2")] = inr {[1 := {| ip := "b"; port := 2 |}]}.
Proof. vm_compute. reflexivity. Qed.

(** no argument and an empty environment: the node id check fires first *)
Example main_args_no_settings :
  main_args (PKey := unit) (SKey := unit) (fun _ => raise ValueError) (fun _ => mret tt) (fun _ => mret tt) ∅ ["commoncoin.py"]
  = inl (ConfigurationError msg_node_id).
Proof. reflexivity. Qed.

(** [HBMPC_PV_KEY] unset while [sys.argv] gives the other three: the
    message asks for a config file as first argument *)
Example main_args_missing_pv_key :
  main_args (PKey := unit) (SKey := unit) (fun _ => raise ValueError) (fun _ => mret tt) (fun _ => mret tt) ∅ ["commoncoin.py"; "1"; "hbmpc.toml"; "pbk"]
  = inl (ConfigurationError "Environment variable `HBMPC_PV_KEY` must be set or a config file must be given as first argument.").
Proof. reflexivity. Qed.

End MainExample.
