(* ===== verification/ExamplesRun.v ===== *)
(** * Concrete runs of [run_common_coin] under the event loop

    Party A of [Examples] ([pid] 0, [n = 4], [f = 1], the toy threshold
    key) runs the [__main__] block's event loop with [run_common_coin],
    the global [t = 1] and the peers of [Examples.MainExample]. During
    each [await coin(i)] the network delivers the shares of parties 1
    and 2 for round [i]; the run logs the ten abstract coins. With
    [t] the string ["1"] instead of an integer, [f + 1] raises
    [TypeError] in [shared_coin] and the exception escapes after the
    loop is closed. Imported as a module, the function raises
    [NameError]. With a key of threshold [k = 0] and [t = -1] the
    asserts pass and the program never ends. *)

From S2P Require Import Prelude ThresholdSig PyRepr MainConfig CoinEngine CoinSpec Scheduler Runner RunCommonCoin MainProgram Examples.
From ITree Require Import ITree ITreeFacts Events.State Events.StateFacts.
From Stdlib Require Import Lia.
Import ToyTBLS.

(** round [r]'s messages: the shares of parties 1 and 2 *)
Definition round_msgs (r : nat) : list Incoming :=
  [(1, CoinMsg "COIN" (Z.of_nat r) (share_of 1 (Z.of_nat r))); (2, CoinMsg "COIN" (Z.of_nat r) (share_of 2 (Z.of_nat r)))].

Definition rounds10 : list (list Incoming) := List.map round_msgs (seq 0 10).

Definition runA0 : RunSt (PK := ToyPK) (SK := ToySK) (Elem := N) := mkRunSt None (sched_init (Elem := N)) rounds10 0 false.

(** the configuration file: four parties, [t = 1], [k = 2] and the peers
    of [MainExample] *)
Definition config_ex : MainBlock.Dict :=
  [("N", MainBlock.JInt 4); ("t", MainBlock.JInt 1); ("k", MainBlock.JInt 2); ("peers", MainBlock.JDict MainExample.peers_ex)].

(** [python commoncoin.py 0 hbmpc.toml pbk pvk] with no environment *)
Definition argv_ex : list string := ["commoncoin.py"; "0"; "hbmpc.toml"; "pbk"; "pvk"]%string.

Definition load_config_ex (d : MainBlock.Dict) (cf : string) : MainBlock.PyRes MainBlock.Dict :=
  if String.eqb cf "hbmpc.toml" then inr d else inl (KeyError cf).

Definition args_ex : MainBlock.MainArgs ToyPK ToySK :=
  {| MainBlock.ma_config := MainExample.info_ex; MainBlock.ma_pbk := toy_pk; MainBlock.ma_pvk := 0;
     MainBlock.ma_n := MainBlock.JInt 4; MainBlock.ma_t := MainBlock.JInt 1; MainBlock.ma_nodeid := 0 |}.


(** the same configuration without [k] *)
Definition config_no_k : MainBlock.Dict :=
  [("N", MainBlock.JInt 4); ("t", MainBlock.JInt 1); ("peers", MainBlock.JDict MainExample.peers_ex)].

Lemma main_program_missing_k_witness :
  MainBlock.first_unset (MainBlock.argv_override argv_ex (MainBlock.from_env ∅)) = None /\
  MainBlock.configfile (MainBlock.argv_override argv_ex (MainBlock.from_env ∅)) = Some "hbmpc.toml"%string /\
  load_config_ex config_no_k "hbmpc.toml" = inr config_no_k /\
  ("N"%string ∈ config_no_k.*1) /\ ("t"%string ∈ config_no_k.*1) /\ ("k"%string ∉ config_no_k.*1) /\
  eutt eq (interp_state (h_run (Elem := N))
             (main_program (load_config_ex config_no_k) (fun _ => inr toy_pk) (fun _ => inr (0 : ToySK)) ∅ argv_ex) runA0)
    (Ret (runA0, Raise (KeyError "k"))).
Proof.
  assert (HN : "N"%string ∈ config_no_k.*1) by (cbn; left).
  assert (Ht : "t"%string ∈ config_no_k.*1) by (cbn; right; left).
  assert (Hk : "k"%string ∉ config_no_k.*1) by (cbn; intros Hin; decompose_list_elem_of; discriminate).
  split_and!; [reflexivity|reflexivity|reflexivity|exact HN|exact Ht|exact Hk|].
  exact (main_program_missing_k (load_config_ex config_no_k) (fun _ => inr toy_pk) (fun _ => inr 0) ∅ argv_ex
           "hbmpc.toml" config_no_k runA0 eq_refl eq_refl eq_refl HN Ht Hk).
Defined.

(** the ten rounds of the run: in each, party 0 sends its share to the
    four parties, then logs the coin *)
Example runA0_log :
  coin_rounds (run_cfg toy_pk 0 4 1 0) 0 =
  List.flat_map (fun '(j, line) => broadcast_events 4 (own_share (run_cfg toy_pk 0 4 1 0) (Z.of_nat j)) ++ [IOLog line])
    (zip (seq 0 10) ["0 COIN VALUE: 0"; "1 COIN VALUE: 0"; "2 COIN VALUE: 0"; "3 COIN VALUE: 1"; "4 COIN VALUE: 1";
                     "5 COIN VALUE: 1"; "6 COIN VALUE: 1"; "7 COIN VALUE: 1"; "8 COIN VALUE: 1"; "9 COIN VALUE: 1"]%string).
Proof. vm_compute. reflexivity. Qed.

(** a configuration whose [t] is the string ["1"]: [f + 1] raises
    [TypeError] *)
Lemma main_loop_shared_coin_error_witness :
  shared_coin_check toy_pk (py_nat 4) (MainBlock.JStr "1") = Raise TypeError /\
  eutt eq (interp_state h_run (main_loop (run_common_coin (main_globals (MainBlock.JStr "1")) MainExample.info_ex
                                            toy_pk 0 (py_nat 4) (MainBlock.JStr "1") 0)) runA0)
    (ITree.bind (emits [IONewLoop; IOSetDebug; IONewRunner MainExample.info_ex (py_nat 4) (MainBlock.JStr "1") 0;
                        IOConnect; IOSendRecv "coin"; IOCloseLoop])
       (fun _ => Ret (runA0, Raise TypeError))).
Proof.
  split; [reflexivity|].
  exact (main_loop_shared_coin_error (MainBlock.JStr "1") MainExample.info_ex toy_pk 0 (py_nat 4) (MainBlock.JStr "1") 0
           TypeError runA0 eq_refl).
Defined.

(** [commoncoin] imported as a module: [run_common_coin] stops at line 103 *)
Lemma run_common_coin_name_error_witness :
  glob_t {| runner_imported := false; glob_t := None |} = None /\
  eutt eq (interp_state (h_run (Elem := N)) (run_common_coin {| runner_imported := false; glob_t := None |} ∅ toy_pk 0 (py_nat 4) (py_nat 1) 0) runA0)
    (Ret (runA0, Raise (NameError "ProcessProgramRunner"))).
Proof.
  split; [reflexivity|].
  exact (run_common_coin_name_error {| runner_imported := false; glob_t := None |} ∅ toy_pk 0 (py_nat 4) (py_nat 1) 0 runA0 eq_refl).
Defined.

